(* ===== verification/_CoqProject ===== *)
-Q . S2P
Prelude.v
Felt.v
Crypto.v
Serde.v
Types.v
AccountId.v
Seed.v
Assets.v
TokenSymbol.v
VaultDelta.v
Vault.v
DeltaAssets.v
StorageDelta.v
Storage.v
Code.v
Account.v
Builder.v
NoteMeta.v
NoteContents.v
Notes.v
Ids.v
StdLib.v
TxOutputs.v
Merkle.v
Chain.v
TxInputs.v
Equality.v
TxArgs.v
Memory.v
Kernel.v
Blocks.v
TxTracker.v
TxHost.v
TxProven.v
TxExec.v
KernelErrors.v
LibBuild.v
Proxy.v
Config.v
Remote.v
MockChain.v
TxContext.v
Lifecycle.v
Assembly.v
Testing.v
MockNotes.v
Messages.v
Bench.v
