(* ===== verification/Prelude.v ===== *)
(** * The Miden rollup: accounts, notes, transactions and blocks

    This library models the Rust code of miden-base and proves the properties
    that the rest of the system relies on. An account holds assets in a vault,
    words and maps in its storage, and code assembled from components. Assets
    travel between accounts in notes. A transaction runs in the Miden VM against
    one account: it consumes notes, creates notes and changes the account by a
    delta. Its host records the delta and the created notes while the kernel
    runs; executor, prover and verifier put inputs, host and VM together; blocks
    collect the proven transactions and the tree of their notes. Around this core
    stand a proving service with a load balancer, the build scripts that generate
    tables of the kernel, and a mock chain on which the tests run transactions.

    ** The parts and the files that model them

    Shared:

    - Prelude: outcomes of Rust functions ([res]: [Ok], [Err] or a panic),
      methods on [&mut self] ([mut]: an outcome and the receiver as the method
      leaves it), loops with early return ([for_each]), machine integers,
      iteration of ordered maps, and the lemmas the components share.
    - Felt: field elements and words (class [FeltApi], from winter-math); the
      instance [Goldilocks] runs the witnesses.
    - Crypto: the hash function ([HasherApi]), the order on digests
      ([DigestOrd]) and the sparse Merkle tree as a key-value map ([SmtApi]),
      all from miden-crypto.
    - Serde: byte readers and writers (class [ByteIO], from winter-utils), the
      traits [Serializable] and [Deserializable], and [SerdeLaws], what a
      component promises about its format: values read back and the size hint
      is exact.
    - Types: the data types several components share (accounts/account_id.rs,
      assets, errors.rs).

    The crate miden-objects, under src/objects/src:

    - AccountId: accounts/account_id.rs and seed.rs. Ids carry their storage
      mode and account type in the top bits and are found by a search over
      hashed seeds.
    - Seed: the search of accounts/seed.rs with several threads, and its log.
    - Assets: assets/fungible.rs, nonfungible.rs and mod.rs.
    - TokenSymbol: assets/token_symbol.rs.
    - VaultDelta and Vault: accounts/delta/vault.rs and assets/vault.rs.
    - DeltaAssets: a vault delta as lists of added and removed assets.
    - StorageDelta and Storage: accounts/delta/storage.rs and
      accounts/storage/ (slots, maps, headers).
    - Code: accounts/code/, accounts/component/ and the construction of code
      and storage from components.
    - Account: accounts/mod.rs, header.rs, delta/mod.rs, builder/mod.rs, auth.rs
      and data.rs.
    - Builder: what the testing feature adds to the builder, and account files.
    - NoteMeta: notes/note_type.rs, note_tag.rs, execution_hint.rs, metadata.rs.
    - NoteContents: notes/inputs.rs and assets.rs.
    - Notes: notes/script.rs, recipient.rs, note_id.rs, nullifier.rs, header.rs,
      details.rs, partial.rs, location.rs, file.rs and mod.rs.
    - Ids: text and byte forms of note ids, nullifiers, transaction ids and note
      headers, and the names of storage modes.
    - TxOutputs, TxInputs, TxArgs: transaction/outputs.rs, inputs.rs and
      tx_args.rs.
    - Equality: the comparisons that are written by hand.
    - Merkle: Merkle paths, the simple Merkle tree and the MMR of miden-crypto,
      as parameters.
    - Chain: block/header.rs and transaction/chain_mmr.rs.
    - Blocks: block/mod.rs, block/note_tree.rs and batches/note_tree.rs.
    - TxProven: transaction/proven_tx.rs, executed_tx.rs, tx_witness.rs and
      transaction_id.rs.
    - Testing: testing/, the ids, builders, mock accounts, notes and headers that
      the tests of all crates share.
    - Messages: the texts of errors.rs, of the event errors of miden-lib and of
      account ids.

    The crate miden-lib, under src/miden-lib/src:

    - StdLib: accounts/ (wallets, faucets, authentication) and notes/ (P2ID,
      P2IDR and SWAP notes).
    - Memory: transaction/memory.rs, the memory layout of the kernel.
    - Kernel: transaction/mod.rs, inputs.rs, outputs.rs, procedures/, events.rs
      and errors.rs, the inputs that the kernel reads and the outputs it leaves.
    - Assembly: the kernel, the library and the assemblers (transaction/mod.rs,
      lib.rs), with the code of miden-objects that compiles components and
      assembles account code.
    - LibBuild: build.rs, which copies and compiles the assembly sources and
      writes the table of kernel procedures.

    The crate miden-tx, under src/miden-tx/src:

    - TxTracker: host/account_delta_tracker.rs, tx_progress.rs and
      account_procs.rs.
    - TxHost: host/mod.rs and note_builder.rs, the handlers of kernel events.
    - TxExec: executor/, prover/, verifier/ and auth/, errors/.
    - KernelErrors: errors/tx_kernel_errors.rs and build.rs, which generates it.
    - MockChain: testing/mock_chain.rs, the chain of the tests.
    - TxContext, MockNotes: testing/tx_context/, the contexts in which the tests
      run transactions, and the accounts and notes that are made up for them.
    - Lifecycle: a transaction from the context to the block, the composition of
      MockChain, TxContext and TxExec.

    The programs, under src/bin:

    - Proxy: tx-prover/src/proxy/, the load balancer, whose handlers run
      concurrently on shared queues.
    - Remote: tx-prover/src/api/, prover.rs and lib.rs, workers and their clients.
    - Config: tx-prover/src/commands/ and utils.rs.
    - Bench: bench-tx/, the benchmarks of two transactions.

    A record models a struct, an inductive type an enum, and one definition each
    operation, with the source's name where it is free and otherwise with the
    type's name in front. A method that mutates its receiver and can fail half
    way keeps the changes it has made, as the code does. A [debug_assert!] or an
    arithmetic overflow that only some builds check is modelled with a boolean
    that says whether the check is compiled in.

    Components meet at classes: a component that needs code from another crate or
    a promise of another component takes the class as its context, and the files
    that implement it give the instance, as [SerdeLaws] for every format that is
    read back. Traits with one method are functions: the data store of the executor
    is one, which the transaction context implements.

    ** What the theorems show

    - End to end: under the hypothesis of a VM run in which the kernel reports what
      it does ([kernel_outcome], see below), and for accepted inputs whose code is in
      the advice map, [execution_complete] and [proof_complete] say how executing
      and proving end. Execution returns the outputs of the run and a delta that
      gives the final account up to its code and vault entries of amount zero, or it
      panics after a run that wrote to the account without a new nonce. Proving gives
      a proven transaction that verifies, or fails in one of three ways: the details
      of a public account are too large, a new public account ends with another hash
      than its delta gives, or the same panic.
    - Host: for the events of operations that succeed on the account, the recorded
      delta applied to the initial account gives the account that the kernel reached,
      up to the code, which is not tracked ([code_update_untracked]), and vault
      entries of amount zero ([zero_assets_untracked]), unless events were recorded
      and the nonce stayed the same ([host_delta_sound], [noop_map_write_panics]);
      output notes come out in order and with their contents
      ([output_notes_in_order], [output_note_reconstructed]).
    - Kernel inputs and outputs: preparing an accepted transaction panics only for a
      note of 128 inputs in debug builds, and the advice has the documented entries,
      where of several entries under one key the last one counts and arguments count
      more ([prepare_inputs_complete], [expected_notes_mapped]); output stacks and
      final account headers read back; the memory regions do not overlap.
    - Blocks: every note of a block is authenticated by a path of its note tree
      ([block_notes_authenticated]); headers and transaction ids bind their
      content, unless the inputs that were hashed for the two headers or ids
      contain a collision ([block_header_binds], [tx_id_binds]).
    - Checks: transaction inputs, proven transactions and blocks are accepted
      under exactly the documented conditions ([tx_inputs_new_spec],
      [proven_build_spec], [block_new_spec]).
    - Deltas: when two deltas apply in a row, so does their merge, with the same
      result for storage ([storage_apply_merge], in both directions), and with the
      same balances and assets for vaults ([vault_apply_merge]) and whole accounts
      ([account_apply_merge]); the commitments are the same unless an amount is zero
      ([zero_deltas_differ]); merges of vault
      deltas commute, merges of updates associate, and applying a delta keeps
      accounts well formed and the nonce growing.
    - The vault refines a bank, an abstract map of balances and a set of
      non-fungible assets ([vault_refines_bank]): every operation succeeds
      exactly when the bank's does.
    - Components: every procedure of an account can reach exactly the storage
      slots of its own component ([components_isolated]), and building code and
      storage never panics.
    - Accounts: the builder is sound and returns once the seed search can
      ([build_sound]); standard faucets and wallets have the documented storage
      ([faucet_layout], [wallet_layout]); the top bits of an id agree with its
      accessors.
    - Notes: ids and nullifiers bind a note's content up to the padding of its
      inputs, unless the inputs that were hashed for the two notes contain a
      collision ([note_digests_bind], [note_id_not_unique]); assets added to a note add up; tags and hints are
      laid out as documented; the inputs of a swap note determine the payback
      note ([swap_pays_back]).
    - Round trips: words, bytes, hexadecimal strings and field elements of all
      the types read back; so do ids ([ids_roundtrip]) and account files
      ([account_file_roundtrip]), and the assets of a vault delta give the delta
      ([vault_delta_of_assets]).
    - Seed search: in every interleaving of the threads a seed that is returned is
      valid ([seed_search_sound]); in every fair one the search ends once a chain
      has a match in reach ([seed_search_ends]), and when all threads fail the main
      thread waits for ever ([seed_search_hangs]).
    - Chain: a mock chain whose blocks are numbered consecutively is consistent, and
      one with a skipped number gives no more inputs ([mock_chain_consistent],
      [skipped_number_stalls]). The other theorems are about the former: inputs are
      assembled exactly when the chain has what they need ([mock_inputs_spec]); a
      transaction that is added is in the next block with its nullifiers and its full
      notes, if the block is within its limits ([transaction_included]). Contexts are
      built from inputs that fit ([context_build_spec]), and a transaction that one
      executes ends up in a sealed block ([transaction_lifecycle]).
    - Proving service: in every interleaving a worker serves one request at a time
      ([worker_serves_one], [worker_exclusive]), in every fair one every request
      that is in flight ends, with an answer or a crash ([every_request_ends]), and proving with a worker gives what
      the local prover gives ([remote_prove_is_local]).
    - Build scripts: the generated tables list each procedure of the kernel at its
      index ([kernel_procedures_table]) and each error with its message
      ([kernel_error_constants_spec], [kernel_table_regenerated]); the sources are
      copied completely ([copy_directory_copies]).
    - Code: the assembler of the tests is that of transactions with one library
      more ([testing_assembler_extends]); code from components and from bytes is what
      it was built from ([code_from_components_initialize],
      [code_from_bytes_roundtrip]).
    - Test data is what its names say ([testing_ids_valid], [account_mock_spec],
      [vault_mock_spec], [note_builder_spec], [header_mock_spec]), and the mock
      notes balance as theirs say ([mock_notes_balance]).
    - Texts of the errors of blocks and proven transactions determine the error
      ([block_error_text_inj], [proven_error_text_inj]); the results of the
      benchmarks are written completely ([bench_results_written]).
    - Bounds and errors: where machine arithmetic overflows or an [expect] can
      fail, theorems say for exactly which inputs
      ([vault_apply_delta_min_panics], [on_block_slot_overflow],
      [noop_map_write_panics], [rejected_requests_panic], [mock_chain_mmr_panics],
      [repeated_p2id_note_panics]).

    ** Bounds and fuel

    Integers are [Z] with their width written out. Two loops have fuel. The search
    for a seed on one thread ([seed_loop]) runs until a digest matches: the
    theorems [get_account_seed_terminates] and [build_sound] show that it ends
    within [n + 1] steps when the [n]-th digest of the chain matches. The functions
    that search (the builder, also for tests, dummy ids, mock accounts and seeds)
    pass the same fuel on and return nothing when it runs out. The loop that
    copies directories ([copy_loop]) ends when the fuel exceeds the number of
    entries of the file system ([copy_directory_copies]). Counting the digits of a
    64-bit value ([hex_digits_from]) takes at most the 16 rounds that it is given.
    Concurrent code is a step relation on worlds; its liveness theorems are about
    infinite fair schedules and need no fuel. All other loops recurse on their
    data.

    ** What is not modelled

    Third-party code is a parameter, each class with a concrete instance on which
    the witnesses run: field, hash and Merkle structures with the range of all
    blocks, the assembler, the VM with its advice provider, the proof system, the
    signature scheme, random number generators, regular expressions and the walk
    over directories, TOML and JSON, the transport of messages and the framework
    of the proxy. The file system is a map from paths to contents.

    Left out are:

    - the transaction kernel in Miden assembly: it is not Rust and runs in the VM.
      What it documents are hypotheses: [kernel_run] has the events of operations
      that succeed on the account, with any amounts, and changes of the code, which
      emit no event; [kernel_outcome] adds the stack, the final account in the
      advice map, the output notes, and that the nonce does not become smaller;
    - what the advice provider does with the calls that the host passes on to it (all
      but the request for a signature): it may change in any way;
    - the framework of the proxy: [run_request] calls the handlers in the order that
      the documentation of the proxy gives, and a connection that was established is
      not retried;
    - the code that protobuf generates for the proving service, except for its two
      messages, and the script that runs the generator;
    - the code runner of the tests (testing/executor.rs and utils.rs in miden-tx)
      and running arbitrary code in a context, which return a process of the VM;
    - texts that only wrap derived Debug output or pass on the text of another
      error, pretty-printing of code, and the set-up of tracing;
    - accessors that return a field, which are the projections of the records.

    ** Possible extensions

    The remaining texts of errors could be modelled as in Messages. A model of the
    kernel itself would turn the hypotheses of [execution_complete] about the run
    into theorems; it needs a semantics of Miden assembly first. *)

From Stdlib Require Export ZArith Lia.
From stdpp Require Export prelude gmap sorting.

#[export] Set Default Goal Selector "!".
Open Scope Z_scope.

(** ** Outcomes of Rust functions

    A function that returns [Result<A, E>] either returns [Ok], returns [Err],
    or panics (an [expect] or an [assert!] that fails). *)

Inductive res (E A : Type) : Type :=
  | Ok (a : A)
  | Err (e : E)
  | Panic.
Arguments Ok {_ _} _.
Arguments Err {_ _} _.
Arguments Panic {_ _}.

#[export] Instance res_eq_dec {E A} `{!EqDecision E, !EqDecision A} : EqDecision (res E A).
Proof. solve_decision. Defined.

#[export] Instance res_ret {E} : MRet (res E) := λ _ a, Ok a.
#[export] Instance res_bind {E} : MBind (res E) := λ _ _ f m,
  match m with Ok a => f a | Err e => Err e | Panic => Panic end.
#[export] Instance res_fmap {E} : FMap (res E) := λ _ _ f m,
  match m with Ok a => Ok (f a) | Err e => Err e | Panic => Panic end.
Arguments res_bind _ _ _ _ !_ /.
Arguments res_fmap _ _ _ _ !_ /.

(** [Result::map_err], [Option::ok_or], and [expect] on an option or a result. *)
Definition map_err {E E' A} (f : E → E') (m : res E A) : res E' A :=
  match m with Ok a => Ok a | Err e => Err (f e) | Panic => Panic end.
Definition ok_or {E A} (e : E) (o : option A) : res E A :=
  match o with Some a => Ok a | None => Err e end.
Definition expect_some {E A} (o : option A) : res E A :=
  match o with Some a => Ok a | None => Panic end.
Definition expect_ok {E E' A} (m : res E A) : res E' A :=
  match m with Ok a => Ok a | _ => Panic end.
Arguments map_err {_ _ _} _ !_ /.
Arguments ok_or {_ _} _ !_ /.
Arguments expect_some {_ _} !_ /.
Arguments expect_ok {_ _ _} !_ /.

Lemma res_bind_Ok {E X Y} (m : res E X) (f : X → res E Y) x : m = Ok x → m ≫= f = f x.
Proof. by intros ->. Qed.

Lemma res_bind_inv {E X Y} (m : res E X) (f : X → res E Y) y : m ≫= f = Ok y → ∃ x, m = Ok x ∧ f x = Ok y.
Proof. destruct m as [x|e|]; [|discriminate..]. intros Hf. by exists x. Qed.
Lemma ok_or_inv {E A} (e : E) o (a : A) : ok_or e o = Ok a → o = Some a.
Proof. destruct o; cbn; congruence. Qed.
Lemma expect_some_inv {E A} o (a : A) : expect_some (E:=E) o = Ok a → o = Some a.
Proof. destruct o; cbn; congruence. Qed.
Lemma map_err_inv {E E' A} (f : E → E') m (a : A) : map_err f m = Ok a → m = Ok a.
Proof. destruct m; cbn; congruence. Qed.

Definition is_ok {E A} (m : res E A) : bool :=
  match m with Ok _ => true | _ => false end.

(** ** Methods on [&mut self]

    [mut S E A] is the meaning of a method that mutates its receiver: it
    returns an outcome together with the receiver as the method leaves it. A
    method that fails half way leaves the updates it has already made. *)

Definition mut (S E A : Type) : Type := S → res E A * S.

#[export] Instance mut_ret {S E} : MRet (mut S E) := λ _ a s, (Ok a, s).
#[export] Instance mut_bind {S E} : MBind (mut S E) := λ _ _ f m s,
  match m s with
  | (Ok a, s') => f a s'
  | (Err e, s') => (Err e, s')
  | (Panic, s') => (Panic, s')
  end.

Definition lift {S E A} (m : res E A) : mut S E A := λ s, (m, s).
Definition get_self {S E} : mut S E S := λ s, (Ok s, s).
Definition put_self {S E} (s : S) : mut S E unit := λ _, (Ok tt, s).
Definition mut_map_err {S E E' A} (f : E → E') (m : mut S E A) : mut S E' A :=
  λ s, let '(r, s') := m s in (map_err f r, s').

(** Calling a method on a field of the receiver. *)
Definition on_field {S T E A} (get : S → T) (set : T → S → S) (m : mut T E A) : mut S E A :=
  λ s, let '(r, t) := m (get s) in (r, set t s).

(** A [for] loop whose body may return early through the question mark. *)
Fixpoint for_each {S E X} (l : list X) (body : X → mut S E unit) : mut S E unit :=
  match l with
  | [] => mret tt
  | x :: l' => body x ;; for_each l' body
  end.

(** [if cond { return Err(e) }]. *)
Definition fail_if {E} (cond : bool) (e : E) : res E unit :=
  if cond then Err e else Ok tt.

(** ** Machine integers

    A [uN] or [iN] value is a [Z] in its range; the arithmetic of the standard
    library is written out on it. *)

Definition U8_MAX : Z := 2 ^ 8 - 1.
Definition U16_MAX : Z := 2 ^ 16 - 1.
Definition U32_MAX : Z := 2 ^ 32 - 1.
Definition U64_MAX : Z := 2 ^ 64 - 1.
Definition I64_MIN : Z := - 2 ^ 63.
Definition I64_MAX : Z := 2 ^ 63 - 1.

Definition in_u8 (z : Z) : bool := (0 <=? z) && (z <=? U8_MAX).
Definition in_u32 (z : Z) : bool := (0 <=? z) && (z <=? U32_MAX).
Definition in_u64 (z : Z) : bool := (0 <=? z) && (z <=? U64_MAX).
Definition in_i64 (z : Z) : bool := (I64_MIN <=? z) && (z <=? I64_MAX).

Definition u64_checked_add (a b : Z) : option Z :=
  if a + b <=? U64_MAX then Some (a + b) else None.
Definition u64_checked_sub (a b : Z) : option Z :=
  if b <=? a then Some (a - b) else None.
Definition i64_checked_add (a b : Z) : option Z :=
  if in_i64 (a + b) then Some (a + b) else None.

(** [u64 as i64], [i64 as u64], [i64::unsigned_abs], and the narrowing [as]
    casts of unsigned integers. *)
Definition u64_as_i64 (z : Z) : Z := if z <=? I64_MAX then z else z - 2 ^ 64.
Definition i64_as_u64 (z : Z) : Z := z mod 2 ^ 64.
Definition unsigned_abs (z : Z) : Z := Z.abs z.
Definition as_u8 (z : Z) : Z := z mod 2 ^ 8.
Definition as_u16 (z : Z) : Z := z mod 2 ^ 16.
Definition as_u32 (z : Z) : Z := z mod 2 ^ 32.

(** [TryInto] between integer types: [None] for a value out of range. *)
Definition u64_try_into_i64 (z : Z) : option Z := if z <=? I64_MAX then Some z else None.
Definition try_into_u32 (z : Z) : option Z := if in_u32 z then Some z else None.
Definition try_into_u8 (z : Z) : option Z := if in_u8 z then Some z else None.

Lemma try_into_u8_small z : 0 ≤ z ≤ 255 → try_into_u8 z = Some z.
Proof. intros Hz. unfold try_into_u8, in_u8, U8_MAX. destruct (_ && _) eqn:E; [done|lia]. Qed.

Lemma in_u32_small z : 0 ≤ z < 2 ^ 32 → in_u32 z = true.
Proof. unfold in_u32, U32_MAX. intros. apply andb_true_iff. lia. Qed.

Lemma try_into_u32_small z : 0 ≤ z < 2 ^ 32 → try_into_u32 z = Some z.
Proof. intros Hz. unfold try_into_u32. by rewrite in_u32_small. Qed.

(** [count_ones] and [trailing_zeros] of a [u64]. *)
Fixpoint count_ones_upto (n : nat) (z : Z) : Z :=
  match n with
  | O => 0
  | S n' => count_ones_upto n' z + Z.b2z (Z.testbit z (Z.of_nat n'))
  end.
Definition count_ones (z : Z) : Z := count_ones_upto 64 z.
Arguments count_ones : simpl never.

Fixpoint trailing_zeros_from (n : nat) (z : Z) : Z :=
  match n with
  | O => 0
  | S n' => if Z.testbit z 0 then 0 else 1 + trailing_zeros_from n' (Z.shiftr z 1)
  end.
Definition trailing_zeros (z : Z) : Z := trailing_zeros_from 64 z.
Arguments trailing_zeros : simpl never.

(** [u64::to_le_bytes] and [u64::from_le_bytes] at [n] bytes. *)
Fixpoint to_le_bytes (n : nat) (z : Z) : list Z :=
  match n with
  | O => []
  | S n' => z mod 2 ^ 8 :: to_le_bytes n' (z / 2 ^ 8)
  end.
Fixpoint from_le_bytes (bs : list Z) : Z :=
  match bs with
  | [] => 0
  | b :: bs' => b + 2 ^ 8 * from_le_bytes bs'
  end.

(** ** Bit fields *)

(** Masking [n] bits at position [k] and shifting them down is a division. *)
Lemma shiftr_land_mask v k n :
  0 ≤ k → 0 ≤ n →
  Z.shiftr (Z.land v (Z.shiftl (Z.ones n) k)) k = v / 2 ^ k mod 2 ^ n.
Proof.
  intros Hk Hn. rewrite Z.shiftr_land, Z.shiftr_shiftl_l, Z.sub_diag, Z.shiftl_0_r by lia.
  by rewrite Z.land_ones, Z.shiftr_div_pow2 by lia.
Qed.

Lemma land_pow2_eqb v k :
  0 ≤ k → (Z.land v (Z.shiftl 1 k) =? Z.shiftl 1 k) = Z.testbit v k.
Proof.
  intros Hk. rewrite Z.shiftl_1_l.
  destruct (Z.testbit v k) eqn:E.
  - apply Z.eqb_eq, Z.bits_inj'. intros i Hi. rewrite Z.land_spec.
    destruct (decide (i = k)) as [->|Hne].
    + by rewrite E, Z.pow2_bits_true.
    + by rewrite Z.pow2_bits_false, andb_false_r by lia.
  - apply Z.eqb_neq. intros H. apply (f_equal (λ z, Z.testbit z k)) in H.
    by rewrite Z.land_spec, E, Z.pow2_bits_true in H.
Qed.

Lemma testbit_div_mod v k :
  0 ≤ k → Z.testbit v k = (v / 2 ^ k mod 2 =? 1).
Proof.
  intros Hk. apply eq_true_iff_eq. rewrite Z.eqb_eq. by apply Z.testbit_true.
Qed.

(** Bits at or above [n] of a value below [2 ^ n] are clear. *)
Lemma testbit_high v n i : 0 ≤ v < 2 ^ n → 0 ≤ n ≤ i → Z.testbit v i = false.
Proof.
  intros Hv Hi. rewrite <-(Z.mod_small v (2 ^ n)) by done.
  apply Z.mod_pow2_bits_high. lia.
Qed.

(** A value whose bits at or above [n] are all clear is below [2 ^ n]. *)
Lemma bits_lt_pow2 v n :
  0 ≤ n → 0 ≤ v → (∀ i, n ≤ i → Z.testbit v i = false) → v < 2 ^ n.
Proof.
  intros Hn Hv H. cut (v = v mod 2 ^ n).
  { intros ->. apply Z.mod_pos_bound. apply Z.pow_pos_nonneg; lia. }
  apply Z.bits_inj'. intros i Hi. destruct (Z.lt_ge_cases i n).
  - by rewrite Z.mod_pow2_bits_low.
  - by rewrite Z.mod_pow2_bits_high, H by lia.
Qed.

Lemma count_ones_upto_nonneg n z : 0 ≤ count_ones_upto n z.
Proof. induction n as [|n IH]; cbn [count_ones_upto]; [lia|]. destruct (Z.testbit _ _); cbn; lia. Qed.

Lemma count_ones_upto_mono n m z : (n ≤ m)%nat → count_ones_upto n z ≤ count_ones_upto m z.
Proof.
  induction 1 as [|m _ IH]; [lia|]. cbn [count_ones_upto].
  destruct (Z.testbit z (Z.of_nat m)); cbn; lia.
Qed.

Lemma ldiff_bounds a b : 0 ≤ a → 0 ≤ Z.ldiff a b ≤ a.
Proof.
  intros Ha.
  assert (Z.land (Z.ldiff a b) (Z.land a b) = 0) as Hd.
  { apply Z.bits_inj'. intros i Hi. rewrite !Z.land_spec, Z.ldiff_spec, Z.bits_0.
    by destruct (Z.testbit a i), (Z.testbit b i). }
  assert (Z.ldiff a b + Z.land a b = a) as E.
  { by rewrite Z.add_nocarry_lxor, Z.lxor_lor, Z.lor_ldiff_and. }
  pose proof (proj2 (Z.ldiff_nonneg a b) (or_introl Ha)).
  pose proof (proj2 (Z.land_nonneg a b) (or_introl Ha)). lia.
Qed.

(** ** Ordered maps

    A [BTreeMap] is a finite map; iterating over it visits the entries in the
    order of the keys. *)

Section BTree.
  Context {K A : Type} `{Countable K} (leb : K → K → bool).

Definition btree_iter (m : gmap K A) : list (K * A) :=
  merge_sort (λ x y, Is_true (leb x.1 y.1)) (map_to_list m).

Lemma btree_iter_perm m : btree_iter m ≡ₚ map_to_list m.
Proof. apply merge_sort_Permutation. Qed.

Lemma elem_of_btree_iter m k a : (k, a) ∈ btree_iter m ↔ m !! k = Some a.
Proof. rewrite btree_iter_perm. apply elem_of_map_to_list. Qed.

Lemma btree_iter_keys_NoDup m : NoDup (btree_iter m).*1.
Proof. rewrite btree_iter_perm. apply NoDup_fst_map_to_list. Qed.

Lemma length_btree_iter m : length (btree_iter m) = size m.
Proof. by rewrite btree_iter_perm, length_map_to_list. Qed.

(** Collecting the entries again gives the map back. *)
Lemma list_to_map_btree_iter m : list_to_map (btree_iter m) = m.
Proof.
  rewrite (list_to_map_proper _ (map_to_list m)).
  - apply list_to_map_to_list.
  - apply btree_iter_keys_NoDup.
  - apply btree_iter_perm.
Qed.

(** The keys are visited in order. *)
Lemma btree_iter_sorted m :
  (∀ x y z, leb x y → leb y z → leb x z) → (∀ x y, leb x y ∨ leb y x) →
  StronglySorted (λ x y, Is_true (leb x y)) (btree_iter m).*1.
Proof.
  intros Ht Htot. apply (StronglySorted_fmap _ (λ x y, Is_true (leb x.1 y.1))); [done|].
  assert (Transitive (λ x y : K * A, Is_true (leb x.1 y.1))) as Htr by (intros x y z; apply Ht).
  assert (Total (λ x y : K * A, Is_true (leb x.1 y.1))) as Hto by (intros x y; apply Htot).
  apply (StronglySorted_merge_sort _).
Qed.
End BTree.

(** The first of two optional values. *)
Lemma option_union_assoc {A} (x y z : option A) : x ∪ (y ∪ z) = x ∪ y ∪ z.
Proof. by destruct x, y, z. Qed.

(** The loop that inserts keys into a [BTreeSet] and stops at the first one that
    is already there. *)
Fixpoint first_duplicate {K} `{Countable K} (seen : gset K) (l : list K) : option K :=
  match l with
  | [] => None
  | k :: l' => if decide (k ∈ seen) then Some k else first_duplicate ({[ k ]} ∪ seen) l'
  end.

Lemma first_duplicate_None_seen {K} `{Countable K} (seen : gset K) l :
  first_duplicate seen l = None ↔ NoDup l ∧ ∀ k, k ∈ l → k ∉ seen.
Proof.
  revert seen. induction l as [|k l IH]; intros seen; cbn.
  { split; [|done]. intros _. split; [constructor|]. intros k Hk. by apply elem_of_nil in Hk. }
  case_decide as Hk.
  - split; [done|]. intros [_ Hs]. by destruct (Hs k); [left|].
  - rewrite IH, NoDup_cons. split.
    + intros [ND Hs]. split; [split; [|done]|].
      * intros Hin. by apply (Hs k Hin), elem_of_union_l, elem_of_singleton.
      * intros x [->|Hx]%elem_of_cons; [done|]. intros Hin. by apply (Hs x Hx), elem_of_union_r.
    + intros [[Hni ND] Hs]. split; [done|]. intros x Hx [->%elem_of_singleton|Hsx]%elem_of_union; [done|].
      by apply (Hs x); [right|].
Qed.
Lemma first_duplicate_None {K} `{Countable K} (l : list K) :
  first_duplicate (∅ : gset K) l = None ↔ NoDup l.
Proof. rewrite first_duplicate_None_seen. split; [by intros []|]. intros ND. split; [done|]. intros k _. apply not_elem_of_empty. Qed.

(** Integer keys without gaps. *)
Lemma StronglySorted_seqZ a n : StronglySorted (λ x y, Is_true (Z.leb x y)) (seqZ a n).
Proof.
  destruct (Z.le_gt_cases 0 n) as [Hn|]; [|rewrite seqZ_nil by lia; constructor].
  revert a. pattern n. apply natlike_ind; [intros a; rewrite seqZ_nil by lia; constructor| |done].
  intros x Hx IH a. rewrite seqZ_cons by lia. rewrite Z.pred_succ. constructor; [apply IH|].
  apply Forall_forall. intros y Hy%elem_of_seqZ. apply Is_true_true, Z.leb_le. lia.
Qed.
Lemma btree_iter_seqZ {A} (m : gmap Z A) (n : nat) :
  (∀ i, is_Some (m !! i) ↔ 0 ≤ i < Z.of_nat n) → (btree_iter Z.leb m).*1 = seqZ 0 (Z.of_nat n).
Proof.
  intros Hm. apply (StronglySorted_unique_strong (λ x y, Is_true (Z.leb x y))).
  - intros x y _ _. rewrite !Is_true_true, !Z.leb_le. lia.
  - apply btree_iter_sorted; intros *; rewrite !Is_true_true, !Z.leb_le; lia.
  - apply StronglySorted_seqZ.
  - apply NoDup_Permutation; [apply btree_iter_keys_NoDup|apply NoDup_seqZ|].
    intros i. rewrite elem_of_seqZ, list_elem_of_fmap, Z.add_0_l, <-Hm. split.
    + intros ([k b] & -> & Hb%elem_of_btree_iter). cbn. by rewrite Hb.
    + intros [b Hb]. exists (i, b). split; [done|]. by apply elem_of_btree_iter.
Qed.

(** ** Loops over keyed updates

    A loop whose body updates one slot of a store, with a different slot in
    each iteration: it succeeds exactly when every step succeeds on the initial
    contents of its slot, and the final contents are given slot by slot. *)

Section KeyedLoop.
  Context {S K V X E : Type} `{EqDecision K}.
  Context (get : S → K → V) (key : X → K) (body : X → mut S E unit).
  Context (step : X → V → option V) (Inv : S → Prop) (P : X → Prop).

Definition slot_update (s s' : S) (k : K) (v : V) : Prop :=
  get s' k = v ∧ ∀ k', k' ≠ k → get s' k' = get s k'.

Context (body_spec : ∀ x s, Inv s → P x →
  match step x (get s (key x)) with
  | Some v => ∃ s', body x s = (Ok tt, s') ∧ Inv s' ∧ slot_update s s' (key x) v
  | None => ∃ e s', body x s = (Err e, s') ∧ Inv s' ∧ ∀ k, get s' k = get s k
  end).

Lemma for_each_keyed l s :
  Inv s → Forall P l → NoDup (key <$> l) →
  (Forall (λ x, is_Some (step x (get s (key x)))) l ∧
   ∃ s', for_each l body s = (Ok tt, s') ∧ Inv s' ∧
     (∀ x, x ∈ l → step x (get s (key x)) = Some (get s' (key x))) ∧
     (∀ k, k ∉ key <$> l → get s' k = get s k)) ∨
  ((∃ x, x ∈ l ∧ step x (get s (key x)) = None) ∧
   ∃ e s', for_each l body s = (Err e, s') ∧ Inv s').
Proof.
  revert s. induction l as [|x l IH]; intros s Hs HP ND.
  { left. split; [done|]. exists s. split_and!; [done|done| |done]. intros x Hx. inversion Hx. }
  apply Forall_cons in HP as [Hx HP]. cbn in ND. apply NoDup_cons in ND as [Hnin ND].
  specialize (body_spec x s Hs Hx). cbn [for_each]. unfold mbind, mut_bind.
  destruct (step x (get s (key x))) as [v|] eqn:Hstep.
  2:{ right. split; [exists x; split; [left|done]|].
      destruct body_spec as (e & s' & -> & Hs' & _). eauto. }
  destruct body_spec as (s1 & -> & Hs1 & Hv & Hother).
  assert (∀ y, y ∈ l → get s1 (key y) = get s (key y)) as Hsame.
  { intros y Hy. apply Hother. intros E'. apply Hnin. rewrite <-E'. by apply list_elem_of_fmap_2. }
  destruct (IH s1 Hs1 HP ND) as [[Hall (s' & Hrun & Hs' & Hin & Hout)]|[(y & Hy & Hnone) Herr]].
  - left. split.
    + constructor; [by rewrite Hstep|]. rewrite Forall_forall in *. intros y Hy.
      rewrite <-(Hsame y Hy). by apply Hall.
    + exists s'. split_and!; [done|done| |].
      * intros y [->|Hy]%elem_of_cons.
        { rewrite Hstep, <-Hv. f_equal. symmetry. by apply Hout. }
        rewrite <-(Hsame y Hy). by apply Hin.
      * cbn. intros k [Hk Hkl]%not_elem_of_cons. rewrite Hout by done. by apply Hother.
  - right. split; [|done]. exists y. split; [by right|]. by rewrite <-(Hsame y Hy).
Qed.

(** The two directions as they are used. *)
Lemma for_each_keyed_Ok l s s' :
  Inv s → Forall P l → NoDup (key <$> l) → for_each l body s = (Ok tt, s') →
  Inv s' ∧
  (∀ x, x ∈ l → step x (get s (key x)) = Some (get s' (key x))) ∧
  (∀ k, k ∉ key <$> l → get s' k = get s k).
Proof.
  intros Hs HP ND Hrun. destruct (for_each_keyed l s Hs HP ND) as [[_ H]|[_ H]].
  - destruct H as (s1 & Hrun' & H). rewrite Hrun in Hrun'. by injection Hrun' as <-.
  - destruct H as (e & s1 & Hrun' & _). congruence.
Qed.

Lemma for_each_keyed_succeeds l s :
  Inv s → Forall P l → NoDup (key <$> l) →
  (∀ x, x ∈ l → is_Some (step x (get s (key x)))) →
  ∃ s', for_each l body s = (Ok tt, s').
Proof.
  intros Hs HP ND Hall. destruct (for_each_keyed l s Hs HP ND) as [[_ H]|[H _]].
  - destruct H as (s' & Hrun & _). eauto.
  - destruct H as (x & Hx & Hnone). specialize (Hall x Hx). rewrite Hnone in Hall.
    by destruct Hall.
Qed.

(** Such a loop never panics. *)
Lemma for_each_keyed_no_panic l s :
  Inv s → Forall P l → NoDup (key <$> l) → (for_each l body s).1 ≠ Panic.
Proof.
  intros Hs HP ND. destruct (for_each_keyed l s Hs HP ND) as [[_ H]|[_ H]].
  - by destruct H as (s' & -> & _).
  - by destruct H as (e & s' & -> & _).
Qed.
End KeyedLoop.

Lemma run_Ok {S E} (p : res E unit * S) : is_ok p.1 = true → p = (Ok tt, p.2).
Proof. by destruct p as [[[]|e|] s]. Qed.

(** Loops over appended and mapped lists. *)
Lemma for_each_app {S E X} (l1 l2 : list X) (body : X → mut S E unit) s :
  for_each (l1 ++ l2) body s = (for_each l1 body ;; for_each l2 body) s.
Proof.
  unfold mbind, mut_bind. revert s. induction l1 as [|x l1 IH]; intros s; [done|].
  cbn [app for_each]. unfold mbind, mut_bind. destruct (body x s) as [[[]|e|] s']; [apply IH|done..].
Qed.

Lemma for_each_fmap {S E X Y} (f : X → Y) (l : list X) (body : Y → mut S E unit) s :
  for_each (f <$> l) body s = for_each l (λ x, body (f x)) s.
Proof.
  revert s. induction l as [|x l IH]; intros s; [done|].
  cbn [fmap list_fmap for_each]. unfold mbind, mut_bind.
  destruct (body (f x) s) as [[[]|e|] s']; [apply IH|done..].
Qed.

Lemma for_each_ext {S E X} (l : list X) (body body' : X → mut S E unit) s :
  (∀ x s, body x s = body' x s) → for_each l body s = for_each l body' s.
Proof.
  intros He. revert s. induction l as [|x l IH]; intros s; [done|].
  cbn [for_each]. unfold mbind, mut_bind. rewrite He.
  destruct (body' x s) as [[[]|e|] s']; [apply IH|done..].
Qed.

(** A loop whose body always succeeds is a fold. *)
Lemma for_each_pure {S E X} (f : S → X → S) (l : list X) (body : X → mut S E unit) s :
  (∀ x s, x ∈ l → body x s = (Ok tt, f s x)) → for_each l body s = (Ok tt, foldl f s l).
Proof.
  revert s. induction l as [|x l IH]; intros s Hb; [done|].
  cbn [for_each foldl]. unfold mbind, mut_bind. rewrite (Hb x s) by left. apply IH. intros y s' Hy. apply Hb. by right.
Qed.

(** A loop one of whose iterations panics in every state does not succeed. *)
Lemma for_each_panics {S E X} (l : list X) (body : X → mut S E unit) x s :
  x ∈ l → (∀ s, (body x s).1 = Panic) → (for_each l body s).1 ≠ Ok tt.
Proof.
  intros Hx Hp. revert s. induction Hx as [x l|x y l _ IH]; intros s; cbn [for_each];
    unfold mbind, mut_bind.
  - specialize (Hp s). destruct (body x s) as [[[]|e|] s']; [done..|]. done.
  - destruct (body y s) as [[[]|e|] s']; [by apply IH|done..].
Qed.

Lemma None_union {A} (o : option A) : None ∪ o = o.
Proof. by destruct o. Qed.

Lemma lookup_foldl_insert {K A} `{Countable K} (x : A) (l : list K) (m : gmap K A) k :
  foldl (λ m a, <[a := x]> m) m l !! k = if decide (k ∈ l) then Some x else m !! k.
Proof.
  revert m. induction l as [|a l IH]; intros m; cbn [foldl].
  { by rewrite decide_False by apply not_elem_of_nil. }
  rewrite IH. destruct (decide (k ∈ l)).
  { by rewrite decide_True by (by right). }
  destruct (decide (k = a)) as [->|].
  - by rewrite lookup_insert_eq, decide_True by (by left).
  - rewrite lookup_insert_ne, decide_False; [done| |done]. by rewrite not_elem_of_cons.
Qed.

Lemma u64_i64_roundtrip z : I64_MIN ≤ z ≤ I64_MAX → u64_as_i64 (i64_as_u64 z) = z.
Proof.
  unfold u64_as_i64, i64_as_u64, I64_MIN, I64_MAX. intros Hz.
  destruct (Z.lt_ge_cases z 0).
  - replace (z mod 2 ^ 64) with (z + 2 ^ 64) by (rewrite <-(Z.mod_unique z (2 ^ 64) (-1) (z + 2 ^ 64)); lia).
    destruct (Z.leb_spec (z + 2 ^ 64) (2 ^ 63 - 1)); lia.
  - rewrite Z.mod_small by lia. destruct (Z.leb_spec z (2 ^ 63 - 1)); lia.
Qed.

(** ** Runs of concurrent programs

    A schedule picks a label at every time; a label that is not possible changes
    nothing. *)
Section Runs.
  Context {St L : Type} (exec : L → St → St) (sched : nat → L) (s : St).

Fixpoint run (n : nat) : St :=
  match n with O => s | S n => exec (sched n) (run n) end.

(** What only the labels of [turn] can change stays until one of them is picked. *)
Lemma run_until (turn : L → Prop) `{!∀ l, Decision (turn l)} (Q : St → Prop) :
  (∀ n, ∃ m, (n ≤ m)%nat ∧ turn (sched m)) →
  (∀ n, Q (run n) → ¬ turn (sched n) → Q (run (S n))) →
  ∀ n, Q (run n) → ∃ m, (n ≤ m)%nat ∧ Q (run m) ∧ turn (sched m).
Proof.
  intros Hfair HQ n Hn. destruct (Hfair n) as (m & Hm & Ht).
  remember (m - n)%nat as d eqn:Hd. revert n Hn Hm Hd. induction d as [|d IH]; intros n Hn Hm Hd.
  - assert (n = m) as -> by lia. by exists m.
  - destruct (decide (turn (sched n))) as [Hr|Hr]; [by exists n|].
    destruct (IH (S n)) as (m' & Hle & ? & ?); [by apply HQ|lia|lia|]. exists m'. split; [lia|done].
Qed.

Lemma run_invariant (I : St → Prop) : I s → (∀ n, I (run n) → I (run (S n))) → ∀ n, I (run n).
Proof. intros H0 HS n. induction n as [|n IH]; [done|by apply HS]. Qed.
End Runs.

(** An enumeration that visits every number again and again. *)
Definition zigzag (n : nat) : nat := n - Nat.sqrt n * Nat.sqrt n.
Lemma zigzag_fair i n : ∃ m, (n ≤ m)%nat ∧ zigzag m = i.
Proof.
  exists ((n + i) * (n + i) + i)%nat. split; [nia|]. unfold zigzag.
  assert (Nat.sqrt ((n + i) * (n + i) + i) = n + i)%nat as ->; [|lia]. apply Nat.sqrt_unique. nia.
Qed.
