(* ===== verification/Felt.v ===== *)
(** * Field elements, words and digests

    The field type [Felt], the word type [[Felt; 4]] and the digest type come
    from the crates miden-core, winter-math and miden-crypto; the objects crate
    re-exports them in objects/src/lib.rs. They are a parameter of the
    development: the class [FeltApi] holds the operations the code calls with
    their documented behaviour. [Goldilocks] is a concrete field that satisfies
    the class; the witnesses of the theorems run on it. *)

From S2P Require Import Prelude.
From stdpp Require Import countable.
Open Scope Z_scope.

(** The modulus of the field, [2^64 - 2^32 + 1]. *)
Definition MODULUS : Z := 2 ^ 64 - 2 ^ 32 + 1.

Class FeltApi := {
  felt : Type;
  (** [Felt::new] reduces a [u64] modulo the field modulus. *)
  felt_new : Z → felt;
  (** [Felt::as_int], the canonical representative. *)
  as_int : felt → Z;
  (** [TryFrom<u64> for Felt] and [TryFrom<&[u8]> for Felt] (little-endian). *)
  felt_try_from_u64 : Z → option felt;
  felt_try_from_bytes : list Z → option felt;
  as_int_range : ∀ x, 0 ≤ as_int x < MODULUS;
  as_int_new : ∀ v, 0 ≤ v < 2 ^ 64 → as_int (felt_new v) = v mod MODULUS;
  as_int_inj : ∀ x y, as_int x = as_int y → x = y;
  felt_try_from_u64_spec : ∀ v, 0 ≤ v < 2 ^ 64 →
    felt_try_from_u64 v = if v <? MODULUS then Some (felt_new v) else None;
  felt_try_from_bytes_spec : ∀ v, 0 ≤ v < 2 ^ 64 →
    felt_try_from_bytes (to_le_bytes 8 v) = if v <? MODULUS then Some (felt_new v) else None
}.

Section Felt.
  Context {F : FeltApi}.

#[export] Instance as_int_Inj : Inj (=) (=) as_int.
Proof. intros x y. apply as_int_inj. Qed.

#[export] Instance felt_eq_dec : EqDecision felt.
Proof.
  intros x y. destruct (decide (as_int x = as_int y)) as [H|H].
  - left. by apply as_int_inj.
  - right. by intros ->.
Defined.

Definition ZERO : felt := felt_new 0.
Definition ONE : felt := felt_new 1.

Lemma as_int_small v : 0 ≤ v < MODULUS → as_int (felt_new v) = v.
Proof.
  intros Hv. unfold MODULUS in *. rewrite as_int_new by (unfold MODULUS in *; lia).
  apply Z.mod_small. unfold MODULUS. lia.
Qed.

Lemma as_int_ZERO : as_int ZERO = 0.
Proof. apply as_int_small. unfold MODULUS. lia. Qed.

Lemma as_int_ONE : as_int ONE = 1.
Proof. apply as_int_small. unfold MODULUS. lia. Qed.

Lemma felt_new_as_int x : felt_new (as_int x) = x.
Proof. apply as_int_inj, as_int_small, as_int_range. Qed.

Lemma as_int_u64 x : 0 ≤ as_int x < 2 ^ 64.
Proof. pose proof (as_int_range x) as H. unfold MODULUS in H. lia. Qed.

Lemma felt_new_inj v w :
  0 ≤ v < MODULUS → 0 ≤ w < MODULUS → felt_new v = felt_new w → v = w.
Proof.
  intros Hv Hw H. apply (f_equal as_int) in H. by rewrite !as_int_small in H.
Qed.

#[export] Instance felt_countable : Countable felt.
Proof. apply (inj_countable' as_int felt_new). apply felt_new_as_int. Defined.

(** [Word] is [[Felt; 4]]; [Digest] wraps the same four elements and the code
    converts between the two freely. *)
Record Word : Type := mkWord { w0 : felt; w1 : felt; w2 : felt; w3 : felt }.
Definition Digest : Type := Word.

#[export] Instance Word_eq_dec : EqDecision Word.
Proof. solve_decision. Defined.

#[export] Instance Word_countable : Countable Word.
Proof.
  apply (inj_countable' (λ w, (w0 w, w1 w, w2 w, w3 w))
           (λ '(a, b, c, d), mkWord a b c d)).
  by intros [].
Defined.

(** [EMPTY_WORD], [Word::default()] and [Digest::default()]. *)
Definition EMPTY_WORD : Word := mkWord ZERO ZERO ZERO ZERO.

Definition word_elements (w : Word) : list felt := [w0 w; w1 w; w2 w; w3 w].

Lemma word_elements_inj w w' : word_elements w = word_elements w' → w = w'.
Proof. destruct w, w'. cbn. intros. by simplify_eq. Qed.

End Felt.

(** ** A concrete field *)

Definition in_field (z : Z) : bool := (0 <=? z) && (z <? MODULUS).

Record gl : Type := Gl { gl_val : Z; gl_ok : in_field gl_val = true }.

Lemma in_field_mod v : in_field (v mod MODULUS) = true.
Proof.
  unfold in_field. assert (0 < MODULUS) by (unfold MODULUS; lia).
  pose proof (Z.mod_pos_bound v MODULUS ltac:(done)). apply andb_true_iff. lia.
Qed.

Definition gl_new (v : Z) : gl :=
  match bool_dec (in_field (v mod MODULUS)) true with
  | left H => Gl (v mod MODULUS) H
  | right _ => Gl 0 eq_refl
  end.

Definition gl_try_from_u64 (v : Z) : option gl :=
  if v <? MODULUS then Some (gl_new v) else None.

Lemma gl_val_new v : gl_val (gl_new v) = v mod MODULUS.
Proof.
  unfold gl_new. destruct (bool_dec _ _) as [H|H]; [done|].
  by rewrite in_field_mod in H.
Qed.

Lemma gl_val_inj x y : gl_val x = gl_val y → x = y.
Proof.
  destruct x as [x Hx], y as [y Hy]. cbn. intros ->. f_equal.
  apply Eqdep_dec.UIP_dec, bool_dec.
Qed.

Lemma from_to_le_bytes n z : 0 ≤ z < 2 ^ (8 * Z.of_nat n) → from_le_bytes (to_le_bytes n z) = z.
Proof.
  revert z. induction n as [|n IH]; intros z Hz; cbn [to_le_bytes from_le_bytes]; [lia|].
  rewrite IH.
  - pose proof (Z.div_mod z (2 ^ 8)). lia.
  - replace (8 * Z.of_nat (S n)) with (8 + 8 * Z.of_nat n) in Hz by lia.
    rewrite Z.pow_add_r in Hz by lia. split; [apply Z.div_pos; lia|].
    apply Z.div_lt_upper_bound; lia.
Qed.

Lemma length_to_le_bytes n z : length (to_le_bytes n z) = n.
Proof. revert z. induction n as [|n IH]; intros z; cbn; [done|]. by rewrite IH. Qed.

#[refine] Definition Goldilocks : FeltApi := {|
  felt := gl;
  felt_new := gl_new;
  as_int := gl_val;
  felt_try_from_u64 := gl_try_from_u64;
  felt_try_from_bytes bs :=
    if (length bs =? 8)%nat then gl_try_from_u64 (from_le_bytes bs) else None
|}.
Proof.
  - abstract (intros [x Hx]; cbn; unfold in_field in Hx; lia).
  - abstract (intros v _; apply gl_val_new).
  - exact gl_val_inj.
  - abstract done.
  - abstract (intros v Hv; rewrite length_to_le_bytes; cbn [Nat.eqb];
      by rewrite from_to_le_bytes by (cbn; lia)).
Defined.
