(* ===== verification/Crypto.v ===== *)
(** * Hashing and sparse Merkle trees

    The hash function [Rpo256] ([Hasher] in the code), the order on digests and
    the sparse Merkle tree [Smt] come from the crate miden-crypto. They are
    parameters of the development. [HasherApi] holds functions only, because
    no theorem relies on a property of the hash. [SmtApi] states the documented
    contract of the tree as a key-value map. The end of the file gives a
    concrete hasher and a concrete tree on which the witnesses run. *)

From S2P Require Import Prelude Felt.
Open Scope Z_scope.

Class HasherApi {F : FeltApi} := {
  (** [Hasher::hash_elements], [Hasher::hash] on bytes, [Hasher::merge]. *)
  hash_elements : list felt → Digest;
  hash_bytes : list Z → Digest;
  hash_merge : Digest → Digest → Digest
}.

(** ** Collisions

    Digests are finite, so that every hash function has collisions. The theorems
    that a digest binds some content therefore name the inputs of the hash that
    were computed for it: either the contents agree, or two of these inputs, at
    the same place of the computation, differ and have the same digest. *)

Section Collisions.
  Context {F : FeltApi} {H : HasherApi}.

(** What a digest was computed from; the zero digest stands for empty lists. *)
Inductive preimage : Type :=
  | NoPreimage
  | Elements (l : list felt)
  | Merged (a b : Digest).
#[export] Instance preimage_eq_dec : EqDecision preimage.
Proof. solve_decision. Defined.

#[export] Instance Elements_inj : Inj (=) (=) Elements.
Proof. by intros l l' [= ->]. Qed.

Definition image (p : preimage) : Digest :=
  match p with
  | NoPreimage => EMPTY_WORD
  | Elements l => hash_elements l
  | Merged a b => hash_merge a b
  end.

Definition collision (p q : preimage) : Prop := p ≠ q ∧ image p = image q.
Definition collides (l l' : list preimage) : Prop := Exists (λ pq, collision pq.1 pq.2) (zip l l').

#[export] Instance collision_dec p q : Decision (collision p q).
Proof. unfold collision. apply _. Defined.
#[export] Instance collides_dec l l' : Decision (collides l l').
Proof. unfold collides. apply _. Defined.

Lemma image_binds p q : image p = image q → p = q ∨ collision p q.
Proof. intros E. destruct (decide (p = q)) as [|Hne]; [by left|by right]. Qed.

Lemma merge_binds a b c d : hash_merge a b = hash_merge c d → (a = c ∧ b = d) ∨ collision (Merged a b) (Merged c d).
Proof. intros [[= -> ->]|Hc]%(image_binds (Merged a b) (Merged c d)); [by left|by right]. Qed.

Lemma collides_at i l l' p q : l !! i = Some p → l' !! i = Some q → collision p q → collides l l'.
Proof.
  intros Hp Hq Hc. apply Exists_exists. exists (p, q). split; [|done]. apply list_elem_of_lookup. exists i.
  apply lookup_zip_Some. done.
Qed.
End Collisions.

(** [Ord for RpoDigest], the iteration order of maps keyed by digests. *)
Class DigestOrd {F : FeltApi} := {
  digest_leb : Digest → Digest → bool;
  digest_leb_total : ∀ a b, digest_leb a b = true ∨ digest_leb b a = true;
  digest_leb_trans : ∀ a b c,
    digest_leb a b = true → digest_leb b c = true → digest_leb a c = true;
  digest_leb_antisym : ∀ a b, digest_leb a b = true → digest_leb b a = true → a = b
}.

(** [MerkleError]: the code only wraps it. *)
Inductive MerkleError : Type := DuplicateValuesForIndex.

Class SmtApi {F : FeltApi} := {
  Smt : Type;
  (** [Smt::new], [get_value], [insert] (which returns the previous value),
      [with_entries], [entries], [root] and [is_empty]. *)
  smt_new : Smt;
  smt_get_value : Smt → Digest → Word;
  smt_insert : Smt → Digest → Word → Smt * Word;
  smt_with_entries : list (Digest * Word) → res MerkleError Smt;
  smt_entries : Smt → list (Digest * Word);
  smt_root : Smt → Digest;
  smt_is_empty : Smt → bool;
  smt_get_new : ∀ k, smt_get_value smt_new k = EMPTY_WORD;
  smt_insert_old : ∀ t k v, (smt_insert t k v).2 = smt_get_value t k;
  smt_insert_get : ∀ t k v k',
    smt_get_value (smt_insert t k v).1 k' = if decide (k = k') then v else smt_get_value t k';
  (** A list of entries with distinct keys is accepted and stored; one with a
      repeated key is rejected. *)
  smt_with_entries_ok : ∀ l, NoDup l.*1 →
    ∃ t, smt_with_entries l = Ok t ∧
      (∀ k v, (k, v) ∈ l → smt_get_value t k = v) ∧
      (∀ k, k ∉ l.*1 → smt_get_value t k = EMPTY_WORD);
  smt_with_entries_dup : ∀ l, ¬ NoDup l.*1 →
    smt_with_entries l = Err DuplicateValuesForIndex;
  (** The entries are the non-empty leaves, each key once. *)
  smt_entries_nodup : ∀ t, NoDup (smt_entries t).*1;
  smt_entries_spec : ∀ t k v,
    (k, v) ∈ smt_entries t ↔ smt_get_value t k = v ∧ v ≠ EMPTY_WORD;
  smt_is_empty_spec : ∀ t, smt_is_empty t = true ↔ ∀ k, smt_get_value t k = EMPTY_WORD;
  (** The root is a function of the contents. *)
  smt_root_ext : ∀ t t',
    (∀ k, smt_get_value t k = smt_get_value t' k) → smt_root t = smt_root t'
}.

(** [Smt::EMPTY_VALUE]. *)
Definition SMT_EMPTY_VALUE {F : FeltApi} : Word := EMPTY_WORD.

Section Smt.
  Context {F : FeltApi} {S : SmtApi}.

(** Two trees with the same contents. *)
Definition smt_equiv (t t' : Smt) : Prop := ∀ k, smt_get_value t k = smt_get_value t' k.

#[export] Instance smt_equiv_equivalence : Equivalence smt_equiv.
Proof.
  split.
  - by intros t k.
  - intros t t' H k. by rewrite H.
  - intros t1 t2 t3 H1 H2 k. by rewrite H1, H2.
Qed.

#[export] Instance smt_get_value_proper :
  Proper (smt_equiv ==> (=) ==> (=)) smt_get_value.
Proof. intros t t' H k k' <-. apply H. Qed.

#[export] Instance smt_root_proper : Proper (smt_equiv ==> (=)) smt_root.
Proof. intros t t' H. by apply smt_root_ext. Qed.

Lemma smt_insert_get_eq t k v : smt_get_value (smt_insert t k v).1 k = v.
Proof. rewrite smt_insert_get. by rewrite decide_True. Qed.

Lemma smt_insert_get_ne t k v k' :
  k ≠ k' → smt_get_value (smt_insert t k v).1 k' = smt_get_value t k'.
Proof. intros. rewrite smt_insert_get. by rewrite decide_False. Qed.

Lemma smt_insert_same t k : smt_equiv (smt_insert t k (smt_get_value t k)).1 t.
Proof. intros k'. rewrite smt_insert_get. by case_decide; subst. Qed.

#[export] Instance smt_insert_proper k v :
  Proper (smt_equiv ==> smt_equiv) (λ t, (smt_insert t k v).1).
Proof. intros t t' H k'. rewrite !smt_insert_get. by rewrite (H k'). Qed.

(** Rebuilding a tree from the entries of another tree. *)
Lemma smt_with_entries_roundtrip t :
  ∃ t', smt_with_entries (smt_entries t) = Ok t' ∧ smt_equiv t' t.
Proof.
  destruct (smt_with_entries_ok (smt_entries t)) as (t' & Ht & Hin & Hout).
  { apply smt_entries_nodup. }
  exists t'. split; [done|]. intros k.
  destruct (decide (smt_get_value t k = EMPTY_WORD)) as [He|Hne].
  - rewrite He. apply Hout. intros ([k' v] & -> & Hkv)%list_elem_of_fmap.
    apply smt_entries_spec in Hkv as [Hkv Hv]. cbn in He. congruence.
  - apply Hin. by apply smt_entries_spec.
Qed.
End Smt.

(** ** Concrete instances *)

(** A tree kept as a finite map of its non-empty leaves. *)
Section MapTree.
  Context {F : FeltApi}.

Definition mt_get (t : gmap Word Word) (k : Word) : Word := default EMPTY_WORD (t !! k).
Definition mt_set (t : gmap Word Word) (k v : Word) : gmap Word Word :=
  if decide (v = EMPTY_WORD) then delete k t else <[k := v]> t.
Definition mt_clean (t : gmap Word Word) : gmap Word Word :=
  filter (λ kv, kv.2 ≠ EMPTY_WORD) t.

Lemma mt_get_set t k v k' : mt_get (mt_set t k v) k' = if decide (k = k') then v else mt_get t k'.
Proof.
  unfold mt_get, mt_set. repeat case_decide; subst; by simplify_map_eq.
Qed.

Lemma mt_clean_get t k : mt_get (mt_clean t) k = mt_get t k.
Proof.
  unfold mt_get, mt_clean. rewrite map_lookup_filter.
  destruct (t !! k) as [v|] eqn:E; cbn; [|done].
  case_guard; cbn; [done|]. by destruct (decide (v = EMPTY_WORD)).
Qed.

Lemma mt_clean_Some t k v : mt_clean t !! k = Some v ↔ mt_get t k = v ∧ v ≠ EMPTY_WORD.
Proof.
  unfold mt_get, mt_clean. rewrite map_lookup_filter_Some. cbn.
  destruct (t !! k) as [w|] eqn:E; cbn; naive_solver.
Qed.

Lemma mt_clean_eq t t' : (∀ k, mt_get t k = mt_get t' k) → mt_clean t = mt_clean t'.
Proof.
  intros H. apply map_eq. intros k. apply option_eq. intros v.
  by rewrite !mt_clean_Some, H.
Qed.

Lemma mt_clean_empty t : mt_clean t = ∅ ↔ ∀ k, mt_get t k = EMPTY_WORD.
Proof.
  split.
  - intros E k. by rewrite <-mt_clean_get, E.
  - intros E. apply map_eq. intros k. rewrite lookup_empty.
    destruct (mt_clean t !! k) eqn:Hk; [|done].
    apply mt_clean_Some in Hk as [Hk Hne]. by rewrite E in Hk.
Qed.

Lemma mt_get_list l k v : NoDup l.*1 → (k, v) ∈ l → mt_get (list_to_map l) k = v.
Proof. intros ND Hin. unfold mt_get. by rewrite (elem_of_list_to_map_1 l k v ND Hin). Qed.
End MapTree.

(** A positional hash: injective enough to tell short inputs apart. *)
Definition toy_hash {F : FeltApi} (l : list felt) : Digest :=
  let n := foldr (λ x acc, (as_int x + 1 + 31 * acc) mod 2 ^ 64) 7 l in
  mkWord (felt_new (n mod 2 ^ 64)) (felt_new (Z.of_nat (length l)))
         (felt_new (3 * n mod 2 ^ 64)) (felt_new (n * n mod 2 ^ 64)).

Definition ToyHasher {F : FeltApi} : HasherApi := {|
  hash_elements := toy_hash;
  hash_bytes bs := toy_hash (map felt_new bs);
  hash_merge a b := toy_hash (word_elements a ++ word_elements b)
|}.

#[refine] Definition MapTree {F : FeltApi} {H : HasherApi} : SmtApi := {|
  Smt := gmap Word Word;
  smt_new := ∅;
  smt_get_value := mt_get;
  smt_insert t k v := (mt_set t k v, mt_get t k);
  smt_with_entries l :=
    if decide (NoDup l.*1) then Ok (list_to_map l) else Err DuplicateValuesForIndex;
  smt_entries t := map_to_list (mt_clean t);
  smt_root t := hash_elements
    (mjoin ((λ kv, word_elements kv.1 ++ word_elements kv.2) <$> map_to_list (mt_clean t)));
  smt_is_empty t := bool_decide (mt_clean t = ∅)
|}.
Proof.
  - abstract done.
  - abstract done.
  - exact mt_get_set.
  - abstract (intros l ND; rewrite decide_True by done; eexists; split; [done|]; split;
      [intros k v; by apply mt_get_list
      |intros k Hk; unfold mt_get; by rewrite not_elem_of_list_to_map_1]).
  - abstract (intros l ND; by rewrite decide_False).
  - abstract (intros t; apply NoDup_fst_map_to_list).
  - abstract (intros t k v; rewrite elem_of_map_to_list; apply mt_clean_Some).
  - abstract (intros t; rewrite bool_decide_eq_true; apply mt_clean_empty).
  - abstract (intros t t' E; by rewrite (mt_clean_eq t t' E)).
Defined.

(** Digests ordered by the integer their four elements spell. *)
Definition digest_code {F : FeltApi} (d : Digest) : Z :=
  ((as_int (w0 d) * 2 ^ 64 + as_int (w1 d)) * 2 ^ 64 + as_int (w2 d)) * 2 ^ 64 + as_int (w3 d).

Lemma digest_code_inj {F : FeltApi} (a b : Digest) : digest_code a = digest_code b → a = b.
Proof.
  destruct a as [a0 a1 a2 a3], b as [b0 b1 b2 b3]. unfold digest_code. cbn [w0 w1 w2 w3].
  pose proof (as_int_u64 a0). pose proof (as_int_u64 a1). pose proof (as_int_u64 a2).
  pose proof (as_int_u64 a3). pose proof (as_int_u64 b0). pose proof (as_int_u64 b1).
  pose proof (as_int_u64 b2). pose proof (as_int_u64 b3). intros.
  f_equal; apply as_int_inj; lia.
Qed.

#[refine] Definition CodeOrd {F : FeltApi} : DigestOrd := {|
  digest_leb a b := digest_code a <=? digest_code b
|}.
Proof.
  - abstract (intros a b; rewrite !Z.leb_le; lia).
  - abstract (intros a b c; rewrite !Z.leb_le; lia).
  - abstract (intros a b; rewrite !Z.leb_le; intros; apply digest_code_inj; lia).
Defined.
