(* ===== verification/Serde.v ===== *)
(** * Byte serialization

    The traits [Serializable], [Deserializable], [ByteWriter] and [ByteReader]
    and their implementations for primitive types come from the crate
    winter-utils (re-exported in objects/src/lib.rs). [ByteIO] is the part of
    it the objects crate calls: writers and readers of the primitive types and
    of options, pairs and sequences, with the documented contract that a reader
    returns what the writer wrote and leaves the rest of the input. The classes
    [Serializable] and [Deserializable] are the traits the components
    implement; [SerdeLaws] is what one component promises to another. *)

From S2P Require Import Prelude Felt Crypto.
Open Scope Z_scope.

Inductive DeserializationError : Type :=
  | InvalidValue
  | UnexpectedEOF
  | OtherReadError.

#[export] Instance DeserializationError_eq_dec : EqDecision DeserializationError.
Proof. solve_decision. Defined.

(** What a [write_into] appends to its target, and a [read_from]. *)
Definition bytes : Type := list Z.
Definition reader (A : Type) : Type := bytes → res DeserializationError (A * bytes).

#[export] Instance reader_ret : MRet reader := λ _ a bs, Ok (a, bs).
#[export] Instance reader_bind : MBind reader := λ _ _ f m bs,
  match m bs with
  | Ok (a, rest) => f a rest
  | Err e => Err e
  | Panic => Panic
  end.

(** A computation that reads nothing, with its error turned into
    [DeserializationError::InvalidValue]. *)
Definition reader_lift {E A} (m : res E A) : reader A := λ bs,
  match m with Ok a => Ok (a, bs) | Err _ => Err InvalidValue | Panic => Panic end.

(** [.map_err(|err| DeserializationError::InvalidValue(..))] on a reader. *)
Definition reader_invalid {A} (r : reader A) : reader A := λ bs, map_err (λ _, InvalidValue) (r bs).

(** [r] reads back what [w] writes, for the values that satisfy [P]. *)
Definition decodes {A} (P : A → Prop) (w : A → bytes) (r : reader A) : Prop :=
  ∀ x rest, P x → r (w x ++ rest) = Ok (x, rest).

Lemma decodes_bind {A B} (P : A → Prop) (w : A → bytes) (r : reader A)
    (k : A → reader B) x bs :
  decodes P w r → P x → (r ≫= k) (w x ++ bs) = k x bs.
Proof. intros H Hx. unfold mbind, reader_bind. by rewrite H. Qed.

Lemma decodes_weaken {A} (P Q : A → Prop) w r :
  (∀ x, Q x → P x) → decodes P w r → decodes Q w r.
Proof. intros HPQ H x rest Hx. by apply H, HPQ. Qed.

Class ByteIO {F : FeltApi} := {
  write_u8 : Z → bytes; read_u8 : reader Z;
  write_u16 : Z → bytes; read_u16 : reader Z;
  write_u32 : Z → bytes; read_u32 : reader Z;
  write_u64 : Z → bytes; read_u64 : reader Z;
  write_usize : Z → bytes; read_usize : reader Z; usize_size_hint : Z → nat;
  write_felt : felt → bytes; read_felt : reader felt;
  write_word : Word → bytes; read_word : reader Word;
  write_digest : Digest → bytes; read_digest : reader Digest;
  write_option {A} : (A → bytes) → option A → bytes;
  read_option {A} : reader A → reader (option A);
  write_pair {A B} : (A → bytes) → (B → bytes) → A * B → bytes;
  read_pair {A B} : reader A → reader B → reader (A * B);
  write_many {A} : (A → bytes) → list A → bytes;
  read_many {A} : reader A → nat → reader (list A);
  u8_decodes : decodes (λ v, 0 ≤ v < 2 ^ 8) write_u8 read_u8;
  u16_decodes : decodes (λ v, 0 ≤ v < 2 ^ 16) write_u16 read_u16;
  u32_decodes : decodes (λ v, 0 ≤ v < 2 ^ 32) write_u32 read_u32;
  u64_decodes : decodes (λ v, 0 ≤ v < 2 ^ 64) write_u64 read_u64;
  usize_decodes : decodes (λ v, 0 ≤ v < 2 ^ 64) write_usize read_usize;
  felt_decodes : decodes (λ _, True) write_felt read_felt;
  word_decodes : decodes (λ _, True) write_word read_word;
  digest_decodes : decodes (λ _, True) write_digest read_digest;
  option_decodes {A} (P : A → Prop) w r :
    decodes P w r → decodes (λ o, ∀ x, o = Some x → P x) (write_option w) (read_option r);
  pair_decodes {A B} (P : A → Prop) (Q : B → Prop) wa ra wb rb :
    decodes P wa ra → decodes Q wb rb →
    decodes (λ p, P p.1 ∧ Q p.2) (write_pair wa wb) (read_pair ra rb);
  (** A sequence is written and read element by element. *)
  read_many_0 {A} (r : reader A) bs : read_many r 0 bs = Ok ([], bs);
  read_many_S {A} (r : reader A) n bs :
    read_many r (S n) bs = (x ← r; xs ← read_many r n; mret (x :: xs)) bs;
  write_many_nil {A} (w : A → bytes) : write_many w [] = [];
  write_many_cons {A} (w : A → bytes) x l : write_many w (x :: l) = w x ++ write_many w l;
  (** The sizes of what is written, which the size hints add up. *)
  length_write_u8 v : length (write_u8 v) = 1%nat;
  length_write_u16 v : length (write_u16 v) = 2%nat;
  length_write_u32 v : length (write_u32 v) = 4%nat;
  length_write_u64 v : length (write_u64 v) = 8%nat;
  length_write_usize v : length (write_usize v) = usize_size_hint v;
  length_write_felt x : length (write_felt x) = 8%nat;
  length_write_word x : length (write_word x) = 32%nat;
  length_write_digest x : length (write_digest x) = 32%nat;
  length_write_option {A} (w : A → bytes) o :
    length (write_option w o) = (1 + from_option (length ∘ w) 0 o)%nat;
  length_write_pair {A B} (wa : A → bytes) (wb : B → bytes) p :
    length (write_pair wa wb p) = (length (wa p.1) + length (wb p.2))%nat
}.

(** [Felt::ELEMENT_BYTES], [WORD_SIZE] and [Digest::SERIALIZED_SIZE]. *)
Definition ELEMENT_BYTES : nat := 8.
Definition WORD_SIZE : nat := 4.
Definition DIGEST_SERIALIZED_SIZE : nat := 32.

Class Serializable {F : FeltApi} {B : ByteIO} (A : Type) := {
  write_into : A → bytes;
  get_size_hint : A → nat
}.
Class Deserializable {F : FeltApi} {B : ByteIO} (A : Type) := { read_from : reader A }.

(** What a component promises about its serialization: values that satisfy
    [P] are read back, and the size hint is the exact size. *)
Class SerdeLaws {F : FeltApi} {B : ByteIO} (A : Type) `{!Serializable A, !Deserializable A}
    (P : A → Prop) : Prop := {
  serde_decodes : decodes P (write_into (A:=A)) read_from;
  serde_size : ∀ x : A, P x → length (write_into x) = get_size_hint x
}.

Section Prims.
  Context {F : FeltApi} {B : ByteIO}.

#[export] Instance felt_ser : Serializable felt :=
  {| write_into := write_felt; get_size_hint _ := ELEMENT_BYTES |}.
#[export] Instance felt_de : Deserializable felt := {| read_from := read_felt |}.
#[export] Instance word_ser : Serializable Word :=
  {| write_into := write_word; get_size_hint _ := (ELEMENT_BYTES * WORD_SIZE)%nat |}.
#[export] Instance word_de : Deserializable Word := {| read_from := read_word |}.

(** Reading a component in front of the rest of the input. *)
Lemma serde_bind {A C} `{!Serializable A, !Deserializable A} (P : A → Prop)
    `{!SerdeLaws A P} (k : A → reader C) x bs :
  P x → (read_from ≫= k) (write_into x ++ bs) = k x bs.
Proof. apply decodes_bind, serde_decodes. Qed.

Lemma read_option_bind {A C} `{!Serializable A, !Deserializable A} (P : A → Prop)
    `{!SerdeLaws A P} (k : option A → reader C) o bs :
  (∀ x, o = Some x → P x) →
  (read_option read_from ≫= k) (write_option write_into o ++ bs) = k o bs.
Proof. apply (decodes_bind (λ o, ∀ x, o = Some x → P x)), option_decodes, serde_decodes. Qed.

Lemma read_felt_bind {C} (k : felt → reader C) x bs :
  (read_from ≫= k) (write_into x ++ bs) = k x bs.
Proof. by apply (decodes_bind _ _ _ _ _ _ felt_decodes). Qed.

Lemma read_u8_bind {C} (k : Z → reader C) v bs :
  0 ≤ v < 2 ^ 8 → (read_u8 ≫= k) (write_u8 v ++ bs) = k v bs.
Proof. intros Hv. apply (decodes_bind _ _ _ _ _ _ u8_decodes Hv). Qed.

Lemma read_u64_bind {C} (k : Z → reader C) v bs :
  0 ≤ v < 2 ^ 64 → (read_u64 ≫= k) (write_u64 v ++ bs) = k v bs.
Proof. intros Hv. apply (decodes_bind _ _ _ _ _ _ u64_decodes Hv). Qed.

Lemma read_usize_bind {C} (k : Z → reader C) v bs :
  0 ≤ v < 2 ^ 64 → (read_usize ≫= k) (write_usize v ++ bs) = k v bs.
Proof. intros Hv. apply (decodes_bind _ _ _ _ _ _ usize_decodes Hv). Qed.

(** Elements that read back up to a relation. *)
Lemma many_reads_rel {A} (Q : A → A → Prop) (P : A → Prop) w r l rest :
  (∀ x rest', P x → ∃ x', r (w x ++ rest') = Ok (x', rest') ∧ Q x' x) → Forall P l →
  ∃ l', read_many r (length l) (write_many w l ++ rest) = Ok (l', rest) ∧ Forall2 Q l' l.
Proof.
  intros Hr. induction 1 as [|x l Hx _ (l' & IH & HQ)]; cbn [length].
  { exists []. rewrite write_many_nil, read_many_0. by split; [|constructor]. }
  destruct (Hr x (write_many w l ++ rest) Hx) as (x' & Ex & Hq). exists (x' :: l').
  rewrite read_many_S, write_many_cons, <-app_assoc. unfold mbind, reader_bind. rewrite Ex, IH.
  by split; [|constructor].
Qed.

Lemma many_decodes {A} (P : A → Prop) w r :
  decodes P w r → ∀ l rest, Forall P l → read_many r (length l) (write_many w l ++ rest) = Ok (l, rest).
Proof.
  intros Hd l rest Hl. destruct (many_reads_rel eq P w r l rest) as (l' & E & Hq); [|done|].
  - intros x rest' Hx. exists x. by split; [apply Hd|].
  - apply list_eq_Forall2 in Hq as ->. done.
Qed.

Lemma read_many_bind {A C} (P : A → Prop) w r (k : list A → reader C) l n bs :
  decodes P w r → Forall P l → n = length l →
  (read_many r n ≫= k) (write_many w l ++ bs) = k l bs.
Proof. intros H Hl ->. unfold mbind, reader_bind. by rewrite (many_decodes P w r H). Qed.

Lemma length_write_many {A} (w : A → bytes) l :
  length (write_many w l) = sum_list ((λ x, length (w x)) <$> l).
Proof.
  induction l as [|x l IH]; [by rewrite write_many_nil|].
  rewrite write_many_cons, length_app, IH. done.
Qed.

Lemma length_write_many_const {A} (w : A → bytes) l n :
  (∀ x, x ∈ l → length (w x) = n) → length (write_many w l) = (length l * n)%nat.
Proof.
  induction l as [|x l IH]; intros Hl; [by rewrite write_many_nil|].
  rewrite write_many_cons, length_app, IH, Hl; [done|left|]. intros y Hy. apply Hl. by right.
Qed.

(** [for _ in 0..n { .. source.read()? .. }]: read [n] values one by one and
    fold each into the state of the loop. *)
Fixpoint read_loop {X S} (r : reader X) (step : S → X → S) (n : nat) (s : S) : reader S :=
  match n with
  | O => mret s
  | S n' => x ← r; read_loop r step n' (step s x)
  end.

Lemma read_loop_bind {X S C} (P : X → Prop) w r (step : S → X → S) (k : S → reader C) l n s bs :
  decodes P w r → Forall P l → n = length l →
  (read_loop r step n s ≫= k) (write_many w l ++ bs) = k (foldl step s l) bs.
Proof.
  intros H Hl ->. revert s. induction Hl as [|x l Hx _ IH]; intros s; cbn [length read_loop foldl].
  { by rewrite write_many_nil. }
  rewrite write_many_cons, <-app_assoc. specialize (IH (step s x)).
  unfold mbind in *. unfold reader_bind in *. by rewrite H.
Qed.

#[export] Instance felt_serde : SerdeLaws felt (λ _, True).
Proof. split; [apply felt_decodes|]. intros x _. apply length_write_felt. Qed.
#[export] Instance word_serde : SerdeLaws Word (λ _, True).
Proof. split; [apply word_decodes|]. intros x _. apply length_write_word. Qed.
End Prims.

(** ** A concrete byte format

    Fixed-width little-endian integers, a tag byte for options, and plain
    concatenation for pairs and sequences. *)

Section Plain.
  Context {F : FeltApi}.

Definition le_read (n : nat) : reader Z := λ bs,
  if (length bs <? n)%nat then Err UnexpectedEOF else Ok (from_le_bytes (take n bs), drop n bs).

Definition plain_read_felt : reader felt :=
  v ← le_read 8; if v <? MODULUS then mret (felt_new v) else λ _, Err InvalidValue.

Definition plain_write_word (w : Word) : bytes :=
  mjoin ((λ x, to_le_bytes 8 (as_int x)) <$> word_elements w).

Definition plain_read_word : reader Word :=
  a ← plain_read_felt; b ← plain_read_felt; c ← plain_read_felt; d ← plain_read_felt;
  mret (mkWord a b c d).

Definition plain_write_option {A} (w : A → bytes) (o : option A) : bytes :=
  match o with None => to_le_bytes 1 0 | Some x => to_le_bytes 1 1 ++ w x end.

Definition plain_read_option {A} (r : reader A) : reader (option A) :=
  t ← le_read 1;
  if t =? 0 then mret None
  else if t =? 1 then (x ← r; mret (Some x)) else λ _, Err InvalidValue.

Fixpoint plain_read_many {A} (r : reader A) (n : nat) : reader (list A) :=
  match n with
  | O => mret []
  | S n' => x ← r; xs ← plain_read_many r n'; mret (x :: xs)
  end.

Lemma le_decodes n : decodes (λ v, 0 ≤ v < 2 ^ (8 * Z.of_nat n)) (to_le_bytes n) (le_read n).
Proof.
  intros v rest Hv. unfold le_read. rewrite length_app, length_to_le_bytes.
  destruct (Nat.ltb_spec (n + length rest) n)%nat; [lia|].
  rewrite take_app_length', drop_app_length' by (symmetry; apply length_to_le_bytes).
  by rewrite from_to_le_bytes.
Qed.

Lemma plain_felt_decodes :
  decodes (λ _, True) (λ x, to_le_bytes 8 (as_int x)) plain_read_felt.
Proof.
  intros x rest _. unfold plain_read_felt.
  rewrite (decodes_bind _ _ _ _ _ _ (le_decodes 8)) by apply as_int_u64.
  pose proof (as_int_range x). destruct (Z.ltb_spec (as_int x) MODULUS); [|lia].
  by rewrite felt_new_as_int.
Qed.

Lemma plain_word_decodes : decodes (λ _, True) plain_write_word plain_read_word.
Proof.
  intros [a b c d] rest _. unfold plain_write_word, plain_read_word. cbn [word_elements fmap list_fmap mjoin list_join w0 w1 w2 w3].
  rewrite app_nil_r, <-!app_assoc.
  by rewrite !(decodes_bind _ _ _ _ _ _ plain_felt_decodes).
Qed.

Lemma plain_option_decodes {A} (P : A → Prop) w r :
  decodes P w r → decodes (λ o, ∀ x, o = Some x → P x) (plain_write_option w) (plain_read_option r).
Proof.
  intros H [x|] rest Hx; unfold plain_write_option, plain_read_option.
  - rewrite <-app_assoc, (decodes_bind _ _ _ _ 1 _ (le_decodes 1)) by lia.
    cbn. by rewrite (decodes_bind _ _ _ _ _ _ H) by auto.
  - by rewrite (decodes_bind _ _ _ _ 0 _ (le_decodes 1)) by lia.
Qed.

Lemma plain_pair_decodes {A B} (P : A → Prop) (Q : B → Prop) wa ra wb rb :
  decodes P wa ra → decodes Q wb rb →
  decodes (λ p, P p.1 ∧ Q p.2) (λ p, wa p.1 ++ wb p.2) (a ← ra; b ← rb; mret (a, b)).
Proof.
  intros Ha Hb [a b] rest [HP HQ]. cbn.
  by rewrite <-app_assoc, (decodes_bind _ _ _ _ _ _ Ha), (decodes_bind _ _ _ _ _ _ Hb).
Qed.
End Plain.

(** A list of any length: each element behind a byte one, and a final zero. *)
Section Terminated.
  Context {F : FeltApi} {A : Type} (w : A → bytes) (r : reader A).

Definition write_term (l : list A) : bytes :=
  mjoin ((λ x, to_le_bytes 1 1 ++ w x) <$> l) ++ to_le_bytes 1 0.
Fixpoint read_term_from (fuel : nat) : reader (list A) :=
  match fuel with
  | O => λ _, Err UnexpectedEOF
  | S fuel' =>
      t ← le_read 1;
      if t =? 0 then mret [] else x ← r; l ← read_term_from fuel'; mret (x :: l)
  end.
Definition read_term : reader (list A) := λ bs, read_term_from (length bs) bs.

Lemma write_term_cons x l : write_term (x :: l) = to_le_bytes 1 1 ++ w x ++ write_term l.
Proof.
  unfold write_term. cbn [fmap list_fmap].
  change (mjoin ((to_le_bytes 1 1 ++ w x) :: ((λ y, to_le_bytes 1 1 ++ w y) <$> l)))
    with ((to_le_bytes 1 1 ++ w x) ++ mjoin ((λ y, to_le_bytes 1 1 ++ w y) <$> l)).
  by rewrite <-!app_assoc.
Qed.

Lemma term_decodes : decodes (λ _, True) w r → decodes (λ _, True) write_term read_term.
Proof.
  intros Hd l rest _. unfold read_term.
  assert (length l < length (write_term l ++ rest))%nat as Hl.
  { rewrite length_app. induction l as [|x l IH]; [cbn; lia|].
    rewrite write_term_cons, !length_app. cbn [to_le_bytes length]. lia. }
  revert Hl. generalize (length (write_term l ++ rest)).
  induction l as [|x l IH]; intros [|fuel] Hl; [cbn in Hl; lia| |cbn in Hl; lia|]; cbn [read_term_from].
  - by rewrite (decodes_bind _ _ _ _ 0 _ (le_decodes 1)) by lia.
  - rewrite write_term_cons, <-!app_assoc, (decodes_bind _ _ _ _ 1 _ (le_decodes 1)) by lia. cbn [Z.eqb].
    rewrite (decodes_bind _ _ _ _ _ _ Hd) by done.
    unfold mbind at 1, reader_bind at 1. by rewrite IH by (cbn in Hl; lia).
Qed.
End Terminated.

#[refine] Definition PlainIO {F : FeltApi} : ByteIO := {|
  write_u8 := to_le_bytes 1; read_u8 := le_read 1;
  write_u16 := to_le_bytes 2; read_u16 := le_read 2;
  write_u32 := to_le_bytes 4; read_u32 := le_read 4;
  write_u64 := to_le_bytes 8; read_u64 := le_read 8;
  write_usize := to_le_bytes 8; read_usize := le_read 8; usize_size_hint _ := 8%nat;
  write_felt x := to_le_bytes 8 (as_int x); read_felt := plain_read_felt;
  write_word := plain_write_word; read_word := plain_read_word;
  write_digest := plain_write_word; read_digest := plain_read_word;
  write_option := @plain_write_option; read_option := @plain_read_option;
  write_pair A B wa wb p := wa p.1 ++ wb p.2;
  read_pair A B ra rb := a ← ra; b ← rb; mret (a, b);
  write_many A w l := mjoin (w <$> l);
  read_many := @plain_read_many
|}.
Proof.
  all: try exact (le_decodes 1). all: try exact (le_decodes 2). all: try exact (le_decodes 4).
  all: try exact (le_decodes 8).
  all: try (exact (length_to_le_bytes _)).
  - exact plain_felt_decodes.
  - exact plain_word_decodes.
  - exact plain_word_decodes.
  - exact @plain_option_decodes.
  - exact @plain_pair_decodes.
  - abstract done.
  - abstract done.
  - abstract done.
  - abstract done.
  - abstract (intros x; apply length_to_le_bytes).
  - abstract done.
  - abstract done.
  - abstract (intros A w [x|]; done).
  - abstract (intros A B wa wb [a b]; cbn; by rewrite length_app).
Defined.
