(* ===== verification/Types.v ===== *)
(** * Identifiers, assets and error enums

    The data declarations that the error enums of objects/src/errors.rs carry
    as payload, and those enums. Rendered error messages (strings) are left
    out: where the code stores [e.to_string()] the payload is dropped. *)

From S2P Require Import Prelude Felt Crypto Serde.
From stdpp Require Import countable.
Open Scope Z_scope.

(** [enum AccountType] and [enum AccountStorageMode], objects/src/accounts/account_id.rs *)
Inductive AccountType : Type :=
  | FungibleFaucet
  | NonFungibleFaucet
  | RegularAccountImmutableCode
  | RegularAccountUpdatableCode.

Inductive AccountStorageMode : Type := Public | Private.

(** [enum StorageSlotType], objects/src/accounts/storage/slot/type.rs *)
Inductive StorageSlotType : Type := ValueType | MapType.

#[export] Instance AccountType_eq_dec : EqDecision AccountType.
Proof. solve_decision. Defined.
#[export] Instance AccountStorageMode_eq_dec : EqDecision AccountStorageMode.
Proof. solve_decision. Defined.
#[export] Instance StorageSlotType_eq_dec : EqDecision StorageSlotType.
Proof. solve_decision. Defined.

Section Types.
  Context {F : FeltApi}.

(** [struct AccountId(Felt)] *)
Record AccountId : Type := mkAccountId { id_felt : felt }.

(** [struct FungibleAsset], objects/src/assets/fungible.rs *)
Record FungibleAsset : Type := mkFungibleAsset { fa_faucet_id : AccountId; fa_amount : Z }.

(** [struct NonFungibleAsset(Word)], objects/src/assets/nonfungible.rs *)
Record NonFungibleAsset : Type := mkNonFungibleAsset { nf_word : Word }.

(** [enum Asset], objects/src/assets/mod.rs *)
Inductive Asset : Type :=
  | Fungible (a : FungibleAsset)
  | NonFungible (a : NonFungibleAsset).

#[export] Instance AccountId_eq_dec : EqDecision AccountId.
Proof. solve_decision. Defined.
#[export] Instance AccountId_countable : Countable AccountId.
Proof. apply (inj_countable' id_felt mkAccountId). by intros []. Defined.
#[export] Instance FungibleAsset_eq_dec : EqDecision FungibleAsset.
Proof. solve_decision. Defined.
#[export] Instance NonFungibleAsset_eq_dec : EqDecision NonFungibleAsset.
Proof. solve_decision. Defined.
#[export] Instance NonFungibleAsset_countable : Countable NonFungibleAsset.
Proof. apply (inj_countable' nf_word mkNonFungibleAsset). by intros []. Defined.
#[export] Instance Asset_eq_dec : EqDecision Asset.
Proof. solve_decision. Defined.

(** [enum AssetError] *)
Inductive AssetError : Type :=
  | AmountTooBig (amount : Z)
  | AssetAmountNotSufficient (available requested : Z)
  | FungibleAssetInvalidTag (tag : Z)
  | FungibleAssetInvalidWord (w : Word)
  | InconsistentFaucetIds (a b : AccountId)
  | InvalidAccountId
  | InvalidFieldElement
  | NonFungibleAssetInvalidTag (tag : Z)
  | NotAFungibleFaucetId (id : AccountId) (ty : AccountType)
  | NotANonFungibleFaucetId (id : AccountId)
  | NotAnAsset (w : Word)
  | TokenSymbolError.

(** [enum AssetVaultError] *)
Inductive AssetVaultError : Type :=
  | AddFungibleAssetBalanceError (e : AssetError)
  | DuplicateAsset (e : MerkleError)
  | DuplicateNonFungibleAsset (a : NonFungibleAsset)
  | FungibleAssetNotFound (a : FungibleAsset)
  | NotANonFungibleAsset (a : Asset)
  | VaultNotAFungibleFaucetId (id : AccountId)
  | NonFungibleAssetNotFound (a : NonFungibleAsset)
  | SubtractFungibleAssetBalanceError (e : AssetError).

(** [enum AccountError] *)
Inductive AccountError : Type :=
  | AccountCodeAssemblyError
  | AccountCodeMergeError
  | AccountCodeDeserializationError (e : DeserializationError)
  | AccountCodeNoProcedures
  | AccountCodeTooManyProcedures (max actual : Z)
  | AccountCodeProcedureInvalidStorageOffset
  | AccountCodeProcedureInvalidStorageSize
  | AccountCodeProcedureInvalidPadding
  | AccountIdInvalidFieldElement
  | AccountIdTooFewOnes (min actual : Z)
  | AssetVaultUpdateError (e : AssetVaultError)
  | BuildError (cause : option AccountError)
  | DuplicateStorageItems (e : MerkleError)
  | FungibleFaucetIdInvalidFirstBit
  | FungibleFaucetInvalidMetadata
  | HeaderDataIncorrectLength (expected actual : Z)
  | HexParseError
  | InvalidAccountStorageMode
  | MapsUpdateToNonMapsSlot (slot : Z) (ty : StorageSlotType)
  | NonceNotMonotonicallyIncreasing (current new : Z)
  | SeedDigestTooFewTrailingZeros (expected actual : Z)
  | StorageSlotNotMap (slot : Z)
  | StorageSlotNotValue (slot : Z)
  | StorageIndexOutOfBounds (max actual : Z)
  | StorageTooManySlots (n : Z)
  | StorageOffsetOutOfBounds (max actual : Z)
  | PureProcedureWithStorageOffset
  | UnsupportedComponentForAccountType (ty : AccountType) (component_index : Z).

End Types.
