(* ===== verification/AccountId.v ===== *)
(** * Account identifiers

    Models objects/src/accounts/account_id.rs and the seed search of
    objects/src/accounts/seed.rs. *)

From S2P Require Import Prelude Felt Crypto Serde Types.
From stdpp Require Import countable strings.
Open Scope Z_scope.

(** ** Constants *)

Definition ACCOUNT_STORAGE_MASK_SHIFT : Z := 62.
Definition ACCOUNT_STORAGE_MASK : Z := Z.shiftl 3 ACCOUNT_STORAGE_MASK_SHIFT.
Definition ACCOUNT_TYPE_MASK_SHIFT : Z := 60.
Definition ACCOUNT_TYPE_MASK : Z := Z.shiftl 3 ACCOUNT_TYPE_MASK_SHIFT.
Definition ACCOUNT_ISFAUCET_MASK : Z := Z.shiftl 2 ACCOUNT_TYPE_MASK_SHIFT.

Definition FUNGIBLE_FAUCET : Z := 2.
Definition NON_FUNGIBLE_FAUCET : Z := 3.
Definition REGULAR_ACCOUNT_IMMUTABLE_CODE : Z := 0.
Definition REGULAR_ACCOUNT_UPDATABLE_CODE : Z := 1.
Definition PUBLIC : Z := 0.
Definition PRIVATE : Z := 2.

Definition REGULAR_ACCOUNT_SEED_DIGEST_MIN_TRAILING_ZEROS : Z := 23.
Definition FAUCET_SEED_DIGEST_MIN_TRAILING_ZEROS : Z := 31.
Definition MIN_ACCOUNT_ONES : Z := 5.

(** The discriminants of the two enums ([account_type as u64]). *)
Definition account_type_discr (t : AccountType) : Z :=
  match t with
  | FungibleFaucet => FUNGIBLE_FAUCET
  | NonFungibleFaucet => NON_FUNGIBLE_FAUCET
  | RegularAccountImmutableCode => REGULAR_ACCOUNT_IMMUTABLE_CODE
  | RegularAccountUpdatableCode => REGULAR_ACCOUNT_UPDATABLE_CODE
  end.
Definition storage_mode_discr (m : AccountStorageMode) : Z :=
  match m with Public => PUBLIC | Private => PRIVATE end.

(** [AccountType::is_faucet], [AccountType::is_regular_account] *)
Definition AccountType_is_faucet (t : AccountType) : bool :=
  match t with FungibleFaucet | NonFungibleFaucet => true | _ => false end.
Definition AccountType_is_regular_account (t : AccountType) : bool :=
  match t with RegularAccountImmutableCode | RegularAccountUpdatableCode => true | _ => false end.

(** [account_type_from_u64]. The last branch is the [unreachable!()] arm; by
    [account_type_bits_range] the value tested is one of the four above it. *)
Definition account_type_from_u64 (value : Z) : AccountType :=
  let bits := Z.shiftr (Z.land value ACCOUNT_TYPE_MASK) ACCOUNT_TYPE_MASK_SHIFT in
  if bits =? REGULAR_ACCOUNT_UPDATABLE_CODE then RegularAccountUpdatableCode
  else if bits =? REGULAR_ACCOUNT_IMMUTABLE_CODE then RegularAccountImmutableCode
  else if bits =? FUNGIBLE_FAUCET then FungibleFaucet
  else if bits =? NON_FUNGIBLE_FAUCET then NonFungibleFaucet
  else RegularAccountImmutableCode.

(** The free function [is_regular_account]. *)
Definition is_regular_account (account_id : Z) : bool :=
  match account_type_from_u64 account_id with
  | RegularAccountUpdatableCode | RegularAccountImmutableCode => true
  | _ => false
  end.

Definition storage_bits (value : Z) : Z :=
  Z.shiftr (Z.land value ACCOUNT_STORAGE_MASK) ACCOUNT_STORAGE_MASK_SHIFT.

(** [{:x}] with leading zeros: [n] lowercase digits, most significant first. *)
Definition hex_digit (d : Z) : Ascii.ascii :=
  nth (Z.to_nat d) (String.list_ascii_of_string "0123456789abcdef") Ascii.zero.
Fixpoint hex_fixed (n : nat) (v : Z) : string :=
  match n with
  | O => ""
  | S n' => String (hex_digit (v / 16 ^ Z.of_nat n' mod 16)) (hex_fixed n' v)
  end.

(** [hex_to_bytes] of miden-crypto at eight bytes: it reads back the two digit
    rendering of the bytes behind the prefix [0x]. *)
Class HexApi := {
  hex_to_bytes8 : string → option (list Z);
  hex_to_bytes8_spec : ∀ bs, length bs = 8%nat → Forall (λ b, 0 ≤ b < 2 ^ 8) bs →
    hex_to_bytes8 ("0x" +:+ String.concat "" (hex_fixed 2 <$> bs)) = Some bs
}.

Section AccountId.
  Context {F : FeltApi}.

(** ** Accessors *)

Definition account_type (id : AccountId) : AccountType :=
  account_type_from_u64 (as_int (id_felt id)).

Definition is_faucet (id : AccountId) : bool :=
  match account_type id with FungibleFaucet | NonFungibleFaucet => true | _ => false end.

Definition id_is_regular_account (id : AccountId) : bool :=
  is_regular_account (as_int (id_felt id)).

(** [storage_mode] panics on an id with invalid storage bits. *)
Definition storage_mode {E} (id : AccountId) : res E AccountStorageMode :=
  let bits := storage_bits (as_int (id_felt id)) in
  if bits =? PUBLIC then Ok Public
  else if bits =? PRIVATE then Ok Private
  else Panic.

Definition is_public {E} (id : AccountId) : res E bool :=
  m ← storage_mode id; Ok (bool_decide (m = Public)).

(** ** Conversions *)

(** [account_id_from_felt], [TryFrom<Felt>]. *)
Definition account_id_from_felt (value : felt) : res AccountError AccountId :=
  let int_value := as_int value in
  let count := count_ones int_value in
  if count <? MIN_ACCOUNT_ONES then Err (AccountIdTooFewOnes MIN_ACCOUNT_ONES count)
  else
    let bits := storage_bits int_value in
    if (bits =? PUBLIC) || (bits =? PRIVATE) then Ok (mkAccountId value)
    else Err InvalidAccountStorageMode.

Definition parse_felt (bs : list Z) : res AccountError felt :=
  ok_or AccountIdInvalidFieldElement (felt_try_from_bytes bs).

(** [TryFrom<[u8; 8]>], little-endian. *)
Definition account_id_from_bytes (value : list Z) : res AccountError AccountId :=
  element ← parse_felt (take 8 value); account_id_from_felt element.

(** [TryFrom<u64>] *)
Definition account_id_from_u64 (value : Z) : res AccountError AccountId :=
  element ← parse_felt (to_le_bytes 8 value); account_id_from_felt element.

(** [From<AccountId> for u64], [for [u8; 8]], [for LeafIndex<ACCOUNT_TREE_DEPTH>]. *)
Definition account_id_to_u64 (id : AccountId) : Z := as_int (id_felt id).
Definition account_id_to_bytes (id : AccountId) : list Z := to_le_bytes 8 (as_int (id_felt id)).
Definition account_id_leaf_index (id : AccountId) : Z := as_int (id_felt id).

(** [Ord for AccountId] *)
Definition account_id_cmp (a b : AccountId) : comparison :=
  Z.compare (as_int (id_felt a)) (as_int (id_felt b)).

(** ** Derivation from a seed *)

Section Seed.
  Context {H : HasherApi}.

Definition resize (n : nat) (x : felt) (l : list felt) : list felt :=
  take n l ++ replicate (n - length l) x.

Definition compute_digest (seed : Word) (code_commitment storage_commitment : Digest) : Digest :=
  hash_elements (resize 16 ZERO
    (word_elements seed ++ word_elements code_commitment ++ word_elements storage_commitment)).

Definition digest_pow (digest : Digest) : Z := trailing_zeros (as_int (w3 digest)).

Definition validate_seed_digest (digest : Digest) : res AccountError unit :=
  let required_zeros :=
    if is_regular_account (as_int (w0 digest))
    then REGULAR_ACCOUNT_SEED_DIGEST_MIN_TRAILING_ZEROS
    else FAUCET_SEED_DIGEST_MIN_TRAILING_ZEROS in
  let trailing_zeros := digest_pow digest in
  if required_zeros >? trailing_zeros
  then Err (SeedDigestTooFewTrailingZeros required_zeros trailing_zeros)
  else Ok tt.

(** [AccountId::new] *)
Definition account_id_new (seed : Word) (code_commitment storage_commitment : Digest)
    : res AccountError AccountId :=
  let seed_digest := compute_digest seed code_commitment storage_commitment in
  validate_seed_digest seed_digest ;; account_id_from_felt (w0 seed_digest).

(** The test of the loop of [get_account_seed_single]; [Panic] never reaches
    the caller because [storage_mode] is asked of a checked id. *)
Definition seed_matches (digest : Digest) (ty : AccountType) (mode : AccountStorageMode)
    : res AccountError bool :=
  match validate_seed_digest digest with
  | Ok _ =>
      match account_id_from_felt (w0 digest) with
      | Ok id =>
          if decide (account_type id = ty) then
            m ← storage_mode id; Ok (bool_decide (m = mode))
          else Ok false
      | Err _ => Ok false
      | Panic => Panic
      end
  | Err _ => Ok false
  | Panic => Panic
  end.

(** The loop itself, for at most [fuel] iterations; [None] when the budget
    runs out. *)
Fixpoint seed_loop (fuel : nat) (ty : AccountType) (mode : AccountStorageMode)
    (code storage : Digest) (current_seed : Word) (current_digest : Digest)
    : option (res AccountError Word) :=
  match fuel with
  | O => None
  | S fuel' =>
      match seed_matches current_digest ty mode with
      | Ok true => Some (Ok current_seed)
      | Ok false =>
          let next_seed := current_digest in
          seed_loop fuel' ty mode code storage next_seed (compute_digest next_seed code storage)
      | Err e => Some (Err e)
      | Panic => Some Panic
      end
  end.

(** The first seed: the four 8-byte chunks of the initial seed. *)
Definition init_seed_word (init_seed : list Z) : Word :=
  let chunk i := felt_new (from_le_bytes (take 8 (drop (8 * i) init_seed))) in
  mkWord (chunk 0%nat) (chunk 1%nat) (chunk 2%nat) (chunk 3%nat).

(** [get_account_seed_single] *)
Definition get_account_seed_single (fuel : nat) (init_seed : list Z)
    (ty : AccountType) (mode : AccountStorageMode) (code storage : Digest)
    : option (res AccountError Word) :=
  let current_seed := init_seed_word init_seed in
  seed_loop fuel ty mode code storage current_seed (compute_digest current_seed code storage).
End Seed.

(** ** Construction for tests

    [u64::from_be_bytes] on the eight bytes, after the high nibble of the first
    one has been replaced and the low bits of the last one have been set. *)
Definition new_with_type_and_mode {E} (bs : list Z) (ty : AccountType)
    (mode : AccountStorageMode) : res E AccountId :=
  let id_high_nibble :=
    Z.lor (as_u8 (Z.shiftl (storage_mode_discr mode) 6)) (as_u8 (Z.shiftl (account_type_discr ty) 4)) in
  let bs := <[0%nat := Z.land (nth 0 bs 0) 7]> bs in
  let bs := <[0%nat := Z.lor (nth 0 bs 0) id_high_nibble]> bs in
  let bs := <[7%nat := Z.lor (nth 7 bs 0) 31]> bs in
  element ← expect_some (felt_try_from_u64 (from_le_bytes (reverse bs)));
  expect_ok (account_id_from_felt element).

(** ** Hexadecimal strings *)

Section Hex.
  Context {X : HexApi}.

(** [format!("0x{:016x}", ..)] *)
Definition to_hex (id : AccountId) : string := "0x" +:+ hex_fixed 16 (as_int (id_felt id)).

Definition from_hex (hex_value : string) : res AccountError AccountId :=
  bs ← ok_or HexParseError (hex_to_bytes8 hex_value); account_id_from_bytes (reverse bs).
End Hex.

(** ** Serialization *)

Section Ser.
  Context {B : ByteIO}.

#[export] Instance AccountId_ser : Serializable AccountId :=
  {| write_into id := write_into (id_felt id);
     get_size_hint id := get_size_hint (id_felt id) |}.
#[export] Instance AccountId_de : Deserializable AccountId :=
  {| read_from := x ← read_from (A:=felt); reader_lift (account_id_from_felt x) |}.
End Ser.

(** ** Lemmas *)

(** The ids that [TryFrom<Felt>] accepts. *)
Definition valid_id (id : AccountId) : Prop := account_id_from_felt (id_felt id) = Ok id.

#[export] Instance valid_id_dec id : Decision (valid_id id).
Proof.
  unfold valid_id, account_id_from_felt. destruct (_ <? _).
  { right. done. }
  destruct (_ || _).
  - left. by destruct id.
  - right. done.
Defined.

Lemma account_type_bits value :
  Z.shiftr (Z.land value ACCOUNT_TYPE_MASK) ACCOUNT_TYPE_MASK_SHIFT = value / 2 ^ 60 mod 4.
Proof. apply (shiftr_land_mask value 60 2); lia. Qed.

Lemma account_type_bits_range value :
  0 ≤ Z.shiftr (Z.land value ACCOUNT_TYPE_MASK) ACCOUNT_TYPE_MASK_SHIFT ≤ 3.
Proof. rewrite account_type_bits. pose proof (Z.mod_pos_bound (value / 2 ^ 60) 4). lia. Qed.

Lemma storage_bits_spec value : storage_bits value = value / 2 ^ 62 mod 4.
Proof. apply (shiftr_land_mask value 62 2); lia. Qed.

Lemma storage_bits_u64 value : 0 ≤ value < 2 ^ 64 → storage_bits value = value / 2 ^ 62.
Proof.
  intros Hv. rewrite storage_bits_spec. apply Z.mod_small. split.
  - apply Z.div_pos; lia.
  - apply Z.div_lt_upper_bound; lia.
Qed.

(** The type is the discriminant stored in bits 60 and 61. *)
Lemma account_type_from_u64_spec value t :
  account_type_from_u64 value = t ↔ value / 2 ^ 60 mod 4 = account_type_discr t.
Proof.
  unfold account_type_from_u64. rewrite account_type_bits.
  pose proof (Z.mod_pos_bound (value / 2 ^ 60) 4 ltac:(lia)) as Hb.
  set (b := value / 2 ^ 60 mod 4) in *.
  assert (b = 0 ∨ b = 1 ∨ b = 2 ∨ b = 3) as [->|[->|[->| ->]]] by lia; destruct t; cbn; done.
Qed.

Lemma div_2_61 value : value / 2 ^ 61 mod 2 = (value / 2 ^ 60 mod 4) / 2.
Proof.
  replace (2 ^ 61) with (2 ^ 60 * 2) by lia. rewrite <-Z.div_div by lia.
  generalize (value / 2 ^ 60). intros x. Z.div_mod_to_equations. lia.
Qed.

(** The faucet bit of a word element is the faucet bit of the account type. *)
Lemma isfaucet_mask_spec value :
  (Z.land value ACCOUNT_ISFAUCET_MASK =? ACCOUNT_ISFAUCET_MASK) =
  AccountType_is_faucet (account_type_from_u64 value).
Proof.
  change ACCOUNT_ISFAUCET_MASK with (Z.shiftl 1 61).
  rewrite land_pow2_eqb, testbit_div_mod, div_2_61 by lia.
  destruct (account_type_from_u64 value) eqn:E; apply account_type_from_u64_spec in E;
    rewrite E; done.
Qed.

Lemma account_id_from_felt_Ok x id : account_id_from_felt x = Ok id → id = mkAccountId x.
Proof.
  unfold account_id_from_felt. destruct (_ <? _); [done|]. destruct (_ || _); [|done]. congruence.
Qed.

Lemma account_id_from_felt_valid x id : account_id_from_felt x = Ok id → valid_id id.
Proof. intros Hid. pose proof (account_id_from_felt_Ok _ _ Hid). by subst. Qed.

Lemma account_id_from_felt_no_panic x : account_id_from_felt x ≠ Panic.
Proof. unfold account_id_from_felt. destruct (_ <? _); [done|]. by destruct (_ || _). Qed.

Lemma valid_id_bits id :
  valid_id id → MIN_ACCOUNT_ONES ≤ count_ones (as_int (id_felt id)) ∧
    (storage_bits (as_int (id_felt id)) = PUBLIC ∨ storage_bits (as_int (id_felt id)) = PRIVATE).
Proof.
  unfold valid_id, account_id_from_felt.
  destruct (Z.ltb_spec (count_ones (as_int (id_felt id))) MIN_ACCOUNT_ONES) as [|Hc];
    [discriminate|].
  destruct (_ || _) eqn:Hb; [|discriminate]. intros _. split; [exact Hc|].
  apply orb_true_iff in Hb as [Hb|Hb]; apply Z.eqb_eq in Hb; auto.
Qed.

Lemma storage_mode_valid {E} id :
  valid_id id → ∃ m, storage_mode (E:=E) id = Ok m ∧
    storage_bits (as_int (id_felt id)) = storage_mode_discr m.
Proof.
  intros [_ Hb]%valid_id_bits. unfold storage_mode.
  destruct Hb as [-> | ->]; cbn; eauto.
Qed.

Lemma account_id_leb_antisym a b :
  account_id_cmp a b = Eq → a = b.
Proof.
  unfold account_id_cmp. rewrite Z.compare_eq_iff. intros E%as_int_inj.
  destruct a, b. cbn in *. by subst.
Qed.

#[export] Instance AccountId_serde {B : ByteIO} : SerdeLaws AccountId valid_id.
Proof.
  split.
  - intros id rest Hid. cbn. rewrite (decodes_bind _ _ _ _ _ _ felt_decodes) by done.
    unfold reader_lift. by rewrite Hid.
  - intros id _. apply length_write_felt.
Qed.
End AccountId.

(** ** Theorems *)

Section IdTheorems.
  Context {F : FeltApi}.

(** C38. The four most significant bits of a checked id are its storage mode
    followed by its account type, and reading the storage mode never panics. *)
Theorem account_id_metadata id :
  valid_id id →
  ∃ m, storage_mode (E:=AccountError) id = Ok m ∧
    as_int (id_felt id) / 2 ^ 60 = 4 * storage_mode_discr m + account_type_discr (account_type id).
Proof.
  intros Hid. destruct (storage_mode_valid (E:=AccountError) id Hid) as (m & Hm & Hb).
  exists m. split; [done|].
  rewrite storage_bits_u64 in Hb by apply as_int_u64.
  unfold account_type. rewrite <-Hb, <-(proj1 (account_type_from_u64_spec _ _) eq_refl).
  replace (2 ^ 62) with (2 ^ 60 * 4) by lia. rewrite <-Z.div_div by lia.
  generalize (as_int (id_felt id) / 2 ^ 60). intros x. Z.div_mod_to_equations. lia.
Qed.

(** [TryFrom<u64>] accepts exactly the canonical field elements with at least
    five ones whose bit 62 is clear. *)
Lemma account_id_from_u64_spec v :
  0 ≤ v < 2 ^ 64 →
  account_id_from_u64 v =
    if v <? MODULUS then account_id_from_felt (felt_new v) else Err AccountIdInvalidFieldElement.
Proof.
  intros Hv. unfold account_id_from_u64, parse_felt.
  rewrite felt_try_from_bytes_spec by done. by destruct (v <? MODULUS).
Qed.

Lemma account_id_from_bytes_to_bytes id :
  valid_id id → account_id_from_bytes (account_id_to_bytes id) = Ok id.
Proof.
  intros Hid. unfold account_id_from_bytes, account_id_to_bytes, parse_felt.
  rewrite take_ge by (rewrite length_to_le_bytes; lia).
  rewrite felt_try_from_bytes_spec by apply as_int_u64.
  pose proof (as_int_range (id_felt id)).
  destruct (Z.ltb_spec (as_int (id_felt id)) MODULUS); [|lia]. cbn.
  by rewrite felt_new_as_int.
Qed.

Lemma count_ones_low_five v : (∀ i, 0 ≤ i < 5 → Z.testbit v i = true) → MIN_ACCOUNT_ONES ≤ count_ones v.
Proof.
  intros Hb. transitivity (count_ones_upto 5 v).
  - cbn [count_ones_upto]. rewrite !Hb by lia. done.
  - apply count_ones_upto_mono. lia.
Qed.

Lemma high_byte_spec b ty mode :
  0 ≤ b < 2 ^ 8 →
  Z.lor (Z.land b 7) (Z.lor (as_u8 (Z.shiftl (storage_mode_discr mode) 6))
    (as_u8 (Z.shiftl (account_type_discr ty) 4))) =
  (4 * storage_mode_discr mode + account_type_discr ty) * 16 + b mod 8.
Proof.
  intros Hb. change 7 with (Z.ones 3). rewrite Z.land_ones by lia. change (2 ^ 3) with 8.
  pose proof (Z.mod_pos_bound b 8 ltac:(lia)) as Hm. set (x := b mod 8) in *.
  assert (x = 0 ∨ x = 1 ∨ x = 2 ∨ x = 3 ∨ x = 4 ∨ x = 5 ∨ x = 6 ∨ x = 7) as Hx by lia.
  destruct_or! Hx; rewrite Hx; destruct ty, mode; done.
Qed.

Lemma low_byte_bits b i : 0 ≤ i < 5 → Z.testbit (Z.lor b 31) i = true.
Proof.
  intros Hi. rewrite Z.lor_spec. change 31 with (Z.ones 5).
  by rewrite Z.ones_spec_low, orb_true_r by lia.
Qed.

Lemma low_byte_range b : 0 ≤ b < 2 ^ 8 → 0 ≤ Z.lor b 31 < 2 ^ 8.
Proof.
  intros Hb. split; [apply Z.lor_nonneg; lia|].
  apply bits_lt_pow2; [lia|apply Z.lor_nonneg; lia|]. intros i Hi.
  rewrite Z.lor_spec, (testbit_high b 8 i), (testbit_high 31 8 i) by lia. done.
Qed.

(** The constructor used by the test suites never panics: for any eight
    bytes it returns an id that passes validation and has the requested type
    and storage mode. *)
Theorem new_with_type_and_mode_total bs ty mode :
  length bs = 8%nat → Forall (λ b, 0 ≤ b < 2 ^ 8) bs →
  ∃ id, new_with_type_and_mode (E:=AccountError) bs ty mode = Ok id ∧
    valid_id id ∧ account_type id = ty ∧ storage_mode (E:=AccountError) id = Ok mode.
Proof.
  intros Hlen Hall.
  do 8 (destruct bs as [|? bs]; [discriminate|]). destruct bs; [|discriminate].
  rewrite !Forall_cons in Hall. destruct_and! Hall.
  unfold new_with_type_and_mode. cbn [nth list_insert insert reverse rev_append from_le_bytes rev].
  rewrite high_byte_spec by done.
  pose proof (low_byte_range z6 ltac:(done)) as Hlow.
  pose proof (Z.mod_pos_bound z 8 ltac:(lia)) as Hz.
  set (nib := 4 * storage_mode_discr mode + account_type_discr ty) in *.
  assert (0 ≤ nib ≤ 11) as Hnib by (subst nib; destruct mode, ty; split; by vm_compute).
  set (v := Z.lor z6 31 + _).
  assert (v / 2 ^ 60 = nib) as Hdiv.
  { symmetry. apply (Z.div_unique_pos _ _ _ (v - nib * 2 ^ 60)); subst v; lia. }
  assert (0 ≤ v < MODULUS) as Hv by (unfold MODULUS; Z.div_mod_to_equations; lia).
  rewrite felt_try_from_u64_spec by (unfold MODULUS in Hv; lia).
  destruct (Z.ltb_spec v MODULUS) as [_|]; [|lia]. cbn.
  set (id := mkAccountId (felt_new v)).
  assert (as_int (id_felt id) = v) as Hint by (by apply as_int_small).
  assert (storage_bits v = storage_mode_discr mode) as Hsb.
  { rewrite storage_bits_u64 by (unfold MODULUS in Hv; lia).
    replace (2 ^ 62) with (2 ^ 60 * 4) by lia. rewrite <-Z.div_div, Hdiv by lia.
    subst nib. destruct mode, ty; done. }
  assert (MIN_ACCOUNT_ONES ≤ count_ones v) as Hones.
  { apply count_ones_low_five. intros i Hi. subst v. rewrite <-(low_byte_bits z6 i Hi).
    rewrite <-(Z.mod_pow2_bits_low _ 8) by lia. rewrite (Z.mul_comm (2 ^ 8)), Z_mod_plus_full.
    by rewrite Z.mod_pow2_bits_low by lia. }
  assert (valid_id id) as Hvalid.
  { unfold valid_id, account_id_from_felt. rewrite Hint, Hsb.
    destruct (Z.ltb_spec (count_ones v) MIN_ACCOUNT_ONES); [lia|]. by destruct mode. }
  exists id. split; [|split; [done|split]].
  - unfold valid_id in Hvalid. cbn [id_felt id] in Hvalid. by rewrite Hvalid.
  - unfold account_type. rewrite Hint. apply account_type_from_u64_spec. rewrite Hdiv.
    subst nib. destruct mode, ty; done.
  - unfold storage_mode. rewrite Hint, Hsb. by destruct mode.
Qed.

(** *** Hexadecimal strings *)

Lemma hex_fixed_app m k v :
  hex_fixed (m + k) v = hex_fixed m (v / 16 ^ Z.of_nat k) +:+ hex_fixed k v.
Proof.
  induction m as [|m IH]; cbn [hex_fixed Nat.add]; [done|].
  rewrite IH. unfold String.append; fold String.append. f_equal. f_equal.
  rewrite Nat2Z.inj_add, Z.add_comm, Z.pow_add_r, Z.div_div by lia. done.
Qed.

Lemma hex_fixed_byte v : hex_fixed 2 (v mod 2 ^ 8) = hex_fixed 2 v.
Proof.
  cbn [hex_fixed]. change (2 ^ 8) with 256.
  change (16 ^ Z.of_nat 1) with 16. change (16 ^ Z.of_nat 0) with 1.
  f_equal; [f_equal|f_equal; f_equal]; Z.div_mod_to_equations; lia.
Qed.

Lemma string_app_nil_r (x : string) : x +:+ "" = x.
Proof. induction x as [|a x IH]; [done|]. change (String a (x +:+ "") = String a x). by rewrite IH. Qed.

Lemma string_app_assoc (x y z : string) : x +:+ (y +:+ z) = (x +:+ y) +:+ z.
Proof.
  induction x as [|a x IH]; [done|].
  change (String a (x +:+ (y +:+ z)) = String a ((x +:+ y) +:+ z)). by rewrite IH.
Qed.

Lemma concat_app (l1 l2 : list string) :
  String.concat "" (l1 ++ l2) = String.concat "" l1 +:+ String.concat "" l2.
Proof.
  assert (∀ (x : string) l, String.concat "" (x :: l) = x +:+ String.concat "" l) as Hcons.
  { intros x [|y l]; cbn; [by rewrite string_app_nil_r|done]. }
  induction l1 as [|x l1 IH]; [done|].
  rewrite <-app_comm_cons, !Hcons, IH. apply string_app_assoc.
Qed.

Lemma hex_fixed_bytes n v :
  hex_fixed (2 * n) v = String.concat "" (hex_fixed 2 <$> reverse (to_le_bytes n v)).
Proof.
  revert v. induction n as [|n IH]; intros v; [done|].
  replace (2 * S n)%nat with (2 * n + 2)%nat by lia.
  rewrite hex_fixed_app, IH. cbn [to_le_bytes]. rewrite reverse_cons, fmap_app, concat_app.
  cbn [fmap list_fmap String.concat]. rewrite hex_fixed_byte. done.
Qed.

Lemma to_le_bytes_range n v : Forall (λ b, 0 ≤ b < 2 ^ 8) (to_le_bytes n v).
Proof.
  revert v. induction n as [|n IH]; intros v; cbn [to_le_bytes]; constructor; [|done].
  apply Z.mod_pos_bound. lia.
Qed.

(** Every textual and numeric rendering of a checked id reads back as the
    same id: the [u64] value, the eight bytes, the hexadecimal string and the
    serialized bytes (in front of any remaining input). *)
Theorem account_id_roundtrips {X : HexApi} {B : ByteIO} id rest :
  valid_id id →
  account_id_from_u64 (account_id_to_u64 id) = Ok id ∧
  account_id_from_bytes (account_id_to_bytes id) = Ok id ∧
  from_hex (to_hex id) = Ok id ∧
  read_from (write_into id ++ rest) = Ok (id, rest).
Proof.
  intros Hid. split; [|split; [|split]].
  - unfold account_id_to_u64. rewrite account_id_from_u64_spec by apply as_int_u64.
    pose proof (as_int_range (id_felt id)).
    destruct (Z.ltb_spec (as_int (id_felt id)) MODULUS); [|lia]. by rewrite felt_new_as_int.
  - by apply account_id_from_bytes_to_bytes.
  - unfold from_hex, to_hex. change (hex_fixed 16) with (hex_fixed (2 * 8)). rewrite hex_fixed_bytes.
    rewrite hex_to_bytes8_spec.
    + cbn [ok_or mbind res_bind]. rewrite reverse_involutive.
      by apply account_id_from_bytes_to_bytes.
    + by rewrite length_reverse, length_to_le_bytes.
    + apply Forall_reverse, to_le_bytes_range.
  - by apply serde_decodes.
Qed.

(** *** Seeds *)

Section SeedTheorems.
  Context {H : HasherApi}.

(** The seeds the search visits: the digest of each seed is the next seed. *)
Definition nth_seed (code storage : Digest) (seed : Word) (n : nat) : Word :=
  Nat.iter n (λ s, compute_digest s code storage) seed.

Lemma nth_seed_succ code storage seed n :
  nth_seed code storage seed (S n) =
  nth_seed code storage (compute_digest seed code storage) n.
Proof. unfold nth_seed. by rewrite Nat.iter_succ_r. Qed.

Lemma seed_matches_total digest ty mode : ∃ b, seed_matches digest ty mode = Ok b.
Proof.
  unfold seed_matches. destruct (validate_seed_digest digest) as [u| |] eqn:Hv; [|eauto|].
  2:{ unfold validate_seed_digest in Hv. by destruct (_ >? _). }
  destruct (account_id_from_felt (w0 digest)) as [id| |] eqn:Hid; [|eauto|].
  2:{ by apply account_id_from_felt_no_panic in Hid. }
  case_decide; [|eauto].
  destruct (storage_mode_valid (E:=AccountError) id) as (m & -> & _); [|cbn; eauto].
  by eapply account_id_from_felt_valid.
Qed.

Lemma account_id_new_inv seed code storage id :
  account_id_new seed code storage = Ok id →
  validate_seed_digest (compute_digest seed code storage) = Ok tt ∧
  account_id_from_felt (w0 (compute_digest seed code storage)) = Ok id.
Proof.
  unfold account_id_new. destruct (validate_seed_digest _) as [[]| |]; [|discriminate..].
  cbn [mbind res_bind]. auto.
Qed.

Lemma seed_matches_new seed code storage ty mode :
  seed_matches (compute_digest seed code storage) ty mode = Ok true →
  ∃ id, account_id_new seed code storage = Ok id ∧ account_type id = ty ∧
    storage_mode (E:=AccountError) id = Ok mode.
Proof.
  unfold seed_matches, account_id_new.
  destruct (validate_seed_digest _); [|discriminate..].
  destruct (account_id_from_felt _) as [id| |]; [|discriminate..].
  case_decide as Hty; [|discriminate]. destruct (storage_mode id) as [m| |] eqn:Hm; [|discriminate..]. cbn.
  intros [= Hb]. apply bool_decide_eq_true in Hb. subst m. by exists id.
Qed.

Lemma seed_loop_sound fuel ty mode code storage seed s :
  seed_loop fuel ty mode code storage seed (compute_digest seed code storage) = Some (Ok s) →
  ∃ n, (n < fuel)%nat ∧ s = nth_seed code storage seed n ∧
    seed_matches (compute_digest s code storage) ty mode = Ok true.
Proof.
  revert seed. induction fuel as [|fuel IH]; intros seed; cbn [seed_loop]; [done|].
  destruct (seed_matches (compute_digest seed code storage) ty mode) as [[]| |] eqn:Hm;
    try discriminate.
  - intros [= <-]. exists 0%nat. split; [lia|auto].
  - intros (n & Hn & -> & Hs)%IH. exists (S n). rewrite nth_seed_succ. split; [lia|auto].
Qed.

Lemma seed_loop_complete fuel ty mode code storage seed n :
  (n < fuel)%nat →
  seed_matches (compute_digest (nth_seed code storage seed n) code storage) ty mode = Ok true →
  ∃ s, seed_loop fuel ty mode code storage seed (compute_digest seed code storage) = Some (Ok s).
Proof.
  revert seed n. induction fuel as [|fuel IH]; intros seed n Hn Hm; [lia|]. cbn [seed_loop].
  destruct (seed_matches_total (compute_digest seed code storage) ty mode) as [[] Hb]; rewrite Hb.
  { eauto. }
  destruct n as [|n]; [by cbn in Hm; congruence|].
  rewrite nth_seed_succ in Hm. apply (IH _ n); [lia|done].
Qed.

(** A seed returned by the search derives, with the same code and storage
    commitments, an id of the requested type and storage mode. *)
Theorem get_account_seed_sound fuel init ty mode code storage seed :
  get_account_seed_single fuel init ty mode code storage = Some (Ok seed) →
  ∃ id, account_id_new seed code storage = Ok id ∧ valid_id id ∧
    account_type id = ty ∧ storage_mode (E:=AccountError) id = Ok mode.
Proof.
  unfold get_account_seed_single. intros (n & _ & -> & Hm)%seed_loop_sound.
  destruct (seed_matches_new _ _ _ _ _ Hm) as (id & Hid & Hty & Hmode).
  exists id. split_and!; [done| |done|done].
  by apply account_id_new_inv in Hid as [_ Hid%account_id_from_felt_valid].
Qed.

(** The search returns a seed as soon as the chain of digests that starts
    at the initial seed reaches a matching one; it neither fails nor panics on
    the way. *)
Theorem get_account_seed_terminates init ty mode code storage n fuel :
  seed_matches (compute_digest (nth_seed code storage (init_seed_word init) n) code storage)
    ty mode = Ok true →
  (n < fuel)%nat →
  ∃ seed, get_account_seed_single fuel init ty mode code storage = Some (Ok seed).
Proof. intros Hm Hn. unfold get_account_seed_single. by apply (seed_loop_complete _ _ _ _ _ _ n). Qed.
End SeedTheorems.
End IdTheorems.

(** ** Concrete ids and witnesses *)

#[local] Existing Instance Goldilocks.

(** [testing::account_id] *)
Definition testing_account_id (ty : AccountType) (mode : AccountStorageMode) (rest : Z) : Z :=
  let id := 0 in
  let id := Z.lxor id (Z.shiftl (storage_mode_discr mode) ACCOUNT_STORAGE_MASK_SHIFT) in
  let id := Z.lxor id (Z.shiftl (account_type_discr ty) ACCOUNT_TYPE_MASK_SHIFT) in
  Z.lxor id rest.

Definition sample_id (ty : AccountType) (mode : AccountStorageMode) (rest : Z)
    : @AccountId Goldilocks := mkAccountId (felt_new (testing_account_id ty mode rest)).

(** A hexadecimal parser that satisfies [HexApi]. *)
Fixpoint hex_index (c : Ascii.ascii) (l : list Ascii.ascii) (i : Z) : option Z :=
  match l with
  | [] => None
  | d :: l' => if decide (c = d) then Some i else hex_index c l' (i + 1)
  end.
Definition hex_value (c : Ascii.ascii) : option Z :=
  hex_index c (String.list_ascii_of_string "0123456789abcdef") 0.
Fixpoint parse_pairs (s : string) : option (list Z) :=
  match s with
  | "" => Some []
  | String a (String b s') =>
      x ← hex_value a; y ← hex_value b; l ← parse_pairs s'; Some (16 * x + y :: l)
  | _ => None
  end.
Definition parse_hex (s : string) : option (list Z) :=
  match s with
  | String a (String b s') => if decide (String a (String b "") = "0x") then parse_pairs s' else None
  | _ => None
  end.

Lemma hex_value_digit d : 0 ≤ d < 16 → hex_value (hex_digit d) = Some d.
Proof.
  intros Hd.
  assert (Forall (λ n, hex_value (hex_digit (Z.of_nat n)) = Some (Z.of_nat n)) (seq 0 16)) as Hall.
  { by repeat constructor. }
  rewrite Forall_forall in Hall. specialize (Hall (Z.to_nat d)).
  rewrite !Z2Nat.id in Hall by lia. apply Hall, elem_of_seq. lia.
Qed.

Lemma parse_pairs_bytes bs :
  Forall (λ b, 0 ≤ b < 2 ^ 8) bs →
  parse_pairs (String.concat "" (hex_fixed 2 <$> bs)) = Some bs.
Proof.
  induction 1 as [|b bs Hb _ IH]; [done|].
  change (hex_fixed 2 <$> b :: bs) with ([hex_fixed 2 b] ++ (hex_fixed 2 <$> bs)).
  rewrite concat_app.
  change (parse_pairs (String (hex_digit (b / 16 ^ Z.of_nat 1 mod 16))
    (String (hex_digit (b / 16 ^ Z.of_nat 0 mod 16))
      (String.concat "" (hex_fixed 2 <$> bs)))) = Some (b :: bs)).
  cbn [parse_pairs].
  rewrite !hex_value_digit by (apply Z.mod_pos_bound; lia). cbn [mbind option_bind].
  rewrite IH. cbn. f_equal. f_equal. change (16 ^ Z.of_nat 1) with 16.
  change (16 ^ Z.of_nat 0) with 1. Z.div_mod_to_equations. lia.
Qed.

#[refine] Definition ParseHex : HexApi := {| hex_to_bytes8 := parse_hex |}.
Proof. intros bs _ Hbs. exact (parse_pairs_bytes bs Hbs). Defined.

Definition sample_faucet : @AccountId Goldilocks := sample_id FungibleFaucet Public 31.
Definition sample_nf_faucet : @AccountId Goldilocks := sample_id NonFungibleFaucet Public 47.
Definition sample_wallet : @AccountId Goldilocks := sample_id RegularAccountUpdatableCode Private 63.

Lemma account_id_metadata_witness :
  ∃ m, storage_mode (E:=AccountError) sample_wallet = Ok m ∧
    as_int (id_felt sample_wallet) / 2 ^ 60 =
      4 * storage_mode_discr m + account_type_discr (account_type sample_wallet).
Proof. apply (account_id_metadata sample_wallet). reflexivity. Defined.

Lemma new_with_type_and_mode_total_witness :
  ∃ id, new_with_type_and_mode (F:=Goldilocks) (E:=AccountError)
      [255; 0; 17; 3; 9; 128; 64; 200] NonFungibleFaucet Private = Ok id ∧
    valid_id id ∧ account_type id = NonFungibleFaucet ∧
    storage_mode (E:=AccountError) id = Ok Private.
Proof.
  apply (new_with_type_and_mode_total (F:=Goldilocks) [255; 0; 17; 3; 9; 128; 64; 200]).
  - reflexivity.
  - repeat constructor; lia.
Defined.

Lemma account_id_roundtrips_witness :
  account_id_from_u64 (account_id_to_u64 sample_faucet) = Ok sample_faucet ∧
  account_id_from_bytes (account_id_to_bytes sample_faucet) = Ok sample_faucet ∧
  from_hex (X:=ParseHex) (to_hex sample_faucet) = Ok sample_faucet ∧
  read_from (Deserializable:=AccountId_de (B:=PlainIO))
    (write_into (B:=PlainIO) sample_faucet ++ [1; 2; 3]) = Ok (sample_faucet, [1; 2; 3]).
Proof.
  apply (account_id_roundtrips (X:=ParseHex) (B:=PlainIO) sample_faucet [1; 2; 3]).
  reflexivity.
Defined.

(** A hash whose digests all carry a fixed faucet id and enough zeros. *)
Definition ConstHasher : @HasherApi Goldilocks :=
  let d := mkWord (id_felt sample_faucet) ZERO ZERO (felt_new (2 ^ 40)) in
  {| hash_elements _ := d; hash_bytes _ := d; hash_merge _ _ := d |}.

Lemma get_account_seed_sound_witness :
  ∃ id, account_id_new (H:=ConstHasher)
      (@init_seed_word Goldilocks (replicate 32 7)) EMPTY_WORD EMPTY_WORD = Ok id ∧
    valid_id id ∧ account_type id = FungibleFaucet ∧
    storage_mode (E:=AccountError) id = Ok Public.
Proof.
  apply (get_account_seed_sound (H:=ConstHasher) 3 (replicate 32 7)).
  reflexivity.
Defined.

Lemma get_account_seed_terminates_witness :
  ∃ seed, get_account_seed_single (H:=ConstHasher) 2 (replicate 32 7) FungibleFaucet Public
    EMPTY_WORD EMPTY_WORD = Some (Ok seed).
Proof.
  apply (get_account_seed_terminates (H:=ConstHasher) (replicate 32 7) FungibleFaucet Public
    EMPTY_WORD EMPTY_WORD 1 2); [reflexivity|lia].
Defined.
