(* ===== verification/Seed.v ===== *)
(** * The search for account seeds with several threads

    Models the concurrent version of [get_account_seed] in accounts/seed.rs:
    threads walk along different chains of digests, send the first matching seed
    they find over a channel, and look now and then at a flag that tells them to
    stop; the main thread takes the first seed out of the channel and sets the
    flag. A step is one round of the loop of a thread, or one of the two actions
    of the main thread. *)

From S2P Require Import Prelude Felt Crypto Serde Types AccountId.
Open Scope Z_scope.

(** How often a thread looks at the flag, in rounds. *)
Definition STOP_INTERVAL : Z := 500000.

Section Seed.
  Context {F : FeltApi} {H : HasherApi}.

Record Searcher : Type := mkSearcher {
  se_seed : Word;
  se_digest : Digest;
  se_count : Z;
  se_ended : bool
}.
Definition set_ended (s : Searcher) : Searcher := mkSearcher (se_seed s) (se_digest s) (se_count s) true.

(** What the main thread does next: wait for a seed, set the flag, or nothing more. *)
Inductive main_pc : Type := Receiving | Stopping (seed : Word) | Returned (seed : Word).
Record Search : Type := mkSearch {
  sr_threads : list Searcher;
  sr_channel : list (Digest * Word);
  sr_stop : bool;
  sr_main : main_pc
}.

(** The counter of rounds is an [i32]: it wraps around, or panics in builds that
    check for overflow. *)
Definition I32_MAX : Z := 2 ^ 31 - 1.
Definition count_round (overflow_checks : bool) (count : Z) : option Z :=
  if count =? I32_MAX then (if overflow_checks then None else Some (- 2 ^ 31)) else Some (count + 1).

Section Params.
  Context (overflow_checks : bool) (ty : AccountType) (mode : AccountStorageMode) (code storage : Digest).

(** [init_seed[0].wrapping_add(count as u8)] *)
Definition thread_init_seed (init_seed : list Z) (count : Z) : list Z :=
  match init_seed with b :: rest => as_u8 (b + as_u8 count) :: rest | [] => [] end.
Definition searcher_start (init_seed : list Z) : Searcher :=
  let current_seed := init_seed_word init_seed in
  mkSearcher current_seed (compute_digest current_seed code storage) 0 false.
Definition search_start (thread_count : nat) (init_seed : list Z) : Search :=
  mkSearch ((λ count, searcher_start (thread_init_seed init_seed (Z.of_nat count))) <$> seq 0 thread_count) [] false Receiving.

(** One round of [get_account_seed_inner]: the searcher and the seed it sends. A
    panic ends the thread. *)
Definition search_round (stop : bool) (s : Searcher) : Searcher * option (Digest * Word) :=
  match count_round overflow_checks (se_count s) with
  | None => (set_ended s, None)
  | Some count =>
      let s := mkSearcher (se_seed s) (se_digest s) count (se_ended s) in
      if (count mod STOP_INTERVAL =? 0) && stop then (set_ended s, None)
      else match seed_matches (se_digest s) ty mode with
      | Ok true => (set_ended s, Some (se_digest s, se_seed s))
      | _ => let next_seed := se_digest s in
             (mkSearcher next_seed (compute_digest next_seed code storage) count (se_ended s), None)
      end
  end.

(** Sending to a main thread that has returned fails, which threads ignore. *)
Definition thread_step (i : nat) (w : Search) : Search :=
  match sr_threads w !! i with
  | Some s =>
      if se_ended s then w
      else
        let '(s, sent) := search_round (sr_stop w) s in
        mkSearch (<[i := s]> (sr_threads w)) (sr_channel w ++ match sent with Some x => [x] | None => [] end)
          (sr_stop w) (sr_main w)
  | None => w
  end.
Definition main_step (w : Search) : Search :=
  match sr_main w with
  | Receiving =>
      match sr_channel w with
      | (_, seed) :: rest => mkSearch (sr_threads w) rest (sr_stop w) (Stopping seed)
      | [] => w
      end
  | Stopping seed => mkSearch (sr_threads w) (sr_channel w) true (Returned seed)
  | Returned _ => w
  end.

Inductive turn : Type := MainTurn | ThreadTurn (i : nat).
#[export] Instance turn_eq_dec : EqDecision turn.
Proof. solve_decision. Defined.
Definition search_exec (t : turn) (w : Search) : Search :=
  match t with MainTurn => main_step w | ThreadTurn i => thread_step i w end.

(** [get_account_seed] returns what the main thread returns. *)
Definition search_result (w : Search) : option (res AccountError Word) :=
  match sr_main w with Returned seed => Some (Ok seed) | _ => None end.

(** ** Soundness *)

  Context (thread_count : nat) (init_seed : list Z) (sched : nat → turn).
  #[local] Abbreviation at_time n := (run search_exec sched (search_start thread_count init_seed) n).

(** The seeds of a thread, and those that the search may return. *)
Definition chain (i k : nat) : Word :=
  nth_seed code storage (init_seed_word (thread_init_seed init_seed (Z.of_nat i))) k.
Definition good_seed (seed : Word) : Prop :=
  ∃ i k, (i < thread_count)%nat ∧ seed = chain i k ∧ seed_matches (compute_digest seed code storage) ty mode = Ok true.

Lemma chain_next i k : compute_digest (chain i k) code storage = chain i (S k).
Proof. done. Qed.

Definition on_chain (i : nat) (s : Searcher) (k : nat) : Prop := se_seed s = chain i k ∧ se_digest s = chain i (S k).

Record search_inv (w : Search) : Prop := {
  si_threads : ∀ i s, sr_threads w !! i = Some s → (i < thread_count)%nat ∧ ∃ k, on_chain i s k;
  si_count : ∀ i s, sr_threads w !! i = Some s → - 2 ^ 31 ≤ se_count s ≤ I32_MAX;
  si_channel : Forall (λ x : Digest * Word, good_seed x.2) (sr_channel w);
  si_main : match sr_main w with Receiving => True | Stopping seed | Returned seed => good_seed seed end;
  si_stop : sr_stop w = true → ∃ seed, sr_main w = Returned seed;
  si_returned : ∀ seed, sr_main w = Returned seed → sr_stop w = true;
  si_ended : ∀ i s, sr_threads w !! i = Some s → se_ended s = true →
    sr_channel w ≠ [] ∨ sr_main w ≠ Receiving ∨ overflow_checks = true ∧ se_count s = I32_MAX
}.

(** A round, with its outcome by cases. *)
Lemma search_round_cases stop i s k s' sent :
  on_chain i s k → search_round stop s = (s', sent) →
  (s' = set_ended s ∧ sent = None ∧ overflow_checks = true ∧ se_count s = I32_MAX) ∨
  ∃ count, count_round overflow_checks (se_count s) = Some count ∧
    ((se_ended s' = true ∧ on_chain i s' k ∧ sent = None ∧ stop = true ∧ count mod STOP_INTERVAL = 0) ∨
     (se_ended s' = true ∧ on_chain i s' k ∧ sent = Some (chain i (S k), chain i k) ∧
        seed_matches (chain i (S k)) ty mode = Ok true) ∨
     (s' = mkSearcher (chain i (S k)) (chain i (S (S k))) count (se_ended s) ∧ sent = None ∧
        seed_matches (chain i (S k)) ty mode ≠ Ok true ∧ ¬ (stop = true ∧ count mod STOP_INTERVAL = 0))).
Proof.
  intros [Es Ed] Hr. unfold search_round in Hr. destruct (count_round overflow_checks (se_count s)) as [count|] eqn:Hc.
  - right. exists count. split; [done|]. cbv zeta in Hr. cbn [se_digest se_seed se_ended] in Hr. rewrite Ed, Es in Hr.
    destruct (Z.eqb_spec (count mod STOP_INTERVAL) 0) as [Hm|Hm]; cbn [andb] in Hr; [destruct stop|].
    + left. injection Hr as <- <-. cbn. by split_and!.
    + right. destruct (seed_matches _ ty mode) as [[]| |] eqn:Hs; injection Hr as <- <-; [left|right..]; split_and!; try done; by intros [? ?].
    + right. destruct (seed_matches _ ty mode) as [[]| |] eqn:Hs; injection Hr as <- <-; [left|right..]; split_and!; try done; by intros [? ?].
  - left. injection Hr as <- <-. unfold count_round in Hc. destruct (Z.eqb_spec (se_count s) I32_MAX); [|done].
    destruct overflow_checks; [done|discriminate].
Qed.

Lemma search_round_count stop s s' sent :
  search_round stop s = (s', sent) → - 2 ^ 31 ≤ se_count s ≤ I32_MAX → - 2 ^ 31 ≤ se_count s' ≤ I32_MAX.
Proof.
  unfold search_round, count_round. intros Hr Hc. destruct (Z.eqb_spec (se_count s) I32_MAX);
    [destruct overflow_checks; [by injection Hr as <- <-|]|];
    cbv zeta in Hr; (destruct (_ && stop); [|destruct (seed_matches _ _ _) as [[]| |]]); injection Hr as <- <-; cbn; unfold I32_MAX in *; lia.
Qed.

Lemma search_start_inv : search_inv (search_start thread_count init_seed).
Proof.
  constructor; [| |constructor|done|done|done|]; intros i s Hi; cbn [search_start sr_threads] in Hi; rewrite list_lookup_fmap in Hi;
    (destruct (seq 0 thread_count !! i) as [c|] eqn:Hs; [|done]); apply lookup_seq in Hs as [-> Hlt]; injection Hi as <-; [| |done].
  - split; [done|]. exists 0%nat. split; reflexivity.
  - cbn. unfold I32_MAX. lia.
Qed.

Lemma thread_step_inv i w : search_inv w → search_inv (thread_step i w).
Proof.
  intros Hinv. unfold thread_step. destruct (sr_threads w !! i) as [s|] eqn:Hi; [|done].
  destruct (se_ended s) eqn:He; [done|]. destruct Hinv as [Ht Hn Hc Hm Hs Hret Hend]. destruct (Ht i s Hi) as (Hlt & k & Hk).
  destruct (search_round (sr_stop w) s) as [s' sent] eqn:Hr.
  assert (∀ j s2, <[i:=s']> (sr_threads w) !! j = Some s2 → j = i ∧ s2 = s' ∨ sr_threads w !! j = Some s2) as Hlook.
  { intros j s2 Hj. destruct (decide (i = j)) as [<-|]; [|rewrite list_lookup_insert_ne in Hj by done; by right].
    rewrite list_lookup_insert_eq in Hj by (by apply lookup_lt_Some in Hi). left. split; congruence. }
  pose proof (search_round_cases (sr_stop w) i s k s' sent Hk Hr) as Hcase.
  constructor; cbn [sr_threads sr_channel sr_stop sr_main].
  - intros j s2 [[-> ->]|Hj]%Hlook; [|by apply Ht]. split; [done|].
    destruct Hcase as [(-> & _)|(count & _ & [(_ & ? & _)|[(_ & ? & _)|(-> & _)]])]; [by exists k|by exists k|by exists k|by exists (S k)].
  - intros j s2 [[-> ->]|Hj]%Hlook; [|by apply (Hn j)]. by apply (search_round_count (sr_stop w) s s' sent Hr), (Hn i).
  - apply Forall_app. split; [done|]. destruct Hcase as [(_ & -> & _)|(count & _ & [(_ & _ & -> & _)|[(_ & _ & -> & Hmt)|(_ & -> & _)]])];
      [constructor|constructor| |constructor]. constructor; [|constructor]. by exists i, k.
  - done.
  - done.
  - done.
  - intros j s2 [[-> ->]|Hj]%Hlook He2.
    + destruct Hcase as [(-> & _ & ? & ?)|(count & _ & [(_ & _ & _ & Hst & _)|[(_ & _ & -> & _)|(-> & _)]])].
      * right. right. by split.
      * right. left. apply Hs in Hst as [seed ->]. done.
      * left. by destruct (sr_channel w).
      * cbn in He2. congruence.
    + destruct (Hend j s2 Hj He2) as [Hne|?]; [left|by right]. by destruct (sr_channel w).
Qed.

Lemma main_step_inv w : search_inv w → search_inv (main_step w).
Proof.
  intros Hinv. pose proof Hinv as [Ht Hn Hc Hm Hs Hret Hend]. unfold main_step. destruct (sr_main w) as [|seed|seed] eqn:Em; [|constructor|done]; cbn; try done.
  - destruct (sr_channel w) as [|[d seed] rest]; [done|]. apply Forall_cons in Hc as [Hg Hc].
    constructor; cbn; try done; [by intros [seed' Hs']%Hs|]. intros i s _ _. right. by left.
  - intros _. by exists seed.
  - intros i s _ _. right. by left.
Qed.

Lemma search_run_inv n : search_inv (at_time n).
Proof.
  apply run_invariant; [apply search_start_inv|]. intros m Hm. cbn [run]. destruct (sched m); [by apply main_step_inv|by apply thread_step_inv].
Qed.

(** ** Progress *)

(** Every thread gets its turns again and again. *)
Definition fair_turns : Prop := ∀ t n, ∃ m, (n ≤ m)%nat ∧ sched m = t.

(** The main thread has a seed, or can take one. *)
Definition has_seed (w : Search) : Prop := sr_channel w ≠ [] ∨ sr_main w ≠ Receiving.

Lemma thread_step_main i w : sr_main (thread_step i w) = sr_main w ∧ sr_stop (thread_step i w) = sr_stop w.
Proof.
  unfold thread_step. destruct (sr_threads w !! i) as [s|]; [|done]. destruct (se_ended s); [done|]. by destruct (search_round _ _).
Qed.
Lemma thread_step_channel i w : sr_channel w ≠ [] → sr_channel (thread_step i w) ≠ [].
Proof.
  unfold thread_step. destruct (sr_threads w !! i) as [s|]; [|done]. destruct (se_ended s); [done|].
  destruct (search_round _ _). cbn. by destruct (sr_channel w).
Qed.
Lemma main_step_threads w : sr_threads (main_step w) = sr_threads w.
Proof. unfold main_step. destruct (sr_main w); [|done..]. by destruct (sr_channel w) as [|[]]. Qed.
Lemma thread_step_other i j w : i ≠ j → sr_threads (thread_step i w) !! j = sr_threads w !! j.
Proof.
  intros Hne. unfold thread_step. destruct (sr_threads w !! i) as [s|]; [|done]. destruct (se_ended s); [done|].
  destruct (search_round _ _). cbn. by rewrite list_lookup_insert_ne.
Qed.

Lemma has_seed_step t w : has_seed w → has_seed (search_exec t w).
Proof.
  intros Hs. destruct t as [|i]; cbn [search_exec].
  - right. unfold main_step. destruct (sr_main w) eqn:Em; [|done|by rewrite Em].
    destruct Hs as [Hs|Hs]; [|by destruct Hs]. by destruct (sr_channel w) as [|[]].
  - unfold has_seed. rewrite (proj1 (thread_step_main i w)). destruct Hs as [Hs|?]; [left; by apply thread_step_channel|by right].
Qed.

(** The thread [i] is still searching and has come to its seed [k]. *)
Definition searching (i k : nat) (w : Search) : Prop :=
  ∃ s, sr_threads w !! i = Some s ∧ se_ended s = false ∧ on_chain i s k ∧ (overflow_checks = true → se_count s = Z.of_nat k).

(** A turn of a searching thread finds a seed or goes on to the next one. *)
Lemma searching_step i k w :
  search_inv w → searching i k w → (overflow_checks = true → Z.of_nat k < I32_MAX) →
  has_seed (thread_step i w) ∨ searching i (S k) (thread_step i w) ∧ seed_matches (chain i (S k)) ty mode ≠ Ok true.
Proof.
  intros Hinv (s & Hi & He & Hk & Hcount) Hb. unfold thread_step. rewrite Hi, He.
  destruct (search_round (sr_stop w) s) as [s' sent] eqn:Hr.
  assert (<[i:=s']> (sr_threads w) !! i = Some s') as Hi' by (apply list_lookup_insert_eq; by apply lookup_lt_Some in Hi).
  destruct (search_round_cases (sr_stop w) i s k s' sent Hk Hr)
    as [(_ & _ & Ho & Hmax)|(count & Hc & [(_ & _ & _ & Hst & _)|[(_ & _ & -> & _)|(-> & -> & Hno & _)]])].
  - specialize (Hcount Ho). specialize (Hb Ho). lia.
  - left. right. cbn. apply (si_stop _ Hinv) in Hst as [seed ->]. done.
  - left. left. cbn. by destruct (sr_channel w).
  - right. split; [|done]. eexists. split; [exact Hi'|]. split; [done|]. split; [by split|]. intros Ho. cbn.
    specialize (Hcount Ho). specialize (Hb Ho). unfold count_round in Hc.
    destruct (Z.eqb_spec (se_count s) I32_MAX); [lia|]. injection Hc as <-. lia.
Qed.

Section Fair.
  Hypothesis Hfair : fair_turns.

Lemma until_turn (Q : Search → Prop) t :
  (∀ n, Q (at_time n) → sched n ≠ t → Q (at_time (S n))) →
  ∀ n, Q (at_time n) → ∃ m, (n ≤ m)%nat ∧ Q (at_time m) ∧ sched m = t.
Proof. apply (run_until search_exec sched _ (λ t', t' = t)). intros n. apply Hfair. Qed.

(** A thread whose chain has a match finds a seed, unless another does before. *)
Lemma seed_found i k : ∀ d j n,
  (j + d = k)%nat → seed_matches (chain i (S k)) ty mode = Ok true → (overflow_checks = true → Z.of_nat k < I32_MAX) →
  has_seed (at_time n) ∨ searching i j (at_time n) → ∃ m, (n ≤ m)%nat ∧ has_seed (at_time m).
Proof.
  induction d as [|d IH]; intros j n Hd Hm Hb Hn;
    (destruct (until_turn (λ w, has_seed w ∨ searching i j w) (ThreadTurn i)) with (n:=n) as (m & Hle & Hq & Ht); [|done|]).
  1,3: intros n' [Hs|Hs] Hne; cbn [run]; [left; by apply has_seed_step|right]; destruct Hs as (s & Hi & Hrest); exists s; split; [|done];
    (destruct (sched n') as [|i']; cbn [search_exec]; [by rewrite main_step_threads|rewrite thread_step_other; [done|congruence]]).
  - destruct Hq as [Hq|Hq]; [by exists m|]. exists (S m). split; [lia|]. cbn [run]. rewrite Ht. cbn [search_exec].
    destruct (searching_step i j _ (search_run_inv m) Hq) as [?|[_ Hno]]; [intros Ho; specialize (Hb Ho); lia|done|].
    destruct Hno. by replace j with k by lia.
  - destruct Hq as [Hq|Hq]; [by exists m|].
    destruct (searching_step i j _ (search_run_inv m) Hq) as [Hs|[Hs _]]; [intros Ho; specialize (Hb Ho); lia| |].
    + exists (S m). split; [lia|]. cbn [run]. by rewrite Ht.
    + destruct (IH (S j) (S m)) as (m' & ? & ?); [lia|done|done| |exists m'; split; [lia|done]].
      right. cbn [run]. by rewrite Ht.
Qed.

(** The main thread takes a seed, sets the flag and returns. *)
Lemma seed_returned n : has_seed (at_time n) → ∃ m seed, (n ≤ m)%nat ∧ sr_main (at_time m) = Returned seed ∧ sr_stop (at_time m) = true.
Proof.
  intros Hn. assert (∀ n, sr_main (at_time n) ≠ Receiving → ∃ m seed, (n ≤ m)%nat ∧ sr_main (at_time m) = Returned seed ∧ sr_stop (at_time m) = true) as Hstop.
  { clear n Hn. intros n Hn.
    destruct (until_turn (λ w, sr_main w ≠ Receiving) MainTurn) with (n:=n) as (m & Hle & Hq & Ht); [|done|].
    - intros n' Hq Hne. cbn [run]. destruct (sched n') as [|i]; [done|]. cbn [search_exec]. by rewrite (proj1 (thread_step_main i _)).
    - exists (S m). destruct (sr_main (at_time m)) as [|seed|seed] eqn:Em; [done| |]; exists seed; cbn [run]; rewrite Ht; cbn [search_exec];
        unfold main_step; rewrite Em; (split; [lia|]); [done|]. split; [done|]. by apply (si_returned _ (search_run_inv m)) with seed. }
  destruct (until_turn has_seed MainTurn) with (n:=n) as (m & Hle & Hq & Ht); [intros n' Hq _; cbn [run]; by apply has_seed_step|done|].
  destruct (Hstop (S m)) as (m' & seed & ? & ?); [|exists m', seed; split; [lia|done]].
  cbn [run]. rewrite Ht. cbn [search_exec]. unfold main_step. destruct (sr_main (at_time m)) eqn:Em; [|done|by rewrite Em].
  destruct Hq as [Hq|Hq]; [|by destruct Hq]. by destruct (sr_channel (at_time m)) as [|[]].
Qed.

(** *** Threads stop *)

(** The rounds until the counter is a multiple of the interval, across the wrap. *)
Definition rounds_left (count : Z) : Z :=
  if count <? 2147000000 then STOP_INTERVAL - count mod STOP_INTERVAL else 2 ^ 31 - count + 483648.

Lemma rounds_left_pos count : count ≤ I32_MAX → 0 < rounds_left count.
Proof.
  intros Hc. unfold rounds_left, I32_MAX in *. destruct (Z.ltb_spec count 2147000000); [|lia].
  pose proof (Z.mod_pos_bound count STOP_INTERVAL). unfold STOP_INTERVAL in *. lia.
Qed.
Lemma rounds_left_step count count' :
  - 2 ^ 31 ≤ count ≤ I32_MAX → count_round overflow_checks count = Some count' →
  count' mod STOP_INTERVAL = 0 ∨ rounds_left count' < rounds_left count.
Proof.
  intros Hc Hr. unfold count_round, rounds_left, I32_MAX, STOP_INTERVAL in *.
  destruct (Z.eqb_spec count (2 ^ 31 - 1)) as [->|Hne]; [destruct overflow_checks; [done|]; injection Hr as <-; right; reflexivity|].
  injection Hr as <-. destruct (Z.ltb_spec count 2147000000), (Z.ltb_spec (count + 1) 2147000000); [| |lia|right; lia].
  - destruct (decide ((count + 1) mod 500000 = 0)); [by left|right]. Z.div_mod_to_equations. lia.
  - left. replace (count + 1) with 2147000000 by lia. reflexivity.
Qed.

Lemma threads_stop j : ∀ R n s,
  sr_stop (at_time n) = true → sr_threads (at_time n) !! j = Some s → (Z.to_nat (rounds_left (se_count s)) ≤ R)%nat →
  ∃ m s', (n ≤ m)%nat ∧ sr_threads (at_time m) !! j = Some s' ∧ se_ended s' = true.
Proof.
  induction R as [R IH] using lt_wf_ind. intros n s Hst Hj HR.
  destruct (se_ended s) eqn:He; [by exists n, s|].
  destruct (until_turn (λ w, sr_stop w = true ∧ sr_threads w !! j = Some s) (ThreadTurn j)) with (n:=n) as (m & Hle & [Hst' Hj'] & Ht); [|done|].
  { intros n' [Hs' Hj'] Hne. cbn [run]. destruct (sched n') as [|i]; cbn [search_exec].
    - rewrite main_step_threads. split; [|done]. unfold main_step. destruct (si_stop _ (search_run_inv n') Hs') as [seed ->]. done.
    - rewrite (proj2 (thread_step_main i _)), thread_step_other by congruence. done. }
  destruct (si_threads _ (search_run_inv m) j s Hj') as (_ & k & Hk). pose proof (si_count _ (search_run_inv m) j s Hj') as Hrange.
  destruct (search_round true s) as [s' sent] eqn:Hr.
  assert (sr_threads (at_time (S m)) !! j = Some s' ∧ sr_stop (at_time (S m)) = true) as [HjS HstS].
  { cbn [run]. rewrite Ht. cbn [search_exec]. rewrite (proj2 (thread_step_main j _)). split; [|done].
    unfold thread_step. rewrite Hj', He, Hst', Hr. cbn. apply list_lookup_insert_eq. by apply lookup_lt_Some in Hj'. }
  destruct (search_round_cases true j s k s' sent Hk Hr) as [(-> & _)|(count & Hc & [(He' & _)|[(He' & _)|(-> & _ & _ & Hno)]])].
  - exists (S m), (set_ended s). split; [lia|done].
  - exists (S m), s'. split; [lia|done].
  - exists (S m), s'. split; [lia|done].
  - destruct (rounds_left_step (se_count s) count Hrange Hc) as [Hz|Hlt]; [by destruct Hno|].
    assert (count ≤ I32_MAX) as Hcr by apply (si_count _ (search_run_inv (S m)) j _ HjS).
    pose proof (rounds_left_pos count Hcr).
    destruct (IH (Z.to_nat (rounds_left count))) with (n:=S m) (s:=mkSearcher (chain j (S k)) (chain j (S (S k))) count (se_ended s))
      as (m' & s2 & ? & ?); [lia|done|done|done|]. exists m', s2. split; [lia|done].
Qed.
End Fair.

Lemma search_threads_length n : length (sr_threads (at_time n)) = thread_count.
Proof.
  apply (run_invariant search_exec sched _ (λ w, length (sr_threads w) = thread_count)).
  - cbn. by rewrite length_fmap, length_seq.
  - intros m Hm. cbn [run]. destruct (sched m) as [|i]; cbn [search_exec]; [by rewrite main_step_threads|].
    unfold thread_step. destruct (sr_threads (at_time m) !! i) as [s|]; [|done]. destruct (se_ended s); [done|].
    destruct (search_round _ s). cbn. by rewrite length_insert.
Qed.

(** Nothing has been found, and the counters are the numbers of rounds. *)
Definition nothing_found (w : Search) : Prop :=
  sr_main w = Receiving ∧ sr_channel w = [] ∧ sr_stop w = false ∧
  ∀ i s, sr_threads w !! i = Some s → ∃ k, on_chain i s k ∧ se_count s = Z.of_nat k ∧ Z.of_nat k ≤ I32_MAX.

Lemma nothing_found_step i w :
  overflow_checks = true → (∀ k, Z.of_nat k < I32_MAX → seed_matches (chain i (S k)) ty mode ≠ Ok true) →
  nothing_found w → nothing_found (thread_step i w).
Proof.
  intros Ho Hno (Hm & Hc & Hs & Ht). unfold thread_step. destruct (sr_threads w !! i) as [s|] eqn:Hi; [|done].
  destruct (se_ended s); [done|]. destruct (Ht i s Hi) as (k & Hk & Hcount & Hmax). rewrite Hs. destruct (search_round false s) as [s' sent] eqn:Hr.
  assert (sent = None ∧ ∃ k, on_chain i s' k ∧ se_count s' = Z.of_nat k ∧ Z.of_nat k ≤ I32_MAX) as [-> Hs'].
  { destruct (search_round_cases false i s k s' sent Hk Hr) as [(-> & -> & _)|(count & Hcr & Hcase)]; [split; [done|by exists k]|].
    assert (Z.of_nat k < I32_MAX ∧ count = Z.of_nat (S k)) as [Hlt ->].
    { unfold count_round in Hcr. rewrite Ho, Hcount in Hcr. destruct (Z.eqb_spec (Z.of_nat k) I32_MAX); [done|].
      injection Hcr as <-. split; lia. }
    destruct Hcase as [(_ & _ & _ & ? & _)|[(_ & _ & _ & Hmt)|(-> & -> & _)]]; [done|by destruct (Hno k)|].
    split; [done|]. exists (S k). split; [by split|]. split; [done|lia]. }
  split_and!; cbn; [done|by rewrite Hc|done|]. intros j s2 Hj. destruct (decide (i = j)) as [<-|].
  - rewrite list_lookup_insert_eq in Hj by (by apply lookup_lt_Some in Hi). by injection Hj as <-.
  - rewrite list_lookup_insert_ne in Hj by done. by apply Ht.
Qed.

(** ** Theorems *)

(** C35. The concurrent search is sound. However the threads are interleaved,
    a seed that is returned is on the chain of one of the threads, which start at
    different seeds, and derives an id of the requested type and storage mode
    with the same code and storage commitments, like a seed of the search with
    one thread. *)
Theorem seed_search_sound n seed :
  search_result (at_time n) = Some (Ok seed) →
  (∃ i k, (i < thread_count)%nat ∧ seed = chain i k) ∧
  ∃ id, account_id_new seed code storage = Ok id ∧ valid_id id ∧ account_type id = ty ∧ storage_mode (E:=AccountError) id = Ok mode.
Proof.
  unfold search_result. intros Hr. pose proof (si_main _ (search_run_inv n)) as Hm. destruct (sr_main (at_time n)) as [| |s]; [done..|].
  injection Hr as ->. destruct Hm as (i & k & Hi & Hs & Hmt). split; [by exists i, k|].
  destruct (seed_matches_new _ _ _ _ _ Hmt) as (id & Hid & Hty & Hmode). exists id. split_and!; [done| |done|done].
  by apply account_id_new_inv in Hid as [_ Hid%account_id_from_felt_valid].
Qed.

(** C21. The concurrent search ends. In every run that gives every thread its
    turns, if the chain of one thread reaches a matching digest (within the
    first 2^31 - 1 rounds, in builds that check for overflow), the main thread
    returns a seed, and every other thread stops as well, although it looks at
    the flag only every 500000 rounds and its counter wraps around. *)
Theorem seed_search_ends i k :
  fair_turns → (i < thread_count)%nat → seed_matches (compute_digest (chain i k) code storage) ty mode = Ok true →
  (overflow_checks = true → Z.of_nat k < I32_MAX) →
  ∃ n seed, search_result (at_time n) = Some (Ok seed) ∧
    ∀ j, (j < thread_count)%nat → ∃ m s, (n ≤ m)%nat ∧ sr_threads (at_time m) !! j = Some s ∧ se_ended s = true.
Proof.
  intros Hfair Hi Hm Hb. destruct (seed_found Hfair i k k 0 0) as (n & _ & Hn); [lia|done|done| |].
  { right. exists (searcher_start (thread_init_seed init_seed (Z.of_nat i))). cbn [run search_start sr_threads].
    rewrite list_lookup_fmap, lookup_seq_lt by done. split; [done|]. split; [done|]. split; [by split|done]. }
  destruct (seed_returned Hfair n Hn) as (m & seed & _ & Hret & Hstop). exists m, seed.
  split; [unfold search_result; by rewrite Hret|]. intros j Hj.
  assert (is_Some (sr_threads (at_time m) !! j)) as [s Hs].
  { apply lookup_lt_is_Some. rewrite search_threads_length. done. }
  by apply (threads_stop Hfair j (Z.to_nat (rounds_left (se_count s))) m s).
Qed.

(** In builds that check for overflow, the search hangs when no chain has
    a match in its first 2^31 - 1 rounds: every thread ends by a panic of its
    counter, and the main thread, which holds a sender itself, waits for ever. *)
Theorem seed_search_hangs n :
  overflow_checks = true →
  (∀ i k, (i < thread_count)%nat → Z.of_nat k < I32_MAX → seed_matches (compute_digest (chain i k) code storage) ty mode ≠ Ok true) →
  search_result (at_time n) = None.
Proof.
  intros Ho Hno. assert (nothing_found (at_time n)) as [Hm _]; [|unfold search_result; by rewrite Hm].
  induction n as [|n IH]; cbn [run].
  - split_and!; [done..|]. intros i s Hi. cbn [search_start sr_threads] in Hi. rewrite list_lookup_fmap in Hi.
    destruct (seq 0 thread_count !! i) as [c|] eqn:Hs; [|done]. apply lookup_seq in Hs as [-> Hlt]. injection Hi as <-.
    exists 0%nat. split; [by split|]. split; [done|]. unfold I32_MAX. lia.
  - destruct (sched n) as [|i]; cbn [search_exec].
    + destruct IH as (Hm & Hc & Hs & Ht). unfold main_step. rewrite Hm, Hc. by split_and!.
    + destruct (decide (i < thread_count)%nat) as [Hi|Hi]; [apply nothing_found_step; [done| |done]; intros k; by apply Hno|].
      unfold thread_step. rewrite lookup_ge_None_2; [done|]. rewrite search_threads_length. lia.
Qed.

End Params.

(** ** The log of a search (feature log) *)

Record Log : Type := mkLog { log_digest : Digest; log_seed : Word; log_count : Z; log_pow : Z }.
Definition log_start (digest : Digest) (seed : Word) : Log := mkLog digest seed 0 0.
(** [Log::iteration]; true when it prints the state of the search. *)
Definition log_iteration (digest : Digest) (seed : Word) (log : Log) : Log * bool :=
  let count := log_count log + 1 in
  let pow := digest_pow digest in
  let log := if log_pow log <=? pow then mkLog digest seed count pow
             else mkLog (log_digest log) (log_seed log) count (log_pow log) in
  (log, count mod STOP_INTERVAL =? 0).
Definition log_run (l : list (Digest * Word)) (log : Log) : Log := foldl (λ log x, (log_iteration x.1 x.2 log).1) log l.

Lemma log_run_snoc l x log : log_run (l ++ [x]) log = (log_iteration x.1 x.2 (log_run l log)).1.
Proof. unfold log_run. by rewrite foldl_app. Qed.

Lemma trailing_zeros_from_pos n z : 0 ≤ trailing_zeros_from n z.
Proof. revert z. induction n as [|n IH]; intros z; cbn [trailing_zeros_from]; [lia|]. destruct (Z.testbit z 0); [lia|]. specialize (IH (Z.shiftr z 1)). lia. Qed.
Lemma digest_pow_pos d : 0 ≤ digest_pow d.
Proof. apply trailing_zeros_from_pos. Qed.

(** The log holds the last of the best digests of a search, with its seed, and
    counts the rounds. *)
Theorem log_keeps_best digest seed l : l ≠ [] →
  let log := log_run l (log_start digest seed) in
  ∃ l1 l2, l = l1 ++ (log_digest log, log_seed log) :: l2 ∧
    log_pow log = digest_pow (log_digest log) ∧ log_count log = Z.of_nat (length l) ∧
    Forall (λ x, digest_pow x.1 ≤ log_pow log) l1 ∧ Forall (λ x, digest_pow x.1 < log_pow log) l2.
Proof.
  induction l as [|[d w] l IH] using rev_ind; [done|]. intros _. cbv zeta. rewrite log_run_snoc, length_app.
  unfold log_iteration. cbn [fst snd length]. destruct (decide (l = [])) as [->|Hl].
  - exists [], []. cbn [log_run foldl log_start log_pow log_count]. pose proof (digest_pow_pos d) as Hd. apply Z.leb_le in Hd. rewrite Hd.
    cbn [log_digest log_seed log_pow log_count]. split; [reflexivity|]. split; [reflexivity|]. split; [reflexivity|]. by split.
  - destruct (IH Hl) as (l1 & l2 & Heq & Hp & Hc & H1 & H2). set (log := log_run l _) in *.
    destruct (Z.leb_spec (log_pow log) (digest_pow d)) as [Hle|Hlt]; cbn [log_digest log_seed log_pow log_count].
    + exists l, []. split; [reflexivity|]. split; [reflexivity|]. split; [lia|]. split; [|constructor]. rewrite Heq. apply Forall_app. split; [|constructor; [cbn [fst]; lia|]].
      * eapply Forall_impl; [exact H1|]. cbn. intros. lia.
      * eapply Forall_impl; [exact H2|]. cbn. intros. lia.
    + exists l1, (l2 ++ [(d, w)]). split; [rewrite Heq at 1; by rewrite <- app_assoc|]. split; [exact Hp|]. split; [lia|]. split; [exact H1|].
      apply Forall_app. split; [done|]. by constructor.
Qed.
End Seed.

(** ** Witnesses *)

#[local] Existing Instance Goldilocks.

(** Turns for the main thread and all the others. *)
Definition sample_turns (n : nat) : turn := match zigzag n with O => MainTurn | S i => ThreadTurn i end.
Lemma sample_turns_fair : fair_turns sample_turns.
Proof.
  intros [|i] n; [destruct (zigzag_fair 0 n) as (m & Hm & E)|destruct (zigzag_fair (S i) n) as (m & Hm & E)];
    exists m; (split; [exact Hm|]); unfold sample_turns; by rewrite E.
Qed.

#[local] Abbreviation sample_search ty := (run (search_exec (H:=ConstHasher) true ty Public EMPTY_WORD EMPTY_WORD) sample_turns
  (search_start (H:=ConstHasher) EMPTY_WORD EMPTY_WORD 2 (replicate 32 7))).

Lemma sample_search_result : match search_result (sample_search FungibleFaucet 10) with Some r => is_ok r | None => false end = true.
Proof. vm_compute. reflexivity. Qed.

Lemma seed_search_sound_witness :
  ∃ seed id, search_result (sample_search FungibleFaucet 10) = Some (Ok seed) ∧
    account_id_new (H:=ConstHasher) seed EMPTY_WORD EMPTY_WORD = Ok id ∧ account_type id = FungibleFaucet.
Proof.
  pose proof sample_search_result as Hok. destruct (search_result (sample_search FungibleFaucet 10)) as [[seed|e|]|] eqn:E; [|discriminate..].
  destruct (seed_search_sound (H:=ConstHasher) true FungibleFaucet Public EMPTY_WORD EMPTY_WORD 2 (replicate 32 7) sample_turns 10 seed E)
    as [_ (id & Hid & _ & Hty & _)]. exists seed, id. split; [reflexivity|]. split; [exact Hid|exact Hty].
Defined.

Lemma seed_search_ends_witness :
  ∃ n seed, search_result (sample_search FungibleFaucet n) = Some (Ok seed).
Proof.
  assert (seed_matches (compute_digest (H:=ConstHasher) (chain (H:=ConstHasher) EMPTY_WORD EMPTY_WORD (replicate 32 7) 1 0) EMPTY_WORD EMPTY_WORD)
    FungibleFaucet Public = Ok true) as Hm by reflexivity.
  pose proof (seed_search_ends (H:=ConstHasher) true FungibleFaucet Public EMPTY_WORD EMPTY_WORD 2 (replicate 32 7) sample_turns 1 0
    sample_turns_fair ltac:(lia) Hm (λ _, eq_refl)) as (n & seed & Hr & _). exists n, seed. exact Hr.
Defined.

Lemma seed_search_hangs_witness : search_result (sample_search NonFungibleFaucet 1000) = None.
Proof.
  apply (seed_search_hangs (H:=ConstHasher) true NonFungibleFaucet Public EMPTY_WORD EMPTY_WORD 2 (replicate 32 7) sample_turns 1000); [reflexivity|].
  intros i k _ _ Hm. set (d := compute_digest (H:=ConstHasher) EMPTY_WORD EMPTY_WORD EMPTY_WORD).
  assert (seed_matches d NonFungibleFaucet Public = Ok false) as Hf by reflexivity.
  change (seed_matches d NonFungibleFaucet Public = Ok true) in Hm. rewrite Hm in Hf. discriminate Hf.
Defined.

Lemma log_keeps_best_witness :
  ∃ l1 l2, [(EMPTY_WORD, EMPTY_WORD); (EMPTY_WORD, mkWord ONE ONE ONE ONE)] =
    l1 ++ (log_digest (log_run [(EMPTY_WORD, EMPTY_WORD); (EMPTY_WORD, mkWord ONE ONE ONE ONE)] (log_start EMPTY_WORD EMPTY_WORD)),
           log_seed (log_run [(EMPTY_WORD, EMPTY_WORD); (EMPTY_WORD, mkWord ONE ONE ONE ONE)] (log_start EMPTY_WORD EMPTY_WORD))) :: l2.
Proof.
  destruct (log_keeps_best EMPTY_WORD EMPTY_WORD [(EMPTY_WORD, EMPTY_WORD); (EMPTY_WORD, mkWord ONE ONE ONE ONE)]) as (l1 & l2 & Heq & _); [discriminate|].
  exists l1, l2. exact Heq.
Defined.
