(* ===== verification/Assets.v ===== *)
(** * Assets

    Models objects/src/assets/fungible.rs, nonfungible.rs and mod.rs: the two
    kinds of assets, their one-word encoding, their vault keys, the arithmetic
    of fungible assets and the byte format. *)

From S2P Require Import Prelude Felt Crypto Serde Types AccountId.
Open Scope Z_scope.

(** [FungibleAsset::MAX_AMOUNT] *)
Definition MAX_AMOUNT : Z := 2 ^ 63 - 1.
(** [FungibleAsset::SERIALIZED_SIZE] and [NonFungibleAsset::SERIALIZED_SIZE] *)
Definition FUNGIBLE_SERIALIZED_SIZE : nat := ELEMENT_BYTES + 8.
Definition NON_FUNGIBLE_SERIALIZED_SIZE : nat := ELEMENT_BYTES * WORD_SIZE.

Section Assets.
  Context {F : FeltApi}.

(** [is_not_a_non_fungible_asset] *)
Definition is_not_a_non_fungible_asset (asset : Word) : bool :=
  Z.land (as_int (w3 asset)) ACCOUNT_ISFAUCET_MASK =? ACCOUNT_ISFAUCET_MASK.

(** ** Fungible assets *)

Definition fungible_validate (a : FungibleAsset) : res AssetError FungibleAsset :=
  let ty := account_type (fa_faucet_id a) in
  if decide (ty = FungibleFaucet) then
    if fa_amount a >? MAX_AMOUNT then Err (AmountTooBig (fa_amount a)) else Ok a
  else Err (NotAFungibleFaucetId (fa_faucet_id a) ty).

Definition fungible_new (faucet_id : AccountId) (amount : Z) : res AssetError FungibleAsset :=
  fungible_validate (mkFungibleAsset faucet_id amount).

Definition fungible_new_unchecked (value : Word) : FungibleAsset :=
  mkFungibleAsset (mkAccountId (w3 value)) (as_int (w0 value)).

Definition is_from_same_faucet (a b : FungibleAsset) : bool :=
  bool_decide (fa_faucet_id a = fa_faucet_id b).

Definition fungible_vault_key (a : FungibleAsset) : Word :=
  mkWord ZERO ZERO ZERO (id_felt (fa_faucet_id a)).

(** [FungibleAsset::add]. The sum is computed with [checked_add] and an
    [expect], so an overflow of [u64] is a panic. *)
Definition fungible_add (self other : FungibleAsset) : res AssetError FungibleAsset :=
  if decide (fa_faucet_id self = fa_faucet_id other) then
    amount ← expect_some (u64_checked_add (fa_amount self) (fa_amount other));
    if amount >? MAX_AMOUNT then Err (AmountTooBig amount)
    else Ok (mkFungibleAsset (fa_faucet_id self) amount)
  else Err (InconsistentFaucetIds (fa_faucet_id self) (fa_faucet_id other)).

(** [FungibleAsset::sub] updates the receiver and returns the asset that was
    taken out of it. *)
Definition fungible_sub (amount : Z) : mut FungibleAsset AssetError FungibleAsset := λ self,
  match u64_checked_sub (fa_amount self) amount with
  | Some rest =>
      (Ok (mkFungibleAsset (fa_faucet_id self) amount), mkFungibleAsset (fa_faucet_id self) rest)
  | None => (Err (AssetAmountNotSufficient (fa_amount self) amount), self)
  end.

(** [From<FungibleAsset> for Word] *)
Definition fungible_to_word (a : FungibleAsset) : Word :=
  mkWord (felt_new (fa_amount a)) ZERO ZERO (id_felt (fa_faucet_id a)).

(** [TryFrom<Word> for FungibleAsset] *)
Definition fungible_try_from_word (value : Word) : res AssetError FungibleAsset :=
  if decide ((w1 value, w2 value) = (ZERO, ZERO)) then
    faucet_id ← map_err (λ _, InvalidAccountId) (account_id_from_felt (w3 value));
    fungible_new faucet_id (as_int (w0 value))
  else Err (FungibleAssetInvalidWord value).

(** ** Non-fungible assets *)

Definition nf_faucet_id (a : NonFungibleAsset) : AccountId := mkAccountId (w1 (nf_word a)).
Definition nf_vault_key (a : NonFungibleAsset) : Word := nf_word a.

(** [NonFungibleAsset::from_parts] *)
Definition nf_from_parts (faucet_id : AccountId) (data_hash : Word) : res AssetError NonFungibleAsset :=
  if decide (account_type faucet_id = NonFungibleFaucet) then
    let d3 := as_int (w3 data_hash) in
    Ok (mkNonFungibleAsset (mkWord (w0 data_hash) (id_felt faucet_id) (w2 data_hash)
          (felt_new (Z.lxor (Z.land d3 ACCOUNT_ISFAUCET_MASK) d3))))
  else Err (NotANonFungibleFaucetId faucet_id).

(** [NonFungibleAsset::validate] *)
Definition nf_validate (a : NonFungibleAsset) : res AssetError unit :=
  faucet_id ← map_err (λ _, InvalidAccountId) (account_id_from_felt (w1 (nf_word a)));
  let ty := account_type faucet_id in
  if decide (ty = NonFungibleFaucet) then Ok tt else Err (NotAFungibleFaucetId faucet_id ty).

(** [TryFrom<Word> for NonFungibleAsset] *)
Definition nf_try_from_word (value : Word) : res AssetError NonFungibleAsset :=
  let asset := mkNonFungibleAsset value in
  nf_validate asset ;; Ok asset.

(** [struct NonFungibleAssetDetails], its constructor, and [NonFungibleAsset::new] *)
Record NonFungibleAssetDetails : Type :=
  mkDetails { nfd_faucet_id : AccountId; nfd_asset_data : list Z }.

Definition details_new (faucet_id : AccountId) (asset_data : list Z)
    : res AssetError NonFungibleAssetDetails :=
  if decide (account_type faucet_id = NonFungibleFaucet) then Ok (mkDetails faucet_id asset_data)
  else Err (NotANonFungibleFaucetId faucet_id).

Definition nf_new {H : HasherApi} (details : NonFungibleAssetDetails)
    : res AssetError NonFungibleAsset :=
  let data_hash := hash_bytes (nfd_asset_data details) in
  nf_from_parts (nfd_faucet_id details) data_hash.

(** [Ord for NonFungibleAsset] is the order of the underlying digest. *)
Definition nf_leb {D : DigestOrd} (a b : NonFungibleAsset) : bool :=
  digest_leb (nf_word a) (nf_word b).

(** ** Assets *)

Definition asset_new_unchecked (value : Word) : Asset :=
  if is_not_a_non_fungible_asset value then Fungible (fungible_new_unchecked value)
  else NonFungible (mkNonFungibleAsset value).

Definition is_same (self other : Asset) : bool :=
  match self, other with
  | Fungible l, Fungible r => is_from_same_faucet l r
  | NonFungible l, NonFungible r => bool_decide (l = r)
  | _, _ => false
  end.

Definition is_fungible (a : Asset) : bool :=
  match a with Fungible _ => true | NonFungible _ => false end.

Definition asset_faucet_id (a : Asset) : AccountId :=
  match a with Fungible a => fa_faucet_id a | NonFungible a => nf_faucet_id a end.

Definition vault_key (a : Asset) : Word :=
  match a with Fungible a => fungible_vault_key a | NonFungible a => nf_vault_key a end.

Definition unwrap_fungible {E} (a : Asset) : res E FungibleAsset :=
  match a with Fungible a => Ok a | NonFungible _ => Panic end.

Definition unwrap_non_fungible {E} (a : Asset) : res E NonFungibleAsset :=
  match a with Fungible _ => Panic | NonFungible a => Ok a end.

(** [From<Asset> for Word] *)
Definition asset_to_word (a : Asset) : Word :=
  match a with Fungible a => fungible_to_word a | NonFungible a => nf_word a end.

(** [TryFrom<Word> for Asset] *)
Definition asset_try_from_word (value : Word) : res AssetError Asset :=
  if is_not_a_non_fungible_asset value then Fungible <$> fungible_try_from_word value
  else NonFungible <$> nf_try_from_word value.

(** ** Serialization *)

Section Ser.
  Context {B : ByteIO}.

#[export] Instance FungibleAsset_ser : Serializable FungibleAsset :=
  {| write_into a := write_into (fa_faucet_id a) ++ write_u64 (fa_amount a);
     get_size_hint a := (get_size_hint (fa_faucet_id a) + 8)%nat |}.

Definition fungible_deserialize_with_account_id (faucet_id : AccountId) : reader FungibleAsset :=
  amount ← read_u64; reader_lift (fungible_new faucet_id amount).

#[export] Instance FungibleAsset_de : Deserializable FungibleAsset :=
  {| read_from := faucet_id ← read_from; fungible_deserialize_with_account_id faucet_id |}.

#[export] Instance NonFungibleAsset_ser : Serializable NonFungibleAsset :=
  {| write_into a := write_into (w1 (nf_word a)) ++ write_into (w0 (nf_word a)) ++
       write_into (w2 (nf_word a)) ++ write_into (w3 (nf_word a));
     get_size_hint _ := NON_FUNGIBLE_SERIALIZED_SIZE |}.

Definition nf_deserialize_with_account_id (faucet_id : AccountId) : reader NonFungibleAsset :=
  hash_0 ← read_from (A:=felt); hash_2 ← read_from (A:=felt); hash_3 ← read_from (A:=felt);
  reader_lift (nf_from_parts faucet_id (mkWord hash_0 ZERO hash_2 hash_3)).

#[export] Instance NonFungibleAsset_de : Deserializable NonFungibleAsset :=
  {| read_from := faucet_id ← read_from; reader_invalid (nf_deserialize_with_account_id faucet_id) |}.

#[export] Instance Asset_ser : Serializable Asset :=
  {| write_into a := match a with Fungible a => write_into a | NonFungible a => write_into a end;
     get_size_hint a :=
       match a with Fungible a => get_size_hint a | NonFungible a => get_size_hint a end |}.

#[export] Instance Asset_de : Deserializable Asset :=
  {| read_from :=
       account_id ← read_from (A:=AccountId);
       match account_type account_id with
       | FungibleFaucet => a ← fungible_deserialize_with_account_id account_id; mret (Fungible a)
       | NonFungibleFaucet => a ← nf_deserialize_with_account_id account_id; mret (NonFungible a)
       | _ => λ _, Err InvalidValue
       end |}.
End Ser.

(** ** Well-formed assets *)

Definition valid_fungible (a : FungibleAsset) : Prop :=
  valid_id (fa_faucet_id a) ∧ account_type (fa_faucet_id a) = FungibleFaucet ∧
  0 ≤ fa_amount a ≤ MAX_AMOUNT.

Definition valid_nf (a : NonFungibleAsset) : Prop :=
  valid_id (nf_faucet_id a) ∧ account_type (nf_faucet_id a) = NonFungibleFaucet ∧
  is_not_a_non_fungible_asset (nf_word a) = false.

Definition valid_asset (a : Asset) : Prop :=
  match a with Fungible a => valid_fungible a | NonFungible a => valid_nf a end.

(** ** Lemmas *)

Lemma is_not_nf_spec w :
  is_not_a_non_fungible_asset w = AccountType_is_faucet (account_type (mkAccountId (w3 w))).
Proof. apply isfaucet_mask_spec. Qed.

Lemma is_not_nf_testbit w : is_not_a_non_fungible_asset w = Z.testbit (as_int (w3 w)) 61.
Proof. by apply (land_pow2_eqb _ 61). Qed.

Lemma fungible_validate_Ok a b :
  fungible_validate a = Ok b ↔
  a = b ∧ account_type (fa_faucet_id a) = FungibleFaucet ∧ fa_amount a ≤ MAX_AMOUNT.
Proof.
  unfold fungible_validate. case_decide as Hty; [|naive_solver].
  destruct (fa_amount a >? MAX_AMOUNT) eqn:Ha; [naive_solver lia|].
  split; [intros [= ->]|intros (-> & _)]; naive_solver lia.
Qed.

Lemma fungible_new_valid a :
  valid_fungible a → fungible_new (fa_faucet_id a) (fa_amount a) = Ok a.
Proof.
  intros (_ & Hty & Ha). apply fungible_validate_Ok. destruct a. split_and!; [done|done|apply Ha].
Qed.

Lemma amount_as_int a : valid_fungible a → as_int (felt_new (fa_amount a)) = fa_amount a.
Proof.
  intros (_ & _ & Ha). apply as_int_small. unfold MAX_AMOUNT, MODULUS in *. lia.
Qed.

Lemma fungible_word_bit a :
  account_type (fa_faucet_id a) = FungibleFaucet →
  is_not_a_non_fungible_asset (fungible_to_word a) = true.
Proof.
  intros Hty. rewrite is_not_nf_spec.
  replace (mkAccountId (w3 (fungible_to_word a))) with (fa_faucet_id a) by (by destruct a as [[]]).
  by rewrite Hty.
Qed.

Lemma fungible_unchecked_word a : valid_fungible a → fungible_new_unchecked (fungible_to_word a) = a.
Proof.
  intros Ha. unfold fungible_new_unchecked. cbn. rewrite amount_as_int by done. by destruct a as [[] ?].
Qed.

Lemma nf_clear_bit d3 :
  0 ≤ d3 < MODULUS →
  let d := Z.lxor (Z.land d3 ACCOUNT_ISFAUCET_MASK) d3 in
  0 ≤ d < MODULUS ∧ Z.testbit d 61 = false.
Proof.
  intros Hd d. change ACCOUNT_ISFAUCET_MASK with (2 ^ 61) in d.
  assert (d = Z.ldiff d3 (2 ^ 61)) as ->.
  { subst d. apply Z.bits_inj'. intros i Hi. rewrite Z.lxor_spec, Z.land_spec, Z.ldiff_spec.
    by destruct (Z.testbit d3 i), (Z.testbit (2 ^ 61) i). }
  split.
  - pose proof (ldiff_bounds d3 (2 ^ 61)). lia.
  - by rewrite Z.ldiff_spec, Z.pow2_bits_true, andb_false_r by lia.
Qed.

Lemma nf_clear_bit_id d3 :
  Z.testbit d3 61 = false → Z.lxor (Z.land d3 ACCOUNT_ISFAUCET_MASK) d3 = d3.
Proof.
  intros Hb. assert (Z.land d3 ACCOUNT_ISFAUCET_MASK = 0) as ->; [|apply Z.lxor_0_l].
  change ACCOUNT_ISFAUCET_MASK with (2 ^ 61). apply Z.bits_inj'. intros i Hi.
  rewrite Z.land_spec, Z.bits_0. destruct (decide (i = 61)) as [->|].
  - by rewrite Hb.
  - by rewrite Z.pow2_bits_false, andb_false_r by lia.
Qed.

Lemma nf_from_parts_valid id h a :
  valid_id id → nf_from_parts id h = Ok a → valid_nf a ∧ nf_faucet_id a = id.
Proof.
  unfold nf_from_parts, valid_nf. case_decide as Hty; [|done]. intros Hid [= <-]. cbn.
  destruct (nf_clear_bit (as_int (w3 h)) (as_int_range _)) as [Hr Hb].
  split; [|by destruct id]. split; [by destruct id|]. split; [by destruct id|].
  rewrite is_not_nf_testbit. cbn. by rewrite as_int_small.
Qed.

Lemma nf_from_parts_id a h :
  valid_nf a → w0 h = w0 (nf_word a) → w2 h = w2 (nf_word a) → w3 h = w3 (nf_word a) →
  nf_from_parts (nf_faucet_id a) h = Ok a.
Proof.
  intros (_ & Hty & Hb) E0 E2 E3. unfold nf_from_parts. rewrite decide_True by done.
  rewrite is_not_nf_testbit in Hb. rewrite E0, E2, E3, nf_clear_bit_id, felt_new_as_int by done.
  by destruct a as [[]].
Qed.

Lemma vault_key_fungible_inj a b :
  fungible_vault_key a = fungible_vault_key b → fa_faucet_id a = fa_faucet_id b.
Proof. destruct a as [[]], b as [[]]. unfold fungible_vault_key. cbn. congruence. Qed.

(** Fungible and non-fungible assets never share a key: their third elements
    differ in the faucet bit. *)
Lemma vault_key_disjoint a b :
  valid_fungible a → valid_nf b → fungible_vault_key a ≠ nf_vault_key b.
Proof.
  intros (_ & Hty & _) (_ & _ & Hb) E.
  assert (is_not_a_non_fungible_asset (fungible_vault_key a) = true) as Ha.
  { rewrite is_not_nf_spec.
    replace (mkAccountId (w3 (fungible_vault_key a))) with (fa_faucet_id a) by (by destruct a as [[]]).
    by rewrite Hty. }
  unfold nf_vault_key in E. congruence.
Qed.

(** Each kind of asset reads back from what it serializes to. *)
#[export] Instance FungibleAsset_serde {B : ByteIO} : SerdeLaws FungibleAsset valid_fungible.
Proof.
  split.
  - intros a rest Ha. pose proof Ha as (Hid & Hty & Hamt).
    cbn [write_into read_from FungibleAsset_ser FungibleAsset_de].
    rewrite <-app_assoc, (serde_bind valid_id) by done.
    unfold fungible_deserialize_with_account_id.
    rewrite read_u64_bind by (unfold MAX_AMOUNT in *; lia).
    unfold reader_lift. by rewrite fungible_new_valid.
  - intros a _. cbn. by rewrite length_app, length_write_felt, length_write_u64.
Qed.

Lemma nf_deserialize_spec {B : ByteIO} a rest :
  valid_nf a →
  nf_deserialize_with_account_id (nf_faucet_id a)
    (write_into (w0 (nf_word a)) ++ write_into (w2 (nf_word a)) ++
     write_into (w3 (nf_word a)) ++ rest) = Ok (a, rest).
Proof.
  intros Ha. unfold nf_deserialize_with_account_id. rewrite !read_felt_bind.
  unfold reader_lift. by rewrite nf_from_parts_id.
Qed.

#[export] Instance NonFungibleAsset_serde {B : ByteIO} : SerdeLaws NonFungibleAsset valid_nf.
Proof.
  split.
  - intros a rest Ha. pose proof Ha as (Hid & _).
    cbn [write_into read_from NonFungibleAsset_ser NonFungibleAsset_de]. rewrite <-!app_assoc.
    change (write_into (w1 (nf_word a))) with (write_into (nf_faucet_id a)).
    rewrite (serde_bind valid_id) by done. unfold reader_invalid.
    by rewrite nf_deserialize_spec.
  - intros a _. cbn. by rewrite !length_app, !length_write_felt.
Qed.

#[export] Instance Asset_serde {B : ByteIO} : SerdeLaws Asset valid_asset.
Proof.
  split.
  - intros [a|a] rest Ha; pose proof Ha as (Hid & Hty & Hx);
      cbn [write_into read_from Asset_ser Asset_de FungibleAsset_ser NonFungibleAsset_ser];
      rewrite <-!app_assoc.
    + rewrite (serde_bind valid_id), Hty by done.
      unfold fungible_deserialize_with_account_id.
      unfold mbind at 1, reader_bind at 1.
      rewrite read_u64_bind by (unfold MAX_AMOUNT in *; lia). unfold reader_lift.
      by rewrite fungible_new_valid.
    + change (write_into (w1 (nf_word a))) with (write_into (nf_faucet_id a)).
      rewrite (serde_bind valid_id), Hty by done. unfold mbind at 1, reader_bind at 1.
      by rewrite nf_deserialize_spec.
  - intros [a|a] Ha.
    + by apply (serde_size (A:=FungibleAsset)).
    + by apply (serde_size (A:=NonFungibleAsset)).
Qed.

Lemma asset_word_roundtrip a : valid_asset a → asset_try_from_word (asset_to_word a) = Ok a.
Proof.
  destruct a as [a|a]; intros Ha; pose proof Ha as (Hid & Hty & Hx); unfold asset_try_from_word; cbn [asset_to_word].
  - rewrite fungible_word_bit by done. unfold fungible_try_from_word.
    rewrite decide_True by done.
    change (w3 (fungible_to_word a)) with (id_felt (fa_faucet_id a)). rewrite Hid.
    cbn [mbind res_bind map_err].
    change (w0 (fungible_to_word a)) with (felt_new (fa_amount a)). rewrite amount_as_int by done.
    by rewrite fungible_new_valid.
  - rewrite Hx. unfold nf_try_from_word, nf_validate. cbn [nf_word].
    change (w1 (nf_word a)) with (id_felt (nf_faucet_id a)). rewrite Hid.
    cbn [mbind res_bind map_err]. rewrite decide_True by done. by destruct a.
Qed.

Lemma asset_to_word_inj a b :
  valid_asset a → valid_asset b → asset_to_word a = asset_to_word b → a = b.
Proof.
  intros Ha%asset_word_roundtrip Hb%asset_word_roundtrip E. rewrite E in Ha. congruence.
Qed.

(** ** Theorems *)

(** The word encoding is a bijection between well-formed assets and the
    words that [TryFrom<Word> for Asset] accepts. *)
Theorem asset_word_bijection :
  (∀ a, valid_asset a → asset_try_from_word (asset_to_word a) = Ok a) ∧
  (∀ w a, asset_try_from_word w = Ok a → valid_asset a ∧ asset_to_word a = w).
Proof.
  split.
  - apply asset_word_roundtrip.
  - intros w a. unfold asset_try_from_word.
    destruct (is_not_a_non_fungible_asset w) eqn:Hbit.
    + unfold fungible_try_from_word. case_decide as Hz; [|discriminate].
      destruct (account_id_from_felt (w3 w)) as [id| |] eqn:Hid; [|discriminate..].
      cbn [mbind res_bind map_err]. unfold fungible_new.
      destruct (fungible_validate _) as [b| |] eqn:Hv; [|discriminate..].
      apply fungible_validate_Ok in Hv as (<- & Hty & Hamt). cbn in Hty, Hamt. intros [= <-].
      pose proof (as_int_range (w0 w)). pose proof (account_id_from_felt_Ok _ _ Hid) as ->.
      split; [split_and!; cbn; [done|done|lia|done]|].
      destruct w. cbn in *. unfold fungible_to_word. cbn. rewrite felt_new_as_int. by simplify_eq.
    + unfold nf_try_from_word, nf_validate. cbn [nf_word].
      destruct (account_id_from_felt (w1 w)) as [id| |] eqn:Hid; [|discriminate..].
      cbn [mbind res_bind map_err]. case_decide as Hty; [|discriminate]. intros [= <-].
      pose proof (account_id_from_felt_Ok _ _ Hid) as ->. by split.
Qed.

(** Two well-formed assets are the same in the sense of [is_same] exactly
    when they have the same vault key, so a vault holds one slot per fungible
    faucet and one per non-fungible asset. *)
Lemma vault_key_is_same a b :
  valid_asset a → valid_asset b → vault_key a = vault_key b ↔ is_same a b = true.
Proof.
  destruct a as [a|a], b as [b|b]; cbn; intros Ha Hb.
  - unfold is_from_same_faucet. rewrite bool_decide_eq_true. split; [apply vault_key_fungible_inj|].
    unfold fungible_vault_key. by intros ->.
  - split; [|done]. intros E. by apply vault_key_disjoint in E.
  - split; [|done]. intros E. symmetry in E. by apply vault_key_disjoint in E.
  - rewrite bool_decide_eq_true. unfold nf_vault_key. split; [|by intros ->].
    destruct a, b. cbn. by intros ->.
Qed.

(** Addition of two well-formed fungible assets never panics. It succeeds
    exactly for assets of one faucet whose amounts add up to at most the
    maximum, and then yields a well-formed asset with the sum. *)
Theorem fungible_add_spec a b :
  valid_fungible a → valid_fungible b →
  (fungible_add a b ≠ Panic) ∧
  ∀ c, fungible_add a b = Ok c ↔
    fa_faucet_id a = fa_faucet_id b ∧ fa_amount a + fa_amount b ≤ MAX_AMOUNT ∧
    valid_fungible c ∧ c = mkFungibleAsset (fa_faucet_id a) (fa_amount a + fa_amount b).
Proof.
  intros (Hida & Htya & Ha) (Hidb & Htyb & Hb). unfold fungible_add, u64_checked_add.
  case_decide as Hid; [|split; [done|naive_solver]].
  destruct (Z.leb_spec (fa_amount a + fa_amount b) U64_MAX);
    [|unfold U64_MAX, MAX_AMOUNT in *; lia].
  cbn [expect_some mbind res_bind].
  destruct (fa_amount a + fa_amount b >? MAX_AMOUNT) eqn:Hs; (split; [discriminate|]); intros c.
  - split; [discriminate|]. intros (_ & Hle & _). lia.
  - split; [|naive_solver]. intros [= <-]. unfold valid_fungible. cbn. split_and!; (done || lia).
Qed.

(** [sub] removes the amount from the receiver or, when the balance is too
    small, fails and leaves the receiver alone; the amount taken out and the
    amount left always add up to the original balance. *)
Theorem fungible_sub_conserves a amount :
  valid_fungible a → 0 ≤ amount →
  let '(r, a') := fungible_sub amount a in
  match r with
  | Ok taken => amount ≤ fa_amount a ∧ valid_fungible a' ∧ valid_fungible taken ∧
      fa_amount taken = amount ∧ fa_amount a' + fa_amount taken = fa_amount a ∧
      fa_faucet_id a' = fa_faucet_id a ∧ fa_faucet_id taken = fa_faucet_id a
  | Err e => fa_amount a < amount ∧ a' = a ∧ e = AssetAmountNotSufficient (fa_amount a) amount
  | Panic => False
  end.
Proof.
  intros (Hid & Hty & Ha) Hamt. unfold fungible_sub, u64_checked_sub, valid_fungible.
  destruct (Z.leb_spec amount (fa_amount a)); cbn; [|done]. split_and!; (done || lia).
Qed.

(** Serialized assets of either kind read back as themselves, and the size
    hint is the number of bytes written. *)
Theorem asset_serde_roundtrip {B : ByteIO} a rest :
  valid_asset a →
  read_from (write_into a ++ rest) = Ok (a, rest) ∧ length (write_into a) = get_size_hint a.
Proof. intros Ha. split; [by apply serde_decodes|by apply serde_size]. Qed.

(** Whatever the hash of its data, an asset minted by a non-fungible faucet
    through [new] is well formed, names that faucet, and is told apart from
    every fungible asset by [Asset::new_unchecked]. *)
Theorem nf_new_valid {H : HasherApi} id data details a :
  valid_id id → details_new id data = Ok details → nf_new details = Ok a →
  valid_nf a ∧ nf_faucet_id a = id ∧ asset_new_unchecked (nf_word a) = NonFungible a.
Proof.
  intros Hid Hd Ha. unfold details_new in Hd. case_decide as Hty; [|discriminate].
  injection Hd as <-. apply nf_from_parts_valid in Ha as [Hv Hf]; [|done].
  split_and!; [done|done|]. unfold asset_new_unchecked. destruct Hv as (_ & _ & ->). by destruct a.
Qed.
End Assets.

(** ** Witnesses *)

#[local] Existing Instance Goldilocks.
#[local] Existing Instance ToyHasher.

Definition sample_fungible (amount : Z) : FungibleAsset := mkFungibleAsset sample_faucet amount.
Definition sample_nf : NonFungibleAsset :=
  mkNonFungibleAsset (mkWord (felt_new 5) (id_felt sample_nf_faucet) (felt_new 6) (felt_new 7)).

Lemma sample_fungible_valid amount : 0 ≤ amount ≤ MAX_AMOUNT → valid_fungible (sample_fungible amount).
Proof. intros Ha. split; [reflexivity|]. split; [reflexivity|]. exact Ha. Defined.

Lemma sample_nf_valid : valid_nf sample_nf.
Proof. split; [reflexivity|]. split; reflexivity. Defined.

Lemma fungible_add_spec_witness :
  (fungible_add (sample_fungible MAX_AMOUNT) (sample_fungible MAX_AMOUNT) ≠ Panic) ∧
  ∀ c, fungible_add (sample_fungible MAX_AMOUNT) (sample_fungible MAX_AMOUNT) = Ok c ↔
    sample_faucet = sample_faucet ∧ MAX_AMOUNT + MAX_AMOUNT ≤ MAX_AMOUNT ∧
    valid_fungible c ∧ c = mkFungibleAsset sample_faucet (MAX_AMOUNT + MAX_AMOUNT).
Proof.
  apply (fungible_add_spec (sample_fungible MAX_AMOUNT) (sample_fungible MAX_AMOUNT));
    apply sample_fungible_valid; unfold MAX_AMOUNT; lia.
Defined.

Lemma fungible_sub_conserves_witness :
  let '(r, a') := fungible_sub 4 (sample_fungible 10) in
  match r with
  | Ok taken => 4 ≤ 10 ∧ valid_fungible a' ∧ valid_fungible taken ∧
      fa_amount taken = 4 ∧ fa_amount a' + fa_amount taken = 10 ∧
      fa_faucet_id a' = sample_faucet ∧ fa_faucet_id taken = sample_faucet
  | Err e => 10 < 4 ∧ a' = sample_fungible 10 ∧ e = AssetAmountNotSufficient 10 4
  | Panic => False
  end.
Proof.
  apply (fungible_sub_conserves (sample_fungible 10) 4); [|lia].
  apply sample_fungible_valid. unfold MAX_AMOUNT. lia.
Defined.

Lemma asset_serde_roundtrip_witness :
  read_from (Deserializable:=Asset_de (B:=PlainIO))
    (write_into (B:=PlainIO) (NonFungible sample_nf) ++ [9]) = Ok (NonFungible sample_nf, [9]) ∧
  length (write_into (B:=PlainIO) (NonFungible sample_nf)) =
    get_size_hint (B:=PlainIO) (NonFungible sample_nf).
Proof. apply (asset_serde_roundtrip (B:=PlainIO) (NonFungible sample_nf) [9]). apply sample_nf_valid. Defined.

Lemma nf_new_valid_witness :
  ∃ a, nf_new (mkDetails sample_nf_faucet [1; 2; 3]) = Ok a ∧
    valid_nf a ∧ nf_faucet_id a = sample_nf_faucet ∧ asset_new_unchecked (nf_word a) = NonFungible a.
Proof.
  eexists. split; [reflexivity|].
  apply (nf_new_valid sample_nf_faucet [1; 2; 3] (mkDetails sample_nf_faucet [1; 2; 3])); reflexivity.
Defined.
