(* ===== verification/TokenSymbol.v ===== *)
(** * Token symbols

    Models objects/src/assets/token_symbol.rs: a symbol of one to six upper-case
    letters packed into a field element in base 26. *)

From S2P Require Import Prelude Felt Crypto Serde Types.
From stdpp Require Import strings.
Open Scope Z_scope.

Definition MAX_SYMBOL_LENGTH : nat := 6.
Definition MAX_ENCODED_VALUE : Z := 26 ^ 6.

(** [char as u64] and [u8 as char] *)
Definition char_code (c : Ascii.ascii) : Z := Z.of_N (Ascii.N_of_ascii c).
Definition code_char (z : Z) : Ascii.ascii := Ascii.ascii_of_N (Z.to_N z).
Definition A_CODE : Z := 65.
Definition is_ascii_uppercase (c : Ascii.ascii) : bool :=
  (65 <=? char_code c) && (char_code c <=? 90).

Section TokenSymbol.
  Context {F : FeltApi}.

(** [struct TokenSymbol(Felt)] *)
Record TokenSymbol : Type := mkTokenSymbol { symbol_felt : felt }.

(** The loop of [encode_symbol_to_felt]; the assertion [digit < 26] is a panic. *)
Fixpoint encode_loop (encoded_value : Z) (cs : list Ascii.ascii) : res AssetError Z :=
  match cs with
  | [] => Ok encoded_value
  | c :: cs' =>
      let digit := char_code c - A_CODE in
      if digit <? 26 then encode_loop (encoded_value * 26 + digit) cs' else Panic
  end.

(** [encode_symbol_to_felt] on the characters of the string. *)
Definition encode_symbol_to_felt (s : list Ascii.ascii) : res AssetError felt :=
  if bool_decide (s = []) || (MAX_SYMBOL_LENGTH <? length s)%nat then Err TokenSymbolError
  else if existsb (λ c, negb (is_ascii_uppercase c)) s then Err TokenSymbolError
  else felt_new <$> encode_loop 0 s.

(** The loop of [decode_felt_to_symbol] prepends one character per step. *)
Fixpoint decode_loop (n : nat) (remaining_value : Z) (decoded : list Ascii.ascii)
    : list Ascii.ascii :=
  match n with
  | O => decoded
  | S n' =>
      let digit := remaining_value mod 26 in
      decode_loop n' (remaining_value / 26) (code_char (digit + A_CODE) :: decoded)
  end.

(** [decode_felt_to_symbol] panics on a value that is too large. *)
Definition decode_felt_to_symbol {E} (encoded_felt : felt) : res E (list Ascii.ascii) :=
  let encoded_value := as_int encoded_felt in
  if encoded_value <? 26 ^ 6 then Ok (decode_loop 6 encoded_value []) else Panic.

(** [TokenSymbol::new], [TryFrom<Felt>] and [to_str] *)
Definition token_symbol_new (s : list Ascii.ascii) : res AssetError TokenSymbol :=
  mkTokenSymbol <$> encode_symbol_to_felt s.
Definition token_symbol_try_from_felt (x : felt) : res AssetError TokenSymbol :=
  if as_int x >=? MAX_ENCODED_VALUE then Err TokenSymbolError else Ok (mkTokenSymbol x).
Definition token_symbol_to_str {E} (t : TokenSymbol) : res E (list Ascii.ascii) :=
  decode_felt_to_symbol (symbol_felt t).

(** ** Lemmas *)

Definition letter (c : Ascii.ascii) : Prop := is_ascii_uppercase c = true.

(** The base 26 value of a list of letters, most significant first. *)
Definition symbol_value (cs : list Ascii.ascii) : Z :=
  foldl (λ acc c, acc * 26 + (char_code c - A_CODE)) 0 cs.

Lemma letter_code c : letter c ↔ 65 ≤ char_code c ≤ 90.
Proof. unfold letter, is_ascii_uppercase. rewrite andb_true_iff, !Z.leb_le. lia. Qed.

Lemma code_char_code c : code_char (char_code c) = c.
Proof. unfold code_char, char_code. by rewrite N2Z.id, Ascii.ascii_N_embedding. Qed.

Lemma char_code_char z : 0 ≤ z < 256 → char_code (code_char z) = z.
Proof.
  intros Hz. unfold code_char, char_code. rewrite Ascii.N_ascii_embedding by lia. lia.
Qed.

Lemma encode_loop_spec acc cs :
  Forall letter cs →
  encode_loop acc cs = Ok (foldl (λ acc c, acc * 26 + (char_code c - A_CODE)) acc cs).
Proof.
  intros Hcs. revert acc. induction Hcs as [|c cs Hc _ IH]; intros acc; [done|].
  cbn [encode_loop foldl]. apply letter_code in Hc. unfold A_CODE in *.
  destruct (Z.ltb_spec (char_code c - 65) 26); [apply IH|lia].
Qed.

Lemma symbol_value_snoc cs c : symbol_value (cs ++ [c]) = symbol_value cs * 26 + (char_code c - A_CODE).
Proof. unfold symbol_value. by rewrite foldl_app. Qed.

Lemma symbol_value_bound cs :
  Forall letter cs → 0 ≤ symbol_value cs < 26 ^ Z.of_nat (length cs).
Proof.
  induction cs as [|c cs IH] using rev_ind; intros Hcs; [done|].
  apply Forall_app in Hcs as [Hcs Hc]. apply Forall_singleton, letter_code in Hc.
  specialize (IH Hcs). rewrite symbol_value_snoc, length_app. cbn [length]. unfold A_CODE.
  rewrite Nat.add_1_r, Nat2Z.inj_succ, Z.pow_succ_r by lia. lia.
Qed.

(** Decoding [n] digits of a value undoes encoding [n] letters. *)
Lemma decode_loop_spec n cs tl :
  Forall letter cs → length cs = n → decode_loop n (symbol_value cs) tl = cs ++ tl.
Proof.
  revert cs tl. induction n as [|n IH]; intros cs tl Hcs Hlen.
  { by apply nil_length_inv in Hlen as ->. }
  destruct cs as [|c cs _] using rev_ind; [done|].
  apply Forall_app in Hcs as [Hcs Hc]. apply Forall_singleton, letter_code in Hc.
  rewrite length_app in Hlen. cbn in Hlen.
  cbn [decode_loop]. rewrite symbol_value_snoc.
  assert (0 ≤ char_code c - A_CODE < 26) as Hd by (unfold A_CODE; lia).
  replace (_ mod 26) with (char_code c - A_CODE) by (Z.div_mod_to_equations; lia).
  replace ((_ * 26 + _) / 26) with (symbol_value cs) by (Z.div_mod_to_equations; lia).
  rewrite IH by (done || lia).
  replace (char_code c - A_CODE + A_CODE) with (char_code c) by lia.
  by rewrite code_char_code, <-app_assoc.
Qed.

Lemma decode_loop_zeros n m cs tl :
  Forall letter cs → length cs = n →
  decode_loop (n + m) (symbol_value cs) tl = replicate m (code_char A_CODE) ++ cs ++ tl.
Proof.
  intros Hcs Hlen.
  assert (symbol_value (replicate m (code_char A_CODE) ++ cs) = symbol_value cs) as <-.
  { unfold symbol_value. rewrite foldl_app. f_equal. clear.
    assert (∀ acc, acc = 0 → foldl (λ acc c, acc * 26 + (char_code c - A_CODE)) acc
      (replicate m (code_char A_CODE)) = 0) as Hz; [|by apply Hz].
    induction m as [|m IH]; intros acc ->; [done|]. cbn [replicate foldl]. apply IH.
    by rewrite char_code_char. }
  rewrite decode_loop_spec.
  - by rewrite <-app_assoc.
  - apply Forall_app. split; [|done]. by apply Forall_replicate.
  - rewrite length_app, length_replicate. lia.
Qed.

Lemma existsb_not_letter cs :
  existsb (λ c, negb (is_ascii_uppercase c)) cs = false ↔ Forall letter cs.
Proof.
  unfold letter. induction cs as [|c cs IH]; [done|]. cbn [existsb].
  rewrite orb_false_iff, IH, Forall_cons. by rewrite negb_false_iff.
Qed.

Lemma token_symbol_new_Ok s t :
  token_symbol_new s = Ok t ↔
  (1 ≤ length s ≤ 6)%nat ∧ Forall letter s ∧ t = mkTokenSymbol (felt_new (symbol_value s)).
Proof.
  unfold token_symbol_new, encode_symbol_to_felt, MAX_SYMBOL_LENGTH.
  destruct (bool_decide (s = []) || (6 <? length s)%nat) eqn:Hlen.
  { split; [discriminate|]. intros (Hl & _). exfalso. apply orb_true_iff in Hlen as [Hlen|Hlen].
    - apply bool_decide_eq_true in Hlen. subst. cbn in Hl. lia.
    - apply Nat.ltb_lt in Hlen. lia. }
  apply orb_false_iff in Hlen as [Hne Hlen]. apply bool_decide_eq_false in Hne.
  apply Nat.ltb_ge in Hlen.
  destruct (existsb _ s) eqn:Hex.
  { split; [discriminate|]. intros (_ & Hall & _). apply existsb_not_letter in Hall. congruence. }
  apply existsb_not_letter in Hex. rewrite encode_loop_spec by done. cbn.
  fold (symbol_value s). destruct s; [done|]. cbn in *. naive_solver lia.
Qed.

(** ** Theorems *)

(** Every symbol that [new] accepts decodes without a panic to the symbol
    itself, padded on the left with the letter A to six characters; a symbol of
    six letters reads back exactly. *)
Theorem token_symbol_decode s t :
  token_symbol_new s = Ok t →
  token_symbol_to_str (E:=AssetError) t =
    Ok (replicate (6 - length s) (code_char A_CODE) ++ s).
Proof.
  rewrite token_symbol_new_Ok. intros (Hlen & Hs & ->).
  unfold token_symbol_to_str, decode_felt_to_symbol. cbn [symbol_felt].
  pose proof (symbol_value_bound s Hs) as Hb.
  assert (26 ^ Z.of_nat (length s) ≤ 26 ^ 6) by (apply Z.pow_le_mono_r; lia).
  rewrite as_int_small by (unfold MODULUS; lia).
  destruct (Z.ltb_spec (symbol_value s) (26 ^ 6)); [|lia]. f_equal.
  replace 6%nat with (length s + (6 - length s))%nat at 1 by lia.
  by rewrite decode_loop_zeros, app_nil_r.
Qed.

(** Two different symbols of the same length never share an encoding, and
    every encoding lies below [MAX_ENCODED_VALUE], so it passes [TryFrom<Felt>]. *)
Theorem token_symbol_injective s s' t :
  token_symbol_new s = Ok t → token_symbol_try_from_felt (symbol_felt t) = Ok t ∧
  (token_symbol_new s' = Ok t → length s = length s' → s = s').
Proof.
  rewrite !token_symbol_new_Ok. intros (Hlen & Hs & ->). cbn [symbol_felt].
  pose proof (symbol_value_bound s Hs) as Hb.
  assert (26 ^ Z.of_nat (length s) ≤ 26 ^ 6) by (apply Z.pow_le_mono_r; lia). split.
  - unfold token_symbol_try_from_felt, MAX_ENCODED_VALUE.
    rewrite as_int_small by (unfold MODULUS; lia).
    by destruct (Z.geb_spec (symbol_value s) (26 ^ 6)); [lia|].
  - intros (_ & Hs' & [= E]) Hll. pose proof (symbol_value_bound s' Hs') as Hb'.
    rewrite <-Hll in Hb'. apply felt_new_inj in E; [|unfold MODULUS; lia..].
    rewrite <-(app_nil_r s), <-(app_nil_r s').
    by rewrite <-(decode_loop_spec (length s) s), <-(decode_loop_spec (length s) s'), E.
Qed.
End TokenSymbol.

(** ** Witnesses *)

#[local] Existing Instance Goldilocks.

Lemma token_symbol_decode_witness :
  token_symbol_to_str (E:=AssetError)
    (mkTokenSymbol (felt_new (symbol_value (String.list_ascii_of_string "MIDEN")))) =
  Ok (String.list_ascii_of_string "AMIDEN").
Proof. apply (token_symbol_decode (String.list_ascii_of_string "MIDEN")). reflexivity. Defined.

Lemma token_symbol_injective_witness :
  token_symbol_try_from_felt (felt_new 12) = Ok (mkTokenSymbol (felt_new 12)) ∧
  (token_symbol_new (String.list_ascii_of_string "N") = Ok (mkTokenSymbol (felt_new 12)) →
   1%nat = 1%nat → String.list_ascii_of_string "M" = String.list_ascii_of_string "N").
Proof.
  apply (token_symbol_injective (String.list_ascii_of_string "M") (String.list_ascii_of_string "N")
    (mkTokenSymbol (felt_new 12))). reflexivity.
Defined.
