(* ===== verification/VaultDelta.v ===== *)
(** * Vault deltas

    Models objects/src/accounts/delta/vault.rs: the changes of a vault as a map
    from faucet to signed amount and a map from non-fungible asset to action. *)

From S2P Require Import Prelude Felt Crypto Serde Types AccountId Assets.
Open Scope Z_scope.

Inductive NonFungibleDeltaAction : Type := Add | Remove.

#[export] Instance NonFungibleDeltaAction_eq_dec : EqDecision NonFungibleDeltaAction.
Proof. solve_decision. Defined.

Section VaultDelta.
  Context {F : FeltApi} {D : DigestOrd}.

(** [enum AccountDeltaError]; the two account updates carried by
    [IncompatibleAccountUpdates] and the text of the nonce error are left out. *)
Inductive AccountDeltaError : Type :=
  | DuplicateStorageItemUpdate (slot : Z)
  | DuplicateNonFungibleVaultUpdate (a : NonFungibleAsset)
  | FungibleAssetDeltaOverflow (faucet_id : AccountId) (this other : Z)
  | IncompatibleAccountUpdates
  | InconsistentNonceUpdate
  | DeltaNotAFungibleFaucetId (id : AccountId).

(** ** Fungible assets *)

Definition FungibleAssetDelta : Type := gmap AccountId Z.

Definition account_id_leb (a b : AccountId) : bool :=
  match account_id_cmp a b with Gt => false | _ => true end.

(** [FungibleAssetDelta::validate]: the first key that is not a fungible faucet. *)
Fixpoint validate_keys (ids : list AccountId) : res AccountDeltaError unit :=
  match ids with
  | [] => Ok tt
  | id :: ids' =>
      if decide (account_type id = FungibleFaucet) then validate_keys ids'
      else Err (DeltaNotAFungibleFaucetId id)
  end.
Definition fungible_delta_validate (d : gmap AccountId Z) : res AccountDeltaError unit :=
  validate_keys (btree_iter account_id_leb d).*1.

Definition fungible_delta_new (map : gmap AccountId Z) : res AccountDeltaError (gmap AccountId Z) :=
  fungible_delta_validate map ;; Ok map.

(** [FungibleAssetDelta::add_delta] *)
Definition add_delta (faucet_id : AccountId) (delta : Z)
    : mut (gmap AccountId Z) AccountDeltaError unit := λ self,
  match self !! faucet_id with
  | None => (Ok tt, <[faucet_id := delta]> self)
  | Some old =>
      match i64_checked_add old delta with
      | None => (Err (FungibleAssetDeltaOverflow faucet_id old delta), self)
      | Some new =>
          if new =? 0 then (Ok tt, delete faucet_id self) else (Ok tt, <[faucet_id := new]> self)
      end
  end.

(** [FungibleAssetDelta::add] and [remove]: the amount is converted to [i64]
    with an [expect]. *)
Definition fungible_delta_add (asset : FungibleAsset) : mut (gmap AccountId Z) AccountDeltaError unit :=
  amount ← lift (expect_some (u64_try_into_i64 (fa_amount asset)));
  add_delta (fa_faucet_id asset) amount.
Definition fungible_delta_remove (asset : FungibleAsset) : mut (gmap AccountId Z) AccountDeltaError unit :=
  amount ← lift (expect_some (u64_try_into_i64 (fa_amount asset)));
  add_delta (fa_faucet_id asset) (- amount).

Definition fungible_delta_is_empty (d : gmap AccountId Z) : bool := bool_decide (d = ∅).

Definition fungible_delta_merge (other : gmap AccountId Z)
    : mut (gmap AccountId Z) AccountDeltaError unit :=
  for_each (btree_iter account_id_leb other) (λ '(faucet_id, amount), add_delta faucet_id amount).

(** ** Non-fungible assets *)

Definition NonFungibleAssetDelta : Type := gmap NonFungibleAsset NonFungibleDeltaAction.

(** [NonFungibleAssetDelta::apply_action] *)
Definition apply_action (asset : NonFungibleAsset) (action : NonFungibleDeltaAction)
    : mut (gmap NonFungibleAsset NonFungibleDeltaAction) AccountDeltaError unit := λ self,
  match self !! asset with
  | None => (Ok tt, <[asset := action]> self)
  | Some previous =>
      if decide (previous = action) then (Err (DuplicateNonFungibleVaultUpdate asset), self)
      else (Ok tt, delete asset self)
  end.

Definition nf_delta_add (asset : NonFungibleAsset) := apply_action asset Add.
Definition nf_delta_remove (asset : NonFungibleAsset) := apply_action asset Remove.

Definition nf_delta_is_empty (d : gmap NonFungibleAsset NonFungibleDeltaAction) : bool :=
  bool_decide (d = ∅).

Definition nf_delta_merge (other : gmap NonFungibleAsset NonFungibleDeltaAction)
    : mut (gmap NonFungibleAsset NonFungibleDeltaAction) AccountDeltaError unit :=
  for_each (btree_iter nf_leb other) (λ '(key, action), apply_action key action).

(** [filter_by_action] *)
Definition filter_by_action (d : gmap NonFungibleAsset NonFungibleDeltaAction)
    (action : NonFungibleDeltaAction) : list NonFungibleAsset :=
  (filter (λ ka, ka.2 = action) (btree_iter nf_leb d)).*1.

(** ** The vault delta *)

Record AccountVaultDelta : Type := mkVaultDelta {
  vd_fungible : gmap AccountId Z;
  vd_non_fungible : gmap NonFungibleAsset NonFungibleDeltaAction
}.

Definition set_vd_fungible f (d : AccountVaultDelta) := mkVaultDelta f (vd_non_fungible d).
Definition set_vd_non_fungible n (d : AccountVaultDelta) := mkVaultDelta (vd_fungible d) n.

Definition vault_delta_default : AccountVaultDelta := mkVaultDelta ∅ ∅.

Definition vault_delta_is_empty (d : AccountVaultDelta) : bool :=
  fungible_delta_is_empty (vd_fungible d) && nf_delta_is_empty (vd_non_fungible d).

(** [AccountVaultDelta::add_asset], [remove_asset] and [merge] *)
Definition vault_delta_add_asset (asset : Asset) : mut AccountVaultDelta AccountDeltaError unit :=
  match asset with
  | Fungible a => on_field vd_fungible set_vd_fungible (fungible_delta_add a)
  | NonFungible a => on_field vd_non_fungible set_vd_non_fungible (nf_delta_add a)
  end.
Definition vault_delta_remove_asset (asset : Asset) : mut AccountVaultDelta AccountDeltaError unit :=
  match asset with
  | Fungible a => on_field vd_fungible set_vd_fungible (fungible_delta_remove a)
  | NonFungible a => on_field vd_non_fungible set_vd_non_fungible (nf_delta_remove a)
  end.
Definition vault_delta_merge (other : AccountVaultDelta) : mut AccountVaultDelta AccountDeltaError unit :=
  on_field vd_non_fungible set_vd_non_fungible (nf_delta_merge (vd_non_fungible other)) ;;
  on_field vd_fungible set_vd_fungible (fungible_delta_merge (vd_fungible other)).

(** [AccountVaultDelta::from_iters]: every step is unwrapped. *)
Definition from_iters {E} (added removed : list Asset) : res E AccountVaultDelta :=
  let '(r, d) :=
    (for_each added vault_delta_add_asset ;; for_each removed vault_delta_remove_asset)
      vault_delta_default in
  match r with Ok _ => Ok d | _ => Panic end.

(** ** Serialization *)

Section Ser.
  Context {B : ByteIO}.

#[export] Instance FungibleAssetDelta_ser : Serializable FungibleAssetDelta := {|
  write_into d := write_usize (Z.of_nat (size (d : gmap AccountId Z))) ++
    write_many (write_pair write_into write_u64)
      ((λ '(id, delta), (id, i64_as_u64 delta)) <$> btree_iter account_id_leb d);
  get_size_hint d := (usize_size_hint (Z.of_nat (size (d : gmap AccountId Z))) +
    size (d : gmap AccountId Z) * FUNGIBLE_SERIALIZED_SIZE)%nat
|}.

#[export] Instance FungibleAssetDelta_de : Deserializable FungibleAssetDelta := {|
  read_from :=
    num ← read_usize;
    entries ← read_many (read_pair read_from read_u64) (Z.to_nat num);
    reader_lift (fungible_delta_new
      (list_to_map ((λ '(id, delta_as_u64), (id, u64_as_i64 delta_as_u64)) <$> reverse entries)))
|}.

#[export] Instance NonFungibleAssetDelta_ser : Serializable NonFungibleAssetDelta := {|
  write_into d :=
    let added := filter_by_action d Add in
    let removed := filter_by_action d Remove in
    write_usize (Z.of_nat (length added)) ++ write_many write_into added ++
    write_usize (Z.of_nat (length removed)) ++ write_many write_into removed;
  get_size_hint d :=
    let added := length (filter_by_action d Add) in
    let removed := length (filter_by_action d Remove) in
    (usize_size_hint (Z.of_nat added) + usize_size_hint (Z.of_nat removed) +
     added * NON_FUNGIBLE_SERIALIZED_SIZE + removed * NON_FUNGIBLE_SERIALIZED_SIZE)%nat
|}.

#[export] Instance NonFungibleAssetDelta_de : Deserializable NonFungibleAssetDelta := {|
  read_from :=
    num_added ← read_usize;
    map ← read_loop read_from (λ m a, <[a := Add]> m) (Z.to_nat num_added)
      (∅ : gmap NonFungibleAsset NonFungibleDeltaAction);
    num_removed ← read_usize;
    read_loop read_from (λ m a, <[a := Remove]> m) (Z.to_nat num_removed) map
|}.

#[export] Instance AccountVaultDelta_ser : Serializable AccountVaultDelta := {|
  write_into d := write_into (vd_fungible d : FungibleAssetDelta) ++
    write_into (vd_non_fungible d : NonFungibleAssetDelta);
  get_size_hint d := (get_size_hint (vd_fungible d : FungibleAssetDelta) +
    get_size_hint (vd_non_fungible d : NonFungibleAssetDelta))%nat
|}.

#[export] Instance AccountVaultDelta_de : Deserializable AccountVaultDelta := {|
  read_from :=
    fungible ← read_from (A:=FungibleAssetDelta);
    non_fungible ← read_from (A:=NonFungibleAssetDelta);
    mret (mkVaultDelta fungible non_fungible)
|}.
End Ser.

(** ** Lemmas: merging slot by slot *)

(** What adding [n] does to one entry; [None] is an overflow. *)
Definition amount_step (n : Z) (old : option Z) : option (option Z) :=
  match old with
  | None => Some (Some n)
  | Some o => if in_i64 (o + n) then Some (if o + n =? 0 then None else Some (o + n)) else None
  end.
Definition action_step (action : NonFungibleDeltaAction) (old : option NonFungibleDeltaAction)
    : option (option NonFungibleDeltaAction) :=
  match old with
  | None => Some (Some action)
  | Some p => if decide (p = action) then None else Some None
  end.

(** What merging does to one entry when the other delta may not mention it. *)
Definition merge_entry {A} (step : A → option A → option (option A)) (a b : option A) :=
  match b with None => Some a | Some n => step n a end.

Lemma add_delta_spec (x : AccountId * Z) (d : gmap AccountId Z) :
  match amount_step x.2 (d !! x.1) with
  | Some v => ∃ d', add_delta x.1 x.2 d = (Ok tt, d') ∧ True ∧
      slot_update (λ d k, d !! k) d d' x.1 v
  | None => ∃ e d', add_delta x.1 x.2 d = (Err e, d') ∧ True ∧ ∀ k, d' !! k = d !! k
  end.
Proof.
  unfold amount_step, add_delta, i64_checked_add, slot_update.
  destruct (d !! x.1) as [o|] eqn:Ho.
  - destruct (in_i64 (o + x.2)); [|eauto 6].
    destruct (o + x.2 =? 0); eexists; split_and!; try done;
      try apply lookup_delete_eq; try apply lookup_insert_eq;
      intros; by (rewrite lookup_delete_ne || rewrite lookup_insert_ne).
  - eexists. split_and!; [done|done|apply lookup_insert_eq|]. intros. by rewrite lookup_insert_ne.
Qed.

Lemma apply_action_spec (x : NonFungibleAsset * NonFungibleDeltaAction)
    (d : gmap NonFungibleAsset NonFungibleDeltaAction) :
  match action_step x.2 (d !! x.1) with
  | Some v => ∃ d', apply_action x.1 x.2 d = (Ok tt, d') ∧ True ∧
      slot_update (λ d k, d !! k) d d' x.1 v
  | None => ∃ e d', apply_action x.1 x.2 d = (Err e, d') ∧ True ∧ ∀ k, d' !! k = d !! k
  end.
Proof.
  unfold action_step, apply_action, slot_update.
  destruct (d !! x.1) as [o|] eqn:Ho.
  - case_decide; [eauto 6|]. eexists. split_and!; [done|done|apply lookup_delete_eq|].
    intros. by rewrite lookup_delete_ne.
  - eexists. split_and!; [done|done|apply lookup_insert_eq|]. intros. by rewrite lookup_insert_ne.
Qed.

(** Both merges: the loop over the entries of the other delta is a pointwise
    combination of the two maps. *)
Lemma keyed_merge {K A E} `{Countable K} (leb : K → K → bool)
    (step : A → option A → option (option A)) (body : K * A → mut (gmap K A) E unit)
    (d o : gmap K A) :
  (∀ x (d : gmap K A),
    match step x.2 (d !! x.1) with
    | Some v => ∃ d', body x d = (Ok tt, d') ∧ True ∧ slot_update (λ d k, d !! k) d d' x.1 v
    | None => ∃ e d', body x d = (Err e, d') ∧ True ∧ ∀ k, d' !! k = d !! k
    end) →
  (∃ d', for_each (btree_iter leb o) body d = (Ok tt, d') ∧
    ∀ k, merge_entry step (d !! k) (o !! k) = Some (d' !! k)) ∨
  (∃ k e d', for_each (btree_iter leb o) body d = (Err e, d') ∧
    merge_entry step (d !! k) (o !! k) = None).
Proof.
  intros Hbody.
  destruct (for_each_keyed (λ (d : gmap K A) k, d !! k) fst body (λ x, step x.2) (λ _, True)
    (λ _, True) (λ x s _ _, Hbody x s) (btree_iter leb o) d) as [[_ H1]|[H1 H2]].
  { done. } { apply Forall_true. done. } { apply btree_iter_keys_NoDup. }
  - left. destruct H1 as (d' & Hrun & _ & Hin & Hout). exists d'. split; [done|]. intros k.
    destruct (o !! k) as [n|] eqn:Hk.
    + by apply (Hin (k, n)), elem_of_btree_iter.
    + cbn. f_equal. symmetry. apply Hout. intros ([k' n] & -> & Hk')%list_elem_of_fmap.
      apply elem_of_btree_iter in Hk'. cbn in Hk. congruence.
  - right. destruct H1 as ([k n] & Hk%elem_of_btree_iter & Hnone), H2 as (e & d' & Hrun & _).
    exists k, e, d'. split; [done|]. rewrite Hk. done.
Qed.

Lemma fungible_merge_pointwise d o :
  (∃ d', fungible_delta_merge o d = (Ok tt, d') ∧
    ∀ k, merge_entry amount_step (d !! k) (o !! k) = Some (d' !! k)) ∨
  (∃ k e d', fungible_delta_merge o d = (Err e, d') ∧
    merge_entry amount_step (d !! k) (o !! k) = None).
Proof.
  apply (keyed_merge account_id_leb amount_step (λ '(faucet_id, amount), add_delta faucet_id amount)).
  intros [k n] d'. apply (add_delta_spec (k, n)).
Qed.

Lemma nf_merge_pointwise d o :
  (∃ d', nf_delta_merge o d = (Ok tt, d') ∧
    ∀ k, merge_entry action_step (d !! k) (o !! k) = Some (d' !! k)) ∨
  (∃ k e d', nf_delta_merge o d = (Err e, d') ∧
    merge_entry action_step (d !! k) (o !! k) = None).
Proof.
  apply (keyed_merge nf_leb action_step (λ '(key, action), apply_action key action)).
  intros [k n] d'. apply (apply_action_spec (k, n)).
Qed.

Lemma merge_amounts_comm a b : merge_entry amount_step a b = merge_entry amount_step b a.
Proof. destruct a, b; cbn; [|done..]. by rewrite (Z.add_comm z). Qed.

Lemma merge_actions_comm a b : merge_entry action_step a b = merge_entry action_step b a.
Proof. by destruct a as [[]|], b as [[]|]. Qed.

(** The outcome of a vault delta merge, entry by entry. *)
Lemma vault_delta_merge_Ok d o d' :
  vault_delta_merge o d = (Ok tt, d') ↔
  (∀ k, merge_entry amount_step (vd_fungible d !! k) (vd_fungible o !! k) =
    Some (vd_fungible d' !! k)) ∧
  (∀ k, merge_entry action_step (vd_non_fungible d !! k) (vd_non_fungible o !! k) =
    Some (vd_non_fungible d' !! k)).
Proof.
  unfold vault_delta_merge, on_field, mbind, mut_bind.
  destruct (nf_merge_pointwise (vd_non_fungible d) (vd_non_fungible o))
    as [(n & -> & Hn)|(k & e & n & -> & Hn)].
  2:{ split; [discriminate|]. intros [_ H']. by rewrite H' in Hn. }
  cbn [set_vd_non_fungible vd_fungible vd_non_fungible].
  destruct (fungible_merge_pointwise (vd_fungible d) (vd_fungible o))
    as [(f & -> & Hf)|(k & e & f & -> & Hf)].
  2:{ split; [discriminate|]. intros [H' _]. by rewrite H' in Hf. }
  split.
  - intros [= <-]. done.
  - intros [Hf' Hn']. f_equal. destruct d' as [f' n']. unfold set_vd_fungible. cbn in *. f_equal.
    + apply map_eq. intros k. specialize (Hf k). rewrite Hf' in Hf. congruence.
    + apply map_eq. intros k. specialize (Hn k). rewrite Hn' in Hn. congruence.
Qed.

(** ** Validity *)

(** The faucet ids are checked fungible faucet ids and the amounts are [i64]s. *)
Definition valid_fungible_delta (d : gmap AccountId Z) : Prop :=
  map_Forall (λ id n, valid_id id ∧ account_type id = FungibleFaucet ∧ I64_MIN ≤ n ≤ I64_MAX) d.
Definition valid_nf_delta (d : gmap NonFungibleAsset NonFungibleDeltaAction) : Prop :=
  map_Forall (λ a _, valid_nf a) d.
Definition valid_vault_delta (d : AccountVaultDelta) : Prop :=
  valid_fungible_delta (vd_fungible d) ∧ valid_nf_delta (vd_non_fungible d).

(** No entry records a change of zero. *)
Definition no_zero_delta (d : gmap AccountId Z) : Prop := map_Forall (λ _ n, n ≠ 0) d.

Lemma validate_keys_Ok ids :
  validate_keys ids = Ok tt ↔ Forall (λ id, account_type id = FungibleFaucet) ids.
Proof.
  induction ids as [|id ids IH]; cbn [validate_keys]; [done|]. rewrite Forall_cons, <-IH.
  case_decide; naive_solver.
Qed.

Lemma fungible_delta_new_Ok d :
  fungible_delta_new d = Ok d ↔ map_Forall (λ id _, account_type id = FungibleFaucet) d.
Proof.
  transitivity (fungible_delta_validate d = Ok tt).
  { unfold fungible_delta_new. destruct (fungible_delta_validate d) as [[]| |]; naive_solver. }
  unfold fungible_delta_validate. rewrite validate_keys_Ok, Forall_fmap, Forall_forall. split.
  - intros Hall id n Hid. by apply (Hall (id, n)), elem_of_btree_iter.
  - intros Hall [id n] Hx%elem_of_btree_iter. by apply (Hall id n).
Qed.

Lemma merge_amounts_valid P a b c :
  merge_entry amount_step a b = Some c →
  (∀ n, a = Some n → P ∧ I64_MIN ≤ n ≤ I64_MAX) → (∀ n, b = Some n → P ∧ I64_MIN ≤ n ≤ I64_MAX) →
  ∀ n, c = Some n → P ∧ I64_MIN ≤ n ≤ I64_MAX.
Proof.
  intros Hm Ha Hb n ->. destruct b as [y|]; cbn in Hm; [|apply Ha; congruence].
  destruct a as [x|]; cbn in Hm; [|apply Hb; congruence].
  unfold in_i64 in Hm. destruct (_ && _) eqn:Hr; [|done]. destruct (x + y =? 0); [done|].
  injection Hm as <-. split; [by apply (Ha x)|]. lia.
Qed.

Lemma add_delta_valid id n d :
  valid_id id → account_type id = FungibleFaucet → I64_MIN ≤ n ≤ I64_MAX →
  valid_fungible_delta d →
  (add_delta id n d).1 ≠ Panic ∧ valid_fungible_delta (add_delta id n d).2.
Proof.
  intros Hid Hty Hn Hd. unfold add_delta, i64_checked_add, in_i64.
  destruct (d !! id) as [o|] eqn:Ho.
  - destruct (_ && _) eqn:Hr; [|done]. destruct (o + n =? 0); cbn; (split; [done|]).
    + by apply map_Forall_delete.
    + apply map_Forall_insert_2; [|done]. split_and!; [done..|lia|lia].
  - cbn. split; [done|]. by apply map_Forall_insert_2.
Qed.

Lemma in_i64_true z : I64_MIN ≤ z ≤ I64_MAX → in_i64 z = true.
Proof. unfold in_i64. lia. Qed.

(** Adding the opposite amount undoes [add_delta]. *)
Lemma add_delta_inverse id n d d' :
  valid_fungible_delta d → no_zero_delta d →
  add_delta id n d = (Ok tt, d') → add_delta id (- n) d' = (Ok tt, d).
Proof.
  intros Hd Hz. unfold add_delta, i64_checked_add. destruct (d !! id) as [o|] eqn:Ho.
  - destruct (Hd _ _ Ho) as (_ & _ & Hor). pose proof (Hz _ _ Ho) as Ho0. cbn in Ho0.
    destruct (in_i64 (o + n)) eqn:Hi; [|discriminate].
    destruct (Z.eqb_spec (o + n) 0) as [E|E]; intros [= <-].
    + rewrite lookup_delete_eq. replace (- n) with o by lia. by rewrite insert_delete_eq, insert_id.
    + rewrite lookup_insert_eq. replace (o + n + - n) with o by lia. rewrite in_i64_true by done.
      destruct (Z.eqb_spec o 0); [done|]. by rewrite insert_insert_eq, insert_id.
  - intros [= <-]. rewrite lookup_insert_eq, Z.add_opp_diag_r. cbn. by rewrite delete_insert_id.
Qed.

Lemma apply_action_valid a x d :
  valid_nf a → valid_nf_delta d →
  (apply_action a x d).1 ≠ Panic ∧ valid_nf_delta (apply_action a x d).2.
Proof.
  intros Ha Hd. unfold apply_action. destruct (d !! a) as [p|].
  - case_decide; cbn; (split; [done|]); [done|]. by apply map_Forall_delete.
  - cbn. split; [done|]. by apply map_Forall_insert_2.
Qed.

Lemma amount_to_i64 a :
  valid_fungible a → u64_try_into_i64 (fa_amount a) = Some (fa_amount a) ∧
    0 ≤ fa_amount a ≤ I64_MAX.
Proof.
  intros (_ & _ & Ha). unfold MAX_AMOUNT, u64_try_into_i64, I64_MAX in *.
  destruct (Z.leb_spec (fa_amount a) (2 ^ 63 - 1)); [done|lia].
Qed.

Lemma fungible_delta_add_eq a d :
  valid_fungible a → fungible_delta_add a d = add_delta (fa_faucet_id a) (fa_amount a) d.
Proof.
  intros [Ha _]%amount_to_i64. unfold fungible_delta_add, mbind, mut_bind, lift. by rewrite Ha.
Qed.

Lemma fungible_delta_remove_eq a d :
  valid_fungible a → fungible_delta_remove a d = add_delta (fa_faucet_id a) (- fa_amount a) d.
Proof.
  intros [Ha _]%amount_to_i64. unfold fungible_delta_remove, mbind, mut_bind, lift. by rewrite Ha.
Qed.

Lemma merged_delta_valid d o m :
  valid_vault_delta d → valid_vault_delta o → vault_delta_merge o d = (Ok tt, m) →
  valid_vault_delta m ∧
  (no_zero_delta (vd_fungible d) → no_zero_delta (vd_fungible o) → no_zero_delta (vd_fungible m)).
Proof.
  intros [Hdf Hdn] [Hof Hon]. rewrite vault_delta_merge_Ok. intros [Hf Hn].
  split; [split|].
  - intros k n Hk. specialize (Hf k).
    destruct (merge_amounts_valid (valid_id k ∧ account_type k = FungibleFaucet) _ _ _ Hf) with n
      as [[??]?]; [| |done|done].
    + intros x Hx. by destruct (Hdf k x Hx) as (?&?&?).
    + intros x Hx. by destruct (Hof k x Hx) as (?&?&?).
  - intros k x Hk. specialize (Hn k). rewrite Hk in Hn.
    destruct (vd_non_fungible o !! k) eqn:E; [by apply (Hon k n)|].
    cbn in Hn. injection Hn as Hn. by apply (Hdn k x).
  - intros Hdz Hoz k n Hk ->. specialize (Hf k). rewrite Hk in Hf.
    destruct (vd_fungible o !! k) as [y|] eqn:Ey; cbn in Hf.
    2:{ injection Hf as Hf. by apply (Hdz k 0). }
    destruct (vd_fungible d !! k) as [x|] eqn:Ex; cbn in Hf.
    2:{ injection Hf as ->. by apply (Hoz k 0). }
    destruct (in_i64 (x + y)); [|discriminate].
    destruct (Z.eqb_spec (x + y) 0); [discriminate|congruence].
Qed.

(** A merge succeeds when every entry can be merged. *)
Lemma vault_delta_merge_succeeds d o :
  (∀ k, is_Some (merge_entry amount_step (vd_fungible d !! k) (vd_fungible o !! k))) →
  (∀ k, is_Some (merge_entry action_step (vd_non_fungible d !! k) (vd_non_fungible o !! k))) →
  ∃ m, vault_delta_merge o d = (Ok tt, m).
Proof.
  intros Hf Hn.
  destruct (nf_merge_pointwise (vd_non_fungible d) (vd_non_fungible o)) as [(n & _ & Hn')|(k & e & n & _ & E)].
  2:{ specialize (Hn k). rewrite E in Hn. by destruct Hn. }
  destruct (fungible_merge_pointwise (vd_fungible d) (vd_fungible o)) as [(f & _ & Hf')|(k & e & f & _ & E)].
  2:{ specialize (Hf k). rewrite E in Hf. by destruct Hf. }
  exists (mkVaultDelta f n). by apply vault_delta_merge_Ok.
Qed.

(** ** Theorems *)

(** Recording the addition or the removal of a well-formed asset never
    panics and keeps the delta valid, also when it reports an error. *)
Theorem vault_delta_ops_valid asset d :
  valid_asset asset → valid_vault_delta d →
  ((vault_delta_add_asset asset d).1 ≠ Panic ∧ valid_vault_delta (vault_delta_add_asset asset d).2) ∧
  ((vault_delta_remove_asset asset d).1 ≠ Panic ∧ valid_vault_delta (vault_delta_remove_asset asset d).2).
Proof.
  intros Ha [Hf Hn]. unfold valid_vault_delta. destruct asset as [a|a].
  - pose proof (amount_to_i64 a Ha) as [_ Hr]. pose proof Ha as (Hid & Hty & _).
    unfold vault_delta_add_asset, vault_delta_remove_asset, on_field.
    rewrite fungible_delta_add_eq, fungible_delta_remove_eq by done.
    pose proof (add_delta_valid (fa_faucet_id a) (fa_amount a) (vd_fungible d) Hid Hty) as H1.
    pose proof (add_delta_valid (fa_faucet_id a) (- fa_amount a) (vd_fungible d) Hid Hty) as H2.
    unfold I64_MIN, I64_MAX in *.
    destruct (add_delta _ (fa_amount a) _), (add_delta _ (- fa_amount a) _). cbn in *.
    specialize (H1 ltac:(lia) Hf). specialize (H2 ltac:(lia) Hf). tauto.
  - unfold vault_delta_add_asset, vault_delta_remove_asset, on_field, nf_delta_add, nf_delta_remove.
    pose proof (apply_action_valid a Add (vd_non_fungible d) Ha Hn) as H1.
    pose proof (apply_action_valid a Remove (vd_non_fungible d) Ha Hn) as H2.
    destruct (apply_action a Add _), (apply_action a Remove _). cbn in *. tauto.
Qed.

(** Merging two vault deltas does not depend on which one is merged into
    the other. *)
Theorem vault_delta_merge_comm d o m :
  vault_delta_merge o d = (Ok tt, m) → vault_delta_merge d o = (Ok tt, m).
Proof.
  rewrite !vault_delta_merge_Ok. intros [Hf Hn]. split; intros k.
  - rewrite merge_amounts_comm. apply Hf.
  - rewrite merge_actions_comm. apply Hn.
Qed.

(** A successful merge of valid deltas is valid, and introduces no zero
    entry that was not there before. *)
Theorem vault_delta_merge_valid d o m :
  valid_vault_delta d → valid_vault_delta o → vault_delta_merge o d = (Ok tt, m) →
  valid_vault_delta m ∧
  (no_zero_delta (vd_fungible d) → no_zero_delta (vd_fungible o) → no_zero_delta (vd_fungible m)).
Proof. apply merged_delta_valid. Qed.

(** Recording an addition and then the removal of the same asset restores
    the delta (which holds no zero entries). *)
Theorem vault_delta_add_remove asset d d' :
  valid_asset asset → valid_vault_delta d → no_zero_delta (vd_fungible d) →
  vault_delta_add_asset asset d = (Ok tt, d') →
  vault_delta_remove_asset asset d' = (Ok tt, d).
Proof.
  intros Ha [Hdf _] Hz. destruct asset as [a|a], d as [f n];
    unfold vault_delta_add_asset, vault_delta_remove_asset, on_field; cbn [vd_fungible vd_non_fungible] in *.
  - rewrite fungible_delta_add_eq by done.
    destruct (add_delta _ _ f) as [r f'] eqn:Hadd. intros [= -> <-]. cbn [vd_fungible set_vd_fungible].
    rewrite fungible_delta_remove_eq by done. by rewrite (add_delta_inverse _ _ f).
  - unfold nf_delta_add, nf_delta_remove, apply_action.
    destruct (n !! a) as [p|] eqn:Hp.
    + destruct p; cbn; [discriminate|]. intros [= <-]. cbn. rewrite lookup_delete_eq.
      unfold set_vd_non_fungible. cbn. by rewrite insert_delete_eq, insert_id.
    + intros [= <-]. cbn. rewrite lookup_insert_eq. cbn.
      unfold set_vd_non_fungible. cbn. by rewrite delete_insert_id.
Qed.

(** ** Serialization *)

Section SerLaws.
  Context {B : ByteIO}.

Definition fits_usize (n : nat) : Prop := Z.of_nat n < 2 ^ 64.

Lemma entries_roundtrip (d : gmap AccountId Z) :
  valid_fungible_delta d →
  list_to_map ((λ '(id, u), (id, u64_as_i64 u)) <$>
    reverse ((λ '(id, n), (id, i64_as_u64 n)) <$> btree_iter account_id_leb d)) = d.
Proof.
  intros Hd. rewrite <-fmap_reverse, <-list_fmap_compose.
  rewrite <-(list_to_map_btree_iter account_id_leb d) at 2.
  assert (((λ '(id, u), (id, u64_as_i64 u)) ∘ (λ '(id, n), (id, i64_as_u64 n))) <$>
    reverse (btree_iter account_id_leb d) = reverse (btree_iter account_id_leb d)) as ->.
  { rewrite <-(list_fmap_id (reverse _)) at 2. apply list_fmap_ext. intros i [id n] Hin. cbn.
    apply list_elem_of_lookup_2, elem_of_reverse, elem_of_btree_iter in Hin.
    destruct (Hd _ _ Hin) as (_ & _ & Hn). by rewrite u64_i64_roundtrip. }
  apply list_to_map_proper.
  - rewrite reverse_Permutation. apply btree_iter_keys_NoDup.
  - apply reverse_Permutation.
Qed.

#[export] Instance FungibleAssetDelta_serde : SerdeLaws FungibleAssetDelta
  (λ d, valid_fungible_delta d ∧ fits_usize (size (d : gmap AccountId Z))).
Proof.
  split.
  - intros d rest [Hd Hs]. cbn [write_into read_from FungibleAssetDelta_ser FungibleAssetDelta_de].
    unfold fits_usize in Hs. rewrite <-app_assoc, read_usize_bind by lia.
    rewrite (read_many_bind (λ p, valid_id p.1 ∧ 0 ≤ p.2 < 2 ^ 64)).
    + unfold reader_lift. rewrite entries_roundtrip by done.
      rewrite (proj2 (fungible_delta_new_Ok d)); [done|]. intros id n Hid. by apply (Hd id n).
    + apply (pair_decodes valid_id (λ v, 0 ≤ v < 2 ^ 64)); [apply serde_decodes|apply u64_decodes].
    + rewrite Forall_fmap, Forall_forall. intros [id n] Hin%elem_of_btree_iter. cbn.
      destruct (Hd _ _ Hin) as (Hid & _). split; [done|]. apply Z.mod_pos_bound. lia.
    + by rewrite Nat2Z.id, length_fmap, length_btree_iter.
  - intros d _. cbn [write_into get_size_hint FungibleAssetDelta_ser].
    rewrite length_app, length_write_usize. f_equal.
    rewrite (length_write_many_const _ _ FUNGIBLE_SERIALIZED_SIZE).
    + by rewrite length_fmap, length_btree_iter.
    + intros [id u] _. rewrite length_write_pair, length_write_u64. cbn. by rewrite length_write_felt.
Qed.

Lemma elem_of_filter_by_action d x a :
  a ∈ filter_by_action d x ↔ d !! a = Some x.
Proof.
  unfold filter_by_action. rewrite list_elem_of_fmap. split.
  - intros ([k y] & -> & Hin). apply list_elem_of_filter in Hin as [Hy Hin]. cbn in *. subst y.
    by apply elem_of_btree_iter in Hin.
  - intros Hx. exists (a, x). split; [done|]. apply list_elem_of_filter.
    split; [done|]. by apply elem_of_btree_iter.
Qed.

#[export] Instance NonFungibleAssetDelta_serde : SerdeLaws NonFungibleAssetDelta
  (λ d, valid_nf_delta d ∧ fits_usize (length (filter_by_action d Add)) ∧
        fits_usize (length (filter_by_action d Remove))).
Proof.
  split.
  - unfold NonFungibleAssetDelta. intros d rest (Hd & Ha & Hr).
    cbn [write_into read_from NonFungibleAssetDelta_ser NonFungibleAssetDelta_de].
    unfold fits_usize in *. rewrite <-!app_assoc, read_usize_bind by lia.
    assert (∀ x, Forall valid_nf (filter_by_action d x)) as Hall.
    { intros x. rewrite Forall_forall. intros a Hin%elem_of_filter_by_action. by apply (Hd a x). }
    rewrite (read_loop_bind valid_nf) by (done || apply serde_decodes || by rewrite Nat2Z.id).
    rewrite read_usize_bind by lia.
    match goal with |- read_loop ?r ?st ?n ?s ?bs = _ =>
      transitivity ((read_loop r st n s ≫= mret) bs) end.
    { unfold mbind, reader_bind. by destruct (read_loop _ _ _ _ _) as [[]| |]. }
    rewrite (read_loop_bind valid_nf) by (done || apply serde_decodes || by rewrite Nat2Z.id).
    unfold mret, reader_ret. do 2 f_equal. apply map_eq. intros a.
    rewrite !lookup_foldl_insert, lookup_empty.
    destruct (d !! a) as [[]|] eqn:E; repeat case_decide;
      rewrite ?elem_of_filter_by_action in *; congruence.
  - intros d _. cbn [write_into get_size_hint NonFungibleAssetDelta_ser].
    rewrite !length_app, !length_write_usize.
    rewrite !(length_write_many_const _ _ NON_FUNGIBLE_SERIALIZED_SIZE); [lia|..];
      intros a _; cbn; by rewrite !length_app, !length_write_felt.
Qed.

(** What a vault delta needs to satisfy to be written faithfully. *)
Definition wf_vault_delta (d : AccountVaultDelta) : Prop :=
  valid_vault_delta d ∧ fits_usize (size (vd_fungible d)) ∧
  fits_usize (length (filter_by_action (vd_non_fungible d) Add)) ∧
  fits_usize (length (filter_by_action (vd_non_fungible d) Remove)).

#[export] Instance AccountVaultDelta_serde : SerdeLaws AccountVaultDelta wf_vault_delta.
Proof.
  split.
  - intros [f n] rest ([Hf Hn] & H1 & H2 & H3). cbn [vd_fungible vd_non_fungible] in *.
    cbn [write_into read_from AccountVaultDelta_ser AccountVaultDelta_de vd_fungible vd_non_fungible].
    rewrite <-app_assoc.
    rewrite (serde_bind (λ d, valid_fungible_delta d ∧ fits_usize (size (d : gmap AccountId Z)))) by done.
    by rewrite (serde_bind (λ d, valid_nf_delta d ∧ fits_usize (length (filter_by_action d Add)) ∧
      fits_usize (length (filter_by_action d Remove)))) by done.
  - intros [f n] ([Hf Hn] & H1 & H2 & H3).
    cbn [write_into get_size_hint AccountVaultDelta_ser vd_fungible vd_non_fungible] in *.
    rewrite length_app. f_equal; by apply serde_size.
Qed.

(** A valid vault delta is read back exactly from what it serializes to,
    negative amounts and both non-fungible actions included, and the size hint
    is the exact number of bytes. *)
Theorem vault_delta_serde d rest :
  valid_vault_delta d → fits_usize (size (vd_fungible d)) →
  fits_usize (length (filter_by_action (vd_non_fungible d) Add)) →
  fits_usize (length (filter_by_action (vd_non_fungible d) Remove)) →
  read_from (write_into d ++ rest) = Ok (d, rest) ∧ length (write_into d) = get_size_hint d.
Proof.
  intros Hd H1 H2 H3. assert (wf_vault_delta d) as Hw by done.
  split; [by apply serde_decodes|by apply serde_size].
Qed.
End SerLaws.
End VaultDelta.

(** ** Witnesses *)

#[local] Existing Instance Goldilocks.
#[local] Existing Instance CodeOrd.

Definition sample_vault_delta (n : Z) : AccountVaultDelta :=
  mkVaultDelta {[ sample_faucet := n ]} {[ sample_nf := Add ]}.

Lemma sample_vault_delta_valid n :
  I64_MIN ≤ n ≤ I64_MAX → valid_vault_delta (sample_vault_delta n).
Proof.
  intros Hn. split.
  - refine (proj2 (map_Forall_singleton _ _ _) _). split; [reflexivity|]. split; [reflexivity|exact Hn].
  - refine (proj2 (map_Forall_singleton _ _ _) _). apply sample_nf_valid.
Defined.

Lemma vault_delta_ops_valid_witness :
  ((vault_delta_add_asset (NonFungible sample_nf) (sample_vault_delta 7)).1 ≠ Panic ∧
   valid_vault_delta (vault_delta_add_asset (NonFungible sample_nf) (sample_vault_delta 7)).2) ∧
  ((vault_delta_remove_asset (NonFungible sample_nf) (sample_vault_delta 7)).1 ≠ Panic ∧
   valid_vault_delta (vault_delta_remove_asset (NonFungible sample_nf) (sample_vault_delta 7)).2).
Proof.
  apply (vault_delta_ops_valid (NonFungible sample_nf) (sample_vault_delta 7)).
  - apply sample_nf_valid.
  - apply sample_vault_delta_valid. unfold I64_MIN, I64_MAX. lia.
Defined.

Lemma sample_merge_runs :
  ∃ m, vault_delta_merge (mkVaultDelta {[ sample_faucet := 4 ]} ∅) (sample_vault_delta (-5)) = (Ok tt, m).
Proof. eexists. reflexivity. Defined.

Lemma vault_delta_merge_comm_witness :
  ∃ m, vault_delta_merge (sample_vault_delta (-5)) (mkVaultDelta {[ sample_faucet := 4 ]} ∅) = (Ok tt, m).
Proof.
  destruct sample_merge_runs as [m Hm]. exists m.
  apply (vault_delta_merge_comm (sample_vault_delta (-5)) (mkVaultDelta {[ sample_faucet := 4 ]} ∅) m Hm).
Defined.

Lemma vault_delta_merge_valid_witness :
  ∃ m, vault_delta_merge (mkVaultDelta {[ sample_faucet := 4 ]} ∅) (sample_vault_delta (-5)) = (Ok tt, m) ∧
    valid_vault_delta m.
Proof.
  destruct sample_merge_runs as [m Hm]. exists m. split; [exact Hm|].
  apply (vault_delta_merge_valid (sample_vault_delta (-5)) (mkVaultDelta {[ sample_faucet := 4 ]} ∅) m);
    [| |exact Hm].
  - apply sample_vault_delta_valid. unfold I64_MIN, I64_MAX. lia.
  - split; [|apply map_Forall_empty]. refine (proj2 (map_Forall_singleton _ _ _) _).
    split; [reflexivity|]. split; [reflexivity|]. unfold I64_MIN, I64_MAX. lia.
Defined.

Lemma vault_delta_add_remove_witness :
  vault_delta_remove_asset (Fungible (sample_fungible 5))
    (mkVaultDelta (delete sample_faucet {[ sample_faucet := -5 ]}) {[ sample_nf := Add ]}) =
  (Ok tt, sample_vault_delta (-5)).
Proof.
  apply (vault_delta_add_remove (Fungible (sample_fungible 5)) (sample_vault_delta (-5))).
  - apply sample_fungible_valid. unfold MAX_AMOUNT. lia.
  - apply sample_vault_delta_valid. unfold I64_MIN, I64_MAX. lia.
  - refine (proj2 (map_Forall_singleton _ _ _) _). discriminate.
  - reflexivity.
Defined.

Lemma vault_delta_serde_witness :
  read_from (Deserializable:=AccountVaultDelta_de (B:=PlainIO))
    (write_into (B:=PlainIO) (sample_vault_delta (-5)) ++ [9]) = Ok (sample_vault_delta (-5), [9]) ∧
  length (write_into (B:=PlainIO) (sample_vault_delta (-5))) =
    get_size_hint (B:=PlainIO) (sample_vault_delta (-5)).
Proof.
  apply (vault_delta_serde (B:=PlainIO) (sample_vault_delta (-5)) [9]).
  - apply sample_vault_delta_valid. unfold I64_MIN, I64_MAX. lia.
  - reflexivity.
  - reflexivity.
  - reflexivity.
Defined.
