(* ===== verification/Vault.v ===== *)
(** * Asset vaults

    Models objects/src/assets/vault.rs: a vault is a sparse Merkle tree that
    maps the vault key of an asset to the asset. The file relates the vault to
    an abstract bank (balances and owned non-fungible assets) and shows how
    applying deltas composes with merging them. *)

From S2P Require Import Prelude Felt Crypto Serde Types AccountId Assets VaultDelta.
Open Scope Z_scope.

Section Vault.
  Context {F : FeltApi} {S : SmtApi} {D : DigestOrd}.

Record AssetVault : Type := mkVault { asset_tree : Smt }.

(** ** Operations *)

(** [AssetVault::new] *)
Definition vault_new (assets : list Asset) : res AssetVaultError AssetVault :=
  asset_tree ← map_err DuplicateAsset
    (smt_with_entries ((λ asset, (vault_key asset, asset_to_word asset)) <$> assets));
  Ok (mkVault asset_tree).

Definition vault_default : AssetVault := mkVault smt_new.

Definition vault_commitment (v : AssetVault) : Digest := smt_root (asset_tree v).

Definition has_non_fungible_asset (v : AssetVault) (asset : Asset) : res AssetVaultError bool :=
  if is_fungible asset then Err (NotANonFungibleAsset asset)
  else if decide (smt_get_value (asset_tree v) (vault_key asset) = SMT_EMPTY_VALUE) then Ok false
  else Ok true.

Definition get_balance (v : AssetVault) (faucet_id : AccountId) : res AssetVaultError Z :=
  if decide (account_type faucet_id = FungibleFaucet) then
    let asset := smt_get_value (asset_tree v) (mkWord ZERO ZERO ZERO (id_felt faucet_id)) in
    if decide (asset = SMT_EMPTY_VALUE) then Ok 0
    else Ok (fa_amount (fungible_new_unchecked asset))
  else Err (VaultNotAFungibleFaucetId faucet_id).

Definition vault_assets (v : AssetVault) : list Asset :=
  (λ x, asset_new_unchecked x.2) <$> smt_entries (asset_tree v).

Definition vault_is_empty (v : AssetVault) : bool := smt_is_empty (asset_tree v).

(** [self.asset_tree.insert(key, value)] *)
Definition tree_insert {E} (key value : Word) : mut AssetVault E Word := λ v,
  let '(t, old) := smt_insert (asset_tree v) key value in (Ok old, mkVault t).

Definition add_fungible_asset (asset : FungibleAsset) : mut AssetVault AssetVaultError FungibleAsset :=
  self ← get_self;
  let current := smt_get_value (asset_tree self) (fungible_vault_key asset) in
  new ← (if decide (current = SMT_EMPTY_VALUE) then mret asset
         else lift (map_err AddFungibleAssetBalanceError
                      (fungible_add (fungible_new_unchecked current) asset)));
  tree_insert (fungible_vault_key new) (fungible_to_word new) ;;
  mret new.

Definition add_non_fungible_asset (asset : NonFungibleAsset)
    : mut AssetVault AssetVaultError NonFungibleAsset :=
  old ← tree_insert (nf_vault_key asset) (nf_word asset);
  if decide (old = SMT_EMPTY_VALUE) then mret asset
  else lift (Err (DuplicateNonFungibleAsset asset)).

Definition vault_add_asset (asset : Asset) : mut AssetVault AssetVaultError Asset :=
  match asset with
  | Fungible a => r ← add_fungible_asset a; mret (Fungible r)
  | NonFungible a => r ← add_non_fungible_asset a; mret (NonFungible r)
  end.

Definition remove_fungible_asset (asset : FungibleAsset)
    : mut AssetVault AssetVaultError FungibleAsset :=
  self ← get_self;
  let value := smt_get_value (asset_tree self) (fungible_vault_key asset) in
  current ← (if decide (value = SMT_EMPTY_VALUE) then lift (Err (FungibleAssetNotFound asset))
             else mret (fungible_new_unchecked value));
  let '(r, current) := fungible_sub (fa_amount asset) current in
  lift (map_err SubtractFungibleAssetBalanceError r) ;;
  let new := if fa_amount current =? 0 then SMT_EMPTY_VALUE else fungible_to_word current in
  tree_insert (fungible_vault_key asset) new ;;
  mret asset.

Definition remove_non_fungible_asset (asset : NonFungibleAsset)
    : mut AssetVault AssetVaultError NonFungibleAsset :=
  old ← tree_insert (nf_vault_key asset) SMT_EMPTY_VALUE;
  if decide (old = SMT_EMPTY_VALUE) then lift (Err (NonFungibleAssetNotFound asset))
  else mret asset.

Definition vault_remove_asset (asset : Asset) : mut AssetVault AssetVaultError Asset :=
  match asset with
  | Fungible a => r ← remove_fungible_asset a; mret (Fungible r)
  | NonFungible a => r ← remove_non_fungible_asset a; mret (NonFungible r)
  end.

(** [AssetVault::apply_delta]: the fungible changes first, then the
    non-fungible ones, each in key order. *)
Definition apply_fungible_change (change : AccountId * Z) : mut AssetVault AssetVaultError unit :=
  asset ← lift (expect_ok (fungible_new change.1 (unsigned_abs change.2)));
  (if 0 <=? change.2 then add_fungible_asset asset else remove_fungible_asset asset) ;;
  mret tt.
Definition apply_nf_change (change : NonFungibleAsset * NonFungibleDeltaAction)
    : mut AssetVault AssetVaultError unit :=
  match change.2 with
  | Add => add_non_fungible_asset change.1
  | Remove => remove_non_fungible_asset change.1
  end ;;
  mret tt.
Definition vault_apply_delta (delta : AccountVaultDelta) : mut AssetVault AssetVaultError unit :=
  for_each (btree_iter account_id_leb (vd_fungible delta)) apply_fungible_change ;;
  for_each (btree_iter nf_leb (vd_non_fungible delta)) apply_nf_change.

(** ** Serialization *)

Section Ser.
  Context {B : ByteIO}.

#[export] Instance AssetVault_ser : Serializable AssetVault := {|
  write_into v :=
    let assets := vault_assets v in
    write_usize (Z.of_nat (length assets)) ++ write_many write_into assets;
  get_size_hint v :=
    (sum_list (get_size_hint <$> vault_assets v) +
     usize_size_hint (Z.of_nat (length (vault_assets v))))%nat
|}.

#[export] Instance AssetVault_de : Deserializable AssetVault := {|
  read_from :=
    num_assets ← read_usize;
    assets ← read_many read_from (Z.to_nat num_assets);
    reader_lift (vault_new assets)
|}.
End Ser.

(** ** Slots of the tree *)

Definition slot (v : AssetVault) (k : Word) : Word := smt_get_value (asset_tree v) k.

(** A slot is empty or holds a well-formed asset stored under its own key. *)
Definition wf_slot (k w : Word) : Prop :=
  w = EMPTY_WORD ∨ ∃ a, valid_asset a ∧ vault_key a = k ∧ asset_to_word a = w.
Definition wf_vault (v : AssetVault) : Prop := ∀ k, wf_slot k (slot v k).

(** Two vaults with the same contents. *)
Definition vault_equiv (v v' : AssetVault) : Prop := smt_equiv (asset_tree v) (asset_tree v').

#[export] Instance vault_equiv_equivalence : Equivalence vault_equiv.
Proof.
  split.
  - intros v. unfold vault_equiv. reflexivity.
  - intros v v' H. unfold vault_equiv in *. by symmetry.
  - intros v1 v2 v3 H1 H2. unfold vault_equiv in *. by etransitivity.
Qed.

#[export] Instance wf_vault_proper : Proper (vault_equiv ==> iff) wf_vault.
Proof. intros v v' H. unfold wf_vault, slot. by setoid_rewrite (H : smt_equiv _ _). Qed.

#[export] Instance vault_commitment_proper : Proper (vault_equiv ==> (=)) vault_commitment.
Proof. intros v v' H. unfold vault_commitment. by rewrite (H : smt_equiv _ _). Qed.

Definition fkey (id : AccountId) : Word := mkWord ZERO ZERO ZERO (id_felt id).

Lemma account_type_zero : account_type (mkAccountId ZERO) = RegularAccountImmutableCode.
Proof. unfold account_type. cbn [id_felt]. by rewrite as_int_ZERO. Qed.

Lemma valid_word_nonempty a : valid_asset a → asset_to_word a ≠ EMPTY_WORD.
Proof.
  intros Ha E. pose proof account_type_zero as H0. destruct a as [[[f] n]|[w]].
  - destruct Ha as (_ & Hty & _). apply (f_equal w3) in E. cbn in E. subst f.
    cbn [fa_faucet_id] in Hty. congruence.
  - destruct Ha as (_ & Hty & _). cbn in E. subst w. unfold nf_faucet_id in Hty. cbn [nf_word EMPTY_WORD w1] in Hty.
    congruence.
Qed.

Lemma asset_unchecked_word a : valid_asset a → asset_new_unchecked (asset_to_word a) = a.
Proof.
  intros Ha. unfold asset_new_unchecked. destruct a as [a|[w]]; cbn [asset_to_word nf_word].
  - rewrite fungible_word_bit by apply Ha. by rewrite fungible_unchecked_word.
  - destruct Ha as (_ & _ & Hb). cbn [nf_word] in Hb. by rewrite Hb.
Qed.

Lemma wf_slot_fungible id w :
  wf_slot (fkey id) w →
  w = EMPTY_WORD ∨ ∃ n, valid_fungible (mkFungibleAsset id n) ∧
    w = fungible_to_word (mkFungibleAsset id n).
Proof.
  intros [->|(a & Ha & Hk & <-)]; [by left|right]. destruct a as [[i n]|[u]].
  - apply (vault_key_fungible_inj (mkFungibleAsset i n) (mkFungibleAsset id n)) in Hk.
    cbn in Hk. subst i. by exists n.
  - cbn in Hk. subst u. destruct Ha as (_ & Hty & _). unfold nf_faucet_id in Hty.
    cbn [nf_word fkey w1] in Hty. pose proof account_type_zero. congruence.
Qed.

Lemma wf_slot_nf a w : valid_nf a → wf_slot (nf_word a) w → w = EMPTY_WORD ∨ w = nf_word a.
Proof.
  intros Hv [->|(b & Hb & Hk & <-)]; [by left|right]. destruct b as [b|b]; [|done].
  by destruct (vault_key_disjoint b a Hb Hv).
Qed.

(** Inserting into the tree changes one slot. *)
Definition vault_set (v : AssetVault) (k w : Word) : AssetVault :=
  mkVault (smt_insert (asset_tree v) k w).1.

Lemma tree_insert_eq {E} k w v :
  tree_insert (E:=E) k w v = (Ok (slot v k), vault_set v k w).
Proof.
  unfold tree_insert, vault_set. destruct (smt_insert _ k w) as [t old] eqn:Ei.
  cbn. unfold slot. by rewrite <-(smt_insert_old _ k w), Ei.
Qed.

Lemma vault_set_update v k w : slot_update slot v (vault_set v k w) k w.
Proof.
  unfold slot_update, slot, vault_set. cbn. split; [apply smt_insert_get_eq|].
  intros k' Hk. by apply smt_insert_get_ne.
Qed.

Lemma vault_set_same v k : vault_equiv (vault_set v k (slot v k)) v.
Proof. apply smt_insert_same. Qed.

Lemma slot_update_wf v v' k w :
  wf_vault v → wf_slot k w → slot_update slot v v' k w → wf_vault v'.
Proof.
  intros Hv Hw [Hk Hother] k'. destruct (decide (k' = k)) as [->|]; [by rewrite Hk|].
  rewrite Hother by done. apply Hv.
Qed.

(** ** Changes of one slot *)

Inductive change : Type :=
  | FungibleChange (id : AccountId) (n : Z)
  | NonFungibleChange (a : NonFungibleAsset) (action : NonFungibleDeltaAction).

Definition change_key (c : change) : Word :=
  match c with FungibleChange id _ => fkey id | NonFungibleChange a _ => nf_word a end.

Definition valid_change (c : change) : Prop :=
  match c with
  | FungibleChange id n => valid_id id ∧ account_type id = FungibleFaucet ∧ - MAX_AMOUNT ≤ n ≤ MAX_AMOUNT
  | NonFungibleChange a _ => valid_nf a
  end.

(** The balance of a faucet's slot after an addition, a removal, and a signed
    change; the outer [None] is an error, the inner one an empty slot. *)
Definition add_step (n : Z) (old : option Z) : option (option Z) :=
  match old with
  | None => Some (Some n)
  | Some b => if b + n <=? MAX_AMOUNT then Some (Some (b + n)) else None
  end.
Definition remove_step (n : Z) (old : option Z) : option (option Z) :=
  match old with
  | None => None
  | Some b => if n <=? b then Some (if b - n =? 0 then None else Some (b - n)) else None
  end.
Definition balance_step (n : Z) : option Z → option (option Z) :=
  if 0 <=? n then add_step n else remove_step (- n).
Definition owned_step (action : NonFungibleDeltaAction) (owned : bool) : option bool :=
  match action, owned with
  | Add, false => Some true
  | Remove, true => Some false
  | _, _ => None
  end.

Definition balance_word (id : AccountId) (b : option Z) : Word :=
  match b with None => EMPTY_WORD | Some n => fungible_to_word (mkFungibleAsset id n) end.
Definition word_balance (w : Word) : option Z :=
  if decide (w = EMPTY_WORD) then None else Some (as_int (w0 w)).
Definition owned_word (a : NonFungibleAsset) (owned : bool) : Word :=
  if owned then nf_word a else EMPTY_WORD.
Definition word_owned (w : Word) : bool := bool_decide (w ≠ EMPTY_WORD).

Definition slot_step (c : change) (w : Word) : option Word :=
  match c with
  | FungibleChange id n => balance_word id <$> balance_step n (word_balance w)
  | NonFungibleChange a action => owned_word a <$> owned_step action (word_owned w)
  end.

(** In a well-formed slot the word and the balance determine each other. *)
Lemma word_balance_word id b :
  (∀ n, b = Some n → valid_fungible (mkFungibleAsset id n)) →
  word_balance (balance_word id b) = b.
Proof.
  intros Hb. unfold word_balance. destruct b as [n|]; cbn [balance_word].
  - specialize (Hb n eq_refl). pose proof (amount_as_int _ Hb) as Hn.
    pose proof (valid_word_nonempty (Fungible (mkFungibleAsset id n)) Hb) as Hne.
    rewrite decide_False by done. by rewrite <-Hn at 2.
  - by rewrite decide_True.
Qed.

Lemma wf_slot_balance id w :
  wf_slot (fkey id) w →
  w = balance_word id (word_balance w) ∧
  ∀ n, word_balance w = Some n → valid_fungible (mkFungibleAsset id n).
Proof.
  intros [->|(n & Hn & ->)]%wf_slot_fungible.
  - unfold word_balance. rewrite decide_True by done. naive_solver.
  - change (fungible_to_word (mkFungibleAsset id n)) with (balance_word id (Some n)).
    rewrite word_balance_word by naive_solver. naive_solver.
Qed.

Lemma balance_word_wf id b :
  (∀ n, b = Some n → valid_fungible (mkFungibleAsset id n)) → wf_slot (fkey id) (balance_word id b).
Proof.
  intros Hb. destruct b as [n|]; [right|by left].
  exists (Fungible (mkFungibleAsset id n)). split; [by apply Hb|done].
Qed.

Lemma word_owned_word a b : valid_nf a → word_owned (owned_word a b) = b.
Proof.
  intros Ha. pose proof (valid_word_nonempty (NonFungible a) Ha) as Hne. cbn in Hne.
  unfold word_owned. destruct b; cbn [owned_word].
  - by apply bool_decide_eq_true.
  - apply bool_decide_eq_false. naive_solver.
Qed.

Lemma wf_slot_owned a w : valid_nf a → wf_slot (nf_word a) w → w = owned_word a (word_owned w).
Proof.
  intros Ha [->| ->]%wf_slot_nf; [| |done].
  - unfold word_owned. by rewrite bool_decide_eq_false_2 by naive_solver.
  - change (nf_word a) with (owned_word a true) at 2. by rewrite word_owned_word.
Qed.

(** ** The operations on slots *)

Lemma add_fungible_asset_eq a v :
  wf_vault v → valid_fungible a →
  add_fungible_asset a v =
  let id := fa_faucet_id a in
  match word_balance (slot v (fkey id)) with
  | None => (Ok a, vault_set v (fkey id) (fungible_to_word a))
  | Some b =>
      if b + fa_amount a <=? MAX_AMOUNT
      then (Ok (mkFungibleAsset id (b + fa_amount a)),
            vault_set v (fkey id) (balance_word id (Some (b + fa_amount a))))
      else (Err (AddFungibleAssetBalanceError (AmountTooBig (b + fa_amount a))), v)
  end.
Proof.
  intros Hv Ha. destruct a as [id n]. unfold add_fungible_asset, get_self, mbind, mut_bind.
  cbn [fa_faucet_id fa_amount].
  change (fungible_vault_key (mkFungibleAsset id n)) with (fkey id).
  change (smt_get_value (asset_tree v) (fkey id)) with (slot v (fkey id)).
  unfold word_balance, SMT_EMPTY_VALUE. case_decide as He.
  { unfold mret, mut_ret. by rewrite tree_insert_eq. }
  destruct (wf_slot_fungible id _ (Hv (fkey id))) as [?|(b & Hb & Hw)]; [done|].
  rewrite Hw, fungible_unchecked_word by done. cbn [w0 fungible_to_word fa_amount].
  pose proof (amount_as_int _ Hb) as Hbn. cbn [fa_amount] in Hbn. rewrite Hbn.
  unfold lift, fungible_add. cbn [fa_faucet_id fa_amount]. rewrite decide_True by done.
  destruct Hb as (_ & _ & Hb), Ha as (_ & _ & Ha). cbn [fa_amount] in Ha, Hb.
  unfold u64_checked_add, U64_MAX, MAX_AMOUNT in *.
  destruct (Z.leb_spec (b + n) (2 ^ 64 - 1)); [|lia]. cbn [expect_some mbind res_bind].
  destruct (Z.leb_spec (b + n) (2 ^ 63 - 1)), (Z.gtb_spec (b + n) (2 ^ 63 - 1)); try lia; cbn [map_err].
  - by rewrite tree_insert_eq.
  - done.
Qed.

Lemma remove_fungible_asset_eq a v :
  wf_vault v → valid_fungible a →
  remove_fungible_asset a v =
  let id := fa_faucet_id a in
  match word_balance (slot v (fkey id)) with
  | None => (Err (FungibleAssetNotFound a), v)
  | Some b =>
      if fa_amount a <=? b
      then (Ok a, vault_set v (fkey id)
              (balance_word id (if b - fa_amount a =? 0 then None else Some (b - fa_amount a))))
      else (Err (SubtractFungibleAssetBalanceError (AssetAmountNotSufficient b (fa_amount a))), v)
  end.
Proof.
  intros Hv Ha. destruct a as [id n]. unfold remove_fungible_asset, get_self, mbind, mut_bind.
  cbn [fa_faucet_id fa_amount].
  change (fungible_vault_key (mkFungibleAsset id n)) with (fkey id).
  change (smt_get_value (asset_tree v) (fkey id)) with (slot v (fkey id)).
  unfold word_balance, SMT_EMPTY_VALUE. case_decide as He; [done|].
  destruct (wf_slot_fungible id _ (Hv (fkey id))) as [?|(b & Hb & Hw)]; [done|].
  rewrite Hw, fungible_unchecked_word by done. cbn [w0 fungible_to_word fa_amount].
  pose proof (amount_as_int _ Hb) as Hbn. cbn [fa_amount] in Hbn. rewrite Hbn.
  unfold mret, mut_ret, fungible_sub, u64_checked_sub, lift. cbn [fa_faucet_id fa_amount].
  destruct (n <=? b); cbn [map_err fa_amount]; [|done].
  rewrite tree_insert_eq. by destruct (b - n =? 0).
Qed.

Lemma add_non_fungible_asset_eq a v :
  add_non_fungible_asset a v =
  (if word_owned (slot v (nf_word a)) then Err (DuplicateNonFungibleAsset a) else Ok a,
   vault_set v (nf_word a) (nf_word a)).
Proof.
  unfold add_non_fungible_asset, mbind, mut_bind, word_owned, SMT_EMPTY_VALUE, nf_vault_key.
  rewrite tree_insert_eq. case_decide as Hs; case_bool_decide; done.
Qed.

Lemma remove_non_fungible_asset_eq a v :
  remove_non_fungible_asset a v =
  (if word_owned (slot v (nf_word a)) then Ok a else Err (NonFungibleAssetNotFound a),
   vault_set v (nf_word a) EMPTY_WORD).
Proof.
  unfold remove_non_fungible_asset, mbind, mut_bind, word_owned, SMT_EMPTY_VALUE, nf_vault_key.
  rewrite tree_insert_eq. case_decide as Hs; case_bool_decide; done.
Qed.

(** Applying one change of a delta. *)
Definition apply_change (c : change) : mut AssetVault AssetVaultError unit :=
  match c with
  | FungibleChange id n => apply_fungible_change (id, n)
  | NonFungibleChange a action => apply_nf_change (a, action)
  end.

Lemma balance_step_valid id n b b' :
  valid_id id → account_type id = FungibleFaucet → - MAX_AMOUNT ≤ n ≤ MAX_AMOUNT →
  (∀ x, b = Some x → valid_fungible (mkFungibleAsset id x)) → balance_step n b = Some b' →
  ∀ x, b' = Some x → valid_fungible (mkFungibleAsset id x).
Proof.
  intros Hid Hty Hn Hb Hs x ->. unfold valid_fungible in *. cbn [fa_faucet_id fa_amount] in *.
  split_and!; [done|done|..]; unfold balance_step, add_step, remove_step in Hs;
    destruct (Z.leb_spec 0 n), b as [y|]; simplify_eq; try lia;
    destruct (Hb y eq_refl) as (_ & _ & Hy);
    destruct (Z.leb_spec (y + n) MAX_AMOUNT), (Z.leb_spec (- n) y); simplify_eq; try lia;
    destruct (y - - n =? 0); simplify_eq; lia.
Qed.

Lemma slot_step_wf c w w' :
  valid_change c → wf_slot (change_key c) w → slot_step c w = Some w' → wf_slot (change_key c) w'.
Proof.
  destruct c as [id n|a x]; cbn [valid_change change_key slot_step].
  - intros (Hid & Hty & Hn) [_ Hb]%wf_slot_balance (b' & Hs & ->)%fmap_Some.
    apply balance_word_wf. by eapply balance_step_valid.
  - intros Ha _ (o & _ & ->)%fmap_Some. destruct o; [right|by left].
    exists (NonFungible a). done.
Qed.

Lemma fungible_new_change id n :
  valid_id id → account_type id = FungibleFaucet → - MAX_AMOUNT ≤ n ≤ MAX_AMOUNT →
  fungible_new id (unsigned_abs n) = Ok (mkFungibleAsset id (Z.abs n)) ∧
  valid_fungible (mkFungibleAsset id (Z.abs n)).
Proof.
  intros Hid Hty Hn. assert (valid_fungible (mkFungibleAsset id (Z.abs n))) as Hv.
  { split; [done|]. split; [done|]. cbn [fa_amount]. lia. }
  split; [|done]. apply (fungible_new_valid _ Hv).
Qed.

(** A step of [apply_delta] is the change of one slot. *)
Lemma apply_change_spec c v :
  wf_vault v → valid_change c →
  match slot_step c (slot v (change_key c)) with
  | Some w => ∃ v', apply_change c v = (Ok tt, v') ∧ wf_vault v' ∧ slot_update slot v v' (change_key c) w
  | None => ∃ e v', apply_change c v = (Err e, v') ∧ wf_vault v' ∧ ∀ k, slot v' k = slot v k
  end.
Proof.
  intros Hv Hc. pose proof (slot_step_wf c (slot v (change_key c))) as Hwf.
  assert (∀ w, slot_step c (slot v (change_key c)) = Some w →
    wf_vault (vault_set v (change_key c) w) ∧
    slot_update slot v (vault_set v (change_key c) w) (change_key c) w) as Hset.
  { intros w Hw. split; [|apply vault_set_update].
    eapply slot_update_wf; [done| |apply vault_set_update]. by apply Hwf. }
  destruct c as [id n|a x]; cbn [valid_change change_key slot_step apply_change] in *.
  - destruct Hc as (Hid & Hty & Hn). unfold apply_fungible_change, lift, mbind, mut_bind. cbn [fst snd].
    destruct (fungible_new_change id n) as [-> Hn']; [done..|]. cbn [expect_ok].
    unfold balance_step in *. destruct (Z.leb_spec 0 n).
    + rewrite add_fungible_asset_eq by done. cbn [fa_faucet_id fa_amount]. cbv zeta.
      rewrite Z.abs_eq by lia. unfold add_step in *.
      destruct (word_balance (slot v (fkey id))) as [b|]; cbn [fmap option_fmap option_map] in *.
      * destruct (b + n <=? MAX_AMOUNT); cbn [fmap option_fmap option_map] in *; [|by eauto 6].
        eexists. split; [done|]. by apply Hset.
      * eexists. split; [done|]. by apply Hset.
    + rewrite remove_fungible_asset_eq by done. cbn [fa_faucet_id fa_amount]. cbv zeta.
      rewrite Z.abs_neq by lia. unfold remove_step in *.
      destruct (word_balance (slot v (fkey id))) as [b|]; cbn [fmap option_fmap option_map] in *; [|by eauto 6].
      destruct (- n <=? b); cbn [fmap option_fmap option_map] in *; [|by eauto 6].
      eexists. split; [done|]. by apply Hset.
  - pose proof (wf_slot_owned a _ Hc (Hv (nf_word a))) as Hown.
    assert (wf_vault (vault_set v (nf_word a) (slot v (nf_word a))) ∧
      ∀ k, slot (vault_set v (nf_word a) (slot v (nf_word a))) k = slot v k) as Hsame.
    { split; [|apply vault_set_same]. by rewrite vault_set_same. }
    unfold apply_nf_change, mbind, mut_bind. cbn [fst snd].
    destruct x; rewrite ?add_non_fungible_asset_eq, ?remove_non_fungible_asset_eq;
      destruct (word_owned (slot v (nf_word a))) eqn:Eo; cbn [owned_step fmap option_fmap option_map owned_word] in *.
    + rewrite Hown in Hsame. eauto 6.
    + eexists. split; [done|]. by apply Hset.
    + eexists. split; [done|]. by apply Hset.
    + rewrite Hown in Hsame. eauto 6.
Qed.

(** ** Applying a delta, slot by slot *)

Definition changes (d : AccountVaultDelta) : list change :=
  ((λ x, FungibleChange x.1 x.2) <$> btree_iter account_id_leb (vd_fungible d)) ++
  ((λ x, NonFungibleChange x.1 x.2) <$> btree_iter nf_leb (vd_non_fungible d)).

Lemma vault_apply_delta_changes d v : vault_apply_delta d v = for_each (changes d) apply_change v.
Proof.
  unfold changes. rewrite for_each_app. unfold vault_apply_delta, mbind, mut_bind.
  assert (∀ v, for_each ((λ x, FungibleChange x.1 x.2) <$> btree_iter account_id_leb (vd_fungible d))
    apply_change v = for_each (btree_iter account_id_leb (vd_fungible d)) apply_fungible_change v) as Hf.
  { intros u. rewrite for_each_fmap. cbn [apply_change]. f_equal. }
  assert (∀ v, for_each ((λ x, NonFungibleChange x.1 x.2) <$> btree_iter nf_leb (vd_non_fungible d))
    apply_change v = for_each (btree_iter nf_leb (vd_non_fungible d)) apply_nf_change v) as Hn.
  { intros u. by rewrite for_each_fmap. }
  rewrite Hf. by destruct (for_each _ _ v) as [[[]|e|] u].
Qed.

Lemma elem_of_changes d c :
  c ∈ changes d ↔
  match c with
  | FungibleChange id n => vd_fungible d !! id = Some n
  | NonFungibleChange a x => vd_non_fungible d !! a = Some x
  end.
Proof.
  unfold changes. rewrite elem_of_app, !list_elem_of_fmap. split.
  - intros [([id n] & -> & Hin%elem_of_btree_iter)|([a x] & -> & Hin%elem_of_btree_iter)]; done.
  - destruct c as [id n|a x]; intros Hc%(elem_of_btree_iter account_id_leb)
      || intros Hc%(elem_of_btree_iter nf_leb).
    + left. by exists (id, n).
    + right. by exists (a, x).
Qed.

#[export] Instance fkey_inj : Inj (=) (=) fkey.
Proof. intros [x] [y]. unfold fkey. cbn. congruence. Qed.

Lemma fkey_not_nf id a : valid_nf a → fkey id ≠ nf_word a.
Proof.
  intros (_ & Hty & _) E. unfold nf_faucet_id in Hty. rewrite <-E in Hty. cbn [fkey w1] in Hty.
  pose proof account_type_zero. congruence.
Qed.

(** The smallest [i64] has no absolute value among the asset amounts. *)
Definition no_min_delta (d : AccountVaultDelta) : Prop := map_Forall (λ _ n, n ≠ I64_MIN) (vd_fungible d).

Lemma changes_valid d : valid_vault_delta d → no_min_delta d → Forall valid_change (changes d).
Proof.
  intros [Hf Hn] Hmin. apply Forall_forall. intros [id n|a x] Hc%elem_of_changes; cbn [valid_change].
  - destruct (Hf _ _ Hc) as (? & ? & Hr). specialize (Hmin _ _ Hc). cbn beta in Hmin.
    unfold I64_MIN, I64_MAX, MAX_AMOUNT in *. split_and!; [done|done|lia|lia].
  - by apply (Hn _ _ Hc).
Qed.

Lemma changes_keys_NoDup d : valid_vault_delta d → NoDup (change_key <$> changes d).
Proof.
  intros [Hf Hn]. unfold changes. rewrite fmap_app, <-!list_fmap_compose.
  apply NoDup_app. split_and!.
  - pose proof (btree_iter_keys_NoDup account_id_leb (vd_fungible d)) as HN.
    apply (NoDup_fmap_2 fkey) in HN. by rewrite <-list_fmap_compose in HN.
  - intros k (x & -> & _)%list_elem_of_fmap (y & E & Hy)%list_elem_of_fmap.
    destruct y as [a y]. apply elem_of_btree_iter in Hy. cbn in E.
    by apply (fkey_not_nf x.1 a (Hn _ _ Hy)) in E.
  - pose proof (btree_iter_keys_NoDup nf_leb (vd_non_fungible d)) as HN.
    apply (NoDup_fmap_2_strong nf_word) in HN; [by rewrite <-list_fmap_compose in HN|].
    intros [x] [y] _ _ E. cbn in E. by subst.
Qed.

(** What a successful [apply_delta] does to each slot. *)
Definition slot_after (c : option change) (w w' : Word) : Prop :=
  match c with None => w' = w | Some c => slot_step c w = Some w' end.

Lemma vault_apply_delta_slots d v v' :
  wf_vault v → valid_vault_delta d → no_min_delta d → vault_apply_delta d v = (Ok tt, v') →
  wf_vault v' ∧
  (∀ id, slot_after (FungibleChange id <$> vd_fungible d !! id) (slot v (fkey id)) (slot v' (fkey id))) ∧
  (∀ a, valid_nf a →
    slot_after (NonFungibleChange a <$> vd_non_fungible d !! a) (slot v (nf_word a)) (slot v' (nf_word a))).
Proof.
  intros Hv Hd Hmin. rewrite vault_apply_delta_changes. intros Hrun.
  destruct (for_each_keyed_Ok slot change_key apply_change slot_step wf_vault valid_change
    (λ c v Hv Hc, apply_change_spec c v Hv Hc) (changes d) v v') as (Hv' & Hin & Hout);
    [done|by apply changes_valid|by apply changes_keys_NoDup|done|].
  split_and!; [done|..].
  - intros id. destruct (vd_fungible d !! id) as [n|] eqn:E; cbn.
    + by apply (Hin (FungibleChange id n)), elem_of_changes.
    + apply Hout. intros ([i n|a x] & Ek & Hc%elem_of_changes)%list_elem_of_fmap; cbn in Ek.
      * apply fkey_inj in Ek as ->. congruence.
      * destruct Hd as [_ Hd]. by apply (fkey_not_nf id a (Hd _ _ Hc)) in Ek.
  - intros a Ha. destruct (vd_non_fungible d !! a) as [x|] eqn:E; cbn.
    + by apply (Hin (NonFungibleChange a x)), elem_of_changes.
    + apply Hout. intros ([i n|b x] & Ek & Hc%elem_of_changes)%list_elem_of_fmap; cbn in Ek.
      * by apply eq_sym, (fkey_not_nf i a Ha) in Ek.
      * destruct a, b. cbn in Ek. subst. congruence.
Qed.

Lemma vault_apply_delta_total d v :
  wf_vault v → valid_vault_delta d → no_min_delta d →
  (vault_apply_delta d v).1 ≠ Panic ∧ wf_vault (vault_apply_delta d v).2.
Proof.
  intros Hv Hd Hmin. rewrite vault_apply_delta_changes.
  destruct (for_each_keyed slot change_key apply_change slot_step wf_vault valid_change
    (λ c v Hv Hc, apply_change_spec c v Hv Hc) (changes d) v) as [[_ H]|[_ H]];
    [done|by apply changes_valid|by apply changes_keys_NoDup|..].
  - by destruct H as (v' & -> & Hv' & _).
  - by destruct H as (e & v' & -> & Hv').
Qed.

Lemma vault_apply_delta_succeeds d v :
  wf_vault v → valid_vault_delta d → no_min_delta d →
  (∀ c, c ∈ changes d → is_Some (slot_step c (slot v (change_key c)))) →
  ∃ v', vault_apply_delta d v = (Ok tt, v').
Proof.
  intros Hv Hd Hmin Hall. rewrite vault_apply_delta_changes.
  apply (for_each_keyed_succeeds slot change_key apply_change slot_step wf_vault valid_change
    (λ c v Hv Hc, apply_change_spec c v Hv Hc)); [done|by apply changes_valid| |done].
  by apply changes_keys_NoDup.
Qed.

Lemma apply_min_change_panics id v : (apply_change (FungibleChange id I64_MIN) v).1 = Panic.
Proof.
  cbn [apply_change]. unfold apply_fungible_change, lift, mbind, mut_bind. cbn [fst snd].
  unfold fungible_new, fungible_validate. cbn [fa_faucet_id fa_amount].
  case_decide; [|done]. unfold unsigned_abs, I64_MIN, MAX_AMOUNT. done.
Qed.

Lemma vault_apply_delta_no_min d v v' : vault_apply_delta d v = (Ok tt, v') → no_min_delta d.
Proof.
  rewrite vault_apply_delta_changes. intros Hrun id n Hid ->.
  apply (for_each_panics (changes d) apply_change (FungibleChange id I64_MIN) v).
  - by apply elem_of_changes.
  - apply apply_min_change_panics.
  - by rewrite Hrun.
Qed.

(** ** The abstract bank

    What a vault promises: a balance per fungible faucet and a set of owned
    non-fungible assets. *)

Record bank : Type := mkBank { bank_balances : gmap AccountId Z; bank_owned : gset NonFungibleAsset }.

Definition bank_set_balance (id : AccountId) (b : option Z) (bk : bank) : bank :=
  mkBank (partial_alter (λ _, b) id (bank_balances bk)) (bank_owned bk).

Definition bank_add (asset : Asset) (bk : bank) : option bank :=
  match asset with
  | Fungible a =>
      (λ b, bank_set_balance (fa_faucet_id a) b bk) <$>
        add_step (fa_amount a) (bank_balances bk !! fa_faucet_id a)
  | NonFungible a =>
      if decide (a ∈ bank_owned bk) then None
      else Some (mkBank (bank_balances bk) ({[ a ]} ∪ bank_owned bk))
  end.

Definition bank_remove (asset : Asset) (bk : bank) : option bank :=
  match asset with
  | Fungible a =>
      (λ b, bank_set_balance (fa_faucet_id a) b bk) <$>
        remove_step (fa_amount a) (bank_balances bk !! fa_faucet_id a)
  | NonFungible a =>
      if decide (a ∈ bank_owned bk) then Some (mkBank (bank_balances bk) (bank_owned bk ∖ {[ a ]}))
      else None
  end.

(** The vault [v] implements the bank [bk]. *)
Definition implements (v : AssetVault) (bk : bank) : Prop :=
  wf_vault v ∧
  (∀ id, word_balance (slot v (fkey id)) = bank_balances bk !! id) ∧
  (∀ a, valid_nf a → word_owned (slot v (nf_word a)) = bool_decide (a ∈ bank_owned bk)).

Lemma vault_set_fkey_implements v bk id b :
  implements v bk →
  (∀ n, b = Some n → valid_fungible (mkFungibleAsset id n)) →
  implements (vault_set v (fkey id) (balance_word id b)) (bank_set_balance id b bk).
Proof.
  intros (Hv & Hb & Ho) Hn. pose proof (vault_set_update v (fkey id) (balance_word id b)) as Hu.
  split_and!.
  - eapply slot_update_wf; [done| |done]. by apply balance_word_wf.
  - intros id'. cbn. destruct Hu as [Hk Hother]. destruct (decide (id' = id)) as [->|Hne].
    + by rewrite Hk, lookup_partial_alter_eq, word_balance_word.
    + rewrite Hother by (by intros ?%fkey_inj). by rewrite lookup_partial_alter_ne.
  - intros a Ha. cbn. destruct Hu as [_ Hother]. rewrite Hother; [by apply Ho|].
    intros E. by apply (fkey_not_nf id a Ha).
Qed.

Lemma vault_set_nf_implements v bk a (b : bool) :
  implements v bk → valid_nf a →
  implements (vault_set v (nf_word a) (owned_word a b))
    (mkBank (bank_balances bk) (if b then {[ a ]} ∪ bank_owned bk else bank_owned bk ∖ {[ a ]})).
Proof.
  intros (Hv & Hb & Ho) Ha. pose proof (vault_set_update v (nf_word a) (owned_word a b)) as Hu.
  split_and!.
  - eapply slot_update_wf; [done| |done]. destruct b; [right; by exists (NonFungible a)|by left].
  - intros id. destruct Hu as [_ Hother]. cbn. rewrite Hother; [by apply Hb|]. by apply fkey_not_nf.
  - intros a' Ha'. destruct Hu as [Hk Hother]. cbn. destruct (decide (a' = a)) as [->|Hne].
    + rewrite Hk, word_owned_word by done. symmetry. destruct b;
        [apply bool_decide_eq_true|apply bool_decide_eq_false]; set_solver.
    + rewrite Hother, Ho by (done || destruct a, a'; cbn; congruence).
      apply bool_decide_ext. destruct b; set_solver.
Qed.

Lemma implements_equiv v v' bk : vault_equiv v v' → implements v bk → implements v' bk.
Proof.
  intros He (Hv & Hb & Ho). split_and!.
  - by rewrite <-He.
  - intros id. rewrite <-Hb. f_equal. symmetry. apply He.
  - intros a Ha. rewrite <-Ho by done. f_equal. symmetry. apply He.
Qed.

Lemma vault_same_nf v a :
  wf_vault v → valid_nf a →
  vault_equiv v (vault_set v (nf_word a) (owned_word a (word_owned (slot v (nf_word a))))).
Proof.
  intros Hv Ha. rewrite <-(wf_slot_owned a (slot v (nf_word a)) Ha (Hv _)). symmetry. apply vault_set_same.
Qed.

(** C5. The vault refines the bank: adding or removing a well-formed asset
    never panics, succeeds exactly when the bank operation does, and leaves a
    well-formed vault that implements the resulting bank, or the unchanged one
    after an error. *)
Theorem vault_refines_bank v bk asset :
  implements v bk → valid_asset asset →
  (match bank_add asset bk with
   | Some bk' => ∃ r v', vault_add_asset asset v = (Ok r, v') ∧ implements v' bk'
   | None => ∃ e v', vault_add_asset asset v = (Err e, v') ∧ implements v' bk
   end) ∧
  (match bank_remove asset bk with
   | Some bk' => ∃ v', vault_remove_asset asset v = (Ok asset, v') ∧ implements v' bk'
   | None => ∃ e v', vault_remove_asset asset v = (Err e, v') ∧ implements v' bk
   end).
Proof.
  intros Hi Ha. pose proof Hi as (Hv & Hb & Ho).
  destruct asset as [[id n]|a]; unfold vault_add_asset, vault_remove_asset, mbind, mut_bind;
    cbn [bank_add bank_remove fa_faucet_id fa_amount].
  - rewrite add_fungible_asset_eq, remove_fungible_asset_eq by done. cbn [fa_faucet_id fa_amount].
    cbv zeta. pose proof (wf_slot_balance id _ (Hv (fkey id))) as [_ Hval].
    rewrite <-Hb. destruct Ha as (Hid & Hty & Hn). cbn [fa_faucet_id fa_amount] in *.
    destruct (word_balance (slot v (fkey id))) as [b|]; cbn [add_step remove_step].
    + destruct (Hval b eq_refl) as (_ & _ & Hbn). cbn [fa_amount] in Hbn. split.
      * destruct (Z.leb_spec (b + n) MAX_AMOUNT); cbn [fmap option_fmap option_map]; [|by eauto].
        do 2 eexists. split; [done|]. apply vault_set_fkey_implements; [done|].
        intros x [= <-]. split; [done|]. split; [done|]. cbn. lia.
      * destruct (Z.leb_spec n b); cbn [fmap option_fmap option_map]; [|by eauto].
        eexists. split; [done|]. apply vault_set_fkey_implements; [done|].
        intros x Hx. destruct (b - n =? 0); simplify_eq. split; [done|]. split; [done|]. cbn. lia.
    + split; cbn [fmap option_fmap option_map]; [|by eauto].
      do 2 eexists. split; [done|].
      apply (vault_set_fkey_implements v bk id (Some n)); [done|]. intros x [= <-]. done.
  - rewrite add_non_fungible_asset_eq, remove_non_fungible_asset_eq.
    pose proof (vault_same_nf v a Hv Ha) as Hsame.
    specialize (Ho a Ha). case_bool_decide as Hin; rewrite Ho in *; cbn [owned_word] in Hsame.
    + rewrite !decide_True by done. split.
      * do 2 eexists. split; [done|]. by apply (implements_equiv v).
      * eexists. split; [done|]. by apply (vault_set_nf_implements v bk a false).
    + rewrite !decide_False by done. split.
      * do 2 eexists. split; [done|]. by apply (vault_set_nf_implements v bk a true).
      * do 2 eexists. split; [done|]. by apply (implements_equiv v).
Qed.

Lemma get_balance_word v id :
  account_type id = FungibleFaucet →
  get_balance v id = Ok (default 0 (word_balance (slot v (fkey id)))).
Proof.
  intros Hty. unfold get_balance. rewrite decide_True by done. unfold word_balance, slot.
  change (mkWord ZERO ZERO ZERO (id_felt id)) with (fkey id). unfold SMT_EMPTY_VALUE.
  by case_decide.
Qed.

(** The accessors report the bank: the balance of a fungible faucet (zero
    when there is none) and the ownership of a non-fungible asset. *)
Theorem vault_reports_bank v bk id a :
  implements v bk → account_type id = FungibleFaucet → valid_nf a →
  get_balance v id = Ok (default 0 (bank_balances bk !! id)) ∧
  has_non_fungible_asset v (NonFungible a) = Ok (bool_decide (a ∈ bank_owned bk)).
Proof.
  intros (Hv & Hb & Ho) Hty Ha. split.
  - by rewrite get_balance_word, Hb.
  - rewrite <-Ho by done. unfold has_non_fungible_asset, word_owned, slot, SMT_EMPTY_VALUE.
    cbn [is_fungible vault_key]. unfold nf_vault_key. case_decide; case_bool_decide; done.
Qed.

Lemma vault_ext v v' :
  wf_vault v → wf_vault v' →
  (∀ id, slot v (fkey id) = slot v' (fkey id)) →
  (∀ a, valid_nf a → slot v (nf_word a) = slot v' (nf_word a)) → vault_equiv v v'.
Proof.
  intros Hv Hv' Hf Hn k. change (slot v k = slot v' k).
  destruct (Hv k) as [E|(a & Ha & Hk & _)], (Hv' k) as [E'|(a' & Ha' & Hk' & _)];
    [congruence|..]; [destruct a' as [[id n]|a']|destruct a as [[id n]|a]..];
    subst k; (apply (Hf id) || by apply Hn).
Qed.

(** ** What the accessors report

    An entry of amount zero can be stored, and the accessors do not tell it from a
    missing one. Two vaults that they do not tell apart: *)

Definition vault_balance (v : AssetVault) (id : AccountId) : Z := default 0 (word_balance (slot v (fkey id))).
Definition vault_same (v v' : AssetVault) : Prop :=
  (∀ id, vault_balance v id = vault_balance v' id) ∧ (∀ a, valid_nf a → slot v (nf_word a) = slot v' (nf_word a)).

#[export] Instance vault_same_equivalence : Equivalence vault_same.
Proof.
  split.
  - by intros v.
  - intros v v' [Hb Hn]. split; [done|]. intros a Ha. symmetry. by apply Hn.
  - intros v1 v2 v3 [B1 N1] [B2 N2]. split; [intros id; by rewrite B1|]. intros a Ha. by rewrite N1, N2.
Qed.

Lemma vault_equiv_same v v' : vault_equiv v v' → vault_same v v'.
Proof.
  intros E. assert (∀ k, slot v k = slot v' k) as Ek by exact E.
  split; [intros id; unfold vault_balance; by rewrite Ek|]. intros a _. apply Ek.
Qed.

(** No fungible asset of amount zero is stored. *)
Definition positive_vault (v : AssetVault) : Prop :=
  ∀ id n, word_balance (slot v (fkey id)) = Some n → 0 < n.

(** Without entries of amount zero such vaults have the same contents. *)
Lemma vault_same_equiv v v' :
  wf_vault v → wf_vault v' → positive_vault v → positive_vault v' → vault_same v v' → vault_equiv v v'.
Proof.
  intros Hv Hv' Hp Hp' [Hb Hn]. apply vault_ext; [done..| |done]. intros id.
  destruct (wf_slot_balance id _ (Hv (fkey id))) as [-> _]. destruct (wf_slot_balance id _ (Hv' (fkey id))) as [-> _].
  f_equal. specialize (Hb id). specialize (Hp id). specialize (Hp' id). unfold vault_balance in Hb.
  destruct (word_balance (slot v (fkey id))) as [n|], (word_balance (slot v' (fkey id))) as [n'|]; cbn in Hb.
  - by rewrite Hb.
  - specialize (Hp n eq_refl). lia.
  - specialize (Hp' n' eq_refl). lia.
  - done.
Qed.

(** ** Merging and applying *)

(** A change that may be absent. *)
Definition opt_step {A B} (step : A → B → option B) (e : option A) (b : B) : option B :=
  match e with None => Some b | Some n => step n b end.

Lemma balance_merge e1 e2 b b1 b2 :
  (∀ n, b = Some n → 0 ≤ n ≤ MAX_AMOUNT) → (∀ n, e2 = Some n → n ≤ MAX_AMOUNT) →
  opt_step balance_step e1 b = Some b1 → opt_step balance_step e2 b1 = Some b2 →
  (∀ n, b1 = Some n → 0 ≤ n ≤ MAX_AMOUNT) →
  ∃ e b', merge_entry amount_step e1 e2 = Some e ∧ opt_step balance_step e b = Some b' ∧
    default 0 b' = default 0 b2 ∧ ∀ n, e = Some n → e1 = Some n ∨ e2 = Some n ∨ I64_MIN < n.
Proof.
  intros Hb H2 S1 S2 Hb1. destruct e2 as [n2|]; cbn [opt_step merge_entry] in *.
  2:{ injection S2 as ->. exists e1, b2. naive_solver. }
  destruct e1 as [n1|]; cbn [opt_step amount_step] in *.
  2:{ injection S1 as ->. exists (Some n2), b2. naive_solver. }
  specialize (H2 _ eq_refl).
  assert (∃ b', in_i64 (n1 + n2) = true ∧ I64_MIN < n1 + n2 ∧
    opt_step balance_step (if n1 + n2 =? 0 then None else Some (n1 + n2)) b = Some b' ∧
    default 0 b' = default 0 b2) as (b' & -> & Hm & Hs & Hd).
  { unfold balance_step, add_step, remove_step in *. unfold in_i64, I64_MIN, I64_MAX, MAX_AMOUNT in *.
    destruct (Z.eqb_spec (n1 + n2) 0); cbn [opt_step];
      destruct b as [x|]; try specialize (Hb _ eq_refl);
      repeat match goal with
      | H : context [?a <=? ?b] |- _ => destruct (Z.leb_spec a b); simplify_eq
      | H : context [?a =? ?b] |- _ => destruct (Z.eqb_spec a b); simplify_eq
      end; try specialize (Hb1 _ eq_refl); try lia;
      repeat match goal with
      | |- context [?a <=? ?b] => destruct (Z.leb_spec a b); try lia
      | |- context [?a =? ?b] => destruct (Z.eqb_spec a b); try lia
      end; eexists; (split; [lia|]); (split; [lia|]); (split; [done|]); cbn; lia. }
  eexists _, b'. split; [done|]. split; [done|]. split; [done|].
  intros n Hn. destruct (n1 + n2 =? 0); simplify_eq. tauto.
Qed.

Lemma owned_merge e1 e2 o o1 o2 :
  opt_step owned_step e1 o = Some o1 → opt_step owned_step e2 o1 = Some o2 →
  ∃ e, merge_entry action_step e1 e2 = Some e ∧ opt_step owned_step e o = Some o2.
Proof.
  destruct e1 as [[]|], e2 as [[]|], o, o1; cbn; intros; simplify_eq; eexists; (split; [done|]); done.
Qed.

(** Slots and balances. *)
Lemma slot_after_balance id e w w' :
  valid_id id → account_type id = FungibleFaucet → (∀ n, e = Some n → - MAX_AMOUNT ≤ n ≤ MAX_AMOUNT) →
  wf_slot (fkey id) w → wf_slot (fkey id) w' →
  slot_after (FungibleChange id <$> e) w w' ↔
  opt_step balance_step e (word_balance w) = Some (word_balance w').
Proof.
  intros Hid Hty Hn [Ew Hw]%wf_slot_balance [Ew' Hw']%wf_slot_balance.
  destruct e as [n|]; cbn [fmap option_fmap option_map slot_after opt_step slot_step]; split.
  - intros (b & Hb & ->)%fmap_Some. rewrite Hb, word_balance_word; [done|].
    exact (balance_step_valid id n _ b Hid Hty (Hn n eq_refl) Hw Hb).
  - intros ->. cbn. by rewrite <-Ew'.
  - by intros ->.
  - intros [= E]. by rewrite Ew', Ew, E.
Qed.

Lemma slot_after_owned a e w w' :
  valid_nf a → wf_slot (nf_word a) w → wf_slot (nf_word a) w' →
  slot_after (NonFungibleChange a <$> e) w w' ↔
  opt_step owned_step e (word_owned w) = Some (word_owned w').
Proof.
  intros Ha Ew%wf_slot_owned Ew'%wf_slot_owned; [|done..].
  destruct e as [x|]; cbn [fmap option_fmap option_map slot_after opt_step slot_step]; split.
  - intros (b & -> & ->)%fmap_Some. by rewrite word_owned_word.
  - intros ->. cbn. by rewrite <-Ew'.
  - by intros ->.
  - intros [= E]. by rewrite Ew', Ew, E.
Qed.

Lemma delta_bounds d id n :
  valid_vault_delta d → no_min_delta d → vd_fungible d !! id = Some n →
  valid_id id ∧ account_type id = FungibleFaucet ∧ - MAX_AMOUNT ≤ n ≤ MAX_AMOUNT.
Proof.
  intros Hd Hm Hn. pose proof (changes_valid d Hd Hm) as Hall. rewrite Forall_forall in Hall.
  by apply (Hall (FungibleChange id n)), elem_of_changes.
Qed.

(** The slot that a change of the balance leads to. *)
Lemma balance_slot_after id e w b :
  wf_slot (fkey id) w → (∀ n, e = Some n → valid_id id ∧ account_type id = FungibleFaucet ∧ - MAX_AMOUNT ≤ n ≤ MAX_AMOUNT) →
  opt_step balance_step e (word_balance w) = Some b →
  slot_after (FungibleChange id <$> e) w (balance_word id b) ∧ word_balance (balance_word id b) = b.
Proof.
  intros [Ew Hw]%wf_slot_balance He. destruct e as [n|]; cbn [fmap option_fmap option_map slot_after opt_step slot_step].
  - intros Hb. destruct (He n eq_refl) as (Hid & Hty & Hn). rewrite Hb. split; [done|]. apply word_balance_word.
    exact (balance_step_valid id n _ b Hid Hty Hn Hw Hb).
  - intros [= <-]. by rewrite <-Ew.
Qed.

(** The entries of a merged delta describe the composition of the two steps. *)
Lemma merged_balance d1 d2 v v1 v2 id :
  wf_vault v → valid_vault_delta d1 → valid_vault_delta d2 →
  vault_apply_delta d1 v = (Ok tt, v1) → vault_apply_delta d2 v1 = (Ok tt, v2) →
  ∃ e w, merge_entry amount_step (vd_fungible d1 !! id) (vd_fungible d2 !! id) = Some e ∧
    slot_after (FungibleChange id <$> e) (slot v (fkey id)) w ∧ default 0 (word_balance w) = vault_balance v2 id ∧
    (∀ n, e = Some n → I64_MIN < n).
Proof.
  intros Hv V1 V2 A1 A2.
  pose proof (vault_apply_delta_no_min _ _ _ A1) as M1. pose proof (vault_apply_delta_no_min _ _ _ A2) as M2.
  destruct (vault_apply_delta_slots d1 v v1) as (Hv1 & F1 & _); [done..|].
  destruct (vault_apply_delta_slots d2 v1 v2) as (Hv2 & F2 & _); [done..|].
  specialize (F1 id). specialize (F2 id).
  destruct (decide (vd_fungible d1 !! id = None ∧ vd_fungible d2 !! id = None)) as [[E1 E2]|Hsome].
  { rewrite E1, E2 in *. cbn in F1, F2. exists None, (slot v (fkey id)). unfold vault_balance. cbn. naive_solver congruence. }
  assert (valid_id id ∧ account_type id = FungibleFaucet) as [Hid Hty].
  { destruct (vd_fungible d1 !! id) eqn:E1.
    { destruct (delta_bounds d1 id z) as (? & ? & ?); done. }
    destruct (vd_fungible d2 !! id) eqn:E2; [|tauto].
    destruct (delta_bounds d2 id z) as (? & ? & ?); done. }
  assert (∀ n, vd_fungible d1 !! id = Some n → - MAX_AMOUNT ≤ n ≤ MAX_AMOUNT) as B1.
  { intros n Hn. by apply (delta_bounds d1 id n). }
  assert (∀ n, vd_fungible d2 !! id = Some n → - MAX_AMOUNT ≤ n ≤ MAX_AMOUNT) as B2.
  { intros n Hn. by apply (delta_bounds d2 id n). }
  apply slot_after_balance in F1; [|done..]. apply slot_after_balance in F2; [|done..].
  destruct (wf_slot_balance id _ (Hv (fkey id))) as [_ Hb].
  destruct (wf_slot_balance id _ (Hv1 (fkey id))) as [_ Hb1].
  destruct (balance_merge _ _ _ _ _ ltac:(intros n Hn; by apply (Hb n Hn)) ltac:(intros n Hn; by apply (B2 n Hn)) F1 F2
    ltac:(intros n Hn; by apply (Hb1 n Hn))) as (e & b & He & Hs & Hd & Hr).
  assert (∀ n, e = Some n → - MAX_AMOUNT ≤ n ≤ MAX_AMOUNT ∨ I64_MIN < n) as Hr'.
  { intros n Hn. destruct (Hr n Hn) as [?|[?|?]]; [left; by apply B1|left; by apply B2|by right]. }
  assert (∀ n, e = Some n → I64_MIN < n ≤ I64_MAX) as Hrange.
  { intros n ->. split.
    - destruct (Hr' n eq_refl); unfold MAX_AMOUNT, I64_MIN in *; lia.
    - destruct V1 as [V1 _], V2 as [V2 _].
      apply (merge_amounts_valid True _ _ _ He); [..|done].
      + intros x Hx. by destruct (V1 _ _ Hx) as (_ & _ & ?).
      + intros x Hx. by destruct (V2 _ _ Hx) as (_ & _ & ?). }
  destruct (balance_slot_after id e (slot v (fkey id)) b) as [Ha Ew]; [done| |done|].
  { intros n Hn. specialize (Hrange n Hn). unfold I64_MIN, I64_MAX, MAX_AMOUNT in *. split_and!; (done || lia). }
  exists e, (balance_word id b). rewrite Ew. split_and!; [done..|]. intros n Hn. by apply Hrange.
Qed.

Lemma merged_owned d1 d2 v v1 v2 a :
  wf_vault v → valid_vault_delta d1 → valid_vault_delta d2 → valid_nf a →
  vault_apply_delta d1 v = (Ok tt, v1) → vault_apply_delta d2 v1 = (Ok tt, v2) →
  ∃ e, merge_entry action_step (vd_non_fungible d1 !! a) (vd_non_fungible d2 !! a) = Some e ∧
    slot_after (NonFungibleChange a <$> e) (slot v (nf_word a)) (slot v2 (nf_word a)).
Proof.
  intros Hv V1 V2 Ha A1 A2.
  pose proof (vault_apply_delta_no_min _ _ _ A1) as M1. pose proof (vault_apply_delta_no_min _ _ _ A2) as M2.
  destruct (vault_apply_delta_slots d1 v v1) as (Hv1 & _ & N1); [done..|].
  destruct (vault_apply_delta_slots d2 v1 v2) as (Hv2 & _ & N2); [done..|].
  specialize (N1 a Ha). specialize (N2 a Ha).
  apply slot_after_owned in N1; [|done..]. apply slot_after_owned in N2; [|done..].
  destruct (owned_merge _ _ _ _ _ N1 N2) as (e & He & Hs). exists e. split; [done|].
  by apply slot_after_owned.
Qed.

Lemma vault_apply_compose_same v v1 v2 d1 d2 :
  wf_vault v → valid_vault_delta d1 → valid_vault_delta d2 →
  vault_apply_delta d1 v = (Ok tt, v1) → vault_apply_delta d2 v1 = (Ok tt, v2) →
  ∃ d v', vault_delta_merge d2 d1 = (Ok tt, d) ∧ vault_apply_delta d v = (Ok tt, v') ∧ vault_same v' v2.
Proof.
  intros Hv V1 V2 A1 A2.
  assert (∀ a, valid_nf a ∨ (vd_non_fungible d1 !! a = None ∧ vd_non_fungible d2 !! a = None)) as Hnf.
  { intros a. destruct (vd_non_fungible d1 !! a) eqn:E1; [left; destruct V1 as [_ V]; by apply (V a n)|].
    destruct (vd_non_fungible d2 !! a) eqn:E2; [left; destruct V2 as [_ V]; by apply (V a n)|by right]. }
  destruct (vault_delta_merge_succeeds d1 d2) as [d Hd].
  { intros id. destruct (merged_balance d1 d2 v v1 v2 id) as (e & w & -> & _); eauto. }
  { intros a. destruct (Hnf a) as [Ha|[-> ->]]; [|by eexists].
    destruct (merged_owned d1 d2 v v1 v2 a) as (e & -> & _); eauto. }
  destruct (merged_delta_valid d1 d2 d V1 V2 Hd) as [Vd _].
  pose proof Hd as [Df Dn]%vault_delta_merge_Ok.
  assert (∀ id, ∃ w, slot_after (FungibleChange id <$> vd_fungible d !! id) (slot v (fkey id)) w ∧
    default 0 (word_balance w) = vault_balance v2 id ∧ ∀ n, vd_fungible d !! id = Some n → I64_MIN < n) as Sf.
  { intros id. destruct (merged_balance d1 d2 v v1 v2 id) as (e & w & He & Hs); [done..|].
    rewrite Df in He. injection He as ->. by exists w. }
  assert (∀ a, valid_nf a → slot_after (NonFungibleChange a <$> vd_non_fungible d !! a)
    (slot v (nf_word a)) (slot v2 (nf_word a))) as Sn.
  { intros a Ha. destruct (merged_owned d1 d2 v v1 v2 a) as (e & He & Hs); [done..|].
    rewrite Dn in He. by injection He as ->. }
  assert (no_min_delta d) as Md.
  { intros id n Hn. destruct (Sf id) as (w & _ & _ & Hm). specialize (Hm n Hn). lia. }
  destruct (vault_apply_delta_succeeds d v) as [v' Hv']; [done..| |].
  { intros [id n|a x] Hc%elem_of_changes; cbn [change_key].
    - destruct (Sf id) as (w & Hs & _). rewrite Hc in Hs. cbn [fmap option_fmap option_map slot_after] in Hs. eauto.
    - assert (valid_nf a) as Ha by (destruct Vd as [_ Vd]; by apply (Vd a x)).
      specialize (Sn a Ha). rewrite Hc in Sn. cbn [fmap option_fmap option_map slot_after] in Sn. eauto. }
  exists d, v'. split; [done|]. split; [done|].
  assert (∀ c w w' w'', slot_after c w w' → slot_after c w w'' → w' = w'') as Hfun.
  { intros [c|] w w' w''; cbn; congruence. }
  destruct (vault_apply_delta_slots d v v') as (Hwf' & F' & N'); [done..|]. split.
  - intros id. destruct (Sf id) as (w & Hs & Hd' & _). rewrite <-Hd'. unfold vault_balance.
    by rewrite (Hfun _ _ _ _ (F' id) Hs).
  - intros a Ha. eapply Hfun; [by apply N'|by apply Sn].
Qed.

(** What a successful [apply_delta] preserves. *)
Lemma vault_apply_wf d v v' :
  wf_vault v → valid_vault_delta d → vault_apply_delta d v = (Ok tt, v') → wf_vault v'.
Proof.
  intros Hv Hd Ha. destruct (vault_apply_delta_total d v) as [_ Hw]; [done|done|by eapply vault_apply_delta_no_min|].
  by rewrite Ha in Hw.
Qed.
Lemma vault_apply_positive d v v' :
  wf_vault v → positive_vault v → valid_vault_delta d → no_zero_delta (vd_fungible d) →
  vault_apply_delta d v = (Ok tt, v') → positive_vault v'.
Proof.
  intros Hv Hp Hd Hz Ha id n Hn. pose proof (vault_apply_delta_no_min _ _ _ Ha) as Hm.
  destruct (vault_apply_delta_slots d v v') as (Hv' & Hf & _); [done..|]. specialize (Hf id).
  destruct (vd_fungible d !! id) as [x|] eqn:Ex; cbn [fmap option_fmap option_map slot_after slot_step] in Hf.
  2: { apply (Hp id). by rewrite <-Hf. }
  destruct (delta_bounds d id x) as (Hid & Hty & Hx); [done..|].
  destruct (wf_slot_balance id _ (Hv (fkey id))) as [_ Hb].
  apply fmap_Some in Hf as (b & Hs & Eb). rewrite Eb, word_balance_word in Hn
    by exact (balance_step_valid id x _ b Hid Hty Hx Hb Hs).
  specialize (Hz id x Ex). specialize (Hp id). subst b. unfold balance_step, add_step, remove_step in Hs.
  destruct (Z.leb_spec 0 x), (word_balance (slot v (fkey id))) as [y|]; simplify_eq; try specialize (Hp y eq_refl); try lia;
    repeat match goal with
    | H : context [?a <=? ?b] |- _ => destruct (Z.leb_spec a b); simplify_eq
    | H : context [?a =? ?b] |- _ => destruct (Z.eqb_spec a b); simplify_eq
    end; lia.
Qed.

Lemma vault_apply_compose v v1 v2 d1 d2 :
  wf_vault v → positive_vault v → valid_vault_delta d1 → valid_vault_delta d2 →
  no_zero_delta (vd_fungible d1) → no_zero_delta (vd_fungible d2) →
  vault_apply_delta d1 v = (Ok tt, v1) → vault_apply_delta d2 v1 = (Ok tt, v2) →
  ∃ d v', vault_delta_merge d2 d1 = (Ok tt, d) ∧ vault_apply_delta d v = (Ok tt, v') ∧
    vault_equiv v' v2 ∧ vault_commitment v' = vault_commitment v2.
Proof.
  intros Hv Hp V1 V2 Z1 Z2 A1 A2.
  destruct (vault_apply_compose_same v v1 v2 d1 d2) as (d & v' & Hd & Hv' & Hs); [done..|].
  destruct (merged_delta_valid d1 d2 d V1 V2 Hd) as [Vd Zd]. pose proof (vault_apply_wf _ _ _ Hv V1 A1) as Hv1.
  pose proof (vault_apply_positive _ _ _ Hv Hp V1 Z1 A1) as Hp1.
  assert (vault_equiv v' v2) as He.
  { apply vault_same_equiv; [exact (vault_apply_wf d v v' Hv Vd Hv')|exact (vault_apply_wf d2 v1 v2 Hv1 V2 A2)| | |done].
    - exact (vault_apply_positive d v v' Hv Hp Vd (Zd Z1 Z2) Hv').
    - exact (vault_apply_positive d2 v1 v2 Hv1 Hp1 V2 Z2 A2). }
  exists d, v'. split; [done|]. split; [done|]. split; [done|]. by rewrite He.
Qed.

(** C18. Deltas compose: when applying [d1] and then [d2] to a well-formed vault
    succeeds, the two can be merged, applying the merged delta in one go
    succeeds, and the vault it gives has the same balances and the same
    non-fungible assets. Entries of amount zero, which the code accepts, can be
    there in one and missing in the other; when neither the vault nor the deltas
    have one, the contents and the commitment are the same. *)
Theorem vault_apply_merge v v1 v2 d1 d2 :
  wf_vault v → valid_vault_delta d1 → valid_vault_delta d2 →
  vault_apply_delta d1 v = (Ok tt, v1) → vault_apply_delta d2 v1 = (Ok tt, v2) →
  ∃ d v', vault_delta_merge d2 d1 = (Ok tt, d) ∧ vault_apply_delta d v = (Ok tt, v') ∧ vault_same v' v2 ∧
    (positive_vault v → no_zero_delta (vd_fungible d1) → no_zero_delta (vd_fungible d2) →
     vault_equiv v' v2 ∧ vault_commitment v' = vault_commitment v2).
Proof.
  intros Hv V1 V2 A1 A2. destruct (vault_apply_compose_same v v1 v2 d1 d2) as (d & v' & Hd & Hv' & Hs); [done..|].
  exists d, v'. split_and!; [done..|]. intros Hp Z1 Z2.
  destruct (vault_apply_compose v v1 v2 d1 d2) as (d0 & v0 & Hd0 & Hv0 & He); [done..|].
  assert (d0 = d) as -> by congruence. assert (v0 = v') as -> by congruence. done.
Qed.

(** Deltas of amount zero make the difference: applied one after the other they
    leave an entry, while their merge is empty. *)
Theorem zero_deltas_differ id v :
  valid_id id → account_type id = FungibleFaucet → wf_vault v → word_balance (slot v (fkey id)) = None →
  let d := mkVaultDelta {[ id := 0 ]} ∅ in
  ∃ v1 v2, vault_apply_delta d v = (Ok tt, v1) ∧ vault_apply_delta d v1 = (Ok tt, v2) ∧
    word_balance (slot v2 (fkey id)) = Some 0 ∧ vault_delta_merge d d = (Ok tt, vault_delta_default) ∧
    vault_apply_delta vault_delta_default v = (Ok tt, v).
Proof.
  intros Hid Hty Hv Hb d. assert (valid_vault_delta d ∧ no_min_delta d) as [Hd Hm].
  { split; [split; [|apply map_Forall_empty]|]; apply map_Forall_singleton; [|done]. split_and!; done. }
  assert (∀ u, wf_vault u → word_balance (slot u (fkey id)) = None ∨ word_balance (slot u (fkey id)) = Some 0 →
    ∃ u', vault_apply_delta d u = (Ok tt, u') ∧ wf_vault u' ∧ word_balance (slot u' (fkey id)) = Some 0) as Hstep.
  { intros u Hu Hw. assert (balance_step 0 (word_balance (slot u (fkey id))) = Some (Some 0)) as Hs by (by destruct Hw as [-> | ->]).
    destruct (vault_apply_delta_succeeds d u) as [u' Hu']; [done..| |].
    { intros [i n|a x] Hc%elem_of_changes; [|done]. apply (lookup_singleton_Some id i 0 n) in Hc as [<- <-].
      cbn [slot_step change_key]. rewrite Hs. by eexists. }
    exists u'. split; [done|]. destruct (vault_apply_delta_slots d u u') as (Hw' & Hf & _); [done..|]. split; [done|].
    specialize (Hf id). cbn [d vd_fungible] in Hf. rewrite lookup_singleton_eq in Hf.
    cbn [fmap option_fmap option_map slot_after slot_step] in Hf. rewrite Hs in Hf. injection Hf as <-.
    apply (word_balance_word id (Some 0)). intros n [= <-]. split_and!; done. }
  destruct (Hstep v Hv (or_introl Hb)) as (v1 & A1 & W1 & B1). destruct (Hstep v1 W1 (or_intror B1)) as (v2 & A2 & _ & B2).
  exists v1, v2. split_and!; [done..| |].
  - unfold vault_delta_merge, fungible_delta_merge, nf_delta_merge, mbind, mut_bind, on_field. cbn [d vd_fungible vd_non_fungible].
    assert (btree_iter account_id_leb ({[ id := 0 ]} : gmap AccountId Z) = [(id, 0)]) as ->.
    { apply Permutation_singleton_r. by rewrite btree_iter_perm, map_to_list_singleton. }
    assert (btree_iter nf_leb (∅ : gmap NonFungibleAsset NonFungibleDeltaAction) = []) as ->.
    { apply Permutation_nil_r. by rewrite btree_iter_perm, map_to_list_empty. }
    cbn. unfold mbind, mut_bind, add_delta. rewrite lookup_singleton_eq. cbn. by rewrite delete_singleton_eq.
  - unfold vault_apply_delta, vault_delta_default. cbn [vd_fungible vd_non_fungible].
    assert (btree_iter account_id_leb (∅ : gmap AccountId Z) = []) as ->.
    { apply Permutation_nil_r. by rewrite btree_iter_perm, map_to_list_empty. }
    assert (btree_iter nf_leb (∅ : gmap NonFungibleAsset NonFungibleDeltaAction) = []) as ->.
    { apply Permutation_nil_r. by rewrite btree_iter_perm, map_to_list_empty. }
    done.
Qed.

(** Applying a valid delta without an entry [i64::MIN] never panics and
    keeps the vault well formed, also when it stops at an error. *)
Theorem vault_apply_delta_safe d v :
  wf_vault v → valid_vault_delta d → no_min_delta d →
  (vault_apply_delta d v).1 ≠ Panic ∧ wf_vault (vault_apply_delta d v).2.
Proof. apply vault_apply_delta_total. Qed.

(** The restriction to deltas without [i64::MIN] matters: two valid deltas
    of a fungible faucet merge to a valid delta on which [apply_delta] panics,
    whatever the vault holds. *)
Theorem vault_apply_delta_min_panics id v :
  valid_id id → account_type id = FungibleFaucet →
  let d1 := mkVaultDelta {[ id := I64_MIN + 1 ]} ∅ in
  let d2 := mkVaultDelta {[ id := -1 ]} ∅ in
  let d := mkVaultDelta {[ id := I64_MIN ]} ∅ in
  valid_vault_delta d1 ∧ valid_vault_delta d2 ∧ valid_vault_delta d ∧
  vault_delta_merge d2 d1 = (Ok tt, d) ∧ (vault_apply_delta d v).1 = Panic.
Proof.
  intros Hid Hty d1 d2 d.
  assert (∀ n, I64_MIN ≤ n ≤ I64_MAX → valid_vault_delta (mkVaultDelta {[ id := n ]} ∅)) as Hval.
  { intros n Hn. split; [|apply map_Forall_empty].
    refine (proj2 (map_Forall_singleton _ _ _) _). done. }
  split_and!; try (apply Hval; unfold I64_MIN, I64_MAX; lia).
  - apply vault_delta_merge_Ok. cbn [vd_fungible vd_non_fungible d1 d2 d]. split; intros k.
    + destruct (decide (k = id)) as [->|Hne]; [by rewrite !lookup_singleton_eq|].
      by rewrite !lookup_singleton_ne.
    + by rewrite !lookup_empty.
  - rewrite vault_apply_delta_changes.
    assert (changes d = [FungibleChange id I64_MIN]) as ->.
    { unfold changes, btree_iter. cbn [vd_fungible vd_non_fungible d].
      by rewrite map_to_list_singleton, map_to_list_empty. }
    cbn [for_each]. unfold mbind, mut_bind.
    pose proof (apply_min_change_panics id v) as Hpan.
    destruct (apply_change _ v) as [r v']. cbn in Hpan. by subst r.
Qed.

(** The balance an addition leaves is large enough to take it back. *)
Lemma remove_added id n v m :
  wf_vault v → valid_fungible (mkFungibleAsset id n) → valid_fungible (mkFungibleAsset id m) →
  n ≤ m → balance_word id (if m - n =? 0 then None else Some (m - n)) = slot v (fkey id) →
  ∃ v2, remove_fungible_asset (mkFungibleAsset id n) (vault_set v (fkey id) (balance_word id (Some m))) =
    (Ok (mkFungibleAsset id n), v2) ∧ vault_equiv v2 v.
Proof.
  intros Hv Hn Hm Hle Hrest.
  assert (∀ x, Some m = Some x → valid_fungible (mkFungibleAsset id x)) as Hm' by (by intros x [= <-]).
  rewrite remove_fungible_asset_eq; [|eapply slot_update_wf; [done| |apply vault_set_update];
    by apply balance_word_wf|done].
  destruct (vault_set_update v (fkey id) (balance_word id (Some m))) as [Hk _].
  cbn [fa_faucet_id fa_amount]. cbv zeta. rewrite Hk, word_balance_word by done.
  destruct (Z.leb_spec n m); [|lia]. rewrite Hrest.
  eexists. split; [done|]. intros k. cbn. rewrite !smt_insert_get. by case_decide; subst.
Qed.

Lemma add_remove_fungible v a r v1 :
  wf_vault v → positive_vault v → valid_fungible a → add_fungible_asset a v = (Ok r, v1) →
  ∃ v2, remove_fungible_asset a v1 = (Ok a, v2) ∧ vault_equiv v2 v.
Proof.
  intros Hv Hp Ha. rewrite add_fungible_asset_eq by done. destruct a as [id n].
  cbn [fa_faucet_id fa_amount]. cbv zeta.
  destruct (wf_slot_balance id _ (Hv (fkey id))) as [Ew Hb].
  destruct (word_balance (slot v (fkey id))) as [b|] eqn:Eb.
  - specialize (Hp id b Eb). destruct (Hb b eq_refl) as (Hid & Hty & Hbn). cbn [fa_faucet_id fa_amount] in *.
    pose proof Ha as (_ & _ & Hn). cbn [fa_amount] in Hn.
    destruct (Z.leb_spec (b + n) MAX_AMOUNT); [|discriminate]. intros [= <- <-].
    apply remove_added; [done|done| |lia|].
    + split; [done|]. split; [done|]. cbn [fa_amount]. lia.
    + replace (b + n - n) with b by lia. by destruct (Z.eqb_spec b 0); [lia|].
  - intros [= <- <-]. apply (remove_added id n v n); [done..|]. by rewrite Z.sub_diag.
Qed.

Lemma add_remove_non_fungible v a r v1 :
  wf_vault v → valid_nf a → add_non_fungible_asset a v = (Ok r, v1) →
  ∃ v2, remove_non_fungible_asset a v1 = (Ok a, v2) ∧ vault_equiv v2 v.
Proof.
  intros Hv Ha. rewrite add_non_fungible_asset_eq.
  destruct (word_owned (slot v (nf_word a))) eqn:Eo; [discriminate|]. intros [= <- <-].
  pose proof (wf_slot_owned a _ Ha (Hv (nf_word a))) as Hown. rewrite Eo in Hown.
  rewrite remove_non_fungible_asset_eq.
  destruct (vault_set_update v (nf_word a) (nf_word a)) as [Hk _]. rewrite Hk.
  change (word_owned (nf_word a)) with (word_owned (owned_word a true)).
  rewrite word_owned_word by done. eexists. split; [done|]. intros k. cbn. rewrite !smt_insert_get.
  case_decide as Ek; [|done]. subst k. symmetry. exact Hown.
Qed.

(** Removing what was just added succeeds and restores the contents of the
    vault. *)
Theorem vault_add_remove v asset r v1 :
  wf_vault v → positive_vault v → valid_asset asset → vault_add_asset asset v = (Ok r, v1) →
  ∃ v2, vault_remove_asset asset v1 = (Ok asset, v2) ∧ vault_equiv v2 v.
Proof.
  intros Hv Hp Ha. unfold vault_add_asset, vault_remove_asset, mbind, mut_bind.
  destruct asset as [a|a].
  - destruct (add_fungible_asset a v) as [[x|e|] u] eqn:E; [|discriminate..]. intros [= <- <-].
    destruct (add_remove_fungible v a x u Hv Hp Ha E) as (v2 & -> & He). by exists v2.
  - destruct (add_non_fungible_asset a v) as [[x|e|] u] eqn:E; [|discriminate..]. intros [= <- <-].
    destruct (add_remove_non_fungible v a x u Hv Ha E) as (v2 & -> & He). by exists v2.
Qed.

(** ** Construction and serialization *)

Lemma elem_of_vault_assets v a :
  wf_vault v → a ∈ vault_assets v ↔ valid_asset a ∧ slot v (vault_key a) = asset_to_word a.
Proof.
  intros Hv. unfold vault_assets. rewrite list_elem_of_fmap. split.
  - intros ([k w] & -> & [Hk Hw]%smt_entries_spec). cbn [snd].
    destruct (Hv k) as [E|(b & Hb & <- & Eb)]; [unfold slot in E; congruence|].
    unfold slot in *. rewrite Hk in Eb. rewrite <-Eb, asset_unchecked_word by done. by rewrite Hk, Eb.
  - intros [Ha Hs]. exists (vault_key a, asset_to_word a). cbn [snd]. rewrite asset_unchecked_word by done.
    split; [done|]. apply smt_entries_spec. split; [done|]. by apply valid_word_nonempty.
Qed.

(** The entries of the tree are the assets under their own keys. *)
Lemma vault_assets_entries v :
  wf_vault v →
  (λ a, (vault_key a, asset_to_word a)) <$> vault_assets v = smt_entries (asset_tree v).
Proof.
  intros Hv. unfold vault_assets. rewrite <-list_fmap_compose.
  rewrite <-(list_fmap_id (smt_entries (asset_tree v))) at 2. apply list_fmap_ext.
  intros i [k w] [Hk Hw]%list_elem_of_lookup_2%smt_entries_spec. cbn [snd compose id].
  destruct (Hv k) as [E|(b & Hb & <- & Eb)]; [unfold slot in E; congruence|].
  unfold slot in Eb. rewrite Hk in Eb. by rewrite <-Eb, asset_unchecked_word.
Qed.

Lemma vault_assets_NoDup v : wf_vault v → NoDup (vault_key <$> vault_assets v).
Proof.
  intros Hv. pose proof (smt_entries_nodup (asset_tree v)) as HN.
  rewrite <-vault_assets_entries in HN by done. by rewrite <-list_fmap_compose in HN.
Qed.

(** [new] builds a well-formed vault that lists exactly the given assets,
    or reports the duplicate when two of them share a key. *)
Theorem vault_new_spec assets :
  Forall valid_asset assets →
  match vault_new assets with
  | Ok v => NoDup (vault_key <$> assets) ∧ wf_vault v ∧ vault_assets v ≡ₚ assets
  | Err e => ¬ NoDup (vault_key <$> assets) ∧ e = DuplicateAsset DuplicateValuesForIndex
  | Panic => False
  end.
Proof.
  intros Hall. unfold vault_new.
  set (l := (λ asset, (vault_key asset, asset_to_word asset)) <$> assets).
  assert (l.*1 = vault_key <$> assets) as Hkeys by (subst l; by rewrite <-list_fmap_compose).
  destruct (decide (NoDup l.*1)) as [ND|ND].
  2:{ rewrite smt_with_entries_dup by done. cbn. by rewrite <-Hkeys. }
  destruct (smt_with_entries_ok l ND) as (t & -> & Hin & Hout). cbn. rewrite <-Hkeys.
  assert (∀ a, a ∈ assets → smt_get_value t (vault_key a) = asset_to_word a) as Hget.
  { intros a Ha. apply Hin. apply list_elem_of_fmap. eauto. }
  assert (wf_vault (mkVault t)) as Hwf.
  { intros k. destruct (decide (k ∈ l.*1)) as [Hk|Hk]; [|left; by apply Hout].
    rewrite Hkeys in Hk. apply list_elem_of_fmap in Hk as (a & -> & Ha). right. exists a.
    rewrite Forall_forall in Hall. split; [by apply Hall|]. split; [done|]. symmetry. by apply Hget. }
  split; [done|]. split; [done|]. apply NoDup_Permutation.
  - eapply NoDup_fmap_1. by apply vault_assets_NoDup.
  - eapply NoDup_fmap_1. by rewrite <-Hkeys.
  - intros a. rewrite elem_of_vault_assets by done. split.
    + intros [Ha Hs]. unfold slot in Hs. cbn in Hs.
      destruct (decide (vault_key a ∈ l.*1)) as [Hk|Hk].
      2:{ rewrite Hout in Hs by done. by destruct (valid_word_nonempty a Ha). }
      rewrite Hkeys in Hk. apply list_elem_of_fmap in Hk as (b & Ek & Hb).
      rewrite Ek, Hget in Hs by done. apply (f_equal asset_new_unchecked) in Hs.
      rewrite Forall_forall in Hall. rewrite !asset_unchecked_word in Hs by auto. by subst.
    + intros Ha. rewrite Forall_forall in Hall. split; [by apply Hall|by apply Hget].
Qed.

Lemma vault_reads_back {B : ByteIO} v rest :
  wf_vault v → fits_usize (length (vault_assets v)) →
  (∃ v', read_from (write_into v ++ rest) = Ok (v', rest) ∧ vault_equiv v' v ∧
     vault_commitment v' = vault_commitment v) ∧
  length (write_into v) = get_size_hint v.
Proof.
  intros Hv Hlen. unfold fits_usize in Hlen.
  assert (Forall valid_asset (vault_assets v)) as Hall.
  { apply Forall_forall. intros a Ha. by apply elem_of_vault_assets in Ha as [? _]. }
  cbn [read_from write_into get_size_hint AssetVault_ser AssetVault_de]. split.
  - rewrite <-app_assoc, read_usize_bind by lia.
    rewrite (read_many_bind valid_asset) by (done || apply serde_decodes || by rewrite Nat2Z.id).
    unfold reader_lift, vault_new. rewrite vault_assets_entries by done.
    destruct (smt_with_entries_roundtrip (asset_tree v)) as (t & -> & Ht). cbn.
    exists (mkVault t). split; [done|]. assert (vault_equiv (mkVault t) v) as He by exact Ht.
    split; [done|]. by rewrite He.
  - rewrite length_app, length_write_usize, length_write_many, Nat.add_comm. f_equal. f_equal.
    apply list_fmap_ext. intros i a Ha%list_elem_of_lookup_2. apply serde_size.
    by apply elem_of_vault_assets in Ha as [? _].
Qed.

(** A well-formed vault reads back from its serialization with the same
    contents and commitment, and the size hint is exact. *)
Theorem vault_serde {B : ByteIO} v rest :
  wf_vault v → fits_usize (length (vault_assets v)) →
  (∃ v', read_from (write_into v ++ rest) = Ok (v', rest) ∧ vault_equiv v' v ∧
     vault_commitment v' = vault_commitment v) ∧
  length (write_into v) = get_size_hint v.
Proof. apply vault_reads_back. Qed.
End Vault.

(** ** Witnesses *)

#[local] Existing Instance Goldilocks.
#[local] Existing Instance ToyHasher.
#[local] Existing Instance MapTree.
#[local] Existing Instance CodeOrd.

Lemma vault_default_implements {F : FeltApi} {S : SmtApi} : implements vault_default (mkBank ∅ ∅).
Proof.
  assert (∀ k, slot vault_default k = EMPTY_WORD) as Hs by apply smt_get_new. split_and!.
  - intros k. rewrite Hs. by left.
  - intros id. rewrite Hs. unfold word_balance. by rewrite decide_True.
  - intros a Ha. rewrite Hs. unfold word_owned. by rewrite bool_decide_eq_false_2 by naive_solver.
Qed.

(** A vault with 100 units of the sample faucet's asset. *)
Definition sample_vault : AssetVault :=
  vault_set vault_default (fkey sample_faucet) (balance_word sample_faucet (Some 100)).
Definition sample_bank : bank := bank_set_balance sample_faucet (Some 100) (mkBank ∅ ∅).

Lemma sample_amount n : 0 ≤ n ≤ 1000 → valid_fungible (sample_fungible n).
Proof. intros Hn. apply sample_fungible_valid. unfold MAX_AMOUNT. lia. Qed.

Lemma sample_implements : implements sample_vault sample_bank.
Proof.
  apply vault_set_fkey_implements; [apply vault_default_implements|].
  intros n [= <-]. apply (sample_amount 100). lia.
Qed.

Lemma sample_vault_wf : wf_vault sample_vault.
Proof. apply sample_implements. Qed.

Lemma sample_vault_positive : positive_vault sample_vault.
Proof.
  intros id n. destruct sample_implements as (_ & -> & _). cbn. destruct (decide (id = sample_faucet)) as [->|Hne].
  - rewrite lookup_partial_alter_eq. intros [= <-]. lia.
  - by rewrite lookup_partial_alter_ne, lookup_empty.
Qed.

Lemma vault_refines_bank_witness :
  (∃ r v', vault_add_asset (Fungible (sample_fungible 5)) sample_vault = (Ok r, v') ∧
     implements v' (bank_set_balance sample_faucet (Some 105) sample_bank)) ∧
  ∃ e v', vault_remove_asset (Fungible (sample_fungible 101)) sample_vault = (Err e, v') ∧
     implements v' sample_bank.
Proof.
  split.
  - apply (vault_refines_bank sample_vault sample_bank (Fungible (sample_fungible 5)) sample_implements).
    apply (sample_amount 5). lia.
  - apply (vault_refines_bank sample_vault sample_bank (Fungible (sample_fungible 101)) sample_implements).
    apply (sample_amount 101). lia.
Defined.

Lemma vault_reports_bank_witness :
  get_balance sample_vault sample_faucet = Ok 100 ∧
  has_non_fungible_asset sample_vault (NonFungible sample_nf) = Ok false.
Proof.
  apply (vault_reports_bank sample_vault sample_bank sample_faucet sample_nf).
  - exact sample_implements.
  - reflexivity.
  - exact sample_nf_valid.
Defined.

Lemma single_no_zero n : n ≠ 0 → no_zero_delta {[ sample_faucet := n ]}.
Proof. intros Hn. by refine (proj2 (map_Forall_singleton _ _ _) _). Qed.

Lemma sample_small_delta n : -1000 ≤ n ≤ 1000 → valid_vault_delta (sample_vault_delta n).
Proof. intros Hn. apply sample_vault_delta_valid. unfold I64_MIN, I64_MAX. lia. Qed.

Definition sample_undo : AccountVaultDelta := mkVaultDelta {[ sample_faucet := -3 ]} {[ sample_nf := Remove ]}.

Lemma sample_undo_valid : valid_vault_delta sample_undo.
Proof.
  split; refine (proj2 (map_Forall_singleton _ _ _) _); [|apply sample_nf_valid].
  split; [reflexivity|]. split; [reflexivity|]. unfold I64_MIN, I64_MAX. lia.
Qed.

Definition sample_vault_1 : AssetVault := (vault_apply_delta (sample_vault_delta 7) sample_vault).2.
Definition sample_vault_2 : AssetVault := (vault_apply_delta sample_undo sample_vault_1).2.

Lemma vault_apply_merge_witness :
  ∃ d v', vault_delta_merge sample_undo (sample_vault_delta 7) = (Ok tt, d) ∧
    vault_apply_delta d sample_vault = (Ok tt, v') ∧
    vault_equiv v' sample_vault_2 ∧ vault_commitment v' = vault_commitment sample_vault_2.
Proof.
  destruct (vault_apply_merge sample_vault sample_vault_1 sample_vault_2 (sample_vault_delta 7) sample_undo)
    as (d & v' & H1 & H2 & _ & H3).
  - exact sample_vault_wf.
  - apply sample_small_delta. lia.
  - exact sample_undo_valid.
  - refine (run_Ok (vault_apply_delta (sample_vault_delta 7) sample_vault) _). vm_compute. reflexivity.
  - refine (run_Ok (vault_apply_delta sample_undo sample_vault_1) _). vm_compute. reflexivity.
  - exists d, v'. split; [exact H1|]. split; [exact H2|]. apply H3.
    + exact sample_vault_positive.
    + apply single_no_zero. lia.
    + apply single_no_zero. lia.
Defined.

Lemma vault_apply_delta_safe_witness :
  (vault_apply_delta (sample_vault_delta (-101)) sample_vault).1 ≠ Panic ∧
  wf_vault (vault_apply_delta (sample_vault_delta (-101)) sample_vault).2.
Proof.
  apply (vault_apply_delta_safe (sample_vault_delta (-101)) sample_vault sample_vault_wf).
  - apply sample_small_delta. lia.
  - refine (proj2 (map_Forall_singleton _ _ _) _). discriminate.
Defined.

Lemma vault_apply_delta_min_panics_witness :
  (vault_apply_delta (mkVaultDelta {[ sample_faucet := I64_MIN ]} ∅) sample_vault).1 = Panic.
Proof.
  apply (vault_apply_delta_min_panics sample_faucet sample_vault); reflexivity.
Defined.

Lemma vault_add_remove_witness :
  ∃ r v1, vault_add_asset (NonFungible sample_nf) sample_vault = (Ok r, v1) ∧
  ∃ v2, vault_remove_asset (NonFungible sample_nf) v1 = (Ok (NonFungible sample_nf), v2) ∧
    vault_equiv v2 sample_vault.
Proof.
  eexists _, _. split; [reflexivity|].
  apply (vault_add_remove sample_vault (NonFungible sample_nf) (NonFungible sample_nf)
    (vault_add_asset (NonFungible sample_nf) sample_vault).2).
  - exact sample_vault_wf.
  - exact sample_vault_positive.
  - exact sample_nf_valid.
  - reflexivity.
Defined.

Lemma vault_new_spec_witness :
  match vault_new [Fungible (sample_fungible 3); NonFungible sample_nf] with
  | Ok v => NoDup (vault_key <$> [Fungible (sample_fungible 3); NonFungible sample_nf]) ∧ wf_vault v ∧
      vault_assets v ≡ₚ [Fungible (sample_fungible 3); NonFungible sample_nf]
  | Err e => ¬ NoDup (vault_key <$> [Fungible (sample_fungible 3); NonFungible sample_nf]) ∧
      e = DuplicateAsset DuplicateValuesForIndex
  | Panic => False
  end.
Proof.
  apply (vault_new_spec [Fungible (sample_fungible 3); NonFungible sample_nf]).
  constructor; [apply (sample_amount 3); lia|]. constructor; [exact sample_nf_valid|constructor].
Defined.

Lemma vault_serde_witness :
  (∃ v', read_from (Deserializable:=AssetVault_de (B:=PlainIO))
     (write_into (B:=PlainIO) sample_vault ++ [1]) = Ok (v', [1]) ∧ vault_equiv v' sample_vault ∧
     vault_commitment v' = vault_commitment sample_vault) ∧
  length (write_into (B:=PlainIO) sample_vault) = get_size_hint (B:=PlainIO) sample_vault.
Proof.
  apply (vault_serde (B:=PlainIO) sample_vault [1] sample_vault_wf). reflexivity.
Defined.
