(* ===== verification/DeltaAssets.v ===== *)
(** * The assets of a vault delta

    Models [AccountVaultDelta::added_assets] and [removed_assets]
    (objects/src/accounts/delta/vault.rs), which present a delta as two lists of
    assets, and relates them to [from_iters], which builds a delta from such lists. *)

From S2P Require Import Prelude Felt Crypto Serde Types AccountId Assets VaultDelta Vault.
Open Scope Z_scope.

Section DeltaAssets.
  Context {F : FeltApi} {D : DigestOrd}.

(** [Asset::Fungible(FungibleAsset::new(faucet_id, diff.unsigned_abs()).unwrap())] *)
Definition change_asset {E} (e : AccountId * Z) : res E Asset :=
  Fungible <$> expect_ok (fungible_new e.1 (unsigned_abs e.2)).
Fixpoint change_assets {E} (l : list (AccountId * Z)) : res E (list Asset) :=
  match l with
  | [] => Ok []
  | e :: l' => a ← change_asset e; rest ← change_assets l'; Ok (a :: rest)
  end.

Definition added_assets {E} (d : AccountVaultDelta) : res E (list Asset) :=
  fungible ← change_assets (filter (λ e, 0 ≤ e.2) (btree_iter account_id_leb (vd_fungible d)));
  Ok (fungible ++ (NonFungible <$> filter_by_action (vd_non_fungible d) Add)).
Definition removed_assets {E} (d : AccountVaultDelta) : res E (list Asset) :=
  fungible ← change_assets (filter (λ e, e.2 < 0) (btree_iter account_id_leb (vd_fungible d)));
  Ok (fungible ++ (NonFungible <$> filter_by_action (vd_non_fungible d) Remove)).

(** ** Loops that insert fresh keys *)

Lemma for_each_insert {K V X T E} `{Countable K} (mk : gmap K V → T) (op : X → mut T E unit) (key : X → K) (val : X → V) l m :
  (∀ x m, x ∈ l → m !! key x = None → op x (mk m) = (Ok tt, mk (<[key x := val x]> m))) →
  NoDup (key <$> l) → (∀ x, x ∈ l → m !! key x = None) →
  for_each l op (mk m) = (Ok tt, mk (list_to_map ((λ x, (key x, val x)) <$> l) ∪ m)).
Proof.
  revert m. induction l as [|x l IH]; intros m Hop ND Hm; [by cbn; rewrite (left_id_L ∅ (∪))|].
  rewrite fmap_cons in ND. apply NoDup_cons in ND as [Hx ND].
  cbn [for_each]. unfold mbind, mut_bind. rewrite Hop by (try apply Hm; left). rewrite IH.
  - rewrite fmap_cons. cbn [list_to_map foldr fst snd]. rewrite <- insert_union_r, insert_union_l; [done|].
    apply not_elem_of_list_to_map. rewrite <- list_fmap_compose. done.
  - intros y m' Hy. apply Hop. by right.
  - done.
  - intros y Hy. rewrite lookup_insert_ne; [apply Hm; by right|]. intros Heq. apply Hx. rewrite Heq. by apply list_elem_of_fmap_2.
Qed.

(** ** Reading back *)

Definition change_of (e : AccountId * Z) : Asset := Fungible (mkFungibleAsset e.1 (Z.abs e.2)).
(** Entries of a delta whose amounts an asset can have. *)
Definition sound_entry (e : AccountId * Z) : Prop :=
  valid_id e.1 ∧ account_type e.1 = FungibleFaucet ∧ - MAX_AMOUNT ≤ e.2 ≤ MAX_AMOUNT.

Lemma change_assets_sound {E} l : Forall sound_entry l → change_assets (E:=E) l = Ok (change_of <$> l).
Proof.
  induction 1 as [|[id n] l (Hid & Hty & Hn) _ IH]; [done|]. cbn [change_assets]. unfold change_asset. cbn [fst snd].
  destruct (fungible_new_change id n Hid Hty Hn) as [-> _]. cbn. by rewrite IH.
Qed.

Lemma add_change f nf id n : sound_entry (id, n) → 0 ≤ n → f !! id = None →
  vault_delta_add_asset (change_of (id, n)) (mkVaultDelta f nf) = (Ok tt, mkVaultDelta (<[id := n]> f) nf).
Proof.
  intros (Hid & Hty & Hn) H0 Hf. destruct (fungible_new_change id n Hid Hty Hn) as [_ Hv].
  unfold vault_delta_add_asset, change_of, on_field. cbn [vd_fungible fst snd]. rewrite fungible_delta_add_eq by done.
  unfold add_delta. cbn [fa_faucet_id fa_amount]. by rewrite Hf, Z.abs_eq.
Qed.
Lemma remove_change f nf id n : sound_entry (id, n) → n < 0 → f !! id = None →
  vault_delta_remove_asset (change_of (id, n)) (mkVaultDelta f nf) = (Ok tt, mkVaultDelta (<[id := n]> f) nf).
Proof.
  intros (Hid & Hty & Hn) H0 Hf. destruct (fungible_new_change id n Hid Hty Hn) as [_ Hv].
  unfold vault_delta_remove_asset, change_of, on_field. cbn [vd_fungible fst snd]. rewrite fungible_delta_remove_eq by done.
  unfold add_delta. cbn [fa_faucet_id fa_amount]. rewrite Hf. by replace (- Z.abs n) with n by lia.
Qed.

Lemma filtered_keys {K A} `{Countable K} (leb : K → K → bool) (P : K * A → Prop) `{∀ x, Decision (P x)} (m : gmap K A) :
  NoDup (filter P (btree_iter leb m)).*1.
Proof. eapply sublist_NoDup; [apply (btree_iter_keys_NoDup leb m)|apply fmap_sublist, sublist_filter]. Qed.

(** The part of a map that passes a filter, as the iteration finds it. *)
Lemma filtered_entries {K A} `{Countable K} (leb : K → K → bool) (P : K * A → Prop) `{∀ x, Decision (P x)} (m : gmap K A) k :
  (list_to_map (filter P (btree_iter leb m)) : gmap K A) !! k =
  (m !! k ≫= λ a, if decide (P (k, a)) then Some a else None).
Proof.
  destruct (m !! k) as [a|] eqn:Hk; cbn.
  - case_decide as HP.
    + apply elem_of_list_to_map_1; [|by apply list_elem_of_filter; split; [|apply elem_of_btree_iter]].
      apply filtered_keys.
    + apply not_elem_of_list_to_map. intros ([k' a'] & -> & [HP' Ha'%elem_of_btree_iter]%list_elem_of_filter)%list_elem_of_fmap.
      cbn in *. by replace a with a' in HP by congruence.
  - apply not_elem_of_list_to_map. intros ([k' a'] & -> & [HP' Ha'%elem_of_btree_iter]%list_elem_of_filter)%list_elem_of_fmap.
    cbn in *. congruence.
Qed.

(** Adding or removing all entries with one sign, on a delta without their faucets. *)
Lemma changes_loop (op : Asset → mut AccountVaultDelta AccountDeltaError unit) l f nf :
  (∀ id n f, (id, n) ∈ l → f !! id = None →
     op (change_of (id, n)) (mkVaultDelta f nf) = (Ok tt, mkVaultDelta (<[id := n]> f) nf)) →
  NoDup l.*1 → (∀ e, e ∈ l → f !! e.1 = None) →
  for_each (change_of <$> l) op (mkVaultDelta f nf) = (Ok tt, mkVaultDelta (list_to_map l ∪ f) nf).
Proof.
  intros Hop ND Hf. rewrite for_each_fmap.
  rewrite (for_each_insert (λ f, mkVaultDelta f nf) _ fst snd).
  - replace ((λ x, (x.1, x.2)) <$> l) with l; [done|]. rewrite <- (list_fmap_id l) at 1. apply list_fmap_ext. by intros ? [].
  - intros [id n] m Hin Hm. by apply Hop.
  - done.
  - done.
Qed.
Lemma actions_loop (op : Asset → mut AccountVaultDelta AccountDeltaError unit) x l f nf :
  (∀ a s, op (NonFungible a) s = on_field vd_non_fungible set_vd_non_fungible (apply_action a x) s) →
  NoDup l → (∀ a, a ∈ l → nf !! a = None) →
  for_each (NonFungible <$> l) op (mkVaultDelta f nf) = (Ok tt, mkVaultDelta f (list_to_map ((λ a, (a, x)) <$> l) ∪ nf)).
Proof.
  intros Hop ND Hnf. rewrite for_each_fmap.
  rewrite (for_each_insert (λ nf, mkVaultDelta f nf) _ id (λ _, x)); [done|..].
  - intros a m _ Hm. change (m !! a = None) in Hm. rewrite Hop. unfold on_field, apply_action. cbn. by rewrite Hm.
  - by rewrite list_fmap_id.
  - done.
Qed.

Lemma filter_by_action_NoDup d x : NoDup (filter_by_action d x).
Proof. apply filtered_keys. Qed.
Lemma action_entries d x a :
  (list_to_map ((λ a, (a, x)) <$> filter_by_action d x) : gmap NonFungibleAsset NonFungibleDeltaAction) !! a =
  (d !! a ≫= λ y, if decide (y = x) then Some y else None).
Proof.
  destruct (decide (a ∈ filter_by_action d x)) as [Ha|Ha].
  - rewrite (elem_of_list_to_map_1 _ a x).
    + apply elem_of_filter_by_action in Ha as ->. cbn. by case_decide.
    + rewrite <- list_fmap_compose. rewrite (list_fmap_ext _ id); [|done]. rewrite list_fmap_id. apply filter_by_action_NoDup.
    + by apply (list_elem_of_fmap_2 (λ a, (a, x))).
  - rewrite not_elem_of_list_to_map_1.
    + destruct (d !! a) as [y|] eqn:E; [|done]. cbn. case_decide as Hy; [|done]. subst y. by apply elem_of_filter_by_action in E.
    + rewrite <- list_fmap_compose. rewrite (list_fmap_ext _ id); [|done]. by rewrite list_fmap_id.
Qed.

(** The asset lists of a valid delta read back to the delta: it is the delta that
    adds the added and removes the removed assets. *)
Theorem vault_delta_of_assets {E} d :
  valid_vault_delta d → map_Forall (λ _ n, n ≠ I64_MIN) (vd_fungible d) →
  ∃ added removed, added_assets (E:=E) d = Ok added ∧ removed_assets (E:=E) d = Ok removed ∧
    from_iters (E:=E) added removed = Ok d.
Proof.
  destruct d as [f nf]. intros [Hf Hnf] Hmin. cbn in *.
  assert (∀ id n, f !! id = Some n → sound_entry (id, n)) as Hs.
  { intros id n Hin. destruct (Hf id n Hin) as (? & ? & Hn). specialize (Hmin id n Hin). split; [done|]. split; [done|].
    cbn. unfold I64_MIN, I64_MAX, MAX_AMOUNT in *. lia. }
  set (lp := filter (λ e, 0 ≤ e.2) (btree_iter account_id_leb f)). set (ln := filter (λ e, e.2 < 0) (btree_iter account_id_leb f)).
  assert (∀ id n, (id, n) ∈ lp ↔ f !! id = Some n ∧ 0 ≤ n) as Hp by (intros; unfold lp; rewrite list_elem_of_filter, elem_of_btree_iter; tauto).
  assert (∀ id n, (id, n) ∈ ln ↔ f !! id = Some n ∧ n < 0) as Hn by (intros; unfold ln; rewrite list_elem_of_filter, elem_of_btree_iter; tauto).
  exists ((change_of <$> lp) ++ (NonFungible <$> filter_by_action nf Add)), ((change_of <$> ln) ++ (NonFungible <$> filter_by_action nf Remove)).
  split; [|split].
  - unfold added_assets. cbn [vd_fungible vd_non_fungible]. rewrite change_assets_sound; [done|].
    apply Forall_forall. intros [id n] [? _]%Hp. by apply Hs.
  - unfold removed_assets. cbn [vd_fungible vd_non_fungible]. rewrite change_assets_sound; [done|].
    apply Forall_forall. intros [id n] [? _]%Hn. by apply Hs.
  - unfold from_iters, vault_delta_default. unfold mbind at 1, mut_bind at 1. rewrite !for_each_app. unfold mbind, mut_bind.
    rewrite changes_loop; [|intros id n g [? ?]%Hp; apply add_change; [by apply Hs|done]|apply filtered_keys|done].
    rewrite (actions_loop _ Add); [|done|apply filter_by_action_NoDup|done].
    rewrite !(right_id_L ∅ (∪)), ?for_each_app. unfold mbind, mut_bind.
    rewrite changes_loop; [|intros id n g [? ?]%Hn; apply remove_change; [by apply Hs|done]|apply filtered_keys|].
    2:{ intros [id n] [Hid Hneg]%Hn. unfold lp. rewrite filtered_entries. cbn [fst]. rewrite Hid. cbn. case_decide; [cbn in *; lia|done]. }
    rewrite (actions_loop _ Remove); [|done|apply filter_by_action_NoDup|].
    2:{ intros a Ha%elem_of_filter_by_action. rewrite action_entries, Ha. done. }
    do 2 f_equal; apply map_eq; intros k; rewrite lookup_union.
    + unfold lp, ln. rewrite !filtered_entries. destruct (f !! k) as [n|]; [|done]. cbn. repeat case_decide; cbn in *; try done; lia.
    + rewrite !action_entries. destruct (nf !! k) as [[]|]; done.
Qed.
End DeltaAssets.

(** ** Witness *)

#[local] Existing Instance Goldilocks.
#[local] Existing Instance CodeOrd.

Lemma vault_delta_of_assets_witness :
  ∃ added removed, added_assets (E:=Empty_set) (sample_vault_delta (-5)) = Ok added ∧
    removed_assets (E:=Empty_set) (sample_vault_delta (-5)) = Ok removed ∧
    from_iters (E:=Empty_set) added removed = Ok (sample_vault_delta (-5)).
Proof.
  apply (vault_delta_of_assets (E:=Empty_set) (sample_vault_delta (-5))).
  - apply sample_vault_delta_valid. unfold I64_MIN, I64_MAX. lia.
  - refine (proj2 (map_Forall_singleton _ _ _) _). discriminate.
Defined.
