(* ===== verification/StorageDelta.v ===== *)
(** * Storage deltas

    Models objects/src/accounts/delta/storage.rs: updates of value slots and of
    storage maps, their merging and their byte format. A [u8] slot index is a
    [Z] in the range of [u8]. *)

From S2P Require Import Prelude Felt Crypto Serde Types AccountId Assets VaultDelta.
Open Scope Z_scope.

(** ** Maps split into cleared and updated entries

    Both deltas write the keys whose new value is the empty word apart from the
    entries with a value. *)

Section Split.
  Context {F : FeltApi} {K : Type} `{Countable K} (leb : K → K → bool).

Definition cleared (d : gmap K Word) : list K :=
  (filter (λ kv, kv.2 = EMPTY_WORD) (btree_iter leb d)).*1.
Definition updated (d : gmap K Word) : list (K * Word) :=
  filter (λ kv, kv.2 ≠ EMPTY_WORD) (btree_iter leb d).

Definition insert_cleared (m : gmap K Word) (k : K) : gmap K Word := <[k := EMPTY_WORD]> m.
Definition insert_updated (m : gmap K Word) (kv : K * Word) : gmap K Word := <[kv.1 := kv.2]> m.

Lemma elem_of_cleared d k : k ∈ cleared d ↔ d !! k = Some EMPTY_WORD.
Proof.
  unfold cleared. rewrite list_elem_of_fmap. split.
  - intros ([k' w] & -> & [Hw Hin]%list_elem_of_filter). cbn in *. subst w.
    by apply elem_of_btree_iter in Hin.
  - intros Hk. exists (k, EMPTY_WORD). split; [done|]. apply list_elem_of_filter.
    split; [done|]. by apply elem_of_btree_iter.
Qed.

Lemma elem_of_updated d k w : (k, w) ∈ updated d ↔ d !! k = Some w ∧ w ≠ EMPTY_WORD.
Proof. unfold updated. rewrite list_elem_of_filter, elem_of_btree_iter. cbn. tauto. Qed.

Lemma lookup_insert_updated (l : list (K * Word)) (m : gmap K Word) k :
  foldl insert_updated m l !! k =
  match list_to_map (M:=gmap K Word) (reverse l) !! k with Some w => Some w | None => m !! k end.
Proof.
  induction l as [|[k' w] l IH] using rev_ind; cbn; [by rewrite lookup_empty|].
  rewrite foldl_snoc, reverse_snoc. cbn. unfold insert_updated at 1. cbn.
  destruct (decide (k' = k)) as [->|].
  - by rewrite !lookup_insert_eq.
  - by rewrite !lookup_insert_ne.
Qed.

(** Reading back first the cleared keys and then the updated entries. *)
Lemma rebuild_split d :
  foldl insert_updated (foldl insert_cleared ∅ (cleared d)) (updated d) = d.
Proof.
  apply map_eq. intros k. rewrite lookup_insert_updated.
  assert (NoDup (reverse (updated d)).*1) as ND.
  { rewrite reverse_Permutation. unfold updated.
    apply NoDup_fmap_fst.
    - intros x y1 y2 [H1 _]%elem_of_updated [H2 _]%elem_of_updated. congruence.
    - apply NoDup_filter, (NoDup_fmap_1 fst), btree_iter_keys_NoDup. }
  destruct (list_to_map (reverse (updated d)) !! k) as [w|] eqn:E.
  - apply elem_of_list_to_map_2 in E. rewrite elem_of_reverse in E.
    apply elem_of_updated in E as [E _]. done.
  - apply not_elem_of_list_to_map_2 in E. 
    rewrite (lookup_foldl_insert EMPTY_WORD (cleared d) ∅ k : foldl insert_cleared ∅ (cleared d) !! k = _).
    rewrite lookup_empty. case_decide as Hc; rewrite elem_of_cleared in Hc; [done|].
    destruct (d !! k) as [w|] eqn:Hd; [|done]. destruct (decide (w = EMPTY_WORD)) as [->|Hne]; [done|].
    destruct E. apply list_elem_of_fmap. exists (k, w). split; [done|].
    apply elem_of_reverse, elem_of_updated. done.
Qed.
End Split.

Section StorageDelta.
  Context {F : FeltApi} {D : DigestOrd}.

(** ** Storage map deltas *)

(** [struct StorageMapDelta(BTreeMap<Digest, Word>)] *)
Record StorageMapDelta : Type := mkMapDelta { leaves : gmap Digest Word }.

Definition map_delta_default : StorageMapDelta := mkMapDelta ∅.
Definition map_delta_insert (key : Digest) (value : Word) (d : StorageMapDelta) : StorageMapDelta :=
  mkMapDelta (<[key := value]> (leaves d)).
Definition map_delta_is_empty (d : StorageMapDelta) : bool := bool_decide (leaves d = ∅).

(** [StorageMapDelta::merge]: [extend], so the other delta wins. *)
Definition map_delta_merge (other self : StorageMapDelta) : StorageMapDelta :=
  mkMapDelta (leaves other ∪ leaves self).

Definition cleared_keys (d : StorageMapDelta) : list Digest := cleared digest_leb (leaves d).
Definition updated_entries (d : StorageMapDelta) : list (Digest * Word) := updated digest_leb (leaves d).

(** ** Account storage deltas *)

Record AccountStorageDelta : Type := mkStorageDelta {
  sd_values : gmap Z Word;
  sd_maps : gmap Z StorageMapDelta
}.

Definition storage_delta_default : AccountStorageDelta := mkStorageDelta ∅ ∅.

(** [AccountStorageDelta::validate]: the first slot updated through both maps. *)
Fixpoint validate_slots (values : gmap Z Word) (slots : list Z) : res AccountDeltaError unit :=
  match slots with
  | [] => Ok tt
  | slot :: slots' =>
      if decide (is_Some (values !! slot)) then Err (DuplicateStorageItemUpdate slot)
      else validate_slots values slots'
  end.
Definition storage_delta_validate (d : AccountStorageDelta) : res AccountDeltaError unit :=
  validate_slots (sd_values d) (btree_iter Z.leb (sd_maps d)).*1.

Definition storage_delta_new (values : gmap Z Word) (maps : gmap Z StorageMapDelta)
    : res AccountDeltaError AccountStorageDelta :=
  let result := mkStorageDelta values maps in
  storage_delta_validate result ;; Ok result.

Definition storage_delta_is_empty (d : AccountStorageDelta) : bool :=
  bool_decide (sd_values d = ∅) && bool_decide (sd_maps d = ∅).

Definition storage_delta_set_item (slot_index : Z) (value : Word) (d : AccountStorageDelta)
    : AccountStorageDelta :=
  mkStorageDelta (<[slot_index := value]> (sd_values d)) (sd_maps d).

(** [self.maps.entry(slot_index).or_default().insert(key, new_value)] *)
Definition storage_delta_set_map_item (slot_index : Z) (key : Digest) (value : Word)
    (d : AccountStorageDelta) : AccountStorageDelta :=
  let entry := default map_delta_default (sd_maps d !! slot_index) in
  mkStorageDelta (sd_values d) (<[slot_index := map_delta_insert key value entry]> (sd_maps d)).

(** One iteration of the loop of [AccountStorageDelta::merge]. *)
Definition merge_map_entry (maps : gmap Z StorageMapDelta) (x : Z * StorageMapDelta)
    : gmap Z StorageMapDelta :=
  match maps !! x.1 with
  | None => <[x.1 := x.2]> maps
  | Some mine => <[x.1 := map_delta_merge x.2 mine]> maps
  end.

Definition storage_delta_merge (other : AccountStorageDelta)
    : mut AccountStorageDelta AccountDeltaError unit :=
  self ← get_self;
  put_self (mkStorageDelta (sd_values other ∪ sd_values self)
    (foldl merge_map_entry (sd_maps self) (btree_iter Z.leb (sd_maps other)))) ;;
  self ← get_self;
  lift (storage_delta_validate self).

Definition cleared_slots (d : AccountStorageDelta) : list Z := cleared Z.leb (sd_values d).
Definition updated_slots (d : AccountStorageDelta) : list (Z * Word) := updated Z.leb (sd_values d).

(** ** Serialization *)

Section Ser.
  Context {B : ByteIO}.

#[export] Instance StorageMapDelta_ser : Serializable StorageMapDelta := {|
  write_into d :=
    write_usize (Z.of_nat (length (cleared_keys d))) ++ write_many write_digest (cleared_keys d) ++
    write_usize (Z.of_nat (length (updated_entries d))) ++
    write_many (write_pair write_digest write_word) (updated_entries d);
  get_size_hint d :=
    let cleared_keys_count := length (cleared_keys d) in
    let updated_entries_count := length (updated_entries d) in
    (usize_size_hint (Z.of_nat cleared_keys_count) + cleared_keys_count * DIGEST_SERIALIZED_SIZE +
     usize_size_hint (Z.of_nat updated_entries_count) +
     updated_entries_count * (DIGEST_SERIALIZED_SIZE + ELEMENT_BYTES * WORD_SIZE))%nat
|}.

#[export] Instance StorageMapDelta_de : Deserializable StorageMapDelta := {|
  read_from :=
    cleared_count ← read_usize;
    map ← read_loop read_digest insert_cleared (Z.to_nat cleared_count) (∅ : gmap Digest Word);
    updated_count ← read_usize;
    map ← read_loop (read_pair read_digest read_word) insert_updated (Z.to_nat updated_count) map;
    mret (mkMapDelta map)
|}.

#[export] Instance AccountStorageDelta_ser : Serializable AccountStorageDelta := {|
  write_into d :=
    write_u8 (as_u8 (Z.of_nat (length (cleared_slots d)))) ++
    write_many write_u8 (cleared_slots d) ++
    write_u8 (as_u8 (Z.of_nat (length (updated_slots d)))) ++
    write_many (write_pair write_u8 write_word) (updated_slots d) ++
    write_u8 (as_u8 (Z.of_nat (size (sd_maps d)))) ++
    write_many (write_pair write_u8 write_into) (btree_iter Z.leb (sd_maps d));
  get_size_hint d :=
    (1 * 3 + length (cleared_slots d) * 1 +
     length (updated_slots d) * (1 + ELEMENT_BYTES * WORD_SIZE) +
     sum_list ((λ x, 1 + get_size_hint x.2) <$> btree_iter Z.leb (sd_maps d)))%nat
|}.

#[export] Instance AccountStorageDelta_de : Deserializable AccountStorageDelta := {|
  read_from :=
    num_cleared_items ← read_u8;
    values ← read_loop read_u8 insert_cleared (Z.to_nat num_cleared_items) (∅ : gmap Z Word);
    num_updated_items ← read_u8;
    values ← read_loop (read_pair read_u8 read_word) insert_updated (Z.to_nat num_updated_items) values;
    num_maps ← read_u8;
    maps ← read_many (read_pair read_u8 read_from) (Z.to_nat num_maps);
    reader_lift (storage_delta_new values (list_to_map (reverse maps)))
|}.
End Ser.

(** ** Validity *)

(** Slot indices are [u8]s and no slot is updated both as a value and as a map. *)
Definition disjoint_slots (d : AccountStorageDelta) : Prop :=
  ∀ s, sd_values d !! s = None ∨ sd_maps d !! s = None.
Definition valid_storage_delta (d : AccountStorageDelta) : Prop :=
  map_Forall (λ i _, 0 ≤ i < 2 ^ 8) (sd_values d) ∧
  map_Forall (λ i _, 0 ≤ i < 2 ^ 8) (sd_maps d) ∧
  disjoint_slots d.

Lemma validate_slots_Ok values slots :
  validate_slots values slots = Ok tt ↔ Forall (λ s, values !! s = None) slots.
Proof.
  induction slots as [|s slots IH]; cbn [validate_slots]; [done|]. rewrite Forall_cons, <-IH.
  case_decide as Hs; rewrite eq_None_not_Some; naive_solver.
Qed.

Lemma validate_slots_cases values slots :
  validate_slots values slots = Ok tt ∨
  ∃ s, validate_slots values slots = Err (DuplicateStorageItemUpdate s) ∧ s ∈ slots ∧ is_Some (values !! s).
Proof.
  induction slots as [|s slots IH]; cbn [validate_slots]; [by left|]. case_decide as Hs.
  - right. exists s. split; [done|]. split; [left|done].
  - destruct IH as [?|(s' & ? & ? & ?)]; [by left|right]. exists s'. split; [done|]. split; [by right|done].
Qed.

Lemma storage_delta_validate_Ok d : storage_delta_validate d = Ok tt ↔ disjoint_slots d.
Proof.
  unfold storage_delta_validate. rewrite validate_slots_Ok, Forall_fmap, Forall_forall.
  split.
  - intros Hall s. destruct (sd_maps d !! s) as [m|] eqn:E; [|by right]. left.
    by apply (Hall (s, m)), elem_of_btree_iter.
  - intros Hdis [s m] Hs%elem_of_btree_iter. cbn. destruct (Hdis s); [done|congruence].
Qed.

Lemma storage_delta_validate_cases d :
  (storage_delta_validate d = Ok tt ∧ disjoint_slots d) ∨
  ∃ s, storage_delta_validate d = Err (DuplicateStorageItemUpdate s) ∧
    is_Some (sd_values d !! s) ∧ is_Some (sd_maps d !! s).
Proof.
  rewrite <-storage_delta_validate_Ok. unfold storage_delta_validate.
  destruct (validate_slots_cases (sd_values d) (btree_iter Z.leb (sd_maps d)).*1)
    as [?|(s & Hs & Hin & Hv)]; [by left|right].
  exists s. split; [done|]. split; [done|].
  apply list_elem_of_fmap in Hin as ([s' m] & -> & Hm%elem_of_btree_iter). by exists m.
Qed.

(** ** Merging *)

(** The maps of a merged delta, slot by slot. *)
Definition merge_maps (other self : option StorageMapDelta) : option StorageMapDelta :=
  match other, self with
  | Some o, Some m => Some (map_delta_merge o m)
  | Some o, None => Some o
  | None, m => m
  end.

Lemma lookup_merge_map_entries l (maps : gmap Z StorageMapDelta) s :
  NoDup l.*1 →
  foldl merge_map_entry maps l !! s = merge_maps (list_to_map (M:=gmap Z StorageMapDelta) l !! s) (maps !! s).
Proof.
  revert maps. induction l as [|[k x] l IH]; intros maps ND; cbn [foldl list_to_map fmap list_fmap].
  { cbn. by rewrite lookup_empty. }
  apply NoDup_cons in ND as [Hk ND]. rewrite IH by done.
  cbn. destruct (decide (s = k)) as [->|Hne].
  - rewrite lookup_insert_eq. apply not_elem_of_list_to_map_1 in Hk. cbn in Hk. rewrite Hk. unfold merge_map_entry. cbn.
    destruct (maps !! k); by rewrite lookup_insert_eq.
  - rewrite lookup_insert_ne by done. f_equal. unfold merge_map_entry. cbn.
    destruct (maps !! k); by rewrite lookup_insert_ne.
Qed.

Definition merged_storage (other self : AccountStorageDelta) : AccountStorageDelta :=
  mkStorageDelta (sd_values other ∪ sd_values self)
    (foldl merge_map_entry (sd_maps self) (btree_iter Z.leb (sd_maps other))).

Lemma lookup_merged_maps o d s :
  sd_maps (merged_storage o d) !! s = merge_maps (sd_maps o !! s) (sd_maps d !! s).
Proof.
  cbn. rewrite lookup_merge_map_entries by apply btree_iter_keys_NoDup.
  by rewrite list_to_map_btree_iter.
Qed.

Lemma storage_delta_merge_eq o d :
  storage_delta_merge o d = (storage_delta_validate (merged_storage o d), merged_storage o d).
Proof. done. Qed.

Lemma merged_storage_bounds o d :
  valid_storage_delta o → valid_storage_delta d →
  map_Forall (λ i _, 0 ≤ i < 2 ^ 8) (sd_values (merged_storage o d)) ∧
  map_Forall (λ i _, 0 ≤ i < 2 ^ 8) (sd_maps (merged_storage o d)).
Proof.
  intros (Ho1 & Ho2 & _) (Hd1 & Hd2 & _). split.
  - by apply map_Forall_union_2.
  - intros s m. rewrite lookup_merged_maps. unfold merge_maps.
    destruct (sd_maps o !! s) as [x|] eqn:E; [intros _; by apply (Ho2 s x)|]. apply (Hd2 s m).
Qed.

(** Merging a storage delta into another gives precedence to the newer one,
    entry by entry in maps, and succeeds exactly when no slot ends up updated
    both as a value and as a map; a merge is then valid again. *)
Theorem storage_delta_merge_spec o d :
  valid_storage_delta o → valid_storage_delta d →
  let '(r, m) := storage_delta_merge o d in
  (∀ s, sd_values m !! s = match sd_values o !! s with Some w => Some w | None => sd_values d !! s end) ∧
  (∀ s k, (leaves <$> sd_maps m !! s) ≫= lookup k =
     match (leaves <$> sd_maps o !! s) ≫= lookup k with
     | Some w => Some w
     | None => (leaves <$> sd_maps d !! s) ≫= lookup k
     end) ∧
  match r with
  | Ok _ => valid_storage_delta m
  | Err e => ∃ s, e = DuplicateStorageItemUpdate s ∧
      is_Some (sd_values m !! s) ∧ is_Some (sd_maps m !! s)
  | Panic => False
  end.
Proof.
  intros Ho Hd. rewrite storage_delta_merge_eq. split_and!.
  - intros s. cbn. rewrite lookup_union. by destruct (sd_values o !! s), (sd_values d !! s).
  - intros s k. rewrite lookup_merged_maps. unfold merge_maps.
    destruct (sd_maps o !! s) as [[x]|], (sd_maps d !! s) as [[y]|]; cbn; [|by destruct (x !! k)|done..].
    rewrite lookup_union. by destruct (x !! k), (y !! k).
  - destruct (merged_storage_bounds o d Ho Hd) as [H1 H2].
    destruct (storage_delta_validate_cases (merged_storage o d)) as [[-> E]|(s & -> & Hs)]; [|by eauto].
    by split_and!.
Qed.

(** ** Serialization *)

Section SerLaws.
  Context {B : ByteIO}.

Lemma length_cleared {K} `{Countable K} leb (d : gmap K Word) : (length (cleared leb d) ≤ size d)%nat.
Proof.
  unfold cleared. rewrite length_fmap, <-(length_btree_iter leb). apply length_filter.
Qed.
Lemma length_updated {K} `{Countable K} leb (d : gmap K Word) : (length (updated leb d) ≤ size d)%nat.
Proof. unfold updated. rewrite <-(length_btree_iter leb d). apply length_filter. Qed.

#[export] Instance StorageMapDelta_serde :
  SerdeLaws StorageMapDelta (λ d, fits_usize (size (leaves d))).
Proof.
  split.
  - intros d rest Hs. unfold fits_usize in Hs.
    pose proof (length_cleared digest_leb (leaves d)). pose proof (length_updated digest_leb (leaves d)).
    cbn [write_into read_from StorageMapDelta_ser StorageMapDelta_de].
    unfold cleared_keys, updated_entries. rewrite <-!app_assoc, read_usize_bind by lia.
    rewrite (read_loop_bind (λ _, True)) by
      (apply digest_decodes || (by apply Forall_true) || by rewrite Nat2Z.id).
    rewrite read_usize_bind by lia.
    rewrite (read_loop_bind (λ p, True ∧ True)) by
      ((apply (pair_decodes (λ _, True) (λ _, True)); [apply digest_decodes|apply word_decodes])
       || (by apply Forall_true) || by rewrite Nat2Z.id).
    rewrite rebuild_split. by destruct d.
  - intros d _. cbn [write_into get_size_hint StorageMapDelta_ser]. rewrite !length_app, !length_write_usize.
    rewrite (length_write_many_const _ _ DIGEST_SERIALIZED_SIZE) by (intros; apply length_write_digest).
    rewrite (length_write_many_const _ _ (DIGEST_SERIALIZED_SIZE + ELEMENT_BYTES * WORD_SIZE)); [lia|].
    intros x _. by rewrite length_write_pair, length_write_digest, length_write_word.
Qed.

Lemma as_u8_small n : (n < 256)%nat → as_u8 (Z.of_nat n) = Z.of_nat n.
Proof. intros. unfold as_u8. apply Z.mod_small. lia. Qed.

Lemma cleared_u8 (d : gmap Z Word) :
  map_Forall (λ i _, 0 ≤ i < 2 ^ 8) d → Forall (λ i, 0 ≤ i < 2 ^ 8) (cleared Z.leb d).
Proof. intros Hd. apply Forall_forall. intros i Hi%elem_of_cleared. by apply (Hd i EMPTY_WORD). Qed.

Lemma updated_u8 (d : gmap Z Word) :
  map_Forall (λ i _, 0 ≤ i < 2 ^ 8) d → Forall (λ p, 0 ≤ p.1 < 2 ^ 8 ∧ True) (updated Z.leb d).
Proof. intros Hd. apply Forall_forall. intros [i w] [Hi _]%elem_of_updated. split; [by apply (Hd i w)|done]. Qed.

Lemma storage_delta_reads_back d rest :
  valid_storage_delta d →
  (size (sd_values d) < 256)%nat → (size (sd_maps d) < 256)%nat →
  map_Forall (λ _ m, fits_usize (size (leaves m))) (sd_maps d) →
  read_from (write_into d ++ rest) = Ok (d, rest) ∧ length (write_into d) = get_size_hint d.
Proof.
  intros (Hv & Hm & Hdis) Hnv Hnm Hfit.
  pose proof (length_cleared Z.leb (sd_values d)). pose proof (length_updated Z.leb (sd_values d)).
  cbn [write_into read_from get_size_hint AccountStorageDelta_ser AccountStorageDelta_de].
  unfold cleared_slots, updated_slots. rewrite !as_u8_small by lia. split.
  - rewrite <-!app_assoc, read_u8_bind by lia.
    rewrite (read_loop_bind (λ i, 0 ≤ i < 2 ^ 8)) by
      (apply u8_decodes || (by apply cleared_u8) || by rewrite Nat2Z.id).
    rewrite read_u8_bind by lia.
    rewrite (read_loop_bind (λ p, 0 ≤ p.1 < 2 ^ 8 ∧ True)) by
      ((apply (pair_decodes (λ i, 0 ≤ i < 2 ^ 8) (λ _, True)); [apply u8_decodes|apply word_decodes])
       || (by apply updated_u8) || by rewrite Nat2Z.id).
    rewrite read_u8_bind by lia.
    rewrite (read_many_bind (λ p, 0 ≤ p.1 < 2 ^ 8 ∧ fits_usize (size (leaves p.2)))).
    + rewrite rebuild_split.
      assert (list_to_map (reverse (btree_iter Z.leb (sd_maps d))) = sd_maps d) as ->.
      { rewrite <-(list_to_map_btree_iter Z.leb (sd_maps d)) at 2. apply list_to_map_proper.
        - rewrite reverse_Permutation. apply btree_iter_keys_NoDup.
        - apply reverse_Permutation. }
      unfold reader_lift, storage_delta_new. destruct d as [vs ms].
      cbn [sd_values sd_maps]. by rewrite (proj2 (storage_delta_validate_Ok (mkStorageDelta vs ms)) Hdis).
    + apply (pair_decodes (λ i, 0 ≤ i < 2 ^ 8) (λ m, fits_usize (size (leaves m))));
        [apply u8_decodes|apply serde_decodes].
    + apply Forall_forall. intros [i m] Hi%elem_of_btree_iter.
      split; [by apply (Hm i m)|by apply (Hfit i m)].
    + by rewrite Nat2Z.id, length_btree_iter.
  - rewrite !length_app, !length_write_u8.
    rewrite (length_write_many_const write_u8 _ 1) by (intros; apply length_write_u8).
    rewrite (length_write_many_const (write_pair write_u8 write_word) _ (1 + ELEMENT_BYTES * WORD_SIZE))
      by (intros; by rewrite length_write_pair, length_write_u8, length_write_word).
    rewrite length_write_many.
    assert ((λ x, length (write_pair write_u8 write_into x)) <$> btree_iter Z.leb (sd_maps d) =
      (λ x, (1 + get_size_hint x.2)%nat) <$> btree_iter Z.leb (sd_maps d)) as ->.
    { apply list_fmap_ext. intros j [i m] Hj%list_elem_of_lookup_2%elem_of_btree_iter.
      rewrite length_write_pair, length_write_u8. cbn [fst snd]. f_equal. apply serde_size.
      by apply (Hfit i m). }
    lia.
Qed.

(** What a storage delta needs to satisfy to be written faithfully. *)
Definition wf_storage_delta (d : AccountStorageDelta) : Prop :=
  valid_storage_delta d ∧ (size (sd_values d) < 256)%nat ∧ (size (sd_maps d) < 256)%nat ∧
  map_Forall (λ _ m, fits_usize (size (leaves m))) (sd_maps d).

#[export] Instance AccountStorageDelta_serde : SerdeLaws AccountStorageDelta wf_storage_delta.
Proof.
  split.
  - intros d rest (H1 & H2 & H3 & H4). by apply storage_delta_reads_back.
  - intros d (H1 & H2 & H3 & H4). by apply (storage_delta_reads_back d []).
Qed.

(** A valid storage delta with at most 255 entries of each kind reads back
    from its serialization, and the size hint is exact. *)
Theorem storage_delta_serde d rest :
  valid_storage_delta d →
  (size (sd_values d) < 256)%nat → (size (sd_maps d) < 256)%nat →
  map_Forall (λ _ m, fits_usize (size (leaves m))) (sd_maps d) →
  read_from (write_into d ++ rest) = Ok (d, rest) ∧ length (write_into d) = get_size_hint d.
Proof. apply storage_delta_reads_back. Qed.
End SerLaws.
End StorageDelta.

(** ** Witnesses *)

#[local] Existing Instance Goldilocks.
#[local] Existing Instance CodeOrd.

Definition sample_word (n : Z) : Word := mkWord (felt_new n) ZERO ZERO (felt_new 1).
Definition sample_storage_delta : AccountStorageDelta :=
  mkStorageDelta {[ 0 := EMPTY_WORD; 1 := sample_word 4 ]}
    {[ 2 := mkMapDelta {[ sample_word 1 := sample_word 2 ]} ]}.

Lemma sample_storage_delta_valid : valid_storage_delta sample_storage_delta.
Proof.
  split_and!.
  - apply map_Forall_insert_2; [lia|]. apply map_Forall_singleton. lia.
  - apply map_Forall_singleton. lia.
  - intros s. cbn [sd_values sd_maps sample_storage_delta]. destruct (decide (s = 2)) as [->|Hne].
    + left. reflexivity.
    + right. by rewrite lookup_singleton_ne.
Qed.

Lemma storage_delta_merge_spec_witness :
  let '(r, m) := storage_delta_merge (mkStorageDelta {[ 2 := sample_word 9 ]} ∅) sample_storage_delta in
  match r with
  | Ok _ => valid_storage_delta m
  | Err e => ∃ s, e = DuplicateStorageItemUpdate s ∧ is_Some (sd_values m !! s) ∧ is_Some (sd_maps m !! s)
  | Panic => False
  end.
Proof.
  pose proof (storage_delta_merge_spec (mkStorageDelta {[ 2 := sample_word 9 ]} ∅) sample_storage_delta) as H.
  destruct (storage_delta_merge _ sample_storage_delta) as [r m]. apply H.
  - split_and!; [apply map_Forall_singleton; lia|apply map_Forall_empty|].
    intros s. right. apply lookup_empty.
  - exact sample_storage_delta_valid.
Defined.

Lemma storage_delta_serde_witness :
  read_from (Deserializable:=AccountStorageDelta_de (B:=PlainIO))
    (write_into (B:=PlainIO) sample_storage_delta ++ [5]) = Ok (sample_storage_delta, [5]) ∧
  length (write_into (B:=PlainIO) sample_storage_delta) = get_size_hint (B:=PlainIO) sample_storage_delta.
Proof.
  apply (storage_delta_serde (B:=PlainIO) sample_storage_delta [5] sample_storage_delta_valid).
  - apply Nat.ltb_lt. reflexivity.
  - apply Nat.ltb_lt. reflexivity.
  - apply map_Forall_singleton. reflexivity.
Defined.
