(* ===== verification/Storage.v ===== *)
(** * Account storage

    Models objects/src/accounts/storage/mod.rs, map.rs, slot/mod.rs,
    slot/type.rs and header.rs: a vector of at most 255 slots, each a word or a
    storage map, with the updates of single items and of whole deltas. *)

From S2P Require Import Prelude Felt Crypto Serde Types AccountId Assets VaultDelta StorageDelta.
Open Scope Z_scope.

(** The serialization of [Smt], from the crate miden-crypto. *)
Class SmtIO {F : FeltApi} {S : SmtApi} {B : ByteIO} := {
  write_smt : Smt → bytes;
  smt_size_hint : Smt → nat;
  read_smt : reader Smt;
  smt_decodes : decodes (λ _, True) write_smt read_smt;
  length_write_smt t : length (write_smt t) = smt_size_hint t
}.

(** [AccountStorage::MAX_NUM_STORAGE_SLOTS] *)
Definition MAX_NUM_STORAGE_SLOTS : Z := 255.

Section Storage.
  Context {F : FeltApi} {H : HasherApi} {S : SmtApi} {D : DigestOrd}.

(** ** Slot types *)

Definition slot_type_as_word (t : StorageSlotType) : Word :=
  match t with
  | ValueType => mkWord ZERO ZERO ZERO ZERO
  | MapType => mkWord ONE ZERO ZERO ZERO
  end.

Definition slot_type_try_from (value : felt) : option StorageSlotType :=
  match as_int value with
  | 0 => Some ValueType
  | 1 => Some MapType
  | _ => None
  end.

(** ** Storage maps *)

(** [struct StorageMap] *)
Record StorageMap : Type := mkStorageMap { map_tree : Smt }.

(** [EMPTY_STORAGE_MAP_ROOT]: the root of an empty tree of depth 64. *)
Definition EMPTY_STORAGE_MAP_ROOT : Digest := smt_root smt_new.

Definition storage_map_new : StorageMap := mkStorageMap smt_new.
Definition storage_map_root (m : StorageMap) : Digest := smt_root (map_tree m).
Definition storage_map_get_value (m : StorageMap) (key : Digest) : Word := smt_get_value (map_tree m) key.

(** [StorageMap::insert] returns the previous value. *)
Definition storage_map_insert (key : Digest) (value : Word) (m : StorageMap) : Word * StorageMap :=
  let '(t, old) := smt_insert (map_tree m) key value in (old, mkStorageMap t).

Definition insert_entry (m : StorageMap) (kv : Digest * Word) : StorageMap :=
  (storage_map_insert kv.1 kv.2 m).2.

(** [StorageMap::with_entries]: later entries overwrite earlier ones. *)
Definition storage_map_with_entries (entries : list (Digest * Word)) : res AccountError StorageMap :=
  Ok (foldl insert_entry storage_map_new entries).

(** [StorageMap::apply_delta] *)
Definition storage_map_apply_delta (delta : StorageMapDelta) (m : StorageMap) : Digest * StorageMap :=
  let m' := foldl insert_entry m (btree_iter digest_leb (leaves delta)) in
  (storage_map_root m', m').

(** ** Slots *)

Inductive StorageSlot : Type :=
  | Value (value : Word)
  | Map (map : StorageMap).

Definition slot_is_default (s : StorageSlot) : bool :=
  match s with
  | Value value => bool_decide (value = EMPTY_WORD)
  | Map map => bool_decide (storage_map_root map = EMPTY_STORAGE_MAP_ROOT)
  end.
Definition slot_default_word (s : StorageSlot) : Word :=
  match s with Value _ => EMPTY_WORD | Map _ => EMPTY_STORAGE_MAP_ROOT end.
Definition slot_empty_value : StorageSlot := Value EMPTY_WORD.
Definition slot_empty_map : StorageSlot := Map storage_map_new.
Definition slot_value (s : StorageSlot) : Word :=
  match s with Value value => value | Map map => storage_map_root map end.
Definition slot_type (s : StorageSlot) : StorageSlotType :=
  match s with Value _ => ValueType | Map _ => MapType end.
Definition slot_as_elements (s : StorageSlot) : list felt :=
  word_elements (slot_value s) ++ word_elements (slot_type_as_word (slot_type s)).

(** ** Storage *)

Record AccountStorage : Type := mkStorage { slots : list StorageSlot }.

Definition storage_new (slots : list StorageSlot) : res AccountError AccountStorage :=
  let num_slots := Z.of_nat (length slots) in
  if num_slots >? MAX_NUM_STORAGE_SLOTS then Err (StorageTooManySlots num_slots)
  else Ok (mkStorage slots).

Definition slots_as_elements (slots : list StorageSlot) : list felt :=
  mjoin (slot_as_elements <$> slots).
Definition build_slots_commitment (slots : list StorageSlot) : Digest :=
  hash_elements (slots_as_elements slots).
Definition storage_commitment (s : AccountStorage) : Digest := build_slots_commitment (slots s).

Definition index_error (s : AccountStorage) (index : Z) : AccountError :=
  StorageIndexOutOfBounds (as_u8 (Z.of_nat (length (slots s)))) index.

Definition get_item (s : AccountStorage) (index : Z) : res AccountError Digest :=
  slot_value <$> ok_or (index_error s index) (slots s !! Z.to_nat index).

Definition get_map_item (s : AccountStorage) (index : Z) (key : Word) : res AccountError Word :=
  slot ← ok_or (index_error s index) (slots s !! Z.to_nat index);
  match slot with
  | Map map => Ok (storage_map_get_value map key)
  | _ => Err (StorageSlotNotMap index)
  end.

(** [self.slots[index] = slot] *)
Definition set_slot (index : Z) (slot : StorageSlot) (s : AccountStorage) : AccountStorage :=
  mkStorage (<[Z.to_nat index := slot]> (slots s)).

Definition set_item (index : Z) (value : Word) : mut AccountStorage AccountError Word := λ self,
  if Z.of_nat (length (slots self)) <=? index then (Err (index_error self index), self)
  else match slots self !! Z.to_nat index with
       | Some (Value old_value) => (Ok old_value, set_slot index (Value value) self)
       | _ => (Err (StorageSlotNotValue index), self)
       end.

Definition set_map_item (index : Z) (key value : Word) : mut AccountStorage AccountError (Word * Word) := λ self,
  if Z.of_nat (length (slots self)) <=? index then (Err (index_error self index), self)
  else match slots self !! Z.to_nat index with
       | Some (Map storage_map) =>
           let old_root := storage_map_root storage_map in
           let '(old_value, storage_map) := storage_map_insert key value storage_map in
           (Ok (old_root, old_value), set_slot index (Map storage_map) self)
       | _ => (Err (StorageSlotNotMap index), self)
       end.

(** One iteration of each loop of [AccountStorage::apply_delta]. *)
Definition apply_map_update (update : Z * StorageMapDelta) : mut AccountStorage AccountError unit := λ self,
  match slots self !! Z.to_nat update.1 with
  | None => (Err (index_error self update.1), self)
  | Some (Map storage_map) =>
      (Ok tt, set_slot update.1 (Map (storage_map_apply_delta update.2 storage_map).2) self)
  | Some _ => (Err (StorageSlotNotMap update.1), self)
  end.
Definition apply_value_update (update : Z * Word) : mut AccountStorage AccountError unit :=
  set_item update.1 update.2 ;; mret tt.

Definition storage_apply_delta (delta : AccountStorageDelta) : mut AccountStorage AccountError unit :=
  for_each (btree_iter Z.leb (sd_maps delta)) apply_map_update ;;
  for_each (btree_iter Z.leb (sd_values delta)) apply_value_update.

(** ** Headers *)

Record AccountStorageHeader : Type := mkStorageHeader { header_slots : list (StorageSlotType * Word) }.

(** [AccountStorageHeader::new] asserts the bound on the number of slots. *)
Definition storage_header_new {E} (slots : list (StorageSlotType * Word)) : res E AccountStorageHeader :=
  if Z.of_nat (length slots) <=? MAX_NUM_STORAGE_SLOTS then Ok (mkStorageHeader slots) else Panic.

Definition storage_header_slot (h : AccountStorageHeader) (index : Z) : res AccountError (StorageSlotType * Word) :=
  ok_or (StorageIndexOutOfBounds (as_u8 (Z.of_nat (length (header_slots h)))) (as_u8 index))
    (header_slots h !! Z.to_nat index).

Definition get_header {E} (s : AccountStorage) : res E AccountStorageHeader :=
  storage_header_new ((λ slot, (slot_type slot, slot_value slot)) <$> slots s).

(** ** Serialization *)

Section Ser.
  Context {B : ByteIO} {I : SmtIO}.

#[export] Instance StorageSlotType_ser : Serializable StorageSlotType := {|
  write_into t := match t with ValueType => write_u8 0 | MapType => write_u8 1 end;
  get_size_hint _ := 1%nat
|}.
#[export] Instance StorageSlotType_de : Deserializable StorageSlotType := {|
  read_from :=
    storage_slot_type ← read_u8;
    match storage_slot_type with
    | 0 => mret (M:=reader) ValueType
    | 1 => mret MapType
    | _ => λ _, Err InvalidValue
    end
|}.

#[export] Instance StorageMap_ser : Serializable StorageMap :=
  {| write_into m := write_smt (map_tree m); get_size_hint m := smt_size_hint (map_tree m) |}.
#[export] Instance StorageMap_de : Deserializable StorageMap :=
  {| read_from := smt ← read_smt; mret (mkStorageMap smt) |}.

#[export] Instance StorageSlot_ser : Serializable StorageSlot := {|
  write_into s := write_into (slot_type s) ++
    match s with Value value => write_into value | Map map => write_into map end;
  get_size_hint s := (get_size_hint (slot_type s) +
    match s with Value word => get_size_hint word | Map storage_map => get_size_hint storage_map end)%nat
|}.
#[export] Instance StorageSlot_de : Deserializable StorageSlot := {|
  read_from :=
    storage_slot_type ← read_from (A:=StorageSlotType);
    match storage_slot_type with
    | ValueType => word ← read_from (A:=Word); mret (Value word)
    | MapType => map ← read_from (A:=StorageMap); mret (Map map)
    end
|}.

#[export] Instance AccountStorage_ser : Serializable AccountStorage := {|
  write_into s := write_u8 (as_u8 (Z.of_nat (length (slots s)))) ++ write_many write_into (slots s);
  get_size_hint s := (1 + sum_list (get_size_hint <$> slots s))%nat
|}.
#[export] Instance AccountStorage_de : Deserializable AccountStorage := {|
  read_from :=
    num_slots ← read_u8;
    slots ← read_many read_from (Z.to_nat num_slots);
    reader_lift (storage_new slots)
|}.

(** [get_size_hint] of the header is the default of the trait, zero. *)
#[export] Instance AccountStorageHeader_ser : Serializable AccountStorageHeader := {|
  write_into h := write_u8 (as_u8 (Z.of_nat (length (header_slots h)))) ++
    write_many (write_pair write_into write_into) (header_slots h);
  get_size_hint _ := 0%nat
|}.
#[export] Instance AccountStorageHeader_de : Deserializable AccountStorageHeader := {|
  read_from :=
    len ← read_u8;
    slots ← read_many (read_pair read_from read_from) (Z.to_nat len);
    reader_lift (storage_header_new (E:=AccountError) slots)
|}.
End Ser.

(** ** Storage maps *)

Definition storage_map_equiv (m m' : StorageMap) : Prop := smt_equiv (map_tree m) (map_tree m').

Lemma insert_entry_get m kv k :
  storage_map_get_value (insert_entry m kv) k =
  if decide (kv.1 = k) then kv.2 else storage_map_get_value m k.
Proof.
  unfold insert_entry, storage_map_insert, storage_map_get_value.
  pose proof (smt_insert_get (map_tree m) kv.1 kv.2 k) as Hg.
  by destruct (smt_insert (map_tree m) kv.1 kv.2) as [t old].
Qed.

Lemma insert_entries_get l m k :
  NoDup l.*1 →
  storage_map_get_value (foldl insert_entry m l) k =
  default (storage_map_get_value m k) (list_to_map (M:=gmap Digest Word) l !! k).
Proof.
  revert m. induction l as [|[k' w] l IH]; intros m ND; cbn [foldl]; [done|].
  cbn in ND. apply NoDup_cons in ND as [Hk ND]. rewrite IH by done. rewrite insert_entry_get. cbn.
  case_decide as E.
  - subst k'. rewrite lookup_insert_eq, not_elem_of_list_to_map_1 by done. done.
  - by rewrite lookup_insert_ne.
Qed.

(** What a map delta does to each key. *)
Lemma map_apply_get d m k :
  storage_map_get_value (storage_map_apply_delta d m).2 k =
  default (storage_map_get_value m k) (leaves d !! k).
Proof.
  cbn. rewrite insert_entries_get by apply btree_iter_keys_NoDup. by rewrite list_to_map_btree_iter.
Qed.

Lemma map_apply_merge d1 d2 m :
  storage_map_equiv (storage_map_apply_delta (map_delta_merge d2 d1) m).2
    (storage_map_apply_delta d2 (storage_map_apply_delta d1 m).2).2.
Proof.
  intros k. change (storage_map_get_value (storage_map_apply_delta (map_delta_merge d2 d1) m).2 k =
    storage_map_get_value (storage_map_apply_delta d2 (storage_map_apply_delta d1 m).2).2 k).
  rewrite !map_apply_get. cbn. rewrite lookup_union.
  by destruct (leaves d1 !! k), (leaves d2 !! k).
Qed.

(** ** Storage up to the contents of its maps *)

Inductive slot_equiv : StorageSlot → StorageSlot → Prop :=
  | value_equiv w : slot_equiv (Value w) (Value w)
  | map_equiv m m' : storage_map_equiv m m' → slot_equiv (Map m) (Map m').

Definition storage_equiv (s s' : AccountStorage) : Prop := Forall2 slot_equiv (slots s) (slots s').

#[export] Instance slot_equiv_refl : Reflexive slot_equiv.
Proof. intros [w|m]; constructor. by intros k. Qed.

Lemma slot_equiv_elements s s' : slot_equiv s s' → slot_as_elements s = slot_as_elements s'.
Proof.
  intros [w|m m' Hm]; [done|]. unfold slot_as_elements. cbn [slot_value slot_type].
  unfold storage_map_root. by rewrite (smt_root_ext _ _ Hm).
Qed.

(** The commitment depends on the contents only. *)
#[export] Instance storage_commitment_proper : Proper (storage_equiv ==> (=)) storage_commitment.
Proof.
  intros s s' Hs. unfold storage_commitment, build_slots_commitment, slots_as_elements. do 2 f_equal.
  unfold storage_equiv in Hs. induction Hs as [|x y l l' Hxy _ IH]; [done|].
  cbn [fmap list_fmap mjoin list_join]. rewrite (slot_equiv_elements x y) by done. f_equal. exact IH.
Qed.

Lemma storage_equiv_lookup s s' :
  (∀ i, slots s !! i = None ∧ slots s' !! i = None ∨
    ∃ x y, slots s !! i = Some x ∧ slots s' !! i = Some y ∧ slot_equiv x y) → storage_equiv s s'.
Proof.
  intros Hi. apply Forall2_lookup. intros i.
  destruct (Hi i) as [[-> ->]|(x & y & -> & -> & Hxy)]; by constructor.
Qed.

(** ** Applying a delta, slot by slot *)

Inductive slot_change : Type :=
  | UpdateMap (index : Z) (m : StorageMapDelta)
  | SetValue (index : Z) (w : Word).

Definition slot_change_index (c : slot_change) : Z :=
  match c with UpdateMap i _ | SetValue i _ => i end.
Definition slot_change_key (c : slot_change) : nat := Z.to_nat (slot_change_index c).
Definition slot_change_step (c : slot_change) (old : option StorageSlot) : option (option StorageSlot) :=
  match c, old with
  | UpdateMap _ m, Some (Map t) => Some (Some (Map (storage_map_apply_delta m t).2))
  | SetValue _ w, Some (Value _) => Some (Some (Value w))
  | _, _ => None
  end.
Definition apply_slot_change (c : slot_change) : mut AccountStorage AccountError unit :=
  match c with
  | UpdateMap i m => apply_map_update (i, m)
  | SetValue i w => apply_value_update (i, w)
  end.

Definition slot_at (s : AccountStorage) (i : nat) : option StorageSlot := slots s !! i.

Lemma set_slot_update i x s :
  (Z.to_nat i < length (slots s))%nat → slot_update slot_at s (set_slot i x s) (Z.to_nat i) (Some x).
Proof.
  intros Hi. unfold slot_update, slot_at, set_slot. cbn. split.
  - by apply list_lookup_insert_eq.
  - intros k Hk. by apply list_lookup_insert_ne.
Qed.

Lemma set_slot_length i x s : length (slots (set_slot i x s)) = length (slots s).
Proof. apply length_insert. Qed.

Lemma apply_slot_change_spec n c s :
  length (slots s) = n → 0 ≤ slot_change_index c →
  match slot_change_step c (slot_at s (slot_change_key c)) with
  | Some v => ∃ s', apply_slot_change c s = (Ok tt, s') ∧ length (slots s') = n ∧
      slot_update slot_at s s' (slot_change_key c) v
  | None => ∃ e s', apply_slot_change c s = (Err e, s') ∧ length (slots s') = n ∧
      ∀ k, slot_at s' k = slot_at s k
  end.
Proof.
  intros <- Hc. unfold slot_change_key, slot_at at 1.
  destruct c as [i m|i w]; cbn [slot_change_index slot_change_step apply_slot_change] in *.
  - unfold apply_map_update. cbn [fst snd]. destruct (slots s !! Z.to_nat i) as [[w|t]|] eqn:E; [by eauto 6| |by eauto 6].
    eexists. split; [done|]. split; [apply set_slot_length|].
    apply set_slot_update. by eapply lookup_lt_Some.
  - unfold apply_value_update, set_item, mbind, mut_bind. cbn [fst snd].
    destruct (Z.leb_spec (Z.of_nat (length (slots s))) i).
    { rewrite lookup_ge_None_2 by lia. eauto 6. }
    destruct (slots s !! Z.to_nat i) as [[w'|t]|] eqn:E; [|by eauto 6..].
    eexists. split; [done|]. split; [apply set_slot_length|].
    apply set_slot_update. by eapply lookup_lt_Some.
Qed.

Definition slot_changes (d : AccountStorageDelta) : list slot_change :=
  ((λ x, UpdateMap x.1 x.2) <$> btree_iter Z.leb (sd_maps d)) ++
  ((λ x, SetValue x.1 x.2) <$> btree_iter Z.leb (sd_values d)).

Lemma storage_apply_delta_changes d s :
  storage_apply_delta d s = for_each (slot_changes d) apply_slot_change s.
Proof.
  unfold slot_changes. rewrite for_each_app. unfold storage_apply_delta, mbind, mut_bind.
  assert (∀ l s, for_each ((λ x, UpdateMap x.1 x.2) <$> l) apply_slot_change s =
    for_each l apply_map_update s) as Hm.
  { intros l u. rewrite for_each_fmap. apply for_each_ext. by intros [] ?. }
  assert (∀ l s, for_each ((λ x, SetValue x.1 x.2) <$> l) apply_slot_change s =
    for_each l apply_value_update s) as Hv.
  { intros l u. rewrite for_each_fmap. apply for_each_ext. by intros [] ?. }
  rewrite Hm. destruct (for_each _ _ s) as [[[]|e|] u]; [|done..]. by rewrite Hv.
Qed.

Lemma elem_of_slot_changes d c :
  c ∈ slot_changes d ↔
  match c with
  | UpdateMap i m => sd_maps d !! i = Some m
  | SetValue i w => sd_values d !! i = Some w
  end.
Proof.
  unfold slot_changes. rewrite elem_of_app, !list_elem_of_fmap. split.
  - intros [([i x] & -> & Hin%elem_of_btree_iter)|([i x] & -> & Hin%elem_of_btree_iter)]; done.
  - destruct c as [i x|i x]; intros Hc%(elem_of_btree_iter Z.leb); [left|right]; by exists (i, x).
Qed.

Lemma slot_changes_nonneg d :
  valid_storage_delta d → Forall (λ c, 0 ≤ slot_change_index c) (slot_changes d).
Proof.
  intros (Hv & Hm & _). apply Forall_forall. intros [i x|i x] Hc%elem_of_slot_changes; cbn.
  - by apply (Hm i x).
  - by apply (Hv i x).
Qed.

Lemma slot_changes_NoDup d : valid_storage_delta d → NoDup (slot_change_key <$> slot_changes d).
Proof.
  intros Hd. pose proof (slot_changes_nonneg d Hd) as Hnn. destruct Hd as (_ & _ & Hdis).
  assert (NoDup (slot_change_index <$> slot_changes d)) as ND.
  { unfold slot_changes. rewrite fmap_app, <-!list_fmap_compose. apply NoDup_app. split_and!.
    - apply btree_iter_keys_NoDup.
    - intros i ([i1 m] & -> & H1%elem_of_btree_iter)%list_elem_of_fmap
        ([i2 w] & E & H2%elem_of_btree_iter)%list_elem_of_fmap. cbn in E. subst.
      destruct (Hdis i2); congruence.
    - apply btree_iter_keys_NoDup. }
  replace (slot_change_key <$> slot_changes d) with (Z.to_nat <$> (slot_change_index <$> slot_changes d))
    by (by rewrite <-list_fmap_compose).
  apply NoDup_fmap_2_strong; [|done]. rewrite Forall_forall in Hnn.
  intros i j (c & -> & Hc)%list_elem_of_fmap (c' & -> & Hc')%list_elem_of_fmap E.
  apply Hnn in Hc, Hc'. lia.
Qed.

(** A delta applies exactly when it updates map slots as maps and value slots
    as values. *)
Definition applicable (d : AccountStorageDelta) (s : AccountStorage) : Prop :=
  (∀ i m, sd_maps d !! i = Some m → ∃ t, slots s !! Z.to_nat i = Some (Map t)) ∧
  (∀ i w, sd_values d !! i = Some w → ∃ v, slots s !! Z.to_nat i = Some (Value v)).

(** The contents of a slot after an applicable delta. *)
Definition slot_result (w : option Word) (m : option StorageMapDelta) (old : option StorageSlot)
    : option StorageSlot :=
  match w, m, old with
  | Some w, _, _ => Some (Value w)
  | None, Some m, Some (Map t) => Some (Map (storage_map_apply_delta m t).2)
  | None, _, _ => old
  end.

Lemma applicable_steps d s :
  applicable d s ↔
  ∀ c, c ∈ slot_changes d → is_Some (slot_change_step c (slot_at s (slot_change_key c))).
Proof.
  unfold applicable, slot_at, slot_change_key. split.
  - intros [Hm Hv] [i x|i x] Hc%elem_of_slot_changes; cbn.
    + destruct (Hm i x Hc) as [t ->]. eauto.
    + destruct (Hv i x Hc) as [v ->]. eauto.
  - intros Hall. split; intros i x Hx.
    + specialize (Hall (UpdateMap i x)). rewrite elem_of_slot_changes in Hall. destruct (Hall Hx) as [y Hy].
      cbn in Hy. destruct (slots s !! Z.to_nat i) as [[]|]; [done|eauto|done].
    + specialize (Hall (SetValue i x)). rewrite elem_of_slot_changes in Hall. destruct (Hall Hx) as [y Hy].
      cbn in Hy. destruct (slots s !! Z.to_nat i) as [[]|]; [eauto|done|done].
Qed.

Lemma storage_apply_Ok d s s' :
  valid_storage_delta d → storage_apply_delta d s = (Ok tt, s') →
  applicable d s ∧ length (slots s') = length (slots s) ∧
  ∀ i, 0 ≤ i → slots s' !! Z.to_nat i = slot_result (sd_values d !! i) (sd_maps d !! i) (slots s !! Z.to_nat i).
Proof.
  intros Hd. rewrite storage_apply_delta_changes. intros Hrun.
  destruct (for_each_keyed_Ok slot_at slot_change_key apply_slot_change slot_change_step
    (λ u, length (slots u) = length (slots s)) (λ c, 0 ≤ slot_change_index c)
    (λ c u Hu Hc, apply_slot_change_spec _ c u Hu Hc) (slot_changes d) s s') as (Hlen & Hin & Hout);
    [done|by apply slot_changes_nonneg|by apply slot_changes_NoDup|done|].
  split; [|split; [done|]].
  - apply applicable_steps. intros c Hc. rewrite (Hin c Hc). eauto.
  - intros i Hi. pose proof Hd as (_ & _ & Hdis). unfold slot_at, slot_change_key in *.
    destruct (sd_values d !! i) as [w|] eqn:Ev.
    { specialize (Hin (SetValue i w) ltac:(by apply elem_of_slot_changes)). cbn in Hin.
      destruct (slots s !! Z.to_nat i) as [[]|]; simplify_eq. done. }
    destruct (sd_maps d !! i) as [m|] eqn:Em.
    { specialize (Hin (UpdateMap i m) ltac:(by apply elem_of_slot_changes)). cbn in Hin.
      destruct (slots s !! Z.to_nat i) as [[]|]; simplify_eq. done. }
    cbn. rewrite Hout; [by destruct (slots s !! Z.to_nat i) as [[]|]|].
    pose proof (slot_changes_nonneg d Hd) as Hnn. rewrite Forall_forall in Hnn.
    intros (c & E & Hc)%list_elem_of_fmap. pose proof (Hnn c Hc) as Hc0. apply elem_of_slot_changes in Hc.
    destruct c as [j x|j x]; cbn in *; assert (i = j) as <- by lia; congruence.
Qed.

Lemma storage_apply_succeeds d s :
  valid_storage_delta d → applicable d s → ∃ s', storage_apply_delta d s = (Ok tt, s').
Proof.
  intros Hd Happ. rewrite storage_apply_delta_changes.
  apply (for_each_keyed_succeeds slot_at slot_change_key apply_slot_change slot_change_step
    (λ u, length (slots u) = length (slots s)) (λ c, 0 ≤ slot_change_index c)
    (λ c u Hu Hc, apply_slot_change_spec _ c u Hu Hc)); [done|by apply slot_changes_nonneg|
    by apply slot_changes_NoDup|by apply applicable_steps].
Qed.

(** Slot types never change, so whether a delta applies does not depend on the
    deltas applied before. *)
Lemma slot_result_type d s i :
  applicable d s →
  slot_type <$> slot_result (sd_values d !! i) (sd_maps d !! i) (slots s !! Z.to_nat i) =
  slot_type <$> slots s !! Z.to_nat i.
Proof.
  intros [Hm Hv]. unfold slot_result. destruct (sd_values d !! i) as [w|] eqn:Ev.
  { destruct (Hv i w Ev) as [v ->]. done. }
  destruct (sd_maps d !! i) as [m|]; [|done]. by destruct (slots s !! Z.to_nat i) as [[]|].
Qed.

Lemma applicable_types d s s' :
  valid_storage_delta d → (∀ i, 0 ≤ i → slot_type <$> slots s !! Z.to_nat i = slot_type <$> slots s' !! Z.to_nat i) →
  applicable d s → applicable d s'.
Proof.
  intros (Vv & Vm & _) Hty [Hm Hv]. split; intros i x Hx.
  - destruct (Hm i x Hx) as [t Ht]. specialize (Hty i ltac:(by apply (Vm i x))). rewrite Ht in Hty.
    destruct (slots s' !! Z.to_nat i) as [[]|]; cbn in Hty; [done|eauto|done].
  - destruct (Hv i x Hx) as [t Ht]. specialize (Hty i ltac:(by apply (Vv i x))). rewrite Ht in Hty.
    destruct (slots s' !! Z.to_nat i) as [[]|]; cbn in Hty; [eauto|done|done].
Qed.

Lemma applicable_merged d1 d2 s :
  applicable (merged_storage d2 d1) s ↔ applicable d1 s ∧ applicable d2 s.
Proof.
  unfold applicable. setoid_rewrite lookup_merged_maps. cbn [sd_values merged_storage].
  setoid_rewrite lookup_union. split.
  - intros [Hm Hv]. split_and!; intros i x Hx.
    + destruct (sd_maps d2 !! i) as [y|] eqn:E; eapply (Hm i); rewrite E, Hx; cbn; done.
    + destruct (sd_values d2 !! i) as [y|] eqn:E; eapply (Hv i); rewrite E, Hx; cbn; done.
    + destruct (sd_maps d1 !! i) as [y|] eqn:E; eapply (Hm i); rewrite E, Hx; cbn; done.
    + destruct (sd_values d1 !! i) as [y|] eqn:E; eapply (Hv i); rewrite E, Hx; cbn; done.
  - intros [[Hm1 Hv1] [Hm2 Hv2]]. split; intros i x Hx.
    + destruct (sd_maps d2 !! i) as [y|] eqn:E2; [by eapply Hm2|]. by eapply Hm1.
    + destruct (sd_values d2 !! i) as [y|] eqn:E2; [by eapply Hv2|].
      rewrite None_union in Hx. by eapply Hv1.
Qed.

Lemma applicable_disjoint d s :
  map_Forall (λ i _, 0 ≤ i < 2 ^ 8) (sd_values d) → map_Forall (λ i _, 0 ≤ i < 2 ^ 8) (sd_maps d) →
  applicable d s → valid_storage_delta d.
Proof.
  intros H1 H2 [Hm Hv]. split_and!; [done|done|]. intros i.
  destruct (sd_values d !! i) as [w|] eqn:Ev; [|by left].
  destruct (sd_maps d !! i) as [m|] eqn:Em; [|by right].
  destruct (Hv i w Ev) as [v Hs], (Hm i m Em) as [t Ht]. congruence.
Qed.

(** Composing the results of two deltas on one slot. *)
Lemma slot_result_merged d1 d2 s i :
  valid_storage_delta d2 → applicable d1 s → applicable d2 s →
  let one := slot_result (sd_values (merged_storage d2 d1) !! i)
    (sd_maps (merged_storage d2 d1) !! i) (slots s !! Z.to_nat i) in
  let two := slot_result (sd_values d2 !! i) (sd_maps d2 !! i)
    (slot_result (sd_values d1 !! i) (sd_maps d1 !! i) (slots s !! Z.to_nat i)) in
  one = None ∧ two = None ∨ ∃ x y, one = Some x ∧ two = Some y ∧ slot_equiv x y.
Proof.
  intros Hd2 [Hm1 Hv1] [Hm2 Hv2]. rewrite lookup_merged_maps. cbn [sd_values merged_storage].
  rewrite lookup_union. unfold merge_maps.
  destruct (sd_values d2 !! i) as [w2|] eqn:V2.
  { cbn. right. destruct (sd_values d1 !! i); by do 2 eexists. }
  destruct (sd_maps d2 !! i) as [m2|] eqn:M2.
  - destruct (Hm2 i m2 M2) as [t Ht]. rewrite Ht.
    destruct (sd_values d1 !! i) as [w1|] eqn:V1.
    { destruct (Hv1 i w1 V1) as [v Hv]. congruence. }
    right. destruct (sd_maps d1 !! i) as [m1|] eqn:M1; cbn.
    + do 2 eexists. split; [done|]. split; [done|]. constructor. apply map_apply_merge.
    + by do 2 eexists.
  - rewrite None_union. cbn.
    destruct (slot_result (sd_values d1 !! i) (sd_maps d1 !! i) (slots s !! Z.to_nat i)) as [x|];
      [right|by left]. destruct x; by do 2 eexists.
Qed.

Lemma storage_apply_types d s s' :
  valid_storage_delta d → storage_apply_delta d s = (Ok tt, s') →
  ∀ i, 0 ≤ i → slot_type <$> slots s !! Z.to_nat i = slot_type <$> slots s' !! Z.to_nat i.
Proof.
  intros Hd Hrun i Hi. destruct (storage_apply_Ok d s s' Hd Hrun) as (Happ & _ & Hs).
  rewrite Hs by done. symmetry. by apply slot_result_type.
Qed.

Lemma storage_apply_both d1 d2 s s1 s2 s' :
  valid_storage_delta d1 → valid_storage_delta d2 → valid_storage_delta (merged_storage d2 d1) →
  storage_apply_delta d1 s = (Ok tt, s1) → storage_apply_delta d2 s1 = (Ok tt, s2) →
  storage_apply_delta (merged_storage d2 d1) s = (Ok tt, s') → storage_equiv s' s2.
Proof.
  intros V1 V2 V A1 A2 A. pose proof (storage_apply_types d1 s s1 V1 A1) as Hty.
  destruct (storage_apply_Ok _ _ _ V1 A1) as (P1 & _ & S1).
  destruct (storage_apply_Ok _ _ _ V2 A2) as (P2 & _ & S2).
  destruct (storage_apply_Ok _ _ _ V A) as (_ & _ & S').
  apply storage_equiv_lookup. intros i. rewrite <-(Nat2Z.id i).
  rewrite S', S2, S1 by lia. apply slot_result_merged; [done|done|].
  apply (applicable_types d2 s1); [done| |done]. intros j Hj. symmetry. by apply Hty.
Qed.

Lemma storage_apply_compose d1 d2 s :
  valid_storage_delta d1 → valid_storage_delta d2 →
  (∀ s1 s2, storage_apply_delta d1 s = (Ok tt, s1) → storage_apply_delta d2 s1 = (Ok tt, s2) →
    ∃ d s', storage_delta_merge d2 d1 = (Ok tt, d) ∧ storage_apply_delta d s = (Ok tt, s') ∧
      storage_equiv s' s2 ∧ storage_commitment s' = storage_commitment s2) ∧
  (∀ d s', storage_delta_merge d2 d1 = (Ok tt, d) → storage_apply_delta d s = (Ok tt, s') →
    ∃ s1 s2, storage_apply_delta d1 s = (Ok tt, s1) ∧ storage_apply_delta d2 s1 = (Ok tt, s2) ∧
      storage_equiv s' s2 ∧ storage_commitment s' = storage_commitment s2).
Proof.
  intros V1 V2. destruct (merged_storage_bounds d2 d1 V2 V1) as [Bv Bm]. split.
  - intros s1 s2 A1 A2.
    destruct (storage_apply_Ok _ _ _ V1 A1) as (P1 & _ & _).
    destruct (storage_apply_Ok _ _ _ V2 A2) as (P2 & _ & _).
    assert (applicable (merged_storage d2 d1) s) as P.
    { apply applicable_merged. split; [done|]. apply (applicable_types d2 s1); [done| |done].
      intros j Hj. symmetry. by apply (storage_apply_types d1 s s1). }
    pose proof (applicable_disjoint _ _ Bv Bm P) as V.
    destruct (storage_apply_succeeds _ s V P) as [s' A].
    assert (storage_equiv s' s2) as He by (by apply (storage_apply_both d1 d2 s s1)).
    exists (merged_storage d2 d1), s'. rewrite storage_delta_merge_eq.
    split; [|split; [done|]; split; [done|]; by rewrite He]. f_equal. by apply storage_delta_validate_Ok, V.
  - intros d s'. rewrite storage_delta_merge_eq. intros [= Hval <-] A.
    assert (valid_storage_delta (merged_storage d2 d1)) as V.
    { split_and!; [done|done|]. by apply storage_delta_validate_Ok. }
    destruct (storage_apply_Ok _ _ _ V A) as (P & _ & _). apply applicable_merged in P as [P1 P2].
    destruct (storage_apply_succeeds d1 s V1 P1) as [s1 A1].
    destruct (storage_apply_succeeds d2 s1 V2) as [s2 A2].
    { apply (applicable_types d2 s); [done| |done]. by apply (storage_apply_types d1). }
    assert (storage_equiv s' s2) as He by (by apply (storage_apply_both d1 d2 s s1)).
    exists s1, s2. split; [done|]. split; [done|]. split; [done|]. by rewrite He.
Qed.

(** C19. Storage deltas compose in both directions: the two deltas can be applied
    one after the other exactly when their merge succeeds and can be applied in
    one go, and the resulting storages have the same contents and commitment. *)
Theorem storage_apply_merge d1 d2 s :
  valid_storage_delta d1 → valid_storage_delta d2 →
  (∀ s1 s2, storage_apply_delta d1 s = (Ok tt, s1) → storage_apply_delta d2 s1 = (Ok tt, s2) →
    ∃ d s', storage_delta_merge d2 d1 = (Ok tt, d) ∧ storage_apply_delta d s = (Ok tt, s') ∧
      storage_equiv s' s2 ∧ storage_commitment s' = storage_commitment s2) ∧
  (∀ d s', storage_delta_merge d2 d1 = (Ok tt, d) → storage_apply_delta d s = (Ok tt, s') →
    ∃ s1 s2, storage_apply_delta d1 s = (Ok tt, s1) ∧ storage_apply_delta d2 s1 = (Ok tt, s2) ∧
      storage_equiv s' s2 ∧ storage_commitment s' = storage_commitment s2).
Proof. apply storage_apply_compose. Qed.

(** ** Single items *)

Lemma get_item_lookup s s' i :
  slots s !! Z.to_nat i = slots s' !! Z.to_nat i → length (slots s) = length (slots s') →
  get_item s i = get_item s' i.
Proof. intros E El. unfold get_item, index_error. by rewrite E, El. Qed.

(** [set_item] changes one value slot, returns what it held, and leaves
    every other slot alone; on a map slot or past the end it changes nothing
    and says which. *)
Theorem set_item_spec s i w :
  0 ≤ i → Z.of_nat (length (slots s)) ≤ MAX_NUM_STORAGE_SLOTS →
  let '(r, s') := set_item i w s in
  match r with
  | Ok old =>
      slots s !! Z.to_nat i = Some (Value old) ∧ get_item s i = Ok old ∧ get_item s' i = Ok w ∧
      length (slots s') = length (slots s) ∧
      ∀ j, 0 ≤ j → j ≠ i → get_item s' j = get_item s j
  | Err (StorageIndexOutOfBounds max actual) =>
      s' = s ∧ max = Z.of_nat (length (slots s)) ∧ actual = i ∧ max ≤ i
  | Err e => s' = s ∧ e = StorageSlotNotValue i ∧ ∃ m, slots s !! Z.to_nat i = Some (Map m)
  | Panic => False
  end.
Proof.
  intros Hi Hn. unfold set_item, MAX_NUM_STORAGE_SLOTS in *.
  destruct (Z.leb_spec (Z.of_nat (length (slots s))) i).
  { unfold index_error, as_u8. rewrite Z.mod_small by lia. split_and!; [done|done|done|lia]. }
  destruct (slots s !! Z.to_nat i) as [[old|m]|] eqn:E.
  - split; [done|]. unfold get_item at 1. rewrite E. split; [done|].
    assert (Z.to_nat i < length (slots s))%nat by lia. split_and!.
    + unfold get_item. cbn. by rewrite list_lookup_insert_eq.
    + apply set_slot_length.
    + intros j Hj Hne. apply get_item_lookup; [|apply set_slot_length].
      cbn. rewrite list_lookup_insert_ne by lia. done.
  - eauto.
  - apply lookup_ge_None in E. lia.
Qed.

(** [set_map_item] changes one key of one map and returns the previous root
    and value. *)
Theorem set_map_item_spec s i k w root old s' :
  0 ≤ i → set_map_item i k w s = (Ok (root, old), s') →
  get_item s i = Ok root ∧ get_map_item s i k = Ok old ∧ get_map_item s' i k = Ok w ∧
  (∀ k', k' ≠ k → get_map_item s' i k' = get_map_item s i k') ∧
  (∀ j, 0 ≤ j → j ≠ i → slots s' !! Z.to_nat j = slots s !! Z.to_nat j).
Proof.
  intros Hi. unfold set_map_item. destruct (Z.leb_spec (Z.of_nat (length (slots s))) i); [done|].
  destruct (slots s !! Z.to_nat i) as [[v|m]|] eqn:E; [done| |done].
  pose proof (insert_entry_get m (k, w)) as Hget. unfold insert_entry in Hget. cbn [fst snd] in Hget.
  pose proof (smt_insert_old (map_tree m) k w) as Hold. unfold storage_map_insert in *.
  destruct (smt_insert (map_tree m) k w) as [t o]. cbn in Hold. intros [= <- <- <-]. subst o.
  assert (Z.to_nat i < length (slots s))%nat by lia.
  assert (∀ key, get_map_item (set_slot i (Map (mkStorageMap t)) s) i key =
    Ok (if decide (k = key) then w else storage_map_get_value m key)) as Hnew.
  { intros key. unfold get_map_item. cbn. rewrite list_lookup_insert_eq by done. cbn. f_equal. apply Hget. }
  split_and!.
  - unfold get_item. by rewrite E.
  - unfold get_map_item. by rewrite E.
  - rewrite Hnew. by rewrite decide_True.
  - intros k' Hk. rewrite Hnew, decide_False by done. unfold get_map_item. by rewrite E.
  - intros j Hj Hne. cbn. rewrite list_lookup_insert_ne by lia. done.
Qed.

(** ** Serialization *)

Section SerLaws.
  Context {B : ByteIO} {I : SmtIO}.

#[export] Instance StorageSlotType_serde : SerdeLaws StorageSlotType (λ _, True).
Proof.
  split.
  - intros [] rest _; cbn [write_into read_from StorageSlotType_ser StorageSlotType_de];
      by rewrite read_u8_bind by lia.
  - intros [] _; apply length_write_u8.
Qed.

#[export] Instance StorageMap_serde : SerdeLaws StorageMap (λ _, True).
Proof.
  split.
  - intros [t] rest _. cbn [write_into read_from StorageMap_ser StorageMap_de].
    by rewrite (decodes_bind _ _ _ _ _ _ smt_decodes).
  - intros m _. apply length_write_smt.
Qed.

#[export] Instance StorageSlot_serde : SerdeLaws StorageSlot (λ _, True).
Proof.
  split.
  - intros s rest _. unfold write_into at 1, read_from at 1, StorageSlot_ser, StorageSlot_de.
    rewrite <-app_assoc, (serde_bind (λ _ : StorageSlotType, True)) by done.
    destruct s as [w|m]; cbn [slot_type].
    + by rewrite (serde_bind (λ _ : Word, True)).
    + by rewrite (serde_bind (λ _ : StorageMap, True)).
  - intros s _. unfold write_into at 1, get_size_hint at 1, StorageSlot_ser.
    rewrite length_app, (serde_size (slot_type s)) by done. f_equal.
    destruct s as [w|m]; by apply serde_size.
Qed.

Lemma sum_size {A} `{!Serializable A, !Deserializable A} (P : A → Prop) `{!SerdeLaws A P} (l : list A) :
  Forall P l → length (write_many write_into l) = sum_list (get_size_hint <$> l).
Proof.
  intros Hl. rewrite length_write_many. f_equal. apply list_fmap_ext.
  intros i x Hx%list_elem_of_lookup_2. apply serde_size. rewrite Forall_forall in Hl. by apply Hl.
Qed.

Definition wf_storage (s : AccountStorage) : Prop :=
  Z.of_nat (length (slots s)) ≤ MAX_NUM_STORAGE_SLOTS.

#[export] Instance AccountStorage_serde : SerdeLaws AccountStorage wf_storage.
Proof.
  split.
  - intros s rest Hs. unfold wf_storage, MAX_NUM_STORAGE_SLOTS in Hs.
    unfold write_into at 1, read_from at 1, AccountStorage_ser, AccountStorage_de.
    rewrite as_u8_small by lia. rewrite <-app_assoc, read_u8_bind by lia.
    rewrite (read_many_bind (λ _, True)) by
      (apply serde_decodes || (by apply Forall_true) || by rewrite Nat2Z.id).
    unfold reader_lift, storage_new, MAX_NUM_STORAGE_SLOTS.
    destruct (Z.gtb_spec (Z.of_nat (length (slots s))) 255); [lia|]. by destruct s.
  - intros s _. unfold write_into at 1, get_size_hint at 1, AccountStorage_ser.
    rewrite length_app, length_write_u8. f_equal. apply (sum_size (λ _, True)). by apply Forall_true.
Qed.

(** Storage of at most 255 slots is created by [new], reads back from its
    serialization with every map, and has an exact size hint; its header is
    built without panicking, agrees slot by slot with [get_item], and reads
    back too. *)
Theorem storage_roundtrip s rest :
  wf_storage s →
  storage_new (slots s) = Ok s ∧
  read_from (write_into s ++ rest) = Ok (s, rest) ∧
  length (write_into s) = get_size_hint s ∧
  ∃ h, get_header (E:=AccountError) s = Ok h ∧
    read_from (write_into h ++ rest) = Ok (h, rest) ∧
    ∀ i, 0 ≤ i < 2 ^ 8 → snd <$> storage_header_slot h i = get_item s i.
Proof.
  intros Hs. split_and!.
  - unfold storage_new, wf_storage in *.
    destruct (Z.gtb_spec (Z.of_nat (length (slots s))) MAX_NUM_STORAGE_SLOTS); [lia|]. by destruct s.
  - by apply serde_decodes.
  - by apply serde_size.
  - unfold wf_storage, get_header, storage_header_new, MAX_NUM_STORAGE_SLOTS in *.
    set (l := (λ slot, (slot_type slot, slot_value slot)) <$> slots s).
    assert (length l = length (slots s)) as Hl by apply length_fmap. rewrite Hl.
    destruct (Z.leb_spec (Z.of_nat (length (slots s))) 255); [|lia].
    exists (mkStorageHeader l). split; [done|]. split.
    + unfold write_into at 1, read_from at 1, AccountStorageHeader_ser, AccountStorageHeader_de.
      cbn [header_slots]. rewrite as_u8_small by lia. rewrite <-app_assoc, read_u8_bind by lia.
      rewrite (read_many_bind (λ p, True ∧ True)).
      * unfold reader_lift, storage_header_new, MAX_NUM_STORAGE_SLOTS. rewrite Hl.
        by destruct (Z.leb_spec (Z.of_nat (length (slots s))) 255); [|lia].
      * apply (pair_decodes (λ _, True) (λ _, True)); apply serde_decodes.
      * by apply Forall_true.
      * by rewrite Nat2Z.id.
    + intros i Hi. unfold storage_header_slot, get_item, index_error. cbn [header_slots]. rewrite Hl.
      subst l. rewrite list_lookup_fmap. unfold as_u8 at 2. rewrite (Z.mod_small i) by lia.
      by destruct (slots s !! Z.to_nat i) as [x|].
Qed.
End SerLaws.
End Storage.

(** ** Witnesses *)

#[local] Existing Instance Goldilocks.
#[local] Existing Instance ToyHasher.
#[local] Existing Instance MapTree.
#[local] Existing Instance CodeOrd.
#[local] Existing Instance PlainIO.

(** A tree written as the list of its entries. *)
Definition mt_write (t : gmap Word Word) : bytes :=
  write_term (write_pair write_word write_word) (map_to_list t).
Definition mt_read : reader (gmap Word Word) :=
  l ← read_term (read_pair read_word read_word); mret (list_to_map l).

Lemma mt_decodes : decodes (λ _, True) mt_write mt_read.
Proof.
  intros t rest _. unfold mt_read, mt_write.
  rewrite (decodes_bind _ _ _ _ _ _ (term_decodes _ _
    (decodes_weaken _ _ _ _ (λ _ _, conj I I) (pair_decodes _ _ _ _ _ _ word_decodes word_decodes)))) by done.
  by rewrite list_to_map_to_list.
Qed.

#[refine] Definition MapTreeIO : SmtIO := {|
  write_smt := mt_write; smt_size_hint t := length (mt_write t); read_smt := mt_read
|}.
Proof.
  - exact mt_decodes.
  - abstract done.
Defined.
#[local] Existing Instance MapTreeIO.

Definition sample_storage : AccountStorage :=
  mkStorage [Value (sample_word 1); Value EMPTY_WORD; slot_empty_map].

Definition sample_storage_1 : AccountStorage := (storage_apply_delta sample_storage_delta sample_storage).2.
Definition sample_storage_2 : AccountStorage := (storage_apply_delta sample_storage_delta sample_storage_1).2.

Lemma storage_apply_merge_witness :
  ∃ d s', storage_delta_merge sample_storage_delta sample_storage_delta = (Ok tt, d) ∧
    storage_apply_delta d sample_storage = (Ok tt, s') ∧
    storage_equiv s' sample_storage_2 ∧ storage_commitment s' = storage_commitment sample_storage_2.
Proof.
  apply (storage_apply_merge sample_storage_delta sample_storage_delta sample_storage
    sample_storage_delta_valid sample_storage_delta_valid) with sample_storage_1.
  - refine (run_Ok (storage_apply_delta sample_storage_delta sample_storage) _). vm_compute. reflexivity.
  - refine (run_Ok (storage_apply_delta sample_storage_delta sample_storage_1) _). vm_compute. reflexivity.
Defined.

Lemma set_item_spec_witness :
  get_item (set_item 1 (sample_word 7) sample_storage).2 1 = Ok (sample_word 7).
Proof.
  apply (set_item_spec sample_storage 1 (sample_word 7)); [lia|].
  apply Z.leb_le. reflexivity.
Defined.

Lemma set_map_item_spec_witness :
  get_map_item (set_map_item 2 (sample_word 3) (sample_word 4) sample_storage).2 2 (sample_word 3) =
  Ok (sample_word 4).
Proof.
  apply (set_map_item_spec sample_storage 2 (sample_word 3) (sample_word 4) EMPTY_STORAGE_MAP_ROOT EMPTY_WORD);
    [lia|reflexivity].
Defined.

Lemma storage_roundtrip_witness :
  read_from (write_into sample_storage ++ [4]) = Ok (sample_storage, [4]).
Proof.
  apply (storage_roundtrip sample_storage [4]). apply Z.leb_le. reflexivity.
Defined.
