(* ===== verification/Code.v ===== *)
(** * Account code and components

    Models objects/src/accounts/code/mod.rs, code/procedure.rs and
    component/mod.rs, and the construction of code and storage from components
    (accounts/mod.rs, storage/mod.rs). Libraries and MAST forests come from the
    Miden assembler and VM; they are a parameter. *)

From S2P Require Import Prelude Felt Crypto Serde Types AccountId Assets VaultDelta StorageDelta Storage.
Open Scope Z_scope.

Class AsmApi {F : FeltApi} := {
  Library : Type;
  MastForest : Type;
  (** [Library::mast_forest]; the procedure digests of each module of the
      library; [MastForest::merge]. *)
  mast_forest : Library → MastForest;
  library_modules : Library → list (list Digest);
  mast_merge : list MastForest → option MastForest;
  (** A library exports at least one procedure. *)
  library_nonempty : ∀ l, mjoin (library_modules l) ≠ []
}.

(** The serialization of MAST forests. *)
Class MastIO {F : FeltApi} {A : AsmApi} {B : ByteIO} := {
  write_mast : MastForest → bytes;
  read_mast : reader MastForest;
  mast_decodes : decodes (λ _, True) write_mast read_mast
}.

Definition u8_checked_add (a b : Z) : option Z := if a + b <=? U8_MAX then Some (a + b) else None.

(** [AccountCode::MAX_NUM_PROCEDURES] *)
Definition MAX_NUM_PROCEDURES : Z := 256.

Section Code.
  Context {F : FeltApi} {H : HasherApi} {S : SmtApi} {D : DigestOrd} {A : AsmApi}.

(** ** Procedures *)

Record AccountProcedureInfo : Type := mkProcedureInfo {
  mast_root : Digest;
  storage_offset : Z;
  storage_size : Z
}.

Definition procedure_info_new (mast_root : Digest) (storage_offset storage_size : Z)
    : res AccountError AccountProcedureInfo :=
  if (storage_size =? 0) && negb (storage_offset =? 0) then Err PureProcedureWithStorageOffset
  else match u8_checked_add storage_offset storage_size with
       | None => Err (StorageOffsetOutOfBounds MAX_NUM_STORAGE_SLOTS (storage_offset + storage_size))
       | Some _ => Ok (mkProcedureInfo mast_root storage_offset storage_size)
       end.

(** [From<AccountProcedureInfo> for [Felt; 8]] *)
Definition procedure_info_to_elements (p : AccountProcedureInfo) : list felt :=
  word_elements (mast_root p) ++
  [felt_new (storage_offset p); felt_new (storage_size p); ZERO; ZERO].

(** [TryFrom<Felt> for u8] *)
Definition felt_try_into_u8 (x : felt) : option Z := try_into_u8 (as_int x).

(** [TryFrom<[Felt; 8]> for AccountProcedureInfo]; an array of another length
    has another type. *)
Definition procedure_info_from_elements (value : list felt) : res AccountError AccountProcedureInfo :=
  match value with
  | [a; b; c; d; v4; v5; v6; v7] =>
      storage_offset ← ok_or AccountCodeProcedureInvalidStorageOffset (felt_try_into_u8 v4);
      storage_size ← ok_or AccountCodeProcedureInvalidStorageSize (felt_try_into_u8 v5);
      if bool_decide (v6 ≠ ZERO) || bool_decide (v7 ≠ ZERO)
      then Err AccountCodeProcedureInvalidPadding
      else Ok (mkProcedureInfo (mkWord a b c d) storage_offset storage_size)
  | _ => Panic
  end.

(** ** Components *)

Record AccountComponent : Type := mkComponent {
  comp_library : Library;
  comp_storage_slots : list StorageSlot;
  supported_types : list AccountType
}.

Definition component_new (code : Library) (storage_slots : list StorageSlot)
    : res AccountError AccountComponent :=
  ok_or (StorageTooManySlots (Z.of_nat (length storage_slots)))
    (try_into_u8 (Z.of_nat (length storage_slots))) ;;
  Ok (mkComponent code storage_slots []).

(** [AccountComponent::storage_size] *)
Definition comp_storage_size {E} (c : AccountComponent) : res E Z :=
  expect_some (try_into_u8 (Z.of_nat (length (comp_storage_slots c)))).

Definition supports_type (c : AccountComponent) (ty : AccountType) : bool :=
  bool_decide (ty ∈ supported_types c).

(** The supported types are a set: adding a type twice is the same as once. *)
Definition with_supported_type (ty : AccountType) (c : AccountComponent) : AccountComponent :=
  mkComponent (comp_library c) (comp_storage_slots c)
    (if bool_decide (ty ∈ supported_types c) then supported_types c else ty :: supported_types c).
Definition with_supports_all_types (c : AccountComponent) : AccountComponent :=
  with_supported_type FungibleFaucet (with_supported_type NonFungibleFaucet
    (with_supported_type RegularAccountImmutableCode (with_supported_type RegularAccountUpdatableCode c))).

(** [validate_components_support_account_type] *)
Fixpoint validate_components_from (index : Z) (components : list AccountComponent) (ty : AccountType)
    : res AccountError unit :=
  match components with
  | [] => Ok tt
  | component :: components' =>
      if negb (supports_type component ty) then Err (UnsupportedComponentForAccountType ty index)
      else validate_components_from (index + 1) components' ty
  end.
Definition validate_components_support_account_type (components : list AccountComponent) (ty : AccountType)
    : res AccountError unit := validate_components_from 0 components ty.

(** ** Account code *)

Record AccountCode : Type := mkCode {
  mast : MastForest;
  procedures : list AccountProcedureInfo;
  code_commitment : Digest
}.

Definition procedures_as_elements (procedures : list AccountProcedureInfo) : list felt :=
  mjoin (procedure_info_to_elements <$> procedures).
Definition build_procedure_commitment (procedures : list AccountProcedureInfo) : Digest :=
  hash_elements (procedures_as_elements procedures).

(** The local state of [from_components_unchecked]. *)
Record code_state : Type := mkCodeState {
  cs_procedures : list AccountProcedureInfo;
  cs_roots : gset Digest;
  cs_offset : Z
}.

(** The body of the innermost loop. *)
Definition add_procedure (component_storage_size : Z) (proc_mast_root : Digest)
    : mut code_state AccountError unit := λ s,
  if decide (proc_mast_root ∈ cs_roots s) then (Err AccountCodeMergeError, s)
  else
    let s := mkCodeState (cs_procedures s) ({[ proc_mast_root ]} ∪ cs_roots s) (cs_offset s) in
    let '(storage_offset, storage_size) :=
      if component_storage_size =? 0 then (0, 0) else (cs_offset s, component_storage_size) in
    match procedure_info_new proc_mast_root storage_offset storage_size with
    | Ok info => (Ok tt, mkCodeState (cs_procedures s ++ [info]) (cs_roots s) (cs_offset s))
    | Err e => (Err e, s)
    | Panic => (Panic, s)
    end.

(** The body of the loop over the components. *)
Definition add_component (component : AccountComponent) : mut code_state AccountError unit :=
  component_storage_size ← lift (comp_storage_size component);
  for_each (library_modules (comp_library component)) (λ module,
    for_each module (add_procedure component_storage_size)) ;;
  s ← get_self;
  offset ← lift (expect_some (u8_checked_add (cs_offset s) component_storage_size));
  put_self (mkCodeState (cs_procedures s) (cs_roots s) offset).

Definition initial_offset (ty : AccountType) : Z := if AccountType_is_faucet ty then 1 else 0.

Definition from_components_unchecked (components : list AccountComponent) (ty : AccountType)
    : res AccountError AccountCode :=
  merged_mast_forest ← ok_or AccountCodeMergeError
    (mast_merge ((λ c, mast_forest (comp_library c)) <$> components));
  let '(r, s) := for_each components add_component (mkCodeState [] ∅ (initial_offset ty)) in
  r ;;
  let procedures := cs_procedures s in
  let n := Z.of_nat (length procedures) in
  if n =? 0 then Err AccountCodeNoProcedures
  else if n >? MAX_NUM_PROCEDURES then Err (AccountCodeTooManyProcedures MAX_NUM_PROCEDURES n)
  else Ok (mkCode merged_mast_forest procedures (build_procedure_commitment procedures)).

(** [AccountCode::from_parts] *)
Definition code_from_parts {E} (mast : MastForest) (procedures : list AccountProcedureInfo)
    : res E AccountCode :=
  let n := Z.of_nat (length procedures) in
  if n =? 0 then Panic
  else if n <=? MAX_NUM_PROCEDURES then
    Ok (mkCode mast procedures (build_procedure_commitment procedures))
  else Panic.

Definition has_procedure (code : AccountCode) (root : Digest) : bool :=
  existsb (λ p, bool_decide (mast_root p = root)) (procedures code).
Definition get_procedure_by_index {E} (code : AccountCode) (index : nat) : res E AccountProcedureInfo :=
  expect_some (procedures code !! index).
Definition get_procedure_index_by_root (code : AccountCode) (root : Digest) : option nat :=
  fst <$> list_find (λ r, r = root) (mast_root <$> procedures code).

(** ** Storage from components *)

(** [AccountStorage::from_components] *)
Definition storage_from_components (components : list AccountComponent) (ty : AccountType)
    : res AccountError AccountStorage :=
  let storage_slots :=
    match ty with
    | FungibleFaucet => [slot_empty_value]
    | NonFungibleFaucet => [slot_empty_map]
    | _ => []
    end in
  storage_new (storage_slots ++ mjoin (comp_storage_slots <$> components)).

(** [Account::initialize_from_components] *)
Definition initialize_from_components (ty : AccountType) (components : list AccountComponent)
    : res AccountError (AccountCode * AccountStorage) :=
  validate_components_support_account_type components ty ;;
  code ← from_components_unchecked components ty;
  storage ← storage_from_components components ty;
  Ok (code, storage).

(** ** Serialization *)

Section Ser.
  Context {B : ByteIO} {M : MastIO}.

#[export] Instance AccountProcedureInfo_ser : Serializable AccountProcedureInfo := {|
  write_into p := write_digest (mast_root p) ++ write_u8 (storage_offset p) ++ write_u8 (storage_size p);
  get_size_hint _ := (DIGEST_SERIALIZED_SIZE + 1 + 1)%nat
|}.
#[export] Instance AccountProcedureInfo_de : Deserializable AccountProcedureInfo := {|
  read_from :=
    mast_root ← read_digest;
    storage_offset ← read_u8;
    storage_size ← read_u8;
    reader_lift (procedure_info_new mast_root storage_offset storage_size)
|}.

#[export] Instance AccountCode_ser : Serializable AccountCode := {|
  write_into c := write_mast (mast c) ++
    write_u8 (as_u8 (Z.of_nat (length (procedures c)) - 1)) ++ write_many write_into (procedures c);
  get_size_hint c :=
    (1 + length (write_mast (mast c)) + sum_list (get_size_hint <$> procedures c))%nat
|}.
#[export] Instance AccountCode_de : Deserializable AccountCode := {|
  read_from :=
    module ← read_mast;
    n ← read_u8;
    procedures ← read_many read_from (Z.to_nat (n + 1));
    reader_lift (code_from_parts (E:=AccountError) module procedures)
|}.
End Ser.

(** ** The layout of the components *)

Definition valid_component (c : AccountComponent) : Prop := (length (comp_storage_slots c) <= 255)%nat.
Definition comp_size (c : AccountComponent) : Z := Z.of_nat (length (comp_storage_slots c)).
Definition comp_roots (c : AccountComponent) : list Digest := mjoin (library_modules (comp_library c)).

(** The procedures a component contributes when its slots begin at [offset]. *)
Definition comp_procedures (offset : Z) (c : AccountComponent) : list AccountProcedureInfo :=
  (λ root, mkProcedureInfo root (if comp_size c =? 0 then 0 else offset) (comp_size c)) <$> comp_roots c.

(** Each component with the index of its first slot. *)
Fixpoint layout (offset : Z) (components : list AccountComponent) : list (Z * AccountComponent) :=
  match components with
  | [] => []
  | c :: components' => (offset, c) :: layout (offset + comp_size c) components'
  end.

Definition layout_procedures (l : list (Z * AccountComponent)) : list AccountProcedureInfo :=
  mjoin ((λ x, comp_procedures x.1 x.2) <$> l).

Definition total_size (components : list AccountComponent) : Z :=
  foldr (λ c acc, comp_size c + acc) 0 components.

Lemma for_each_join {T E X} (l : list (list X)) (body : X → mut T E unit) s :
  for_each l (λ m, for_each m body) s = for_each (mjoin l) body s.
Proof.
  revert s. induction l as [|m l IH]; intros s; [done|].
  change (mjoin (m :: l)) with (m ++ mjoin l). rewrite for_each_app. cbn [for_each].
  unfold mbind, mut_bind. destruct (for_each m body s) as [[[]|e|] s']; [apply IH|done..].
Qed.

Lemma comp_storage_size_valid {E} c : valid_component c → comp_storage_size (E:=E) c = Ok (comp_size c).
Proof.
  unfold valid_component, comp_storage_size, try_into_u8, in_u8, U8_MAX, comp_size. intros Hc.
  destruct (_ && _) eqn:Eb; [done|]. lia.
Qed.

Lemma procedure_info_new_eq root offset size :
  0 ≤ offset → 0 ≤ size → (size = 0 → offset = 0) →
  procedure_info_new root offset size =
  if offset + size <=? 255 then Ok (mkProcedureInfo root offset size)
  else Err (StorageOffsetOutOfBounds 255 (offset + size)).
Proof.
  intros Ho Hs Hz. unfold procedure_info_new, u8_checked_add, U8_MAX, MAX_NUM_STORAGE_SLOTS.
  destruct (Z.eqb_spec size 0) as [->|]; cbn [andb].
  - rewrite Hz by done. done.
  - change (2 ^ 8 - 1) with 255. by destruct (offset + size <=? 255).
Qed.

(** The loops over the procedures of one component. *)
Lemma add_procedures_spec c roots s :
  0 ≤ cs_offset s →
  (∃ s', for_each roots (add_procedure (comp_size c)) s = (Ok tt, s') ∧
    cs_procedures s' = cs_procedures s ++
      ((λ root, mkProcedureInfo root (if comp_size c =? 0 then 0 else cs_offset s) (comp_size c)) <$> roots) ∧
    cs_offset s' = cs_offset s ∧ NoDup roots ∧ (∀ r, r ∈ roots → r ∉ cs_roots s) ∧
    cs_roots s' = list_to_set roots ∪ cs_roots s ∧
    (roots ≠ [] → comp_size c = 0 ∨ cs_offset s + comp_size c ≤ 255)) ∨
  (∃ e s', for_each roots (add_procedure (comp_size c)) s = (Err e, s')).
Proof.
  assert (0 ≤ comp_size c) as Hc by (unfold comp_size; lia).
  revert s. induction roots as [|r roots IH]; intros s Ho.
  { left. exists s. cbn. rewrite app_nil_r, union_empty_l_L.
    split_and!; [done|done|done|constructor|by intros r ?%not_elem_of_nil|done|done]. }
  cbn [for_each]. unfold mbind at 1 2, mut_bind at 1 2, add_procedure at 1 3.
  case_decide as Hr; [right; eauto|]. cbn [cs_offset cs_procedures cs_roots].
  assert ((if comp_size c =? 0 then (0, 0) else (cs_offset s, comp_size c)) =
    (if comp_size c =? 0 then 0 else cs_offset s, comp_size c)) as ->.
  { by destruct (Z.eqb_spec (comp_size c) 0) as [->|]. }
  rewrite procedure_info_new_eq by (destruct (Z.eqb_spec (comp_size c) 0); lia).
  destruct (Z.leb_spec ((if comp_size c =? 0 then 0 else cs_offset s) + comp_size c) 255) as [Hle|]; [|right; eauto].
  set (info := mkProcedureInfo _ _ _).
  destruct (IH (mkCodeState (cs_procedures s ++ [info]) ({[r]} ∪ cs_roots s) (cs_offset s)) Ho)
    as [(s' & -> & Hp & Hoff & ND & Hfresh & Hroots & _)|(e & s' & ->)]; [|right; eauto].
  left. exists s'. cbn [cs_procedures cs_offset cs_roots] in *. split_and!; [done| |done| | | |].
  - rewrite Hp, <-app_assoc. done.
  - constructor; [|done]. intros Hin. specialize (Hfresh r Hin). set_solver.
  - intros x [->|Hx]%elem_of_cons; [done|]. specialize (Hfresh x Hx). set_solver.
  - rewrite Hroots. set_solver.
  - intros _. destruct (Z.eqb_spec (comp_size c) 0); [by left|right; lia].
Qed.

Lemma comp_roots_nonempty c : comp_roots c ≠ [].
Proof. apply library_nonempty. Qed.

Lemma add_component_spec c s :
  valid_component c → 0 ≤ cs_offset s ≤ 255 →
  (∃ s', add_component c s = (Ok tt, s') ∧
    cs_procedures s' = cs_procedures s ++ comp_procedures (cs_offset s) c ∧
    cs_offset s' = cs_offset s + comp_size c ∧ cs_offset s' ≤ 255 ∧
    NoDup (comp_roots c) ∧ (∀ r, r ∈ comp_roots c → r ∉ cs_roots s) ∧
    cs_roots s' = list_to_set (comp_roots c) ∪ cs_roots s) ∨
  (∃ e s', add_component c s = (Err e, s')).
Proof.
  intros Hc Ho. unfold add_component, lift. rewrite comp_storage_size_valid by done.
  unfold mbind, mut_bind, get_self, put_self. rewrite for_each_join.
  destruct (add_procedures_spec c (comp_roots c) s) as
    [(s' & Hrun & Hp & Hoff & ND & Hfresh & Hroots & Hle)|(e & s' & Hrun)]; [lia|..].
  - specialize (Hle (comp_roots_nonempty c)). unfold comp_roots in Hrun. rewrite Hrun.
    assert (cs_offset s' + comp_size c ≤ 255) by lia. unfold u8_checked_add, U8_MAX.
    destruct (Z.leb_spec (cs_offset s' + comp_size c) (2 ^ 8 - 1)); [|lia]. cbn [expect_some].
    left. eexists. split; [done|]. cbn. rewrite Hoff in *. split_and!; done.
  - right. unfold comp_roots in Hrun. rewrite Hrun. eauto.
Qed.

Lemma add_components_spec components s :
  Forall valid_component components → 0 ≤ cs_offset s ≤ 255 →
  (∃ s', for_each components add_component s = (Ok tt, s') ∧
    cs_procedures s' = cs_procedures s ++ layout_procedures (layout (cs_offset s) components) ∧
    cs_offset s + total_size components ≤ 255 ∧
    NoDup (mjoin (comp_roots <$> components)) ∧
    (∀ r, r ∈ mjoin (comp_roots <$> components) → r ∉ cs_roots s)) ∨
  (∃ e s', for_each components add_component s = (Err e, s')).
Proof.
  intros Hall. revert s. induction Hall as [|c components Hc _ IH]; intros s Ho.
  { left. exists s. cbn. rewrite app_nil_r. split_and!; [done|done|lia|constructor|].
    intros r Hr. by apply not_elem_of_nil in Hr. }
  cbn [for_each]. unfold mbind at 1 2, mut_bind at 1 2.
  destruct (add_component_spec c s Hc Ho) as
    [(s1 & -> & Hp & Hoff & Hle & ND & Hfresh & Hroots)|(e & s1 & ->)]; [|right; eauto].
  assert (0 ≤ comp_size c) by (unfold comp_size; lia).
  destruct (IH s1) as [(s' & -> & Hp' & Hle' & ND' & Hfresh')|(e & s' & ->)]; [lia| |right; eauto].
  left. exists s'. split; [done|].
  change (mjoin (comp_roots <$> c :: components)) with (comp_roots c ++ mjoin (comp_roots <$> components)).
  split_and!.
  - rewrite Hp', Hp, Hoff, <-app_assoc. done.
  - cbn [total_size foldr]. fold (total_size components). lia.
  - apply NoDup_app. split_and!; [done| |done]. intros r Hr Hr'. specialize (Hfresh' r Hr').
    rewrite Hroots in Hfresh'. set_solver.
  - intros r [Hr|Hr]%elem_of_app; [by apply Hfresh|]. specialize (Hfresh' r Hr).
    rewrite Hroots in Hfresh'. set_solver.
Qed.

Lemma initial_offset_range ty : 0 ≤ initial_offset ty ≤ 1.
Proof. unfold initial_offset. destruct (AccountType_is_faucet ty); lia. Qed.

Lemma from_components_spec components ty :
  Forall valid_component components →
  match from_components_unchecked components ty with
  | Ok code =>
      procedures code = layout_procedures (layout (initial_offset ty) components) ∧
      initial_offset ty + total_size components ≤ 255 ∧
      NoDup (mjoin (comp_roots <$> components)) ∧
      1 ≤ Z.of_nat (length (procedures code)) ≤ MAX_NUM_PROCEDURES ∧
      code_commitment code = build_procedure_commitment (procedures code)
  | Err _ => True
  | Panic => False
  end.
Proof.
  intros Hall. unfold from_components_unchecked.
  destruct (mast_merge _) as [m|]; [|done]. cbn [ok_or mbind res_bind].
  pose proof (initial_offset_range ty).
  destruct (add_components_spec components (mkCodeState [] ∅ (initial_offset ty)) Hall)
    as [(s' & -> & Hp & Hle & ND & _)|(e & s' & ->)]; [cbn; lia| |done].
  cbn [cs_procedures cs_offset app mbind res_bind] in *.
  destruct (Z.eqb_spec (Z.of_nat (length (cs_procedures s'))) 0) as [|Hne]; [done|].
  destruct (Z.gtb_spec (Z.of_nat (length (cs_procedures s'))) MAX_NUM_PROCEDURES); [done|].
  cbn. split_and!; [done|done|done|lia|lia|done].
Qed.

Lemma layout_roots offset components :
  mast_root <$> layout_procedures (layout offset components) = mjoin (comp_roots <$> components).
Proof.
  revert offset. induction components as [|c components IH]; intros offset; [done|].
  change (layout_procedures (layout offset (c :: components))) with
    (comp_procedures offset c ++ layout_procedures (layout (offset + comp_size c) components)).
  change (mjoin (comp_roots <$> c :: components)) with (comp_roots c ++ mjoin (comp_roots <$> components)).
  rewrite fmap_app, IH. f_equal. unfold comp_procedures. rewrite <-list_fmap_compose. apply list_fmap_id.
Qed.

Lemma length_all_slots components :
  Z.of_nat (length (mjoin (comp_storage_slots <$> components))) = total_size components.
Proof.
  induction components as [|c components IH]; [done|].
  change (mjoin (comp_storage_slots <$> c :: components)) with
    (comp_storage_slots c ++ mjoin (comp_storage_slots <$> components)).
  rewrite length_app. cbn [total_size foldr]. fold (total_size components). unfold comp_size. lia.
Qed.

Lemma layout_slots prefix components offset c :
  (offset, c) ∈ layout (Z.of_nat (length prefix)) components →
  take (length (comp_storage_slots c))
    (drop (Z.to_nat offset) (prefix ++ mjoin (comp_storage_slots <$> components))) = comp_storage_slots c.
Proof.
  revert prefix. induction components as [|d components IH]; intros prefix; cbn [layout].
  { by intros ?%not_elem_of_nil. }
  change (mjoin (comp_storage_slots <$> d :: components)) with
    (comp_storage_slots d ++ mjoin (comp_storage_slots <$> components)).
  intros [E|Hin]%elem_of_cons.
  - injection E as -> ->. rewrite Nat2Z.id, drop_app_length, take_app_length. done.
  - rewrite app_assoc. apply IH. rewrite length_app, Nat2Z.inj_add. exact Hin.
Qed.

Lemma layout_offsets_ge offset components o c : (o, c) ∈ layout offset components → offset ≤ o.
Proof.
  revert offset. induction components as [|d components IH]; intros offset; cbn [layout].
  { by intros ?%not_elem_of_nil. }
  intros [E|Hin]%elem_of_cons; [by simplify_eq|]. apply IH in Hin. unfold comp_size in Hin. lia.
Qed.

(** The slots of different components do not overlap. *)
Lemma layout_disjoint offset components i j oi ci oj cj :
  (i < j)%nat → layout offset components !! i = Some (oi, ci) → layout offset components !! j = Some (oj, cj) →
  oi + comp_size ci ≤ oj.
Proof.
  revert offset i j. induction components as [|d components IH]; intros offset i j Hij; cbn [layout].
  { by rewrite lookup_nil. }
  destruct j as [|j]; [lia|]. destruct i as [|i]; cbn.
  - intros [= <- <-] Hj%list_elem_of_lookup_2. by apply layout_offsets_ge in Hj.
  - intros Hi Hj. eapply (IH _ i j); [lia|done|done].
Qed.

Lemma storage_from_components_eq components ty :
  initial_offset ty + total_size components ≤ 255 →
  ∃ prefix, Z.of_nat (length prefix) = initial_offset ty ∧
    storage_from_components components ty =
      Ok (mkStorage (prefix ++ mjoin (comp_storage_slots <$> components))).
Proof.
  intros Hle. unfold storage_from_components.
  set (prefix := match ty with FungibleFaucet => [slot_empty_value]
    | NonFungibleFaucet => [slot_empty_map] | _ => [] end).
  assert (Z.of_nat (length prefix) = initial_offset ty) as Hp by (by destruct ty).
  exists prefix. split; [done|]. unfold storage_new, MAX_NUM_STORAGE_SLOTS.
  rewrite length_app, Nat2Z.inj_add, Hp, length_all_slots.
  destruct (Z.gtb_spec (initial_offset ty + total_size components) 255); [lia|done].
Qed.

(** ** Well-formed code *)

Definition valid_procedure (p : AccountProcedureInfo) : Prop :=
  0 ≤ storage_offset p ∧ 0 ≤ storage_size p ∧ storage_offset p + storage_size p ≤ 255 ∧
  (storage_size p = 0 → storage_offset p = 0).
Definition wf_code (c : AccountCode) : Prop :=
  1 ≤ Z.of_nat (length (procedures c)) ≤ MAX_NUM_PROCEDURES ∧
  Forall valid_procedure (procedures c) ∧
  code_commitment c = build_procedure_commitment (procedures c).

Lemma procedure_info_new_valid p :
  valid_procedure p → procedure_info_new (mast_root p) (storage_offset p) (storage_size p) = Ok p.
Proof.
  intros (? & ? & ? & ?). rewrite procedure_info_new_eq by done.
  destruct (Z.leb_spec (storage_offset p + storage_size p) 255); [|lia]. by destruct p.
Qed.

Lemma total_size_nonneg components : 0 ≤ total_size components.
Proof. rewrite <-length_all_slots. lia. Qed.

Lemma layout_bound offset components o c :
  (o, c) ∈ layout offset components → o + comp_size c ≤ offset + total_size components.
Proof.
  revert offset. induction components as [|d components IH]; intros offset; cbn [layout].
  { by intros ?%not_elem_of_nil. }
  cbn [total_size foldr]. fold (total_size components). pose proof (total_size_nonneg components).
  intros [E|Hin]%elem_of_cons; [simplify_eq; lia|]. apply IH in Hin. lia.
Qed.

Lemma elem_of_layout_procedures l p :
  p ∈ layout_procedures l ↔
  ∃ o c, (o, c) ∈ l ∧ mast_root p ∈ comp_roots c ∧
    storage_offset p = (if comp_size c =? 0 then 0 else o) ∧ storage_size p = comp_size c.
Proof.
  unfold layout_procedures. rewrite list_elem_of_join. split.
  - intros (ps & Hp & ([o c] & -> & Hin)%list_elem_of_fmap).
    unfold comp_procedures in Hp. apply list_elem_of_fmap in Hp as (r & -> & Hr). by exists o, c.
  - intros (o & c & Hin & Hr & Ho & Hs). exists (comp_procedures o c). split.
    + unfold comp_procedures. apply list_elem_of_fmap. exists (mast_root p). split; [|done].
      destruct p. cbn in *. by subst.
    + apply list_elem_of_fmap. by exists (o, c).
Qed.

Lemma layout_valid offset components :
  0 ≤ offset → offset + total_size components ≤ 255 →
  Forall valid_procedure (layout_procedures (layout offset components)).
Proof.
  intros H0 Hle. apply Forall_forall. intros p (o & c & Hin & _ & Ho & Hs)%elem_of_layout_procedures.
  pose proof (layout_bound _ _ _ _ Hin). pose proof (layout_offsets_ge _ _ _ _ Hin).
  unfold valid_procedure. rewrite Ho, Hs. assert (0 ≤ comp_size c) by (unfold comp_size; lia).
  destruct (Z.eqb_spec (comp_size c) 0); split_and!; lia.
Qed.

(** Building code and storage from components never panics, and the storage
    part cannot fail once the code has been built. *)
Theorem initialize_from_components_total ty components :
  Forall valid_component components →
  initialize_from_components ty components ≠ Panic ∧
  ∀ code, from_components_unchecked components ty = Ok code →
    ∃ storage, storage_from_components components ty = Ok storage.
Proof.
  intros Hall. pose proof (from_components_spec components ty Hall) as Hspec. split.
  - unfold initialize_from_components.
    assert (∀ i l, validate_components_from i l ty ≠ Panic) as Hv.
    { intros i l. revert i. induction l as [|c l IH]; intros i; cbn; [done|].
      by destruct (negb (supports_type c ty)). }
    specialize (Hv 0 components). unfold validate_components_support_account_type.
    destruct (validate_components_from 0 components ty); [|done..]. cbn [mbind res_bind].
    destruct (from_components_unchecked components ty) as [code| |]; [|done..].
    destruct Hspec as (_ & Hle & _).
    destruct (storage_from_components_eq components ty Hle) as (prefix & _ & E). cbn. by rewrite E.
  - intros code E. rewrite E in Hspec. destruct Hspec as (_ & Hle & _).
    destruct (storage_from_components_eq components ty Hle) as (prefix & _ & ->). eauto.
Qed.

(** C6. Component isolation: in code and storage built from components every
    exported procedure appears once, and its storage window is exactly the
    slots of the component that defines it, while the windows of different
    components do not overlap. *)
Theorem components_isolated ty components code storage :
  Forall valid_component components →
  initialize_from_components ty components = Ok (code, storage) →
  wf_code code ∧ wf_storage storage ∧
  mast_root <$> procedures code = mjoin (comp_roots <$> components) ∧ NoDup (mast_root <$> procedures code) ∧
  (∀ p, p ∈ procedures code → ∃ offset c,
     (offset, c) ∈ layout (initial_offset ty) components ∧ mast_root p ∈ comp_roots c ∧
     storage_size p = comp_size c ∧
     (storage_size p ≠ 0 → storage_offset p = offset) ∧
     take (Z.to_nat (storage_size p)) (drop (Z.to_nat offset) (slots storage)) = comp_storage_slots c) ∧
  (∀ i j oi ci oj cj, i ≠ j → layout (initial_offset ty) components !! i = Some (oi, ci) →
     layout (initial_offset ty) components !! j = Some (oj, cj) →
     oi + comp_size ci ≤ oj ∨ oj + comp_size cj ≤ oi).
Proof.
  intros Hall Hrun. pose proof (from_components_spec components ty Hall) as Hspec.
  unfold initialize_from_components in Hrun.
  destruct (validate_components_support_account_type components ty); [|discriminate..].
  cbn [mbind res_bind] in Hrun.
  destruct (from_components_unchecked components ty) as [code'| |] eqn:Ec; [|discriminate..].
  destruct Hspec as (Hp & Hle & ND & Hn & Hcom).
  destruct (storage_from_components_eq components ty Hle) as (prefix & Hpre & Es).
  rewrite Es in Hrun. injection Hrun as <- <-. pose proof (initial_offset_range ty).
  assert (mast_root <$> procedures code' = mjoin (comp_roots <$> components)) as Hroots.
  { rewrite Hp. apply layout_roots. }
  split_and!.
  - split; [done|]. split; [|done]. rewrite Hp. apply layout_valid; lia.
  - unfold wf_storage, MAX_NUM_STORAGE_SLOTS. cbn [slots].
    rewrite length_app, Nat2Z.inj_add, length_all_slots. lia.
  - done.
  - by rewrite Hroots.
  - intros p Hin. rewrite Hp in Hin. apply elem_of_layout_procedures in Hin as (o & c & Hin & Hr & Ho & Hs).
    exists o, c. split_and!; [done|done|done| |].
    + intros Hne. rewrite Ho. by destruct (Z.eqb_spec (comp_size c) 0); [congruence|].
    + cbn [slots]. rewrite Hs. unfold comp_size. rewrite Nat2Z.id.
      apply layout_slots. by rewrite Hpre.
  - intros i j oi ci oj cj Hne Hi Hj. destruct (decide (i < j)%nat).
    + left. by eapply (layout_disjoint _ _ i j).
    + right. eapply (layout_disjoint _ _ j i); [lia|done|done].
Qed.

(** ** Serialization *)

Section SerLaws.
  Context {B : ByteIO} {M : MastIO}.

#[export] Instance AccountProcedureInfo_serde : SerdeLaws AccountProcedureInfo valid_procedure.
Proof.
  split.
  - intros p rest Hp. pose proof Hp as (? & ? & ? & _).
    cbn [write_into read_from AccountProcedureInfo_ser AccountProcedureInfo_de].
    rewrite <-!app_assoc, (decodes_bind _ _ _ _ _ _ digest_decodes) by done.
    rewrite !read_u8_bind by lia. unfold reader_lift. by rewrite procedure_info_new_valid.
  - intros p _. cbn. by rewrite !length_app, length_write_digest, !length_write_u8.
Qed.

#[export] Instance AccountCode_serde : SerdeLaws AccountCode wf_code.
Proof.
  split.
  - intros c rest (Hn & Hall & Hcom). unfold MAX_NUM_PROCEDURES in Hn.
    unfold write_into at 1, read_from at 1, AccountCode_ser, AccountCode_de.
    rewrite <-!app_assoc, (decodes_bind _ _ _ _ _ _ mast_decodes) by done.
    unfold as_u8. rewrite Z.mod_small by lia. rewrite read_u8_bind by lia.
    rewrite (read_many_bind valid_procedure) by (done || apply serde_decodes || lia).
    unfold reader_lift, code_from_parts, MAX_NUM_PROCEDURES.
    destruct (Z.eqb_spec (Z.of_nat (length (procedures c))) 0); [lia|].
    destruct (Z.leb_spec (Z.of_nat (length (procedures c))) 256); [|lia].
    rewrite <-Hcom. by destruct c.
  - intros c (_ & Hall & _). unfold write_into at 1, get_size_hint at 1, AccountCode_ser.
    rewrite !length_app, length_write_u8, (sum_size valid_procedure) by done. lia.
Qed.
End SerLaws.

Lemma procedure_elements_roundtrip p :
  valid_procedure p → procedure_info_from_elements (procedure_info_to_elements p) = Ok p.
Proof.
  destruct p as [[a b c d] o n]. intros (? & ? & ? & _). cbn [storage_offset storage_size] in *.
  cbn [procedure_info_to_elements procedure_info_from_elements word_elements mast_root app w0 w1 w2 w3
       storage_offset storage_size].
  unfold felt_try_into_u8. rewrite !as_int_small by (unfold MODULUS; lia).
  rewrite !try_into_u8_small by lia. cbn [ok_or mbind res_bind].
  by rewrite !(bool_decide_eq_false_2 (ZERO ≠ ZERO)) by naive_solver.
Qed.

(** The eight elements that represent a procedure in kernel memory read back
    as the procedure, and code reads back from its serialization: 256
    procedures fit because the count is stored less one. *)
Theorem code_roundtrips {B : ByteIO} {M : MastIO} code rest :
  wf_code code →
  Forall (λ p, procedure_info_from_elements (procedure_info_to_elements p) = Ok p) (procedures code) ∧
  read_from (write_into code ++ rest) = Ok (code, rest) ∧
  length (write_into code) = get_size_hint code.
Proof.
  intros Hc. split_and!; [|by apply serde_decodes|by apply serde_size].
  destruct Hc as (_ & Hall & _). apply (Forall_impl _ _ _ Hall), procedure_elements_roundtrip.
Qed.
End Code.

(** ** Witnesses *)

#[local] Existing Instance Goldilocks.
#[local] Existing Instance ToyHasher.
#[local] Existing Instance MapTree.
#[local] Existing Instance CodeOrd.
#[local] Existing Instance PlainIO.

(** Libraries as the list of their procedures, first one apart; forests as the
    list of all the roots. *)
#[refine] Definition RootsAsm : AsmApi := {|
  Library := Digest * list Digest;
  MastForest := list Digest;
  mast_forest l := l.1 :: l.2;
  library_modules l := [l.1 :: l.2];
  mast_merge fs := Some (mjoin fs)
|}.
Proof. abstract done. Defined.
#[local] Existing Instance RootsAsm.

#[refine] Definition RootsIO : MastIO := {|
  write_mast := write_term write_digest; read_mast := read_term read_digest
|}.
Proof. exact (term_decodes _ _ digest_decodes). Defined.

Definition sample_component_1 : AccountComponent :=
  mkComponent (sample_word 11, []) [Value (sample_word 1)] [RegularAccountUpdatableCode; FungibleFaucet].
Definition sample_component_2 : AccountComponent :=
  mkComponent (sample_word 12, [sample_word 13]) [Value EMPTY_WORD; slot_empty_map]
    [RegularAccountUpdatableCode; FungibleFaucet].
Definition sample_components : list AccountComponent := [sample_component_1; sample_component_2].

Definition sample_procedures : list AccountProcedureInfo :=
  [mkProcedureInfo (sample_word 11) 1 1; mkProcedureInfo (sample_word 12) 2 2;
   mkProcedureInfo (sample_word 13) 2 2].
Definition sample_code : AccountCode :=
  mkCode [sample_word 11; sample_word 12; sample_word 13] sample_procedures
    (build_procedure_commitment sample_procedures).
Definition faucet_storage : AccountStorage :=
  mkStorage [slot_empty_value; Value (sample_word 1); Value EMPTY_WORD; slot_empty_map].

Lemma sample_components_valid : Forall valid_component sample_components.
Proof. repeat constructor. Qed.

Lemma sample_initialize :
  initialize_from_components FungibleFaucet sample_components = Ok (sample_code, faucet_storage).
Proof. reflexivity. Qed.

Lemma initialize_from_components_total_witness :
  initialize_from_components FungibleFaucet sample_components ≠ Panic.
Proof. apply (initialize_from_components_total FungibleFaucet sample_components sample_components_valid). Defined.

Lemma components_isolated_witness :
  wf_code sample_code ∧ wf_storage faucet_storage ∧ NoDup (mast_root <$> procedures sample_code).
Proof.
  destruct (components_isolated FungibleFaucet sample_components sample_code faucet_storage
    sample_components_valid sample_initialize) as (H1 & H2 & _ & H3 & _).
  split; [exact H1|]. split; [exact H2|exact H3].
Defined.

Lemma sample_code_wf : wf_code sample_code.
Proof.
  split; [split; apply Z.leb_le; reflexivity|]. split; [|reflexivity].
  repeat constructor; cbn [storage_offset storage_size]; lia.
Qed.

Lemma code_roundtrips_witness :
  read_from (Deserializable:=AccountCode_de (M:=RootsIO))
    (write_into (Serializable:=AccountCode_ser (M:=RootsIO)) sample_code ++ [7]) = Ok (sample_code, [7]).
Proof. apply (code_roundtrips (M:=RootsIO) sample_code [7] sample_code_wf). Defined.
