(* ===== verification/Account.v ===== *)
(** * Accounts

    Models objects/src/accounts/mod.rs, header.rs, delta/mod.rs, builder/mod.rs,
    auth.rs and data.rs: accounts, account deltas and account updates. *)

From S2P Require Import Prelude Felt Crypto Serde Types AccountId Assets VaultDelta Vault.
From S2P Require Import StorageDelta Storage Code.
Open Scope Z_scope.

Section Account.
  Context {F : FeltApi} {H : HasherApi} {S : SmtApi} {D : DigestOrd} {A : AsmApi}.

(** ** Account deltas *)

Record AccountDelta : Type := mkAccountDelta {
  ad_storage : AccountStorageDelta;
  ad_vault : AccountVaultDelta;
  ad_nonce : option felt
}.

(** [validate_nonce] *)
Definition validate_nonce (nonce : option felt) (storage : AccountStorageDelta) (vault : AccountVaultDelta)
    : res AccountDeltaError unit :=
  if negb (storage_delta_is_empty storage) || negb (vault_delta_is_empty vault) then
    match nonce with
    | Some nonce => if decide (nonce = ZERO) then Err InconsistentNonceUpdate else Ok tt
    | None => Err InconsistentNonceUpdate
    end
  else Ok tt.

Definition account_delta_new (storage : AccountStorageDelta) (vault : AccountVaultDelta) (nonce : option felt)
    : res AccountDeltaError AccountDelta :=
  validate_nonce nonce storage vault ;; Ok (mkAccountDelta storage vault nonce).

Definition set_ad_storage s (d : AccountDelta) := mkAccountDelta s (ad_vault d) (ad_nonce d).
Definition set_ad_vault v (d : AccountDelta) := mkAccountDelta (ad_storage d) v (ad_nonce d).
Definition set_ad_nonce n (d : AccountDelta) := mkAccountDelta (ad_storage d) (ad_vault d) n.

(** The nonce part of [AccountDelta::merge]: [None] when the new nonce does not
    grow, and otherwise [new.or(old)]. *)
Definition merge_nonce (old new : option felt) : option (option felt) :=
  match old, new with
  | Some o, Some n => if as_int n <=? as_int o then None else Some new
  | _, Some _ => Some new
  | _, None => Some old
  end.

Definition account_delta_merge (other : AccountDelta) : mut AccountDelta AccountDeltaError unit :=
  self ← get_self;
  match merge_nonce (ad_nonce self) (ad_nonce other) with
  | None => lift (Err InconsistentNonceUpdate)
  | Some nonce => put_self (set_ad_nonce nonce self)
  end ;;
  on_field ad_storage set_ad_storage (storage_delta_merge (ad_storage other)) ;;
  on_field ad_vault set_ad_vault (vault_delta_merge (ad_vault other)).

Definition account_delta_is_empty (d : AccountDelta) : bool :=
  storage_delta_is_empty (ad_storage d) && vault_delta_is_empty (ad_vault d).

(** ** Accounts *)

Record Account : Type := mkAccount {
  acct_id : AccountId;
  acct_vault : AssetVault;
  acct_storage : AccountStorage;
  acct_code : AccountCode;
  acct_nonce : felt
}.

(** [Account::new] *)
Definition account_new (seed : Word) (code : AccountCode) (storage : AccountStorage)
    : res AccountError Account :=
  id ← account_id_new seed (code_commitment code) (storage_commitment storage);
  Ok (mkAccount id vault_default storage code ZERO).

(** [hash_account]: elements 1 and 2 stay zero. *)
Definition hash_account (id : AccountId) (nonce : felt) (vault_root storage_com code_com : Digest) : Digest :=
  hash_elements ([id_felt id; ZERO; ZERO; nonce] ++ word_elements vault_root ++
    word_elements storage_com ++ word_elements code_com).

Definition account_hash (a : Account) : Digest :=
  hash_account (acct_id a) (acct_nonce a) (vault_commitment (acct_vault a))
    (storage_commitment (acct_storage a)) (code_commitment (acct_code a)).

Definition account_is_new (a : Account) : bool := bool_decide (acct_nonce a = ZERO).

Definition account_init_hash (a : Account) : Digest :=
  if account_is_new a then EMPTY_WORD else account_hash a.

Definition set_acct_vault v (a : Account) :=
  mkAccount (acct_id a) v (acct_storage a) (acct_code a) (acct_nonce a).
Definition set_acct_storage s (a : Account) :=
  mkAccount (acct_id a) (acct_vault a) s (acct_code a) (acct_nonce a).
Definition set_acct_nonce n (a : Account) :=
  mkAccount (acct_id a) (acct_vault a) (acct_storage a) (acct_code a) n.

Definition set_nonce (nonce : felt) : mut Account AccountError unit := λ self,
  if as_int nonce <=? as_int (acct_nonce self)
  then (Err (NonceNotMonotonicallyIncreasing (as_int (acct_nonce self)) (as_int nonce)), self)
  else (Ok tt, set_acct_nonce nonce self).

(** [Account::apply_delta]: vault, storage, nonce, stopping at the first error. *)
Definition account_apply_delta (delta : AccountDelta) : mut Account AccountError unit :=
  on_field acct_vault set_acct_vault
    (mut_map_err AssetVaultUpdateError (vault_apply_delta (ad_vault delta))) ;;
  on_field acct_storage set_acct_storage (storage_apply_delta (ad_storage delta)) ;;
  match ad_nonce delta with
  | Some nonce => set_nonce nonce
  | None => mret tt
  end.

(** ** Headers *)

Record AccountHeader : Type := mkAccountHeader {
  ah_id : AccountId;
  ah_nonce : felt;
  ah_vault_root : Digest;
  ah_storage_commitment : Digest;
  ah_code_commitment : Digest
}.
Definition account_header_hash (h : AccountHeader) : Digest :=
  hash_account (ah_id h) (ah_nonce h) (ah_vault_root h) (ah_storage_commitment h) (ah_code_commitment h).
Definition account_header_from (a : Account) : AccountHeader :=
  mkAccountHeader (acct_id a) (acct_nonce a) (vault_commitment (acct_vault a))
    (storage_commitment (acct_storage a)) (code_commitment (acct_code a)).

(** ** Account updates *)

Inductive AccountUpdateDetails : Type :=
  | PrivateUpdate
  | NewUpdate (account : Account)
  | DeltaUpdate (delta : AccountDelta).

Definition update_is_private (u : AccountUpdateDetails) : bool :=
  match u with PrivateUpdate => true | _ => false end.

(** [AccountUpdateDetails::merge]. A panic of [apply_delta] is a panic of the
    merge. *)
Definition update_merge (self other : AccountUpdateDetails) : res AccountDeltaError AccountUpdateDetails :=
  match self, other with
  | PrivateUpdate, PrivateUpdate => Ok PrivateUpdate
  | NewUpdate account, DeltaUpdate delta =>
      let '(r, account) := account_apply_delta delta account in
      map_err (λ _, IncompatibleAccountUpdates) r ;; Ok (NewUpdate account)
  | DeltaUpdate delta, DeltaUpdate new_delta =>
      let '(r, delta) := account_delta_merge new_delta delta in
      r ;; Ok (DeltaUpdate delta)
  | _, _ => Err IncompatibleAccountUpdates
  end.

(** ** The account builder (without the testing feature) *)

Record AccountBuilder : Type := mkBuilder {
  b_nonce : felt;
  b_components : list AccountComponent;
  b_account_type : AccountType;
  b_storage_mode : AccountStorageMode;
  b_init_seed : option (list Z)
}.

Definition builder_new : AccountBuilder :=
  mkBuilder ZERO [] RegularAccountUpdatableCode Private None.
Definition builder_init_seed (seed : list Z) (b : AccountBuilder) : AccountBuilder :=
  mkBuilder (b_nonce b) (b_components b) (b_account_type b) (b_storage_mode b) (Some seed).
Definition builder_account_type (ty : AccountType) (b : AccountBuilder) : AccountBuilder :=
  mkBuilder (b_nonce b) (b_components b) ty (b_storage_mode b) (b_init_seed b).
Definition builder_storage_mode (mode : AccountStorageMode) (b : AccountBuilder) : AccountBuilder :=
  mkBuilder (b_nonce b) (b_components b) (b_account_type b) mode (b_init_seed b).
Definition builder_with_component (c : AccountComponent) (b : AccountBuilder) : AccountBuilder :=
  mkBuilder (b_nonce b) (b_components b ++ [c]) (b_account_type b) (b_storage_mode b) (b_init_seed b).

Definition build_inner (b : AccountBuilder)
    : res AccountError (list Z * AssetVault * AccountCode * AccountStorage) :=
  init_seed ← ok_or (BuildError None) (b_init_seed b);
  let vault := vault_default in
  cs ← map_err (λ e, BuildError (Some e)) (initialize_from_components (b_account_type b) (b_components b));
  Ok (init_seed, vault, cs.1, cs.2).

(** The seed search needs fuel; [None] is a search that has not ended. *)
Definition grind_account_id (fuel : nat) (b : AccountBuilder) (init_seed : list Z) (code storage : Digest)
    : option (res AccountError (AccountId * Word)) :=
  r ← get_account_seed_single fuel init_seed (b_account_type b) (b_storage_mode b) code storage;
  Some (seed ← map_err (λ e, BuildError (Some e)) r;
        account_id ← expect_ok (account_id_new seed code storage);
        Ok (account_id, seed)).

(** [AccountBuilder::build], with its debug assertions. *)
Definition build (fuel : nat) (b : AccountBuilder) : option (res AccountError (Account * Word)) :=
  match build_inner b with
  | Ok (init_seed, vault, code, storage) =>
      r ← grind_account_id fuel b init_seed (code_commitment code) (storage_commitment storage);
      Some (x ← r;
            mode ← storage_mode x.1;
            if bool_decide (account_type x.1 = b_account_type b) && bool_decide (mode = b_storage_mode b)
            then Ok (mkAccount x.1 vault storage code (b_nonce b), x.2)
            else Panic)
  | Err e => Some (Err e)
  | Panic => Some Panic
  end.

(** ** Serialization *)

Section Ser.
  Context {B : ByteIO} {SI : SmtIO} {M : MastIO}.

#[export] Instance AccountDelta_ser : Serializable AccountDelta := {|
  write_into d := write_into (ad_storage d) ++ write_into (ad_vault d) ++ write_option write_into (ad_nonce d);
  get_size_hint d := (get_size_hint (ad_storage d) + get_size_hint (ad_vault d) +
    (1 + from_option get_size_hint 0 (ad_nonce d)))%nat
|}.
#[export] Instance AccountDelta_de : Deserializable AccountDelta := {|
  read_from :=
    storage ← read_from (A:=AccountStorageDelta);
    vault ← read_from (A:=AccountVaultDelta);
    nonce ← read_option read_from;
    reader_lift (validate_nonce nonce storage vault) ;;
    mret (mkAccountDelta storage vault nonce)
|}.

#[export] Instance Account_ser : Serializable Account := {|
  write_into a := write_into (acct_id a) ++ write_into (acct_vault a) ++ write_into (acct_storage a) ++
    write_into (acct_code a) ++ write_into (acct_nonce a);
  get_size_hint a := (get_size_hint (acct_id a) + get_size_hint (acct_vault a) +
    get_size_hint (acct_storage a) + get_size_hint (acct_code a) + get_size_hint (acct_nonce a))%nat
|}.
#[export] Instance Account_de : Deserializable Account := {|
  read_from :=
    id ← read_from (A:=AccountId);
    vault ← read_from (A:=AssetVault);
    storage ← read_from (A:=AccountStorage);
    code ← read_from (A:=AccountCode);
    nonce ← read_from (A:=felt);
    mret (mkAccount id vault storage code nonce)
|}.

#[export] Instance AccountUpdateDetails_ser : Serializable AccountUpdateDetails := {|
  write_into u :=
    match u with
    | PrivateUpdate => write_u8 0
    | NewUpdate account => write_u8 1 ++ write_into account
    | DeltaUpdate delta => write_u8 2 ++ write_into delta
    end;
  get_size_hint u :=
    match u with
    | PrivateUpdate => 1
    | NewUpdate account => 1 + get_size_hint account
    | DeltaUpdate account_delta => 1 + get_size_hint account_delta
    end%nat
|}.
#[export] Instance AccountUpdateDetails_de : Deserializable AccountUpdateDetails := {|
  read_from :=
    v ← read_u8;
    match v with
    | 0 => mret (M:=reader) PrivateUpdate
    | 1 => account ← read_from (A:=Account); mret (NewUpdate account)
    | 2 => delta ← read_from (A:=AccountDelta); mret (DeltaUpdate delta)
    | _ => λ _, Err InvalidValue
    end
|}.
End Ser.

(** ** Inversion of the composed operations *)

(** The nonce after a delta; [None] is a nonce that does not grow. *)
Definition nonce_after (nonce : option felt) (old : felt) : option felt :=
  match nonce with
  | None => Some old
  | Some n => if as_int n <=? as_int old then None else Some n
  end.

Lemma account_apply_Ok d a a' :
  account_apply_delta d a = (Ok tt, a') ↔
  ∃ v s n, vault_apply_delta (ad_vault d) (acct_vault a) = (Ok tt, v) ∧
    storage_apply_delta (ad_storage d) (acct_storage a) = (Ok tt, s) ∧
    nonce_after (ad_nonce d) (acct_nonce a) = Some n ∧
    a' = mkAccount (acct_id a) v s (acct_code a) n.
Proof.
  unfold account_apply_delta, on_field, mut_map_err, mbind, mut_bind.
  destruct (vault_apply_delta (ad_vault d) (acct_vault a)) as [[[]|e|] v] eqn:Ev; cbn [map_err];
    [|split; [discriminate|naive_solver]..].
  cbn [set_acct_vault acct_storage].
  destruct (storage_apply_delta (ad_storage d) (acct_storage a)) as [[[]|e|] s] eqn:Es;
    [|split; [discriminate|naive_solver]..].
  unfold nonce_after, set_nonce.
  destruct (ad_nonce d) as [n|]; cbn [set_acct_storage set_acct_vault acct_nonce];
    [destruct (as_int n <=? as_int (acct_nonce a))|].
  - split; [discriminate|naive_solver].
  - split; [intros [= <-]; naive_solver|]. intros (v' & s' & n' & [= <-] & [= <-] & [= <-] & ->). done.
  - split; [intros [= <-]; naive_solver|]. intros (v' & s' & n' & [= <-] & [= <-] & [= <-] & ->). done.
Qed.

Lemma account_delta_merge_Ok o d m :
  account_delta_merge o d = (Ok tt, m) ↔
  ∃ n s v, merge_nonce (ad_nonce d) (ad_nonce o) = Some n ∧
    storage_delta_merge (ad_storage o) (ad_storage d) = (Ok tt, s) ∧
    vault_delta_merge (ad_vault o) (ad_vault d) = (Ok tt, v) ∧ m = mkAccountDelta s v n.
Proof.
  unfold account_delta_merge, on_field, get_self, put_self, lift, mbind, mut_bind.
  destruct (merge_nonce (ad_nonce d) (ad_nonce o)) as [n|]; [|split; [discriminate|naive_solver]].
  cbn [set_ad_nonce ad_storage].
  destruct (storage_delta_merge (ad_storage o) (ad_storage d)) as [[[]|e|] s] eqn:Es;
    [|split; [discriminate|naive_solver]..].
  cbn [set_ad_storage set_ad_nonce ad_vault ad_nonce].
  destruct (vault_delta_merge (ad_vault o) (ad_vault d)) as [[[]|e|] v] eqn:Ev;
    [|split; [discriminate|naive_solver]..].
  split; [intros [= <-]; naive_solver|]. intros (n' & s' & v' & [= <-] & [= <-] & [= <-] & ->). done.
Qed.

Lemma nonce_compose n1 n2 old mid new :
  nonce_after n1 old = Some mid → nonce_after n2 mid = Some new →
  ∃ n, merge_nonce n1 n2 = Some n ∧ nonce_after n old = Some new.
Proof.
  unfold nonce_after, merge_nonce. destruct n1 as [x|], n2 as [y|]; intros H1 H2.
  - destruct (Z.leb_spec (as_int x) (as_int old)); [done|]. injection H1 as <-.
    destruct (Z.leb_spec (as_int y) (as_int x)); [done|]. injection H2 as <-.
    exists (Some y). split; [done|]. cbv beta iota. by destruct (Z.leb_spec (as_int y) (as_int old)); [lia|].
  - injection H2 as <-. eauto.
  - injection H1 as <-. eauto.
  - simplify_eq. eauto.
Qed.

(** ** Accounts up to the contents of their trees *)

Definition account_equiv (a a' : Account) : Prop :=
  acct_id a = acct_id a' ∧ vault_equiv (acct_vault a) (acct_vault a') ∧
  storage_equiv (acct_storage a) (acct_storage a') ∧ acct_code a = acct_code a' ∧
  acct_nonce a = acct_nonce a'.

#[export] Instance account_hash_proper : Proper (account_equiv ==> (=)) account_hash.
Proof.
  intros a a' (E1 & E2 & E3 & E4 & E5). unfold account_hash. rewrite E1, E4, E5.
  f_equal; [by apply vault_commitment_proper|by apply storage_commitment_proper].
Qed.

(** Accounts that agree in everything but the code and the entries of amount zero
    in their vaults. *)
Definition account_agree (a a' : Account) : Prop :=
  acct_id a = acct_id a' ∧ vault_same (acct_vault a) (acct_vault a') ∧
  storage_equiv (acct_storage a) (acct_storage a') ∧ acct_nonce a = acct_nonce a'.

Lemma account_agree_equiv a a' :
  wf_vault (acct_vault a) → wf_vault (acct_vault a') → positive_vault (acct_vault a) → positive_vault (acct_vault a') →
  account_agree a a' → acct_code a = acct_code a' → account_equiv a a'.
Proof. intros Hv Hv' Hp Hp' (E1 & E2 & E3 & E4) Ec. split_and!; [done| |done..]. by apply vault_same_equiv. Qed.

(** ** Validity *)

Definition valid_account_delta (d : AccountDelta) : Prop :=
  valid_storage_delta (ad_storage d) ∧ valid_vault_delta (ad_vault d) ∧
  validate_nonce (ad_nonce d) (ad_storage d) (ad_vault d) = Ok tt.

(** The delta has no entry of amount zero. *)
Definition no_zero_account (d : AccountDelta) : Prop := no_zero_delta (vd_fungible (ad_vault d)).

Definition wf_account (a : Account) : Prop :=
  valid_id (acct_id a) ∧ wf_vault (acct_vault a) ∧ wf_storage (acct_storage a) ∧ wf_code (acct_code a).

Lemma validate_nonce_Ok nonce storage vault :
  validate_nonce nonce storage vault = Ok tt ↔
  (storage = storage_delta_default ∧ vault = vault_delta_default) ∨ (∃ n, nonce = Some n ∧ n ≠ ZERO).
Proof.
  assert (storage_delta_is_empty storage = true ↔ storage = storage_delta_default) as Hs.
  { unfold storage_delta_is_empty. rewrite andb_true_iff, !bool_decide_eq_true.
    destruct storage as [x y]. cbn. unfold storage_delta_default. naive_solver. }
  assert (vault_delta_is_empty vault = true ↔ vault = vault_delta_default) as Hv.
  { unfold vault_delta_is_empty, fungible_delta_is_empty, nf_delta_is_empty.
    rewrite andb_true_iff, !bool_decide_eq_true.
    destruct vault as [x y]. cbn. unfold vault_delta_default. naive_solver. }
  rewrite <-Hs, <-Hv. unfold validate_nonce.
  destruct (storage_delta_is_empty storage), (vault_delta_is_empty vault); cbn;
    destruct nonce as [n|]; try case_decide; naive_solver.
Qed.

(** Merging valid account deltas gives a valid account delta: the nonce
    requirement of the constructor survives, and the nonce of the newer delta
    wins and must have grown. *)
Theorem account_delta_merge_valid d o m :
  valid_account_delta d → valid_account_delta o → account_delta_merge o d = (Ok tt, m) →
  valid_account_delta m ∧ (no_zero_account d → no_zero_account o → no_zero_account m) ∧
  (∀ n, ad_nonce o = Some n → ad_nonce m = Some n ∧ ∀ n', ad_nonce d = Some n' → as_int n' < as_int n) ∧
  (ad_nonce o = None → ad_nonce m = ad_nonce d).
Proof.
  intros (Ds & Dv & Dn) (Os & Ov & On) (n & s & v & Hn & Hs & Hv & ->)%account_delta_merge_Ok.
  cbn [ad_nonce]. destruct (merged_delta_valid _ _ _ Dv Ov Hv) as [Vv Vz].
  split; [|split; [exact Vz|split]].
  - unfold valid_account_delta. cbn. split_and!; [|done|].
    + rewrite storage_delta_merge_eq in Hs. injection Hs as Hval <-.
      destruct (merged_storage_bounds _ _ Os Ds). split_and!; [done|done|]. by apply storage_delta_validate_Ok.
    + apply validate_nonce_Ok in Dn, On. apply validate_nonce_Ok. unfold merge_nonce in Hn.
      destruct On as [[Eos Eov]|(x & Ex & Hx)]; [destruct Dn as [[Eds Edv]|(y & Ey & Hy)]|].
      * left. rewrite Eos, Eds in Hs. rewrite Eov, Edv in Hv. cbn in Hs, Hv.
        injection Hs as <-. injection Hv as <-. done.
      * right. rewrite Ey in Hn. destruct (ad_nonce o) as [x|]; [|by simplify_eq; eauto].
        destruct (Z.leb_spec (as_int x) (as_int y)); [done|]. injection Hn as <-. exists x. split; [done|].
        intros ->. rewrite as_int_ZERO in *. pose proof (as_int_range y). lia.
      * right. rewrite Ex in Hn. exists x. split; [|done].
        destruct (ad_nonce d); [destruct (_ <=? _)|]; by simplify_eq.
  - intros x Ex. rewrite Ex in Hn. unfold merge_nonce in Hn. destruct (ad_nonce d) as [y|]; [|naive_solver].
    destruct (Z.leb_spec (as_int x) (as_int y)); [done|]. injection Hn as <-. naive_solver.
  - intros Eo. rewrite Eo in Hn. unfold merge_nonce in Hn. destruct (ad_nonce d); naive_solver.
Qed.

Lemma account_apply_compose a a1 a2 d1 d2 :
  wf_vault (acct_vault a) → valid_account_delta d1 → valid_account_delta d2 →
  account_apply_delta d1 a = (Ok tt, a1) → account_apply_delta d2 a1 = (Ok tt, a2) →
  ∃ d a', account_delta_merge d2 d1 = (Ok tt, d) ∧ account_apply_delta d a = (Ok tt, a') ∧
    account_agree a' a2 ∧ acct_code a' = acct_code a2 ∧
    (positive_vault (acct_vault a) → no_zero_account d1 → no_zero_account d2 → account_equiv a' a2).
Proof.
  intros Hv (D1s & D1v & _) (D2s & D2v & _).
  intros (v1 & s1 & n1 & V1 & S1 & N1 & ->)%account_apply_Ok (v2 & s2 & n2 & V2 & S2 & N2 & ->)%account_apply_Ok.
  cbn [acct_vault acct_storage acct_nonce acct_id acct_code] in *.
  destruct (vault_apply_compose_same _ _ _ _ _ Hv D1v D2v V1 V2) as (dv & v' & Mv & Av & Ev).
  destruct (storage_apply_compose _ _ (acct_storage a) D1s D2s) as [Hcomp _].
  destruct (Hcomp _ _ S1 S2) as (ds & s' & Ms & As & Es & _).
  destruct (nonce_compose _ _ _ _ _ N1 N2) as (n & Mn & An).
  exists (mkAccountDelta ds dv n), (mkAccount (acct_id a) v' s' (acct_code a) n2). split_and!.
  - apply account_delta_merge_Ok. by exists n, ds, dv.
  - apply account_apply_Ok. by exists v', s', n2.
  - by split_and!.
  - done.
  - intros Hp Z1 Z2. destruct (vault_apply_compose _ _ _ _ _ Hv Hp D1v D2v Z1 Z2 V1 V2) as (dv' & v0 & Mv' & Av' & Ev' & _).
    assert (dv' = dv) as -> by congruence. assert (v0 = v') as -> by congruence. by split_and!.
Qed.

(** C4. Account deltas compose: when applying [d1] and then [d2] to an account with
    a well-formed vault succeeds, the deltas merge, the merged delta applies, and
    the account it gives has the same id, code, nonce, storage, balances and
    non-fungible assets. Entries of amount zero in the vault, which the code
    accepts, can differ; when neither the vault nor the deltas have one, the two
    accounts have the same contents and the same hash. *)
Theorem account_apply_merge a a1 a2 d1 d2 :
  wf_vault (acct_vault a) → valid_account_delta d1 → valid_account_delta d2 →
  account_apply_delta d1 a = (Ok tt, a1) → account_apply_delta d2 a1 = (Ok tt, a2) →
  ∃ d a', account_delta_merge d2 d1 = (Ok tt, d) ∧ account_apply_delta d a = (Ok tt, a') ∧
    account_agree a' a2 ∧ acct_code a' = acct_code a2 ∧
    (positive_vault (acct_vault a) → no_zero_account d1 → no_zero_account d2 →
     account_equiv a' a2 ∧ account_hash a' = account_hash a2).
Proof.
  intros Hv H1 H2 A1 A2.
  destruct (account_apply_compose a a1 a2 d1 d2 Hv H1 H2 A1 A2) as (d & a' & Hm & Ha & Hg & Hc & He).
  exists d, a'. split_and!; [done..|]. intros Hp Z1 Z2. split; [by apply He|]. by apply account_hash_proper, He.
Qed.

(** Updates up to the contents of a new account. *)
Definition update_equiv (u u' : AccountUpdateDetails) : Prop :=
  match u, u' with
  | NewUpdate a, NewUpdate a' => account_equiv a a' ∧ account_hash a = account_hash a'
  | _, _ => u = u'
  end.

(** Merging the updates of an account does not depend on the grouping: when
    a new account followed by two deltas merges from the left, the two deltas
    merge with each other and the result merges with the account to the same
    state. *)
Theorem update_merge_assoc a d1 d2 u1 u2 :
  wf_vault (acct_vault a) → positive_vault (acct_vault a) →
  valid_account_delta d1 → valid_account_delta d2 → no_zero_account d1 → no_zero_account d2 →
  update_merge (NewUpdate a) (DeltaUpdate d1) = Ok u1 → update_merge u1 (DeltaUpdate d2) = Ok u2 →
  ∃ u12 u, update_merge (DeltaUpdate d1) (DeltaUpdate d2) = Ok u12 ∧
    update_merge (NewUpdate a) u12 = Ok u ∧ update_equiv u u2.
Proof.
  intros Hv Hp H1 H2 Z1 Z2. cbn [update_merge].
  destruct (account_apply_delta d1 a) as [[[]|e|] a1] eqn:A1; [|discriminate..]. intros [= <-].
  cbn [update_merge]. destruct (account_apply_delta d2 a1) as [[[]|e|] a2] eqn:A2; [|discriminate..].
  intros [= <-]. destruct (account_apply_compose a a1 a2 d1 d2 Hv H1 H2 A1 A2) as (d & a' & Hm & Ha & _ & _ & He).
  specialize (He Hp Z1 Z2). exists (DeltaUpdate d), (NewUpdate a'). rewrite Hm. cbn [update_merge]. rewrite Ha.
  split; [done|]. split; [done|]. split; [done|]. by apply account_hash_proper.
Qed.

(** Applying a delta never lowers the nonce and never changes the id or the
    code; a delta with a nonce sets exactly that nonce, which must have grown;
    a well-formed account stays well formed. *)
Theorem account_apply_delta_nonce d a a' :
  wf_account a → valid_account_delta d → account_apply_delta d a = (Ok tt, a') →
  wf_account a' ∧ acct_id a' = acct_id a ∧ acct_code a' = acct_code a ∧
  as_int (acct_nonce a) ≤ as_int (acct_nonce a') ∧
  (∀ n, ad_nonce d = Some n → acct_nonce a' = n ∧ as_int (acct_nonce a) < as_int n).
Proof.
  intros (Hid & Hv & Hs & Hc) (Ds & Dv & _) (v & s & n & Av & As & An & ->)%account_apply_Ok.
  cbn [acct_id acct_code acct_nonce]. unfold nonce_after in An. split_and!; [|done|done|..].
  - split_and!; [done| | |done]; cbn.
    + pose proof (vault_apply_delta_no_min _ _ _ Av) as Hmin.
      destruct (vault_apply_delta_total _ _ Hv Dv Hmin) as [_ Hw]. by rewrite Av in Hw.
    + destruct (storage_apply_Ok _ _ _ Ds As) as (_ & Hlen & _). unfold wf_storage in *. by rewrite Hlen.
  - destruct (ad_nonce d) as [m|]; [destruct (Z.leb_spec (as_int m) (as_int (acct_nonce a)))|];
      simplify_eq; lia.
  - intros m Hm. rewrite Hm in An. destruct (Z.leb_spec (as_int m) (as_int (acct_nonce a))); [done|].
    by injection An as <-.
Qed.

(** ** The builder *)

Lemma grind_account_id_sound fuel b init code storage r :
  grind_account_id fuel b init code storage = Some r →
  ∃ id seed, r = Ok (id, seed) ∧ account_id_new seed code storage = Ok id ∧ valid_id id ∧
    account_type id = b_account_type b ∧ storage_mode (E:=AccountError) id = Ok (b_storage_mode b).
Proof.
  unfold grind_account_id.
  destruct (get_account_seed_single _ _ _ _ _ _) as [r'|] eqn:E; [|done]. cbn [mbind option_bind].
  assert (∃ seed, r' = Ok seed) as [seed ->].
  { revert E. unfold get_account_seed_single. generalize (init_seed_word init).
    induction fuel as [|fuel IH]; intros w; cbn [seed_loop]; [done|].
    destruct (seed_matches_total (compute_digest w code storage) (b_account_type b) (b_storage_mode b))
      as [[] ->]; [intros [= <-]; eauto|apply IH]. }
  unfold get_account_seed_single in E. apply seed_loop_sound in E as (n & _ & -> & Hm).
  destruct (seed_matches_new _ _ _ _ _ Hm) as (id & Hid & Hty & Hmode).
  cbn [map_err mbind res_bind]. rewrite Hid. cbn [expect_ok mbind res_bind]. intros [= <-].
  eexists _, _. split; [done|]. split; [done|]. split_and!; [|done|done].
  by apply account_id_new_inv in Hid as [_ Hid%account_id_from_felt_valid].
Qed.

(** Components initialize to well-formed code and storage. *)
Lemma initialize_wf ty components : Forall valid_component components →
  match initialize_from_components ty components with
  | Ok (code, storage) => wf_code code ∧ wf_storage storage
  | Err _ => True
  | Panic => False
  end.
Proof.
  intros Hall. pose proof (from_components_spec components ty Hall) as Hspec. unfold initialize_from_components.
  assert (∀ i l ty, validate_components_from i l ty ≠ Panic) as Hv.
  { intros i l ty'. revert i. induction l as [|c l IH]; intros i; cbn; [done|]. by destruct (negb _). }
  specialize (Hv 0 components ty). unfold validate_components_support_account_type.
  destruct (validate_components_from 0 _ _); cbn [mbind res_bind]; [|done|done].
  destruct (from_components_unchecked components ty) as [code|e|]; cbn [mbind res_bind]; [|done|done].
  destruct Hspec as (Hp & Hle & _ & Hn & Hcom).
  destruct (storage_from_components_eq _ _ Hle) as (prefix & Hpre & ->). cbn [mbind res_bind].
  pose proof (initial_offset_range ty). split.
  - split; [done|]. split; [|done]. rewrite Hp. apply layout_valid; lia.
  - unfold wf_storage, MAX_NUM_STORAGE_SLOTS. cbn [slots]. rewrite length_app, Nat2Z.inj_add, length_all_slots. lia.
Qed.

(** What a finished build returns. *)
Lemma build_result fuel b r :
  Forall valid_component (b_components b) → b_nonce b = ZERO → build fuel b = Some r →
  match r with
  | Ok (a, seed) =>
      account_new seed (acct_code a) (acct_storage a) = Ok a ∧ account_is_new a = true ∧
      wf_account a ∧ account_type (acct_id a) = b_account_type b ∧
      storage_mode (E:=AccountError) (acct_id a) = Ok (b_storage_mode b)
  | Err (BuildError _) => True
  | _ => False
  end.
Proof.
  intros Hall Hnonce. unfold build, build_inner.
  destruct (b_init_seed b) as [init|]; cbn [ok_or mbind res_bind]; [|intros [= <-]; done].
  pose proof (initialize_wf (b_account_type b) (b_components b) Hall) as Hwf.
  destruct (initialize_from_components _ _) as [[code storage]|e|]; cbn [map_err mbind res_bind fst snd]; [|intros [= <-]; done|done].
  destruct Hwf as [Hwc Hws]. destruct (grind_account_id _ _ _ _ _) as [r'|] eqn:Eg; [|done].
  destruct (grind_account_id_sound _ _ _ _ _ _ Eg) as (id & seed & -> & Hid & Hvalid & Hty & Hmode).
  cbn [mbind option_bind res_bind fst snd]. rewrite Hmode. cbn [mbind res_bind].
  rewrite !bool_decide_eq_true_2 by done. cbn [andb]. intros [= <-]. cbn [acct_code acct_storage acct_id].
  split; [|split; [|split; [|done]]].
  - unfold account_new. rewrite Hid. cbn [mbind res_bind]. by rewrite Hnonce.
  - unfold account_is_new. cbn [acct_nonce]. by apply bool_decide_eq_true.
  - split; [exact Hvalid|]. split; [intros k; left; apply smt_get_new|]. by split.
Qed.

(** The search of the builder ends where the chain of digests matches. *)
Lemma build_returns fuel b init vault code storage n :
  build_inner b = Ok (init, vault, code, storage) →
  let c := code_commitment code in
  let s := storage_commitment storage in
  seed_matches (compute_digest (nth_seed c s (init_seed_word init) n) c s)
    (b_account_type b) (b_storage_mode b) = Ok true →
  (n < fuel)%nat → is_Some (build fuel b).
Proof.
  intros Hb c s Hm Hn. unfold build. rewrite Hb. unfold grind_account_id, get_account_seed_single.
  destruct (seed_loop_complete fuel (b_account_type b) (b_storage_mode b) c s (init_seed_word init) n Hn Hm)
    as [seed Hs]. fold c s. rewrite Hs. by eexists.
Qed.

(** C20. The builder never panics (its internal expectations and debug assertions
    hold). An account it builds is well formed and new: it has an empty vault,
    nonce zero when none was set, the requested type and storage mode, and the
    id that [Account::new] derives from the returned seed. It returns as soon
    as the chain of seed digests reaches one that matches. *)
Theorem build_sound fuel b :
  Forall valid_component (b_components b) → b_nonce b = ZERO →
  (∀ r, build fuel b = Some r →
   match r with
   | Ok (a, seed) =>
       account_new seed (acct_code a) (acct_storage a) = Ok a ∧ account_is_new a = true ∧
       wf_account a ∧ account_type (acct_id a) = b_account_type b ∧
       storage_mode (E:=AccountError) (acct_id a) = Ok (b_storage_mode b)
   | Err (BuildError _) => True
   | _ => False
   end) ∧
  (∀ init vault code storage n,
   build_inner b = Ok (init, vault, code, storage) →
   let c := code_commitment code in
   let s := storage_commitment storage in
   seed_matches (compute_digest (nth_seed c s (init_seed_word init) n) c s)
     (b_account_type b) (b_storage_mode b) = Ok true →
   (n < fuel)%nat → is_Some (build fuel b)).
Proof.
  intros Hall Hnonce. split.
  - intros r. by apply build_result.
  - intros init vault code storage n. apply build_returns.
Qed.

(** ** Serialization *)

Section SerLaws.
  Context {B : ByteIO} {SI : SmtIO} {M : MastIO}.

Definition wf_account_delta (d : AccountDelta) : Prop :=
  wf_storage_delta (ad_storage d) ∧ wf_vault_delta (ad_vault d) ∧
  validate_nonce (ad_nonce d) (ad_storage d) (ad_vault d) = Ok tt.

#[export] Instance AccountDelta_serde : SerdeLaws AccountDelta wf_account_delta.
Proof.
  split.
  - intros [s v n] rest (Hs & Hv & Hn). cbn [ad_storage ad_vault ad_nonce] in *.
    unfold write_into at 1, read_from at 1, AccountDelta_ser, AccountDelta_de. cbn [ad_storage ad_vault ad_nonce].
    rewrite <-!app_assoc, (serde_bind wf_storage_delta), (serde_bind wf_vault_delta) by done.
    rewrite (read_option_bind (λ _ : felt, True)) by done.
    unfold reader_lift, mbind, reader_bind. by rewrite Hn.
  - intros [s v n] (Hs & Hv & _). unfold write_into at 1, get_size_hint at 1, AccountDelta_ser.
    cbn [ad_storage ad_vault ad_nonce] in *.
    rewrite !length_app, !serde_size, length_write_option by done. rewrite Nat.add_assoc. f_equal. f_equal.
    destruct n as [n|]; [|done]. apply length_write_felt.
Qed.

Lemma vault_size_equiv v v' : vault_equiv v v' → get_size_hint v = get_size_hint v'.
Proof.
  intros He. assert (vault_assets v ≡ₚ vault_assets v') as Hp.
  { unfold vault_assets. apply fmap_Permutation, NoDup_Permutation.
    - eapply NoDup_fmap_1, smt_entries_nodup.
    - eapply NoDup_fmap_1, smt_entries_nodup.
    - intros [k w]. rewrite !smt_entries_spec, He. done. }
  cbn [get_size_hint AssetVault_ser]. by rewrite Hp.
Qed.

Lemma vault_read_bind {C} (k : AssetVault → reader C) v bs :
  wf_vault v → fits_usize (length (vault_assets v)) →
  ∃ v', (read_from ≫= k) (write_into v ++ bs) = k v' bs ∧ vault_equiv v' v.
Proof.
  intros Hv Hl. destruct (vault_reads_back v bs Hv Hl) as [(v' & Hr & He & _) _].
  exists v'. split; [|done]. unfold mbind, reader_bind. by rewrite Hr.
Qed.

Lemma account_reads_back a rest :
  wf_account a → fits_usize (length (vault_assets (acct_vault a))) →
  (∃ a', read_from (write_into a ++ rest) = Ok (a', rest) ∧ account_equiv a' a ∧ get_size_hint a' = get_size_hint a) ∧
  length (write_into a) = get_size_hint a.
Proof.
  intros (Hid & Hv & Hs & Hc) Hl. destruct a as [id v s c n]. cbn [acct_id acct_vault acct_storage acct_code] in *.
  split.
  - unfold write_into at 1, read_from at 1, Account_ser, Account_de.
    cbn [acct_id acct_vault acct_storage acct_code acct_nonce]. rewrite <-!app_assoc, (serde_bind valid_id) by done.
    destruct (vault_read_bind (λ vault, storage ← read_from (A:=AccountStorage);
      code ← read_from (A:=AccountCode); nonce ← read_from (A:=felt); mret (mkAccount id vault storage code nonce))
      v (write_into s ++ write_into c ++ write_into n ++ rest) Hv Hl) as (v' & -> & He).
    rewrite (serde_bind wf_storage), (serde_bind wf_code), (serde_bind (λ _ : felt, True)) by done.
    eexists. split; [done|]. split; [|cbn [get_size_hint Account_ser acct_id acct_vault acct_storage acct_code acct_nonce]; by rewrite (vault_size_equiv _ _ He)].
    split_and!; [done|done| |done|done]. apply storage_equiv_lookup. intros i. cbn. destruct (slots s !! i) as [x|]; [right|by left]. by exists x, x.
  - destruct (vault_reads_back v [] Hv Hl) as [_ El].
    unfold write_into at 1, get_size_hint at 1, Account_ser.
    cbn [acct_id acct_vault acct_storage acct_code acct_nonce]. rewrite !length_app, El, (serde_size id), (serde_size s), (serde_size c), (serde_size n) by done. lia.
Qed.

Definition wf_update (u : AccountUpdateDetails) : Prop :=
  match u with
  | PrivateUpdate => True
  | NewUpdate a => wf_account a ∧ fits_usize (length (vault_assets (acct_vault a)))
  | DeltaUpdate d => wf_account_delta d
  end.

Lemma update_reads_back u rest :
  wf_update u →
  (∃ u', read_from (write_into u ++ rest) = Ok (u', rest) ∧ update_equiv u' u ∧ get_size_hint u' = get_size_hint u) ∧
  length (write_into u) = get_size_hint u.
Proof.
  intros Hu. cbn [write_into read_from get_size_hint AccountUpdateDetails_ser AccountUpdateDetails_de].
  destruct u as [|a|d].
  - split; [|apply length_write_u8]. exists PrivateUpdate. rewrite read_u8_bind by lia. split_and!; done.
  - destruct Hu as [Ha Hl]. destruct (account_reads_back a rest Ha Hl) as [(a' & Hr & He & Hz) Hs]. split.
    + exists (NewUpdate a'). rewrite <-app_assoc, read_u8_bind by lia.
      unfold mbind, reader_bind. rewrite Hr. split; [done|]. split; [split; [done|by apply account_hash_proper]|]. by rewrite Hz.
    + by rewrite length_app, length_write_u8, Hs.
  - split.
    + exists (DeltaUpdate d). rewrite <-app_assoc, read_u8_bind by lia. by rewrite (serde_bind wf_account_delta) by done.
    + rewrite length_app, length_write_u8. f_equal. by apply serde_size.
Qed.

(** Account updates of all three kinds read back from their serialization:
    deltas exactly, accounts up to the contents of the vault tree, with the
    same hash; the size hint is exact. *)
Theorem account_update_serde u rest :
  wf_update u →
  (∃ u', read_from (write_into u ++ rest) = Ok (u', rest) ∧ update_equiv u' u ∧ get_size_hint u' = get_size_hint u) ∧
  length (write_into u) = get_size_hint u.
Proof. apply update_reads_back. Qed.
End SerLaws.

(** ** Account data

    Signature keys come from the crate miden-crypto. *)

Class KeyIO {B : ByteIO} := {
  SecretKey : Type;
  write_key : SecretKey → bytes;
  read_key : reader SecretKey;
  key_decodes : decodes (λ _, True) write_key read_key
}.

Section Data.
  Context {B : ByteIO} {SI : SmtIO} {M : MastIO} {K : KeyIO}.

Inductive AuthSecretKey : Type := RpoFalcon512 (k : SecretKey).

Definition auth_scheme_id (a : AuthSecretKey) : Z := match a with RpoFalcon512 _ => 0 end.

#[export] Instance AuthSecretKey_ser : Serializable AuthSecretKey := {|
  write_into a := write_u8 (auth_scheme_id a) ++ match a with RpoFalcon512 k => write_key k end;
  get_size_hint _ := 0%nat
|}.
#[export] Instance AuthSecretKey_de : Deserializable AuthSecretKey := {|
  read_from :=
    auth_key_id ← read_u8;
    match auth_key_id with
    | 0 => secret_key ← read_key; mret (RpoFalcon512 secret_key)
    | _ => λ _, Err InvalidValue
    end
|}.

Record AccountData : Type := mkAccountData {
  data_account : Account;
  data_seed : option Word;
  data_key : AuthSecretKey
}.

#[export] Instance AccountData_ser : Serializable AccountData := {|
  write_into d := write_into (data_account d) ++ write_option write_into (data_seed d) ++ write_into (data_key d);
  get_size_hint _ := 0%nat
|}.
#[export] Instance AccountData_de : Deserializable AccountData := {|
  read_from :=
    account ← read_from (A:=Account);
    account_seed ← read_option (read_from (A:=Word));
    auth_secret_key ← read_from (A:=AuthSecretKey);
    mret (mkAccountData account account_seed auth_secret_key)
|}.

(** An account file holds everything needed to restore the account: the
    account, its seed and its key read back. *)
Theorem account_data_serde d rest :
  wf_account (data_account d) → fits_usize (length (vault_assets (acct_vault (data_account d)))) →
  ∃ a', read_from (write_into d ++ rest) = Ok (mkAccountData a' (data_seed d) (data_key d), rest) ∧
    account_equiv a' (data_account d).
Proof.
  intros Ha Hl. destruct d as [a seed [k]]. cbn [data_account data_seed data_key] in *.
  unfold write_into at 1, read_from at 1, AccountData_ser, AccountData_de. cbn [data_account data_seed data_key].
  rewrite <-!app_assoc.
  destruct (account_reads_back a (write_option write_into seed ++ write_into (RpoFalcon512 k) ++ rest) Ha Hl)
    as [(a' & Hr & He & _) _].
  exists a'. split; [|done]. unfold mbind at 1, reader_bind at 1. rewrite Hr.
  rewrite (read_option_bind (λ _ : Word, True)) by done.
  cbn [write_into read_from AuthSecretKey_ser AuthSecretKey_de auth_scheme_id].
  unfold mbind at 1, reader_bind at 1. rewrite <-app_assoc, read_u8_bind by lia.
  by rewrite (decodes_bind _ _ _ _ _ _ key_decodes) by done.
Qed.
End Data.
End Account.

(** ** Witnesses *)

#[local] Existing Instance Goldilocks.
#[local] Existing Instance ToyHasher.
#[local] Existing Instance MapTree.
#[local] Existing Instance CodeOrd.
#[local] Existing Instance PlainIO.
#[local] Existing Instance MapTreeIO.
#[local] Existing Instance RootsAsm.
#[local] Existing Instance RootsIO.

Definition sample_account : Account :=
  mkAccount sample_wallet sample_vault sample_storage sample_code ZERO.
Definition sample_delta_1 : AccountDelta :=
  mkAccountDelta sample_storage_delta (sample_vault_delta 7) (Some ONE).
Definition sample_delta_2 : AccountDelta :=
  mkAccountDelta storage_delta_default sample_undo (Some (felt_new 2)).
Definition sample_account_1 : Account := (account_apply_delta sample_delta_1 sample_account).2.
Definition sample_account_2 : Account := (account_apply_delta sample_delta_2 sample_account_1).2.

Lemma sample_delta_1_valid : valid_account_delta sample_delta_1.
Proof.
  split; [exact sample_storage_delta_valid|]. split; [apply sample_small_delta; lia|].
  apply validate_nonce_Ok. right. by exists ONE.
Qed.
Lemma sample_delta_1_no_zero : no_zero_account sample_delta_1.
Proof. apply single_no_zero. lia. Qed.

Lemma sample_delta_2_valid : valid_account_delta sample_delta_2.
Proof.
  split.
  { split_and!; [apply map_Forall_empty..|]. intros s. left. apply lookup_empty. }
  split; [exact sample_undo_valid|].
  apply validate_nonce_Ok. right. by exists (felt_new 2).
Qed.
Lemma sample_delta_2_no_zero : no_zero_account sample_delta_2.
Proof. apply single_no_zero. lia. Qed.

Lemma sample_account_wf : wf_account sample_account.
Proof.
  split; [reflexivity|]. split; [exact sample_vault_wf|]. split; [apply Z.leb_le; reflexivity|].
  exact sample_code_wf.
Qed.

Lemma sample_apply_1 : account_apply_delta sample_delta_1 sample_account = (Ok tt, sample_account_1).
Proof. refine (run_Ok (account_apply_delta sample_delta_1 sample_account) _). vm_compute. reflexivity. Qed.
Lemma sample_apply_2 : account_apply_delta sample_delta_2 sample_account_1 = (Ok tt, sample_account_2).
Proof. refine (run_Ok (account_apply_delta sample_delta_2 sample_account_1) _). vm_compute. reflexivity. Qed.

Lemma sample_merge :
  account_delta_merge sample_delta_2 sample_delta_1 =
  (Ok tt, (account_delta_merge sample_delta_2 sample_delta_1).2).
Proof. apply run_Ok. vm_compute. reflexivity. Qed.

Lemma account_delta_merge_valid_witness :
  valid_account_delta (account_delta_merge sample_delta_2 sample_delta_1).2.
Proof.
  apply (account_delta_merge_valid sample_delta_1 sample_delta_2 _
    sample_delta_1_valid sample_delta_2_valid sample_merge).
Defined.

Lemma account_apply_merge_witness :
  ∃ d a', account_delta_merge sample_delta_2 sample_delta_1 = (Ok tt, d) ∧
    account_apply_delta d sample_account = (Ok tt, a') ∧
    account_equiv a' sample_account_2 ∧ account_hash a' = account_hash sample_account_2.
Proof.
  destruct (account_apply_merge sample_account sample_account_1 sample_account_2 sample_delta_1 sample_delta_2
    sample_vault_wf sample_delta_1_valid sample_delta_2_valid sample_apply_1 sample_apply_2) as (d & a' & H1 & H2 & _ & _ & H3).
  exists d, a'. split; [exact H1|]. split; [exact H2|].
  exact (H3 sample_vault_positive sample_delta_1_no_zero sample_delta_2_no_zero).
Defined.

Lemma update_merge_assoc_witness :
  ∃ u12 u, update_merge (DeltaUpdate sample_delta_1) (DeltaUpdate sample_delta_2) = Ok u12 ∧
    update_merge (NewUpdate sample_account) u12 = Ok u ∧ update_equiv u (NewUpdate sample_account_2).
Proof.
  apply (update_merge_assoc sample_account sample_delta_1 sample_delta_2 (NewUpdate sample_account_1)
    (NewUpdate sample_account_2) sample_vault_wf sample_vault_positive sample_delta_1_valid sample_delta_2_valid
    sample_delta_1_no_zero sample_delta_2_no_zero).
  - cbn [update_merge]. rewrite sample_apply_1. reflexivity.
  - cbn [update_merge]. rewrite sample_apply_2. reflexivity.
Defined.

Lemma account_apply_delta_nonce_witness :
  as_int (acct_nonce sample_account) ≤ as_int (acct_nonce sample_account_1).
Proof.
  apply (account_apply_delta_nonce sample_delta_1 sample_account sample_account_1
    sample_account_wf sample_delta_1_valid sample_apply_1).
Defined.

Lemma account_update_serde_witness :
  ∃ u', read_from (write_into (NewUpdate sample_account) ++ [3]) = Ok (u', [3]) ∧
    update_equiv u' (NewUpdate sample_account).
Proof.
  destruct (account_update_serde (NewUpdate sample_account) [3]) as [(u' & Hr & He & _) _];
    [split; [exact sample_account_wf|reflexivity]|].
  exists u'. split; [exact Hr|exact He].
Defined.

(** A key is a field element here. *)
#[refine] Definition FeltKey : KeyIO := {| SecretKey := gl; write_key := write_felt; read_key := read_felt |}.
Proof. exact felt_decodes. Defined.
#[local] Existing Instance FeltKey.

Lemma account_data_serde_witness :
  let d := mkAccountData sample_account (Some (sample_word 3)) (RpoFalcon512 (K:=FeltKey) (gl_new 8)) in
  ∃ a', read_from (write_into d ++ [3]) = Ok (mkAccountData a' (data_seed d) (data_key d), [3]) ∧
    account_equiv a' sample_account.
Proof.
  apply (account_data_serde (mkAccountData sample_account (Some (sample_word 3)) (RpoFalcon512 (K:=FeltKey) (gl_new 8))) [3]
    sample_account_wf). reflexivity.
Defined.

(** A builder whose seed search ends at once, on a hash with one value. *)
Definition sample_builder : AccountBuilder :=
  builder_with_component sample_component_2 (builder_with_component sample_component_1
    (builder_account_type FungibleFaucet (builder_storage_mode Public
      (builder_init_seed (replicate 32 0) builder_new)))).
Lemma sample_build :
  match build (H:=ConstHasher) 1 sample_builder with Some r => is_ok r | None => false end = true.
Proof. vm_compute. reflexivity. Qed.

Lemma build_sound_witness :
  ∃ a seed, build (H:=ConstHasher) 1 sample_builder = Some (Ok (a, seed)) ∧
    account_new (H:=ConstHasher) seed (acct_code a) (acct_storage a) = Ok a.
Proof.
  pose proof sample_build as Hok.
  destruct (build (H:=ConstHasher) 1 sample_builder) as [[[a seed]|e|]|] eqn:E; [|discriminate..].
  exists a, seed. split; [reflexivity|].
  exact (proj1 (proj1 (build_sound (H:=ConstHasher) 1 sample_builder sample_components_valid eq_refl)
    (Ok (a, seed)) E)).
Defined.
