(* ===== verification/Builder.v ===== *)
(** * Accounts for tests and account files

    Models the parts of objects/src/accounts/builder/mod.rs that the testing
    feature adds (assets, a nonce, and [build_testing], which makes up the id of an
    existing account instead of searching for it), and the files of
    objects/src/accounts/data.rs. *)

From S2P Require Import Prelude Felt Crypto Serde Types AccountId Assets VaultDelta Vault.
From S2P Require Import StorageDelta Storage Code Account.
From stdpp Require Import strings.
Open Scope Z_scope.

Section Builder.
  Context {F : FeltApi} {H : HasherApi} {S : SmtApi} {D : DigestOrd} {A : AsmApi}.

(** The builder with the field [assets] of the testing feature. *)
Record TestingBuilder : Type := mkTesting { tb_builder : AccountBuilder; tb_assets : list Asset }.
Definition testing_new : TestingBuilder := mkTesting builder_new [].
Definition testing_nonce (nonce : felt) (t : TestingBuilder) : TestingBuilder :=
  let b := tb_builder t in
  mkTesting (mkBuilder nonce (b_components b) (b_account_type b) (b_storage_mode b) (b_init_seed b)) (tb_assets t).
Definition testing_with_assets (assets : list Asset) (t : TestingBuilder) : TestingBuilder :=
  mkTesting (tb_builder t) (tb_assets t ++ assets).

(** [build_inner] with the testing feature *)
Definition testing_build_inner (t : TestingBuilder) : res AccountError (list Z * AssetVault * AccountCode * AccountStorage) :=
  let b := tb_builder t in
  init_seed ← ok_or (BuildError None) (b_init_seed b);
  vault ← map_err (λ _, BuildError None) (vault_new (tb_assets t));
  fail_if (bool_decide (b_nonce b = ZERO) && negb (vault_is_empty vault)) (BuildError None) ;;
  cs ← map_err (λ e, BuildError (Some e)) (initialize_from_components (b_account_type b) (b_components b));
  Ok (init_seed, vault, cs.1, cs.2).

(** [build_testing]; the fuel is that of the seed search of new accounts. *)
Definition build_testing (fuel : nat) (t : TestingBuilder) : option (res AccountError (Account * option Word)) :=
  let b := tb_builder t in
  match testing_build_inner t with
  | Ok (init_seed, vault, code, storage) =>
      r ← (if decide (b_nonce b = ZERO) then
             r ← grind_account_id fuel b init_seed (code_commitment code) (storage_commitment storage);
             Some ((λ x, (x.1, Some x.2)) <$> r)
           else
             Some ((λ id, (id, None)) <$> new_with_type_and_mode (take 8 init_seed) (b_account_type b) (b_storage_mode b)));
      Some ((λ x, (mkAccount x.1 vault storage code (b_nonce b), x.2)) <$> r)
  | Err e => Some (Err e)
  | Panic => Some Panic
  end.

(** The build of an existing account needs no search and does not panic. It fails
    with a build error, or the account is well formed, holds exactly the assets and
    has the requested nonce, type and storage mode. *)
Theorem testing_builds_existing fuel t init :
  let b := tb_builder t in
  Forall valid_component (b_components b) → Forall valid_asset (tb_assets t) → b_nonce b ≠ ZERO →
  b_init_seed b = Some init → length init = 32%nat → Forall (λ x, 0 ≤ x < 2 ^ 8) init →
  match build_testing fuel t with
  | Some (Ok (a, seed)) =>
      seed = None ∧ wf_account a ∧ acct_nonce a = b_nonce b ∧ vault_assets (acct_vault a) ≡ₚ tb_assets t ∧
      account_type (acct_id a) = b_account_type b ∧ storage_mode (E:=AccountError) (acct_id a) = Ok (b_storage_mode b)
  | Some (Err (BuildError _)) => True
  | _ => False
  end.
Proof.
  cbv zeta. intros Hc Ha Hn Hi Hl Hb. unfold build_testing, testing_build_inner. rewrite Hi. cbn [ok_or mbind res_bind].
  pose proof (vault_new_spec _ Ha) as Hv. destruct (vault_new (tb_assets t)) as [vault|e|]; cbn [map_err mbind res_bind]; [|done|done].
  destruct Hv as (_ & Hwv & Hassets). rewrite bool_decide_eq_false_2 by done. cbn [andb fail_if mbind res_bind].
  pose proof (initialize_wf (b_account_type (tb_builder t)) _ Hc) as Hw.
  destruct (initialize_from_components _ _) as [[code storage]|e|]; cbn [map_err mbind res_bind fst snd]; [|done|done].
  rewrite decide_False by done.
  destruct (new_with_type_and_mode_total (take 8 init) (b_account_type (tb_builder t)) (b_storage_mode (tb_builder t)))
    as (id & -> & Hid & Hty & Hmode); [rewrite length_take; lia|by apply Forall_take|].
  destruct Hw as [Hwc Hws]. by split_and!.
Qed.

(** ** Account files *)

Section Files.
  Context {B : ByteIO} {SI : SmtIO} {M : MastIO} {K : KeyIO}.

Inductive IoErrorKind : Type := NotFound | InvalidData | WriteDenied.

(** [AccountData::write] and [read]; [writable] says whether the file can be written. *)
Definition data_write_file (writable : bool) (filepath : string) (d : AccountData) : mut (gmap string bytes) IoErrorKind unit := λ files,
  if writable then (Ok tt, <[filepath := write_into d]> files) else (Err WriteDenied, files).
Definition data_read_file (filepath : string) (files : gmap string bytes) : res IoErrorKind AccountData :=
  buffer ← ok_or NotFound (files !! filepath);
  fst <$> map_err (λ _, InvalidData) (read_from (A:=AccountData) buffer).

(** An account that was written to a file is read back from it, and from no other
    file. *)
Theorem account_file_roundtrip filepath d files :
  wf_account (data_account d) → fits_usize (length (vault_assets (acct_vault (data_account d)))) →
  ∃ files' a', data_write_file true filepath d files = (Ok tt, files') ∧
    data_read_file filepath files' = Ok (mkAccountData a' (data_seed d) (data_key d)) ∧ account_equiv a' (data_account d) ∧
    ∀ other, other ≠ filepath → data_read_file other files' = data_read_file other files.
Proof.
  intros Hw Hl. destruct (account_data_serde d [] Hw Hl) as (a' & Hr & He). rewrite app_nil_r in Hr.
  exists (<[filepath := write_into d]> files), a'. split; [done|]. unfold data_read_file. split; [|split; [done|]].
  - rewrite lookup_insert_eq. cbn [ok_or mbind res_bind]. by rewrite Hr.
  - intros other Ho. by rewrite lookup_insert_ne.
Qed.
End Files.
End Builder.

(** ** Witnesses *)

#[local] Existing Instance Goldilocks.
#[local] Existing Instance ToyHasher.
#[local] Existing Instance MapTree.
#[local] Existing Instance CodeOrd.
#[local] Existing Instance PlainIO.
#[local] Existing Instance MapTreeIO.
#[local] Existing Instance RootsAsm.
#[local] Existing Instance RootsIO.
#[local] Existing Instance FeltKey.

Definition sample_testing : TestingBuilder :=
  testing_nonce ONE (testing_with_assets [Fungible (sample_fungible 3); NonFungible sample_nf] (mkTesting sample_builder [])).

Lemma testing_builds_existing_witness :
  match build_testing 0 sample_testing with
  | Some (Ok (a, seed)) => seed = None ∧ wf_account a ∧ acct_nonce a = ONE ∧
      vault_assets (acct_vault a) ≡ₚ [Fungible (sample_fungible 3); NonFungible sample_nf] ∧
      account_type (acct_id a) = FungibleFaucet ∧ storage_mode (E:=AccountError) (acct_id a) = Ok Public
  | Some (Err (BuildError _)) => True
  | _ => False
  end.
Proof.
  apply (testing_builds_existing 0 sample_testing (replicate 32 0)).
  - exact sample_components_valid.
  - constructor; [apply (sample_amount 3); lia|]. constructor; [exact sample_nf_valid|constructor].
  - discriminate.
  - reflexivity.
  - reflexivity.
  - apply Forall_replicate. lia.
Defined.
Example sample_testing_builds : match build_testing 0 sample_testing with Some r => is_ok r | None => false end = true.
Proof. vm_compute. reflexivity. Qed.

Lemma account_file_roundtrip_witness :
  let d := mkAccountData sample_account (Some (sample_word 3)) (RpoFalcon512 (K:=FeltKey) (gl_new 8)) in
  ∃ files' a', data_write_file true "wallet.mac" d ∅ = (Ok tt, files') ∧
    data_read_file "wallet.mac" files' = Ok (mkAccountData a' (data_seed d) (data_key d)) ∧ account_equiv a' (data_account d).
Proof.
  destruct (account_file_roundtrip "wallet.mac" (mkAccountData sample_account (Some (sample_word 3)) (RpoFalcon512 (K:=FeltKey) (gl_new 8))) ∅
    sample_account_wf) as (files' & a' & H1 & H2 & H3 & _); [reflexivity|].
  exists files', a'. split; [exact H1|]. split; [exact H2|exact H3].
Defined.
