(* ===== verification/NoteMeta.v ===== *)
(** * Note metadata

    Models objects/src/notes/note_type.rs, note_tag.rs, execution_hint.rs and
    metadata.rs: note types, tags and execution hints and how they are packed
    into words and bytes. *)

From S2P Require Import Prelude Felt Crypto Serde Types AccountId.
Open Scope Z_scope.

(** ** Note types *)

Inductive NoteType : Type := PrivateNote | EncryptedNote | PublicNote.
#[export] Instance NoteType_eq_dec : EqDecision NoteType.
Proof. solve_decision. Defined.

Definition PUBLIC : Z := 1.
Definition PRIVATE : Z := 2.
Definition ENCRYPTED : Z := 3.

(** [note_type as u8] *)
Definition note_type_discr (t : NoteType) : Z :=
  match t with PrivateNote => PRIVATE | EncryptedNote => ENCRYPTED | PublicNote => PUBLIC end.

Inductive NoteExecutionMode : Type := Network | Local.
#[export] Instance NoteExecutionMode_eq_dec : EqDecision NoteExecutionMode.
Proof. solve_decision. Defined.

Inductive NoteExecutionHint : Type :=
  | HintNone
  | Always
  | AfterBlock (block_num : Z)
  | OnBlockSlot (epoch_len slot_len slot_offset : Z).
#[export] Instance NoteExecutionHint_eq_dec : EqDecision NoteExecutionHint.
Proof. solve_decision. Defined.

(** [struct NoteTag(u32)] *)
Record NoteTag : Type := mkNoteTag { tag_inner : Z }.
#[export] Instance NoteTag_eq_dec : EqDecision NoteTag.
Proof. solve_decision. Defined.

(** [enum NoteError]; rendered messages are left out. *)
Inductive NoteError {F : FeltApi} : Type :=
  | DuplicateFungibleAsset (id : AccountId)
  | DuplicateNoteNonFungibleAsset (a : NonFungibleAsset)
  | InconsistentNoteTag (ty : NoteType) (tag : Z)
  | InvalidAssetData (e : AssetError)
  | InvalidNoteSender (e : AccountError)
  | InvalidNoteTagUseCase (id : Z)
  | InvalidNoteExecutionHintTag (tag : Z)
  | InvalidNoteExecutionHintPayload (tag payload : Z)
  | InvalidNoteType (ty : NoteType)
  | InvalidNoteTypeValue (v : Z)
  | InvalidLocationIndex
  | InvalidStubDataLen (n : Z)
  | NetworkExecutionRequiresOnChainAccount
  | NetworkExecutionRequiresPublicNote (ty : NoteType)
  | NoteDeserializationError (e : DeserializationError)
  | NoteScriptAssemblyError
  | NoteScriptDeserializationError (e : DeserializationError)
  | PublicUseCaseRequiresPublicNote (ty : NoteType)
  | TooManyAssets (n : Z)
  | TooManyInputs (n : Z).

(** ** Arithmetic on [u32] with and without overflow checks

    Rust panics on overflow when the checks are on (debug builds) and wraps
    otherwise (release builds); a shift wraps its amount. *)

Section Checked.
  Context (overflow_checks : bool) {E : Type}.

Definition u32_result (z : Z) : res E Z :=
  if in_u32 z then Ok z else if overflow_checks then Panic else Ok (z mod 2 ^ 32).
Definition u32_shl (a n : Z) : res E Z :=
  if n <? 32 then Ok (Z.shiftl a n mod 2 ^ 32)
  else if overflow_checks then Panic else Ok (Z.shiftl a (n mod 32) mod 2 ^ 32).
Definition u32_mul (a b : Z) : res E Z := u32_result (a * b).
Definition u32_add (a b : Z) : res E Z := u32_result (a + b).
End Checked.

(** ** Execution hints *)

Definition NONE_TAG : Z := 0.
Definition ALWAYS_TAG : Z := 1.
Definition AFTER_BLOCK_TAG : Z := 2.
Definition ON_BLOCK_SLOT_TAG : Z := 3.

Section NoteMeta.
  Context {F : FeltApi}.

Definition note_type_try_from_u8 (value : Z) : res NoteError NoteType :=
  match value with
  | 2 => Ok PrivateNote
  | 3 => Ok EncryptedNote
  | 1 => Ok PublicNote
  | _ => Err (InvalidNoteTypeValue value)
  end.
Definition note_type_try_from_u64 (value : Z) : res NoteError NoteType :=
  match try_into_u8 value with
  | Some v => note_type_try_from_u8 v
  | None => Err (InvalidNoteTypeValue value)
  end.
Definition note_type_try_from_felt (value : felt) : res NoteError NoteType :=
  note_type_try_from_u64 (as_int value).

(** [NoteExecutionHint::from_parts] *)
Definition hint_from_parts (tag payload : Z) : res NoteError NoteExecutionHint :=
  match tag with
  | 0 => if payload =? 0 then Ok HintNone else Err (InvalidNoteExecutionHintPayload tag payload)
  | 1 => if payload =? 0 then Ok Always else Err (InvalidNoteExecutionHintPayload tag payload)
  | 2 => Ok (AfterBlock payload)
  | 3 =>
      let remainder := Z.land (Z.shiftr payload 24) 255 in
      if negb (remainder =? 0) then Err (InvalidNoteExecutionHintPayload tag payload)
      else Ok (OnBlockSlot (Z.land (Z.shiftr payload 16) 255) (Z.land (Z.shiftr payload 8) 255)
                 (Z.land payload 255))
  | _ => Err (InvalidNoteExecutionHintTag tag)
  end.

Definition hint_into_parts (h : NoteExecutionHint) : Z * Z :=
  match h with
  | HintNone => (NONE_TAG, 0)
  | Always => (ALWAYS_TAG, 0)
  | AfterBlock block_num => (AFTER_BLOCK_TAG, block_num)
  | OnBlockSlot epoch_len slot_len slot_offset =>
      (ON_BLOCK_SLOT_TAG, Z.lor (Z.lor (Z.shiftl epoch_len 16) (Z.shiftl slot_len 8)) slot_offset)
  end.

(** [NoteExecutionHint::can_be_consumed] *)
Definition can_be_consumed {E} (overflow_checks : bool) (h : NoteExecutionHint) (block_num : Z)
    : res E (option bool) :=
  match h with
  | HintNone => Ok None
  | Always => Ok (Some true)
  | AfterBlock hint_block_num => Ok (Some (hint_block_num <=? block_num))
  | OnBlockSlot epoch_len slot_len slot_offset =>
      epoch_len_blocks ← u32_shl overflow_checks 1 epoch_len;
      slot_len_blocks ← u32_shl overflow_checks 1 slot_len;
      let block_epoch_index := block_num / epoch_len_blocks in
      x ← u32_mul overflow_checks block_epoch_index epoch_len_blocks;
      y ← u32_mul overflow_checks slot_offset slot_len_blocks;
      slot_start_block ← u32_add overflow_checks x y;
      slot_end_block ← u32_add overflow_checks slot_start_block slot_len_blocks;
      Ok (Some ((slot_start_block <=? block_num) && (block_num <? slot_end_block)))
  end.

(** [TryFrom<u64>], [From<NoteExecutionHint> for u64] and [for Felt] *)
Definition hint_try_from_u64 (value : Z) : res NoteError NoteExecutionHint :=
  hint_from_parts (Z.land value 63) (Z.land (Z.shiftr value 6) (2 ^ 32 - 1)).
Definition hint_to_u64 (h : NoteExecutionHint) : Z :=
  let '(tag, payload) := hint_into_parts h in Z.lor (Z.shiftl payload 6) tag.
Definition hint_to_felt (h : NoteExecutionHint) : felt := felt_new (hint_to_u64 h).

(** ** Tags *)

Definition LOCAL_EXECUTION_WITH_ALL_NOTE_TYPES_ALLOWED : Z := Z.shiftl 3 30.
Definition PUBLIC_USECASE : Z := Z.shiftl 1 31.
Definition LOCAL_EXECUTION : Z := 1.

(** [NoteTag::from_account_id]; [is_public] of an id that was not checked may
    panic. *)
Definition tag_from_account_id (account_id : AccountId) (execution : NoteExecutionMode) : res NoteError NoteTag :=
  match execution with
  | Local =>
      let id := account_id_to_u64 account_id in
      let high_bits := Z.land (as_u32 (Z.shiftr id 34)) (Z.shiftl (Z.ones 16) 16) in
      Ok (mkNoteTag (Z.lor high_bits LOCAL_EXECUTION_WITH_ALL_NOTE_TYPES_ALLOWED))
  | Network =>
      public ← is_public account_id;
      if negb public then Err NetworkExecutionRequiresOnChainAccount
      else Ok (mkNoteTag (as_u32 (Z.shiftr (account_id_to_u64 account_id) 33)))
  end.

Definition tag_for_public_use_case (use_case_id payload : Z) (execution : NoteExecutionMode)
    : res NoteError NoteTag :=
  if negb (Z.shiftr use_case_id 14 =? 0) then Err (InvalidNoteTagUseCase use_case_id)
  else
    let execution_bits := match execution with Local => PUBLIC_USECASE | Network => Z.shiftl 1 30 end in
    Ok (mkNoteTag (Z.lor (Z.lor execution_bits (Z.shiftl use_case_id 16)) payload)).

Definition tag_for_local_use_case (use_case_id payload : Z) : res NoteError NoteTag :=
  if negb (Z.shiftr use_case_id 14 =? 0) then Err (InvalidNoteTagUseCase use_case_id)
  else Ok (mkNoteTag (Z.lor (Z.lor LOCAL_EXECUTION_WITH_ALL_NOTE_TYPES_ALLOWED
                              (Z.shiftl use_case_id 16)) payload)).

Definition is_single_target (t : NoteTag) : bool := Z.shiftr (tag_inner t) 30 =? 0.

Definition tag_execution_hint (t : NoteTag) : NoteExecutionMode :=
  if Z.shiftr (tag_inner t) 31 =? LOCAL_EXECUTION then Local else Network.

Definition tag_validate (t : NoteTag) (note_type : NoteType) : res NoteError NoteTag :=
  if bool_decide (tag_execution_hint t = Network) && bool_decide (note_type ≠ PublicNote)
  then Err (NetworkExecutionRequiresPublicNote note_type)
  else
    let is_public_use_case := Z.land (tag_inner t) (Z.shiftl 3 30) =? PUBLIC_USECASE in
    if is_public_use_case && bool_decide (note_type ≠ PublicNote)
    then Err (PublicUseCaseRequiresPublicNote note_type)
    else Ok t.

(** [TryFrom<u64> for NoteTag] and [TryFrom<Felt> for NoteTag] *)
Definition tag_try_from_u64 (value : Z) : option NoteTag := mkNoteTag <$> try_into_u32 value.
Definition tag_try_from_felt (value : felt) : option NoteTag := tag_try_from_u64 (as_int value).
Definition tag_to_felt (t : NoteTag) : felt := felt_new (tag_inner t).

(** ** Metadata *)

Record NoteMetadata : Type := mkMetadata {
  nm_sender : AccountId;
  nm_note_type : NoteType;
  nm_tag : NoteTag;
  nm_aux : felt;
  nm_execution_hint : NoteExecutionHint
}.

Definition metadata_new (sender : AccountId) (note_type : NoteType) (tag : NoteTag)
    (execution_hint : NoteExecutionHint) (aux : felt) : res NoteError NoteMetadata :=
  tag ← tag_validate tag note_type;
  Ok (mkMetadata sender note_type tag aux execution_hint).

Definition metadata_is_private (m : NoteMetadata) : bool := bool_decide (nm_note_type m = PrivateNote).

Definition merge_type_and_hint (note_type : NoteType) (hint : NoteExecutionHint) : Z :=
  let type_nibble := Z.land (note_type_discr note_type) 3 in
  let '(tag_nibble, payload_u32) := hint_into_parts hint in
  let payload_section := payload_u32 in
  let tag_section := Z.land tag_nibble 63 in
  Z.lor (Z.lor (Z.shiftl type_nibble 38) (Z.shiftl payload_section 6)) tag_section.

Definition unmerge_type_and_hint (value : Z) : res NoteError (NoteType * NoteExecutionHint) :=
  let high_nibble := as_u8 (Z.land (Z.shiftr value 38) 3) in
  let tag_byte := as_u8 (Z.land value 63) in
  let payload_u32 := as_u32 (Z.land (Z.shiftr value 6) (2 ^ 32 - 1)) in
  note_type ← note_type_try_from_u8 high_nibble;
  note_execution_hint ← hint_from_parts tag_byte payload_u32;
  Ok (note_type, note_execution_hint).

(** [From<&NoteMetadata> for Word] and [TryFrom<Word> for NoteMetadata] *)
Definition metadata_to_word (m : NoteMetadata) : Word :=
  mkWord (felt_new (tag_inner (nm_tag m))) (id_felt (nm_sender m))
    (felt_new (merge_type_and_hint (nm_note_type m) (nm_execution_hint m))) (nm_aux m).

Definition metadata_try_from_word (elements : Word) : res NoteError NoteMetadata :=
  sender ← map_err InvalidNoteSender (account_id_from_felt (w1 elements));
  th ← unmerge_type_and_hint (as_int (w2 elements));
  let tag := as_int (w0 elements) in
  tag ← ok_or (InconsistentNoteTag th.1 tag) (try_into_u32 tag);
  metadata_new sender th.1 (mkNoteTag tag) th.2 (w3 elements).

(** ** Serialization *)

Section Ser.
  Context {B : ByteIO}.

#[export] Instance NoteType_ser : Serializable NoteType :=
  {| write_into t := write_u8 (note_type_discr t); get_size_hint _ := 0%nat |}.
#[export] Instance NoteType_de : Deserializable NoteType := {|
  read_from :=
    discriminat ← read_u8;
    match discriminat return reader NoteType with
    | 2 => mret PrivateNote
    | 3 => mret EncryptedNote
    | 1 => mret PublicNote
    | _ => λ _, Err InvalidValue
    end
|}.

#[export] Instance NoteTag_ser : Serializable NoteTag :=
  {| write_into t := write_u32 (tag_inner t); get_size_hint _ := 0%nat |}.
#[export] Instance NoteTag_de : Deserializable NoteTag :=
  {| read_from := tag ← read_u32; mret (mkNoteTag tag) |}.

#[export] Instance NoteMetadata_ser : Serializable NoteMetadata := {|
  write_into m := write_into (nm_sender m) ++
    write_u64 (merge_type_and_hint (nm_note_type m) (nm_execution_hint m)) ++
    write_into (nm_tag m) ++ write_into (nm_aux m);
  get_size_hint _ := 0%nat
|}.
#[export] Instance NoteMetadata_de : Deserializable NoteMetadata := {|
  read_from :=
    sender ← read_from (A:=AccountId);
    packed ← read_u64;
    th ← reader_lift (unmerge_type_and_hint packed);
    tag ← read_from (A:=NoteTag);
    aux ← read_from (A:=felt);
    reader_lift (metadata_new sender th.1 tag th.2 aux)
|}.
End Ser.

(** ** Packing *)

Lemma lor_shiftl_add hi k lo :
  0 ≤ k → 0 ≤ lo < 2 ^ k → Z.lor (Z.shiftl hi k) lo = hi * 2 ^ k + lo.
Proof.
  intros Hk Hlo. rewrite <-Z.shiftl_mul_pow2 by done. symmetry.
  rewrite Z.add_nocarry_lxor; [apply Z.lxor_lor|]; apply Z.bits_inj'; intros i Hi;
    rewrite Z.land_spec, Z.bits_0; (destruct (Z.lt_ge_cases i k);
    [by rewrite Z.shiftl_spec_low|rewrite (testbit_high lo k i) by lia; apply andb_false_r]).
Qed.

Definition valid_hint (h : NoteExecutionHint) : Prop :=
  match h with
  | HintNone | Always => True
  | AfterBlock n => 0 ≤ n < 2 ^ 32
  | OnBlockSlot e s o => 0 ≤ e < 2 ^ 8 ∧ 0 ≤ s < 2 ^ 8 ∧ 0 ≤ o < 2 ^ 8
  end.

Lemma slot_payload e s o :
  0 ≤ e < 2 ^ 8 → 0 ≤ s < 2 ^ 8 → 0 ≤ o < 2 ^ 8 →
  Z.lor (Z.lor (Z.shiftl e 16) (Z.shiftl s 8)) o = e * 2 ^ 16 + s * 2 ^ 8 + o.
Proof.
  intros He Hs Ho.
  replace (Z.shiftl e 16) with (Z.shiftl (Z.shiftl e 8) 8) by (rewrite Z.shiftl_shiftl by lia; done).
  rewrite <-Z.shiftl_lor, !lor_shiftl_add by lia. lia.
Qed.

Lemma hint_parts_range h :
  valid_hint h → 0 ≤ (hint_into_parts h).1 < 4 ∧ 0 ≤ (hint_into_parts h).2 < 2 ^ 32.
Proof.
  destruct h as [| |n|e s o]; cbn [valid_hint hint_into_parts fst snd].
  1-3: unfold NONE_TAG, ALWAYS_TAG, AFTER_BLOCK_TAG; lia.
  intros (He & Hs & Ho). rewrite slot_payload by done. unfold ON_BLOCK_SLOT_TAG. lia.
Qed.

Lemma land_ones_mod v n : 0 ≤ n → Z.land v (2 ^ n - 1) = v mod 2 ^ n.
Proof. intros Hn. rewrite <-Z.land_ones by done. by rewrite Z.ones_equiv, Z.sub_1_r. Qed.

Lemma hint_parts_roundtrip h :
  valid_hint h → hint_from_parts (hint_into_parts h).1 (hint_into_parts h).2 = Ok h.
Proof.
  destruct h as [| |n|e s o]; [done..|]. cbn [valid_hint hint_into_parts fst snd].
  intros (He & Hs & Ho). rewrite slot_payload by done.
  unfold hint_from_parts, ON_BLOCK_SLOT_TAG. change 255 with (2 ^ 8 - 1).
  rewrite !land_ones_mod, !Z.shiftr_div_pow2 by lia.
  replace ((e * 2 ^ 16 + s * 2 ^ 8 + o) / 2 ^ 24) with 0 by (symmetry; apply Z.div_small; lia).
  replace ((e * 2 ^ 16 + s * 2 ^ 8 + o) / 2 ^ 16) with e by (apply (Z.div_unique _ _ _ (s * 2 ^ 8 + o)); lia).
  replace ((e * 2 ^ 16 + s * 2 ^ 8 + o) / 2 ^ 8) with (e * 2 ^ 8 + s) by (apply (Z.div_unique _ _ _ o); lia).
  replace ((e * 2 ^ 8 + s) mod 2 ^ 8) with s by (apply (Z.mod_unique _ _ e); lia).
  replace ((e * 2 ^ 16 + s * 2 ^ 8 + o) mod 2 ^ 8) with o by (apply (Z.mod_unique _ _ (e * 2 ^ 8 + s)); lia).
  by rewrite (Z.mod_small e) by lia.
Qed.

Lemma note_type_discr_range ty : 1 ≤ note_type_discr ty ≤ 3.
Proof. destruct ty; unfold note_type_discr, PRIVATE, ENCRYPTED, PUBLIC; lia. Qed.

Lemma merge_type_and_hint_eq ty h :
  valid_hint h →
  merge_type_and_hint ty h =
    note_type_discr ty * 2 ^ 38 + (hint_into_parts h).2 * 2 ^ 6 + (hint_into_parts h).1.
Proof.
  intros Hh. pose proof (hint_parts_range h Hh) as [Ht Hp]. unfold merge_type_and_hint.
  destruct (hint_into_parts h) as [tag payload]. cbn [fst snd] in *.
  change 3 with (2 ^ 2 - 1). change 63 with (2 ^ 6 - 1). rewrite !land_ones_mod by lia.
  rewrite (Z.mod_small tag) by lia. pose proof (note_type_discr_range ty). rewrite (Z.mod_small (note_type_discr ty)) by lia.
  replace (Z.shiftl (note_type_discr ty) 38) with (Z.shiftl (Z.shiftl (note_type_discr ty) 32) 6)
    by (rewrite Z.shiftl_shiftl by lia; done).
  rewrite <-Z.shiftl_lor, !lor_shiftl_add by lia. lia.
Qed.

Lemma note_type_u8_roundtrip ty : note_type_try_from_u8 (note_type_discr ty) = Ok ty.
Proof. by destruct ty. Qed.

Lemma merge_range ty h : valid_hint h → 0 ≤ merge_type_and_hint ty h < 2 ^ 40.
Proof.
  intros Hh. rewrite merge_type_and_hint_eq by done. pose proof (hint_parts_range h Hh).
  pose proof (note_type_discr_range ty). lia.
Qed.

Lemma unmerge_merge ty h :
  valid_hint h → unmerge_type_and_hint (merge_type_and_hint ty h) = Ok (ty, h).
Proof.
  intros Hh. rewrite merge_type_and_hint_eq by done. pose proof (hint_parts_range h Hh) as [Ht Hp].
  pose proof (hint_parts_roundtrip h Hh) as Hr. pose proof (note_type_discr_range ty).
  set (t := (hint_into_parts h).1) in *. set (p := (hint_into_parts h).2) in *.
  set (y := note_type_discr ty) in *. set (v := y * 2 ^ 38 + p * 2 ^ 6 + t).
  unfold unmerge_type_and_hint, as_u8, as_u32.
  change (Z.land (Z.shiftr v 38) 3) with (Z.land (Z.shiftr v 38) (2 ^ 2 - 1)).
  change (Z.land v 63) with (Z.land v (2 ^ 6 - 1)).
  rewrite !land_ones_mod, !Z.shiftr_div_pow2 by lia.
  replace (v / 2 ^ 38) with y by (apply (Z.div_unique _ _ _ (p * 2 ^ 6 + t)); lia).
  replace (v / 2 ^ 6) with (y * 2 ^ 32 + p) by (apply (Z.div_unique _ _ _ t); lia).
  replace (v mod 2 ^ 6) with t by (apply (Z.mod_unique _ _ (y * 2 ^ 32 + p)); lia).
  replace ((y * 2 ^ 32 + p) mod 2 ^ 32) with p by (apply (Z.mod_unique _ _ y); lia).
  rewrite (Z.mod_small y), (Z.mod_small y (2 ^ 8)), (Z.mod_small p), (Z.mod_small t) by lia.
  subst y. rewrite note_type_u8_roundtrip. cbn [mbind res_bind]. by rewrite Hr.
Qed.

(** ** What the constructors guarantee *)


Definition valid_tag (t : NoteTag) : Prop := 0 ≤ tag_inner t < 2 ^ 32.

(** The metadata that [NoteMetadata::new] can build from checked parts. *)
Record valid_metadata (m : NoteMetadata) : Prop := {
  vm_sender : valid_id (nm_sender m);
  vm_tag : valid_tag (nm_tag m);
  vm_hint : valid_hint (nm_execution_hint m);
  vm_type : tag_validate (nm_tag m) (nm_note_type m) = Ok (nm_tag m)
}.

Lemma tag_validate_Ok t ty t' : tag_validate t ty = Ok t' → t' = t.
Proof. unfold tag_validate. repeat case_match; congruence. Qed.

Lemma tag_validate_no_panic t ty : tag_validate t ty ≠ Panic.
Proof. unfold tag_validate. by repeat case_match. Qed.

Lemma metadata_new_valid sender ty tag h aux m :
  valid_id sender → valid_tag tag → valid_hint h →
  metadata_new sender ty tag h aux = Ok m →
  valid_metadata m ∧ m = mkMetadata sender ty tag aux h.
Proof.
  intros Hs Ht Hh. unfold metadata_new.
  destruct (tag_validate tag ty) as [t| |] eqn:Hv; [|discriminate..].
  pose proof (tag_validate_Ok _ _ _ Hv). subst t. intros [= <-]. done.
Qed.

Lemma metadata_new_id m :
  valid_metadata m →
  metadata_new (nm_sender m) (nm_note_type m) (nm_tag m) (nm_execution_hint m) (nm_aux m) = Ok m.
Proof. intros [_ _ _ Hv]. unfold metadata_new. rewrite Hv. by destruct m. Qed.

Lemma hint_from_parts_valid tag payload h :
  0 ≤ payload < 2 ^ 32 → hint_from_parts tag payload = Ok h → valid_hint h.
Proof.
  intros Hp. unfold hint_from_parts. repeat case_match; try discriminate; intros [= <-]; cbn [valid_hint]; try done.
  change 255 with (2 ^ 8 - 1). rewrite !land_ones_mod by lia. split_and!; apply Z.mod_pos_bound; lia.
Qed.

Lemma unmerge_valid v th : unmerge_type_and_hint v = Ok th → valid_hint th.2.
Proof.
  unfold unmerge_type_and_hint. destruct (note_type_try_from_u8 _) as [ty| |]; [|discriminate..].
  cbn [mbind res_bind]. destruct (hint_from_parts _ _) as [h| |] eqn:Hh; [|discriminate..].
  intros [= <-]. eapply hint_from_parts_valid; [|exact Hh]. apply Z.mod_pos_bound. lia.
Qed.

Lemma note_metadata_decodes {B : ByteIO} :
  decodes valid_metadata (write_into (A:=NoteMetadata)) read_from.
Proof.
  intros m rest Hm. pose proof (metadata_new_id m Hm) as Hnew. destruct Hm as [Hs Ht Hh Hv].
  cbn [write_into read_from NoteMetadata_ser NoteMetadata_de]. rewrite <-!app_assoc.
  rewrite (serde_bind valid_id) by done.
  rewrite read_u64_bind by (pose proof (merge_range (nm_note_type m) _ Hh); lia).
  unfold mbind, reader_bind. unfold reader_lift at 1. rewrite unmerge_merge by done.
  cbn [fst snd]. cbn [write_into read_from NoteTag_ser NoteTag_de].
  unfold mbind, reader_bind. rewrite u32_decodes by done. cbn.
  rewrite felt_decodes by done. unfold reader_lift. destruct (nm_tag m) as [t] eqn:E.
  cbn [tag_inner]. by rewrite Hnew.
Qed.

Lemma metadata_word_roundtrip m :
  valid_metadata m → metadata_try_from_word (metadata_to_word m) = Ok m.
Proof.
  intros Hm. pose proof (metadata_new_id m Hm) as Hnew. destruct Hm as [Hs Ht Hh Hv].
  unfold metadata_try_from_word, metadata_to_word. cbn [w0 w1 w2 w3]. rewrite Hs.
  cbn [map_err mbind res_bind].
  pose proof (merge_range (nm_note_type m) _ Hh). unfold valid_tag in Ht.
  rewrite !as_int_small by (unfold MODULUS; lia). rewrite unmerge_merge by done.
  cbn [mbind res_bind fst snd]. rewrite try_into_u32_small by done. cbn [ok_or mbind res_bind].
  by destruct (nm_tag m) eqn:E.
Qed.

(** ** Tag layout *)

Lemma land_high16 x : 0 ≤ x < 2 ^ 32 → Z.land x (Z.shiftl (Z.ones 16) 16) = x / 2 ^ 16 * 2 ^ 16.
Proof.
  intros Hx. transitivity (Z.shiftl (Z.land (Z.shiftr x 16) (Z.ones 16)) 16).
  - apply Z.bits_inj'. intros i Hi. rewrite Z.land_spec. destruct (Z.lt_ge_cases i 16).
    + rewrite !(Z.shiftl_spec_low _ 16 i) by lia. apply andb_false_r.
    + rewrite !Z.shiftl_spec, Z.land_spec, Z.shiftr_spec by lia. do 2 f_equal. lia.
  - rewrite Z.land_ones, Z.shiftr_div_pow2, Z.shiftl_mul_pow2 by lia.
    rewrite Z.mod_small; [done|]. split; [apply Z.div_pos; lia|apply Z.div_lt_upper_bound; lia].
Qed.

Lemma lor3 top uc payload :
  0 ≤ uc < 2 ^ 14 → 0 ≤ payload < 2 ^ 16 →
  Z.lor (Z.lor (Z.shiftl top 30) (Z.shiftl uc 16)) payload = top * 2 ^ 30 + uc * 2 ^ 16 + payload.
Proof.
  intros Hu Hp.
  replace (Z.shiftl top 30) with (Z.shiftl (Z.shiftl top 14) 16) by (rewrite Z.shiftl_shiftl by lia; done).
  rewrite <-Z.shiftl_lor, !lor_shiftl_add by lia. lia.
Qed.

Lemma use_case_guard uc : 0 ≤ uc → negb (Z.shiftr uc 14 =? 0) = negb (uc <? 2 ^ 14).
Proof.
  intros Hu. rewrite Z.shiftr_div_pow2 by lia. f_equal. apply eq_true_iff_eq.
  rewrite Z.eqb_eq, Z.ltb_lt. split; [intros H%Z.div_small_iff; lia|intros; apply Z.div_small; lia].
Qed.

(** The two most significant bits of a tag. *)
Definition tag_prefix (t : NoteTag) : Z := tag_inner t / 2 ^ 30.

Lemma tag_prefix_range t : valid_tag t → 0 ≤ tag_prefix t < 4.
Proof.
  intros Ht. unfold tag_prefix, valid_tag in *.
  split; [apply Z.div_pos; lia|apply Z.div_lt_upper_bound; lia].
Qed.

Lemma tag_hint_prefix t :
  valid_tag t → tag_execution_hint t = if tag_prefix t <? 2 then Network else Local.
Proof.
  intros Ht. pose proof (tag_prefix_range t Ht). unfold tag_execution_hint, LOCAL_EXECUTION.
  rewrite Z.shiftr_div_pow2 by lia. unfold tag_prefix in *.
  replace (2 ^ 31) with (2 ^ 30 * 2) by lia. rewrite <-Z.div_div by lia.
  set (q := tag_inner t / 2 ^ 30) in *.
  assert (q = 0 ∨ q = 1 ∨ q = 2 ∨ q = 3) as [->|[->|[->| ->]]] by lia; done.
Qed.

Lemma tag_use_case_prefix t :
  valid_tag t → (Z.land (tag_inner t) (Z.shiftl 3 30) =? PUBLIC_USECASE) = (tag_prefix t =? 2).
Proof.
  intros Ht. pose proof (tag_prefix_range t Ht) as Hr.
  assert (Z.land (tag_inner t) (Z.shiftl 3 30) = Z.shiftl (tag_prefix t) 30) as ->.
  { apply Z.bits_inj'. intros i Hi. rewrite Z.land_spec. unfold tag_prefix.
    destruct (Z.lt_ge_cases i 30).
    - rewrite !(Z.shiftl_spec_low _ 30 i) by lia. apply andb_false_r.
    - rewrite <-Z.shiftr_div_pow2, !Z.shiftl_spec, Z.shiftr_spec by lia.
      replace (i - 30 + 30) with i by lia. destruct (Z.lt_ge_cases i 32).
      + assert (i = 30 ∨ i = 31) as [-> | ->] by lia; cbn; apply andb_true_r.
      + rewrite (testbit_high (tag_inner t) 32) by (unfold valid_tag in Ht; lia). done. }
  unfold PUBLIC_USECASE. set (q := tag_prefix t) in *. clearbody q.
  assert (q = 0 ∨ q = 1 ∨ q = 2 ∨ q = 3) as [->|[->|[->| ->]]] by lia; done.
Qed.

Lemma tag_single_prefix t : is_single_target t = (tag_prefix t =? 0).
Proof. unfold is_single_target, tag_prefix. by rewrite Z.shiftr_div_pow2. Qed.

(** ** Slots *)

Lemma u32_shl_small {E} c n :
  0 ≤ n < 32 → u32_shl (E:=E) c 1 n = Ok (2 ^ n).
Proof.
  intros Hn. unfold u32_shl. destruct (Z.ltb_spec n 32); [|lia].
  rewrite Z.shiftl_1_l, Z.mod_small; [done|]. split; [lia|]. apply Z.pow_lt_mono_r; lia.
Qed.

Lemma u32_result_small {E} c z : 0 ≤ z < 2 ^ 32 → u32_result (E:=E) c z = Ok z.
Proof. intros Hz. unfold u32_result. by rewrite in_u32_small. Qed.

(** The slot test when no intermediate result but the end of the slot can
    overflow. *)
Lemma can_be_consumed_slot_eq {E} c e s o b :
  0 ≤ e < 32 → 0 ≤ s < 32 → 0 ≤ o → 0 ≤ b < 2 ^ 32 →
  b / 2 ^ e * 2 ^ e + o * 2 ^ s < 2 ^ 32 →
  can_be_consumed (E:=E) c (OnBlockSlot e s o) b =
    slot_end ← u32_add c (b / 2 ^ e * 2 ^ e + o * 2 ^ s) (2 ^ s);
    Ok (Some ((b / 2 ^ e * 2 ^ e + o * 2 ^ s <=? b) && (b <? slot_end))).
Proof.
  intros He Hs Ho Hb Hend. unfold can_be_consumed. rewrite !u32_shl_small by done.
  cbn [mbind res_bind]. unfold u32_mul, u32_add.
  assert (0 < 2 ^ e ∧ 0 < 2 ^ s) as [? ?] by lia.
  assert (0 ≤ b / 2 ^ e) by (apply Z.div_pos; lia).
  rewrite (u32_result_small c (b / 2 ^ e * 2 ^ e)) by nia. cbn [mbind res_bind].
  rewrite (u32_result_small c (o * 2 ^ s)) by nia. cbn [mbind res_bind].
  rewrite (u32_result_small c (b / 2 ^ e * 2 ^ e + o * 2 ^ s)) by nia. done.
Qed.
End NoteMeta.

(** ** Theorems *)

Section NoteMetaTheorems.
  Context {F : FeltApi}.

(** Metadata built from checked parts is recovered both from the word that
    the kernel stores and from its serialization, and whatever word is accepted
    is metadata that was checked: a valid sender, a 32-bit tag that agrees with
    the note type, and a hint whose fields fit their widths. *)
Theorem note_metadata_roundtrips {B : ByteIO} :
  (∀ m, valid_metadata m → metadata_try_from_word (metadata_to_word m) = Ok m ∧
    ∀ rest, read_from (write_into m ++ rest) = Ok (m, rest)) ∧
  (∀ w m, metadata_try_from_word w = Ok m → valid_metadata m).
Proof.
  split.
  - intros m Hm. split; [by apply metadata_word_roundtrip|].
    intros rest. by apply note_metadata_decodes.
  - intros w m. unfold metadata_try_from_word.
    destruct (account_id_from_felt (w1 w)) as [id| |] eqn:Hid; [|discriminate..].
    apply account_id_from_felt_valid in Hid. cbn [map_err mbind res_bind].
    destruct (unmerge_type_and_hint _) as [th| |] eqn:Hth; [|discriminate..].
    apply unmerge_valid in Hth. cbn [mbind res_bind].
    destruct (try_into_u32 _) as [tag|] eqn:Htag; [|discriminate]. cbn [ok_or mbind res_bind].
    intros Hm. apply (metadata_new_valid id th.1 (mkNoteTag tag) th.2 (w3 w)) in Hm as [? _]; [done..| |done].
    unfold try_into_u32, in_u32, U32_MAX, valid_tag in *. cbn.
    destruct (_ && _) eqn:E; [|discriminate]. apply andb_true_iff in E. injection Htag as <-. lia.
Qed.

Lemma tag_validate_prefix t ty :
  valid_tag t →
  tag_validate t ty =
    if bool_decide (ty = PublicNote) || (tag_prefix t =? 3) then Ok t
    else if tag_prefix t <? 2 then Err (NetworkExecutionRequiresPublicNote ty)
    else Err (PublicUseCaseRequiresPublicNote ty).
Proof.
  intros Ht. unfold tag_validate. rewrite tag_hint_prefix, tag_use_case_prefix by done.
  pose proof (tag_prefix_range t Ht). set (q := tag_prefix t) in *. clearbody q.
  assert (q = 0 ∨ q = 1 ∨ q = 2 ∨ q = 3) as [->|[->|[->| ->]]] by lia; by destruct ty.
Qed.

(** The table of tag prefixes: the execution mode is Network for [0b00] and
    [0b01] and Local for [0b10] and [0b11]; a tag agrees with a note type
    exactly when the note is public or the prefix is [0b11], and otherwise the
    error names the reason. *)
Theorem note_tag_table t ty :
  valid_tag t →
  tag_execution_hint t = (if tag_prefix t <? 2 then Network else Local) ∧
  is_single_target t = (tag_prefix t =? 0) ∧
  tag_validate t ty =
    if bool_decide (ty = PublicNote) || (tag_prefix t =? 3) then Ok t
    else if tag_prefix t <? 2 then Err (NetworkExecutionRequiresPublicNote ty)
    else Err (PublicUseCaseRequiresPublicNote ty).
Proof.
  intros Ht. split; [by apply tag_hint_prefix|]. split; [apply tag_single_prefix|].
  by apply tag_validate_prefix.
Qed.

(** The layout of the tags made for an account: for local execution the
    prefix [0b11], the 14 most significant bits of the id and 16 zeros; for
    network execution the 31 most significant bits of the id, which is refused
    exactly for private accounts and always gives a single-target tag. *)
Theorem account_tag_layout id :
  valid_id id →
  tag_from_account_id id Local =
    Ok (mkNoteTag (3 * 2 ^ 30 + account_id_to_u64 id / 2 ^ 50 * 2 ^ 16)) ∧
  ((storage_mode (E:=NoteError) id = Ok Public ∧
      tag_from_account_id id Network = Ok (mkNoteTag (account_id_to_u64 id / 2 ^ 33)) ∧
      is_single_target (mkNoteTag (account_id_to_u64 id / 2 ^ 33)) = true) ∨
   (storage_mode (E:=NoteError) id = Ok Private ∧
      tag_from_account_id id Network = Err NetworkExecutionRequiresOnChainAccount)).
Proof.
  intros Hid. pose proof (as_int_u64 (id_felt id)) as Hv.
  destruct (storage_mode_valid (E:=NoteError) id Hid) as (m & Hm & Hb).
  rewrite storage_bits_u64 in Hb by done.
  unfold tag_from_account_id, is_public, account_id_to_u64, as_u32.
  set (v := as_int (id_felt id)) in *. rewrite Hm. split.
  - assert (0 ≤ v / 2 ^ 34 < 2 ^ 30) by (split; [apply Z.div_pos|apply Z.div_lt_upper_bound]; lia).
    rewrite Z.shiftr_div_pow2, (Z.mod_small (v / 2 ^ 34)), land_high16 by lia.
    rewrite Z.div_div by lia. replace (2 ^ 34 * 2 ^ 16) with (2 ^ 50) by lia.
    assert (0 ≤ v / 2 ^ 50 < 2 ^ 14) by (split; [apply Z.div_pos|apply Z.div_lt_upper_bound]; lia).
    unfold LOCAL_EXECUTION_WITH_ALL_NOTE_TYPES_ALLOWED.
    by rewrite Z.lor_comm, lor_shiftl_add by lia.
  - assert (0 ≤ v / 2 ^ 33 < 2 ^ 31) by (split; [apply Z.div_pos|apply Z.div_lt_upper_bound]; lia).
    rewrite !Z.shiftr_div_pow2, (Z.mod_small (v / 2 ^ 33)) by lia.
    destruct m; [left|right]; (split; [done|]); [|done]. split; [done|].
    rewrite tag_single_prefix. unfold tag_prefix. cbn [tag_inner].
    apply Z.eqb_eq. rewrite Z.div_div by lia. change (2 ^ 33 * 2 ^ 30) with (2 ^ 63).
    apply Z.div_small. change (storage_mode_discr Public) with 0 in Hb.
    apply Z.div_small_iff in Hb; lia.
Qed.

(** The layout of use-case tags: ids of 14 bits are accepted and nothing
    else; the prefix, the id and the payload occupy their own bits. *)
Theorem use_case_tag_layout uc payload :
  0 ≤ uc < 2 ^ 16 → 0 ≤ payload < 2 ^ 16 →
  tag_for_local_use_case uc payload =
    (if uc <? 2 ^ 14 then Ok (mkNoteTag (3 * 2 ^ 30 + uc * 2 ^ 16 + payload))
     else Err (InvalidNoteTagUseCase uc)) ∧
  ∀ mode, tag_for_public_use_case uc payload mode =
    if uc <? 2 ^ 14
    then Ok (mkNoteTag ((match mode with Local => 2 | Network => 1 end) * 2 ^ 30 + uc * 2 ^ 16 + payload))
    else Err (InvalidNoteTagUseCase uc).
Proof.
  intros Hu Hp. unfold tag_for_local_use_case, tag_for_public_use_case.
  rewrite use_case_guard by lia. destruct (Z.ltb_spec uc (2 ^ 14)); cbn [negb]; [|done].
  unfold LOCAL_EXECUTION_WITH_ALL_NOTE_TYPES_ALLOWED.
  split; [by rewrite lor3 by lia|]. intros []; [by rewrite lor3 by lia|].
  change PUBLIC_USECASE with (Z.shiftl 2 30). by rewrite lor3 by lia.
Qed.

(** A slot hint whose slot lies inside its epoch allows consumption in
    exactly the blocks of that slot of every epoch, whether or not overflow
    checks are compiled in, as long as the slot ends below block [2^32]. *)
Theorem on_block_slot_spec {E} checks e s o b :
  0 ≤ s ≤ e → e < 32 → 0 ≤ o → (o + 1) * 2 ^ s ≤ 2 ^ e → 0 ≤ b < 2 ^ 32 →
  b / 2 ^ e * 2 ^ e + (o + 1) * 2 ^ s < 2 ^ 32 →
  can_be_consumed (E:=E) checks (OnBlockSlot e s o) b = Ok (Some (b mod 2 ^ e / 2 ^ s =? o)).
Proof.
  intros Hs He Ho Hslot Hb Hend. assert (0 < 2 ^ e ∧ 0 < 2 ^ s) as [? ?] by lia.
  assert (0 ≤ b / 2 ^ e) by (apply Z.div_pos; lia).
  rewrite can_be_consumed_slot_eq by (try done; nia). unfold u32_add.
  rewrite u32_result_small by nia. cbn [mbind res_bind].
  do 2 f_equal. apply eq_true_iff_eq. rewrite andb_true_iff, Z.leb_le, Z.ltb_lt, Z.eqb_eq.
  pose proof (Z.div_mod b (2 ^ e) ltac:(lia)) as Hdm.
  set (r := b mod 2 ^ e) in *. set (q := b / 2 ^ e) in *. clearbody r q. split.
  - intros [Hlo Hhi]. symmetry. apply (Z.div_unique _ _ _ (r - o * 2 ^ s)); [left; nia|nia].
  - intros <-. pose proof (Z.div_mod r (2 ^ s) ltac:(lia)).
    pose proof (Z.mod_pos_bound r (2 ^ s) ltac:(lia)). nia.
Qed.

(** The machine arithmetic of slot hints overflows in two places. An epoch
    length of 32 or more panics when overflow checks are on; and in the last
    slot of the last epoch the end of the slot is [2^32], so that a block of
    that slot panics with the checks and is reported as not consumable without
    them, although it lies in the slot. *)
Theorem on_block_slot_overflow {E} e s b :
  (32 ≤ e → ∀ o, can_be_consumed (E:=E) true (OnBlockSlot e s o) b = Panic) ∧
  (0 ≤ s ≤ e → e < 32 → 2 ^ 32 - 2 ^ s ≤ b < 2 ^ 32 →
   let o := 2 ^ (e - s) - 1 in
   b mod 2 ^ e / 2 ^ s = o ∧
   can_be_consumed (E:=E) true (OnBlockSlot e s o) b = Panic ∧
   can_be_consumed (E:=E) false (OnBlockSlot e s o) b = Ok (Some false)).
Proof.
  split.
  { intros He o. unfold can_be_consumed, u32_shl. by destruct (Z.ltb_spec e 32); [lia|]. }
  intros Hs He Hb o. assert (0 < 2 ^ e ∧ 0 < 2 ^ s) as [? ?] by lia.
  assert (2 ^ (32 - e) * 2 ^ e = 2 ^ 32) as H32 by (rewrite <-Z.pow_add_r by lia; f_equal; lia).
  assert ((o + 1) * 2 ^ s = 2 ^ e) as Ho.
  { subst o. rewrite Z.sub_add, <-Z.pow_add_r by lia. f_equal. lia. }
  assert (0 ≤ o) by nia. clearbody o.
  assert (b / 2 ^ e = 2 ^ (32 - e) - 1) as Hq.
  { symmetry. apply (Z.div_unique _ _ _ (b - 2 ^ 32 + 2 ^ e)); [left; nia|lia]. }
  split; [|rewrite !can_be_consumed_slot_eq by (try done; nia); rewrite Hq;
           replace ((2 ^ (32 - e) - 1) * 2 ^ e + o * 2 ^ s) with (2 ^ 32 - 2 ^ s) by lia;
           unfold u32_add, u32_result; rewrite Z.sub_add; split; [done|];
           change (in_u32 (2 ^ 32)) with false; cbn [mbind res_bind];
           change (2 ^ 32 mod 2 ^ 32) with 0; rewrite (proj2 (Z.ltb_ge b 0)) by lia;
           by rewrite andb_false_r].
  symmetry. apply (Z.div_unique _ _ _ (b - 2 ^ 32 + 2 ^ s)); [left; lia|].
  rewrite Z.mod_eq, Hq by lia. lia.
Qed.
End NoteMetaTheorems.

(** ** Witnesses *)

#[local] Existing Instance Goldilocks.
#[local] Existing Instance PlainIO.

Definition sample_metadata : NoteMetadata :=
  mkMetadata sample_faucet PrivateNote (mkNoteTag (3 * 2 ^ 30 + 77)) (felt_new 5) (OnBlockSlot 10 7 1).

Lemma sample_metadata_valid : valid_metadata sample_metadata.
Proof.
  constructor.
  - reflexivity.
  - unfold valid_tag. cbn. lia.
  - cbn. lia.
  - reflexivity.
Defined.

Lemma note_metadata_roundtrips_witness :
  metadata_try_from_word (metadata_to_word sample_metadata) = Ok sample_metadata ∧
  ∀ rest, read_from (write_into sample_metadata ++ rest) = Ok (sample_metadata, rest).
Proof. apply (proj1 note_metadata_roundtrips sample_metadata). apply sample_metadata_valid. Defined.

Lemma note_tag_table_witness :
  tag_execution_hint (mkNoteTag (2 ^ 31 + 5)) = Local ∧
  is_single_target (mkNoteTag (2 ^ 31 + 5)) = false ∧
  tag_validate (mkNoteTag (2 ^ 31 + 5)) PrivateNote = Err (PublicUseCaseRequiresPublicNote PrivateNote).
Proof. apply (note_tag_table (mkNoteTag (2 ^ 31 + 5)) PrivateNote). unfold valid_tag. cbn. lia. Defined.

Lemma account_tag_layout_witness :
  tag_from_account_id sample_faucet Local =
    Ok (mkNoteTag (3 * 2 ^ 30 + account_id_to_u64 sample_faucet / 2 ^ 50 * 2 ^ 16)).
Proof. apply (account_tag_layout sample_faucet). reflexivity. Defined.

Lemma use_case_tag_layout_witness :
  tag_for_local_use_case 9 513 = Ok (mkNoteTag (3 * 2 ^ 30 + 9 * 2 ^ 16 + 513)).
Proof. apply (use_case_tag_layout 9 513); lia. Defined.

(** Blocks 128..255 of an epoch of 1024 blocks are slot 1 of length 128. *)
Lemma on_block_slot_spec_witness :
  can_be_consumed (E:=NoteError) true (OnBlockSlot 10 7 1) 1152 = Ok (Some true) ∧
  can_be_consumed (E:=NoteError) true (OnBlockSlot 10 7 1) 1280 = Ok (Some false).
Proof.
  split; [apply (on_block_slot_spec true 10 7 1 1152)|apply (on_block_slot_spec true 10 7 1 1280)];
    vm_compute; intuition discriminate.
Defined.

Lemma on_block_slot_overflow_witness :
  can_be_consumed (E:=NoteError) true (OnBlockSlot 10 7 7) (2 ^ 32 - 1) = Panic ∧
  can_be_consumed (E:=NoteError) false (OnBlockSlot 10 7 7) (2 ^ 32 - 1) = Ok (Some false).
Proof. apply (proj2 (on_block_slot_overflow (E:=NoteError) 10 7 (2 ^ 32 - 1))); vm_compute; intuition discriminate. Defined.
