(* ===== verification/NoteContents.v ===== *)
(** * Note inputs and note assets

    Models objects/src/notes/inputs.rs and assets.rs: the two vectors a note
    carries, their limits, their padding and their commitments. *)

From S2P Require Import Prelude Felt Crypto Serde Types AccountId Assets NoteMeta.
Open Scope Z_scope.

(** [MAX_INPUTS_PER_NOTE] and [MAX_ASSETS_PER_NOTE] (objects/src/constants.rs) *)
Definition MAX_INPUTS_PER_NOTE : Z := 128.
Definition MAX_ASSETS_PER_NOTE : Z := 255.

(** [usize::next_multiple_of] *)
Definition next_multiple_of (n b : nat) : nat :=
  if (n mod b =? 0)%nat then n else (n + (b - n mod b))%nat.

(** [Vec::resize] *)
Definition vec_resize {A} (l : list A) (n : nat) (x : A) : list A :=
  take n l ++ replicate (n - length l) x.

Section NoteContents.
  Context {F : FeltApi} {H : HasherApi}.

(** ** Inputs *)

Record NoteInputs : Type := mkInputs { ni_values : list felt; ni_hash : Digest }.

Definition pad_inputs (inputs : list felt) : list felt :=
  let padded_len := next_multiple_of (length inputs) (WORD_SIZE * 2) in
  vec_resize inputs padded_len ZERO.

Definition pad_and_build (values : list felt) : NoteInputs :=
  mkInputs values (hash_elements (pad_inputs values)).

Definition note_inputs_new (values : list felt) : res NoteError NoteInputs :=
  if Z.of_nat (length values) >? MAX_INPUTS_PER_NOTE then Err (TooManyInputs (Z.of_nat (length values)))
  else Ok (pad_and_build values).
Definition note_inputs_default : NoteInputs := pad_and_build [].

(** [num_values]: the [debug_assert!] is checked in debug builds only. *)
Definition num_values {E} (debug : bool) (i : NoteInputs) : res E Z :=
  if debug && negb (Z.of_nat (length (ni_values i)) <? MAX_INPUTS_PER_NOTE) then Panic
  else Ok (as_u8 (Z.of_nat (length (ni_values i)))).

Definition inputs_format_for_advice {E} (debug : bool) (i : NoteInputs) : res E (list felt) :=
  let padded := pad_inputs (ni_values i) in
  n ← num_values debug i;
  Ok (felt_new n :: padded).

(** The debug assertion holds, if it is compiled in. *)
Definition fits_debug (debug : bool) (i : NoteInputs) : bool :=
  negb debug || (Z.of_nat (length (ni_values i)) <? MAX_INPUTS_PER_NOTE).
Lemma inputs_format_debug {E} debug i :
  inputs_format_for_advice (E:=E) debug i = if fits_debug debug i then inputs_format_for_advice false i else Panic.
Proof. unfold inputs_format_for_advice, num_values, fits_debug. by destruct debug, (_ <? _). Qed.

(** ** Assets *)

Record NoteAssets : Type := mkNoteAssets { na_assets : list Asset; na_hash : Digest }.
Definition note_assets_default : NoteAssets := mkNoteAssets [] EMPTY_WORD.

Definition compute_asset_commitment (assets : list Asset) : Digest :=
  match assets with
  | [] => EMPTY_WORD
  | _ =>
      let asset_elements := mjoin ((word_elements ∘ asset_to_word) <$> assets) in
      let asset_elements :=
        if (length assets mod 2 =? 1)%nat then asset_elements ++ word_elements EMPTY_WORD
        else asset_elements in
      hash_elements asset_elements
  end.

Definition to_padded_assets (a : NoteAssets) : list felt :=
  let n := length (na_assets a) in
  let padded_len := if (n mod 2 =? 0)%nat then (n * WORD_SIZE)%nat else ((n + 1) * WORD_SIZE)%nat in
  vec_resize (mjoin ((word_elements ∘ asset_to_word) <$> na_assets a)) padded_len ZERO.

Definition duplicate_error (a : Asset) : NoteError :=
  match a with
  | Fungible a => DuplicateFungibleAsset (fa_faucet_id a)
  | NonFungible a => DuplicateNoteNonFungibleAsset a
  end.

(** The loop of [NoteAssets::new]: [before] is [assets[..i]]. *)
Fixpoint check_unique (before rest : list Asset) : res NoteError unit :=
  match rest with
  | [] => Ok tt
  | asset :: rest' =>
      if existsb (λ a, is_same a asset) before then Err (duplicate_error asset)
      else check_unique (before ++ [asset]) rest'
  end.

Definition note_assets_new (assets : list Asset) : res NoteError NoteAssets :=
  let n := Z.of_nat (length assets) in
  if n >? MAX_ASSETS_PER_NOTE then Err (TooManyAssets n)
  else
    check_unique (take 1 assets) (drop 1 assets) ;;
    Ok (mkNoteAssets assets (compute_asset_commitment assets)).

(** [iter_mut().find(|a| a.is_same(&asset))], as the index of the element. *)
Definition find_same (asset : Asset) (assets : list Asset) : option (nat * Asset) :=
  list_find (λ a, is_same a asset = true) assets.

Definition set_assets (l : list Asset) (s : NoteAssets) : NoteAssets := mkNoteAssets l (na_hash s).

(** [NoteAssets::add_asset] *)
Definition note_add_asset (asset : Asset) : mut NoteAssets NoteError unit := λ self,
  match find_same asset (na_assets self) with
  | Some (i, own_asset) =>
      match own_asset with
      | Fungible f_own_asset =>
          match (other ← unwrap_fungible asset; map_err InvalidAssetData (fungible_add f_own_asset other)) with
          | Ok new_asset =>
              let l := <[i := Fungible new_asset]> (na_assets self) in
              (Ok tt, mkNoteAssets l (compute_asset_commitment l))
          | Err e => (Err e, self)
          | Panic => (Panic, self)
          end
      | NonFungible nf_asset => (Err (DuplicateNoteNonFungibleAsset nf_asset), self)
      end
  | None =>
      let l := na_assets self ++ [asset] in
      if Z.of_nat (length l) >? MAX_ASSETS_PER_NOTE
      then (Err (TooManyAssets (Z.of_nat (length l))), set_assets l self)
      else (Ok tt, mkNoteAssets l (compute_asset_commitment l))
  end.

(** ** Serialization

    Both writers convert the length to a [u8] with [expect], so that writing
    can panic. *)

Section Ser.
  Context {B : ByteIO}.

Definition inputs_write {E} (i : NoteInputs) : res E bytes :=
  n ← expect_some (try_into_u8 (Z.of_nat (length (ni_values i))));
  Ok (write_u8 n ++ write_many write_felt (ni_values i)).
Definition inputs_read : reader NoteInputs :=
  num_values ← read_u8;
  values ← read_many read_felt (Z.to_nat num_values);
  reader_lift (note_inputs_new values).

(** The [debug_assert!] before the conversion fails only where it panics too. *)
Definition assets_write {E} (a : NoteAssets) : res E bytes :=
  n ← expect_some (try_into_u8 (Z.of_nat (length (na_assets a))));
  Ok (write_u8 n ++ write_many write_into (na_assets a)).
Definition assets_read : reader NoteAssets :=
  count ← read_u8;
  assets ← read_many read_from (Z.to_nat count);
  reader_lift (note_assets_new assets).
End Ser.

(** ** Padding *)

Lemma next_multiple_of_8 n : ∃ k, (k < 8)%nat ∧ next_multiple_of n 8 = (n + k)%nat ∧ ((n + k) mod 8 = 0)%nat.
Proof.
  unfold next_multiple_of. pose proof (Nat.mod_upper_bound n 8). pose proof (Nat.div_mod_eq n 8).
  destruct (Nat.eqb_spec (n mod 8) 0).
  - exists 0%nat. rewrite Nat.add_0_r. split_and!; (done || lia).
  - exists (8 - n mod 8)%nat. split_and!; [lia|done|].
    replace (n + (8 - n mod 8))%nat with ((n / 8 + 1) * 8)%nat by lia. apply Nat.Div0.mod_mul.
Qed.

Lemma vec_resize_pad {A} (l : list A) k x : vec_resize l (length l + k) x = l ++ replicate k x.
Proof. unfold vec_resize. rewrite take_ge by lia. do 2 f_equal. lia. Qed.

(** The zeros that fill the last block of eight. *)
Definition padding (n : nat) : nat := next_multiple_of n 8 - n.

Lemma padding_spec n : (padding n < 8)%nat ∧ ((n + padding n) mod 8 = 0)%nat.
Proof. unfold padding. destruct (next_multiple_of_8 n) as (k & ? & -> & ?). by replace (n + k - n)%nat with k by lia. Qed.

Lemma padding_unique n k : (k < 8)%nat → ((n + k) mod 8 = 0)%nat → padding n = k.
Proof.
  intros Hk Hm. destruct (padding_spec n) as [Hp Hq].
  apply Nat.Div0.mod_divides in Hm as [a Ha]. apply Nat.Div0.mod_divides in Hq as [b Hb]. lia.
Qed.

Lemma pad_inputs_eq v : pad_inputs v = v ++ replicate (padding (length v)) ZERO.
Proof.
  unfold pad_inputs, padding. change (WORD_SIZE * 2)%nat with 8%nat.
  destruct (next_multiple_of_8 (length v)) as (k & _ & -> & _). rewrite vec_resize_pad.
  do 2 f_equal. lia.
Qed.

Lemma pad_inputs_zero v :
  padding (length v) ≠ 0%nat → pad_inputs (v ++ [ZERO]) = pad_inputs v.
Proof.
  intros Hne. destruct (padding_spec (length v)) as [Hp Hq].
  rewrite !pad_inputs_eq, length_app. cbn [length].
  rewrite (padding_unique (length v + 1) (padding (length v) - 1));
    [|lia|by replace (length v + 1 + (padding (length v) - 1))%nat with (length v + padding (length v))%nat by lia].
  rewrite <-app_assoc. f_equal. destruct (padding (length v)) as [|k]; [done|].
  cbn [app replicate]. do 2 f_equal. lia.
Qed.

Definition wf_inputs (i : NoteInputs) : Prop :=
  Z.of_nat (length (ni_values i)) ≤ MAX_INPUTS_PER_NOTE ∧ i = pad_and_build (ni_values i).

Lemma note_inputs_new_Ok v i :
  note_inputs_new v = Ok i ↔ Z.of_nat (length v) ≤ MAX_INPUTS_PER_NOTE ∧ i = pad_and_build v.
Proof.
  unfold note_inputs_new. rewrite Z.gtb_ltb.
  destruct (Z.ltb_spec MAX_INPUTS_PER_NOTE (Z.of_nat (length v))).
  - split; [discriminate|lia].
  - naive_solver.
Qed.

Lemma note_inputs_new_wf v i : note_inputs_new v = Ok i → wf_inputs i ∧ ni_values i = v.
Proof. intros [Hn ->]%note_inputs_new_Ok. done. Qed.

(** The commitment does not bind the number of inputs: unless the number is a
    multiple of eight, a zero input can be appended. *)
Lemma inputs_append_zero i :
  wf_inputs i → (length (ni_values i) mod 8 ≠ 0)%nat →
  ∃ i', wf_inputs i' ∧ ni_values i' = ni_values i ++ [ZERO] ∧ ni_hash i' = ni_hash i.
Proof.
  intros [Hn Hi] Hm. exists (pad_and_build (ni_values i ++ [ZERO])).
  assert (length (ni_values i) ≠ 128%nat) by (intros E; by rewrite E in Hm).
  split; [|split; [done|]].
  - split; [|done]. unfold MAX_INPUTS_PER_NOTE in *. cbn [ni_values pad_and_build].
    rewrite length_app. cbn. lia.
  - rewrite Hi at 2. cbn. rewrite pad_inputs_zero; [done|].
    destruct (padding_spec (length (ni_values i))) as [_ Hq]. intros E. by rewrite E, Nat.add_0_r in Hq.
Qed.

(** ** Asset lists *)

Record wf_note_assets (a : NoteAssets) : Prop := {
  wn_len : Z.of_nat (length (na_assets a)) ≤ MAX_ASSETS_PER_NOTE;
  wn_valid : Forall valid_asset (na_assets a);
  wn_nodup : NoDup (vault_key <$> na_assets a);
  wn_hash : na_hash a = compute_asset_commitment (na_assets a)
}.

Lemma existsb_same before asset :
  Forall valid_asset before → valid_asset asset →
  existsb (λ a, is_same a asset) before = true ↔ vault_key asset ∈ vault_key <$> before.
Proof.
  intros Hb Ha. rewrite existsb_exists, list_elem_of_fmap. rewrite Forall_forall in Hb.
  split; intros (x & H1 & H2).
  - apply list_elem_of_In in H1. exists x. split; [|done]. symmetry. apply vault_key_is_same; auto.
  - exists x. split; [by apply list_elem_of_In|]. apply vault_key_is_same; auto.
Qed.

Lemma check_unique_spec before rest :
  Forall valid_asset before → Forall valid_asset rest → NoDup (vault_key <$> before) →
  match check_unique before rest with
  | Ok _ => NoDup (vault_key <$> before ++ rest)
  | Err e => ¬ NoDup (vault_key <$> before ++ rest)
  | Panic => False
  end.
Proof.
  intros Hb Hr. revert before Hb. induction Hr as [|asset rest Ha Hr IH]; intros before Hb ND; cbn [check_unique].
  { by rewrite app_nil_r. }
  destruct (existsb _ before) eqn:He.
  - apply existsb_same in He; [|done..]. rewrite fmap_app, fmap_cons, NoDup_app.
    intros (_ & Hd & _). apply (Hd _ He). left.
  - specialize (IH (before ++ [asset])). rewrite <-app_assoc in IH. apply IH.
    + by apply Forall_app_2; [|apply Forall_singleton].
    + rewrite fmap_app. apply NoDup_app. split; [done|]. split; [|apply NoDup_singleton].
      intros k Hk [->|[]%not_elem_of_nil]%elem_of_cons.
      apply existsb_same in Hk; [|done..]. congruence.
Qed.

Lemma note_assets_new_cases l :
  Forall valid_asset l →
  match note_assets_new l with
  | Ok a => wf_note_assets a ∧ na_assets a = l
  | Err e => MAX_ASSETS_PER_NOTE < Z.of_nat (length l) ∨ ¬ NoDup (vault_key <$> l)
  | Panic => False
  end.
Proof.
  intros Hl. unfold note_assets_new. rewrite Z.gtb_ltb.
  destruct (Z.ltb_spec MAX_ASSETS_PER_NOTE (Z.of_nat (length l))); [by left|].
  assert (match check_unique (take 1 l) (drop 1 l) with
          | Ok _ => NoDup (vault_key <$> l) | Err _ => ¬ NoDup (vault_key <$> l) | Panic => False end) as Hc.
  { pose proof (check_unique_spec (take 1 l) (drop 1 l)) as Hc. rewrite take_drop in Hc. apply Hc.
    - by apply Forall_take.
    - by apply Forall_drop.
    - destruct l as [|x l]; [constructor|]. cbn. apply NoDup_singleton. }
  destruct (check_unique _ _); cbn; [|by right|done]. done.
Qed.

Lemma note_assets_new_wf a :
  wf_note_assets a → note_assets_new (na_assets a) = Ok a.
Proof.
  intros [Hn Hv ND Hh]. pose proof (note_assets_new_cases _ Hv) as Hc.
  destruct (note_assets_new (na_assets a)) as [a'| |]; [|naive_solver lia|done].
  destruct Hc as [[_ _ _ Hh'] E]. destruct a as [l h], a' as [l' h']. cbn in *. by subst.
Qed.

(** ** What a note holds

    The abstract content of an asset list: an amount for every faucet, and the
    non-fungible assets. *)

Definition asset_amount (id : AccountId) (a : Asset) : Z :=
  match a with
  | Fungible f => if decide (fa_faucet_id f = id) then fa_amount f else 0
  | NonFungible _ => 0
  end.
Definition note_balance (l : list Asset) (id : AccountId) : Z :=
  foldr (λ a acc, asset_amount id a + acc) 0 l.

Lemma note_balance_cons x l id : note_balance (x :: l) id = asset_amount id x + note_balance l id.
Proof. done. Qed.

Lemma note_balance_app l l' id : note_balance (l ++ l') id = note_balance l id + note_balance l' id.
Proof.
  induction l as [|x l IH]; [done|]. cbn [app]. rewrite !note_balance_cons, IH. lia.
Qed.

Lemma note_balance_insert l i a b id :
  l !! i = Some a →
  note_balance (<[i := b]> l) id = note_balance l id - asset_amount id a + asset_amount id b.
Proof.
  intros Hi. rewrite insert_take_drop by (by eapply lookup_lt_Some).
  rewrite <-(take_drop_middle l i a Hi) at 3. rewrite !note_balance_app, !note_balance_cons. lia.
Qed.

(** A balance is one entry's amount, since no faucet appears twice. *)
Lemma note_balance_unique l i f :
  NoDup (vault_key <$> l) → l !! i = Some (Fungible f) → note_balance l (fa_faucet_id f) = fa_amount f.
Proof.
  intros ND Hi. rewrite <-(take_drop_middle l i _ Hi) in ND |- *. rewrite note_balance_app, note_balance_cons.
  cbn [asset_amount]. rewrite decide_True by done.
  rewrite fmap_app, fmap_cons in ND. apply NoDup_app in ND as (_ & Hd & ND).
  apply NoDup_cons in ND as [Hn _].
  assert (∀ l', vault_key (Fungible f) ∉ vault_key <$> l' → note_balance l' (fa_faucet_id f) = 0) as Hz.
  { induction l' as [|x l' IH]; [done|]. rewrite fmap_cons, not_elem_of_cons. intros [Hne Hni].
    rewrite note_balance_cons, IH by done. destruct x as [g|]; cbn [asset_amount]; [|done].
    rewrite decide_False; [done|]. intros E. apply Hne. cbn. unfold fungible_vault_key. by rewrite E. }
  rewrite !Hz; [lia|done|]. intros Hin. apply (Hd _ Hin). left.
Qed.

(** The entry that [add_asset] updates is the one with the asset's key. *)
Lemma find_same_Some asset l i own :
  Forall valid_asset l → valid_asset asset → find_same asset l = Some (i, own) →
  l !! i = Some own ∧ vault_key own = vault_key asset ∧ is_same own asset = true.
Proof.
  intros Hl Ha (Hi & Hs & _)%list_find_Some. split; [done|]. split; [|done].
  apply vault_key_is_same; [|done..]. by eapply Forall_lookup.
Qed.

Lemma find_same_None asset l :
  Forall valid_asset l → valid_asset asset → find_same asset l = None → vault_key asset ∉ vault_key <$> l.
Proof.
  intros Hl Ha Hn%list_find_None (x & Hk & Hx)%list_elem_of_fmap. rewrite Forall_forall in Hl, Hn.
  apply (Hn x Hx). apply vault_key_is_same; auto.
Qed.

Lemma wf_set_entry l i own new :
  wf_note_assets (mkNoteAssets l (compute_asset_commitment l)) →
  l !! i = Some own → vault_key own = vault_key new → valid_asset new →
  wf_note_assets (mkNoteAssets (<[i := new]> l) (compute_asset_commitment (<[i := new]> l))).
Proof.
  intros [Hn Hv ND _] Hi Hk Hnew. split; cbn in *; [|by apply Forall_insert| |done].
  - by rewrite length_insert.
  - rewrite list_fmap_insert, list_insert_id; [done|]. by rewrite list_lookup_fmap, Hi, <-Hk.
Qed.

Lemma wf_push l asset :
  wf_note_assets (mkNoteAssets l (compute_asset_commitment l)) →
  Z.of_nat (length (l ++ [asset])) ≤ MAX_ASSETS_PER_NOTE → valid_asset asset →
  vault_key asset ∉ vault_key <$> l →
  wf_note_assets (mkNoteAssets (l ++ [asset]) (compute_asset_commitment (l ++ [asset]))).
Proof.
  intros [_ Hv ND _] Hn Ha Hk. split; cbn in *; [done| | |done].
  - by apply Forall_app_2; [|apply Forall_singleton].
  - rewrite fmap_app. apply NoDup_app. split; [done|]. split; [|apply NoDup_singleton].
    intros k Hin Hk'%list_elem_of_singleton. by subst.
Qed.

Lemma wf_note_assets_eta a : wf_note_assets a → a = mkNoteAssets (na_assets a) (compute_asset_commitment (na_assets a)).
Proof. intros Ha. rewrite <-(wn_hash _ Ha). by destruct a. Qed.

Lemma fungible_add_cases f g :
  valid_fungible f → valid_fungible g → fa_faucet_id f = fa_faucet_id g →
  fungible_add f g =
    if fa_amount f + fa_amount g >? MAX_AMOUNT then Err (AmountTooBig (fa_amount f + fa_amount g))
    else Ok (mkFungibleAsset (fa_faucet_id f) (fa_amount f + fa_amount g)).
Proof.
  intros (_ & _ & Hf) (_ & _ & Hg) E. unfold fungible_add, u64_checked_add.
  rewrite decide_True by done. unfold MAX_AMOUNT, U64_MAX in *.
  destruct (Z.leb_spec (fa_amount f + fa_amount g) (2 ^ 64 - 1)); [done|lia].
Qed.

(** The content of a list after one entry was replaced by the sum. *)
Lemma note_balance_merged l i f g amount id :
  l !! i = Some (Fungible f) → fa_faucet_id f = fa_faucet_id g → amount = fa_amount f + fa_amount g →
  note_balance (<[i := Fungible (mkFungibleAsset (fa_faucet_id f) amount)]> l) id =
    note_balance l id + asset_amount id (Fungible g).
Proof.
  intros Hi E ->. rewrite (note_balance_insert _ _ _ _ _ Hi). cbn [asset_amount fa_faucet_id fa_amount].
  rewrite E. case_decide; lia.
Qed.

Lemma elem_of_merged (l : list Asset) (i : nat) f h x :
  l !! i = Some (Fungible f) → NonFungible x ∈ <[i := Fungible h]> l ↔ NonFungible x ∈ l.
Proof.
  intros Hi. rewrite insert_take_drop by (by eapply lookup_lt_Some).
  rewrite <-(take_drop_middle l i _ Hi) at 3. set_solver.
Qed.

(** ** Commitments

    Two lists of assets with one commitment are equal, unless the inputs of the
    hash collide. *)

Lemma word_elements_join_inj (l l' : list Word) :
  mjoin (word_elements <$> l) = mjoin (word_elements <$> l') → l = l'.
Proof.
  revert l'. induction l as [|w l IH]; intros [|w' l']; [done|discriminate..|].
  cbn [fmap list_fmap mjoin list_join]. intros E.
  apply app_inj_1 in E as [Ew El]; [|done]. apply word_elements_inj in Ew as ->. f_equal. by apply IH.
Qed.

(** The words that are hashed: an odd number of assets is followed by a zero
    word. *)
Definition asset_words (l : list Asset) : list Word :=
  (asset_to_word <$> l) ++ (if (length l mod 2 =? 1)%nat then [EMPTY_WORD] else []).

Lemma compute_asset_commitment_eq l :
  l ≠ [] → compute_asset_commitment l = hash_elements (mjoin (word_elements <$> asset_words l)).
Proof.
  intros Hl. unfold asset_words. destruct l as [|x l]; [done|]. cbn [compute_asset_commitment].
  rewrite fmap_app, join_app, <-list_fmap_compose. by destruct (_ =? 1)%nat; rewrite ?app_nil_r.
Qed.

Lemma valid_asset_word_nonzero a : valid_asset a → asset_to_word a ≠ EMPTY_WORD.
Proof.
  assert (¬ valid_id (mkAccountId ZERO)) as Hz.
  { intros [Hc _]%valid_id_bits. revert Hc. cbn [id_felt]. rewrite as_int_ZERO. by vm_compute. }
  intros Ha E. apply Hz. destruct a as [a|a]; destruct Ha as [Hid _]; cbn [asset_to_word] in E.
  - replace (mkAccountId ZERO) with (fa_faucet_id a); [done|].
    apply (f_equal w3) in E. cbn in E. rewrite <-E. by destruct (fa_faucet_id a).
  - unfold nf_faucet_id in Hid. by rewrite E in Hid.
Qed.

Lemma asset_words_inj l l' :
  Forall valid_asset l → Forall valid_asset l' → asset_words l = asset_words l' → l = l'.
Proof.
  assert (∀ l1 l2 : list Asset, Forall valid_asset l2 →
    (asset_to_word <$> l1) ++ [EMPTY_WORD] = asset_to_word <$> l2 → False) as Hodd.
  { intros l1 l2 H2 E. assert (EMPTY_WORD ∈ asset_to_word <$> l2) as Hin by (rewrite <-E; set_solver).
    apply list_elem_of_fmap in Hin as (a & Ea & Hin). rewrite Forall_forall in H2.
    by apply (valid_asset_word_nonzero a); [apply H2|]. }
  assert (∀ l1 l2 : list Asset, Forall valid_asset l1 → Forall valid_asset l2 →
    asset_to_word <$> l1 = asset_to_word <$> l2 → l1 = l2) as Hmap.
  { induction l1 as [|a l1 IH]; intros [|b l2] H1 H2 E; [done|discriminate..|].
    apply Forall_cons in H1 as [Ha H1]. apply Forall_cons in H2 as [Hb H2].
    rewrite !fmap_cons in E. injection E as Eab E. f_equal; [by apply asset_to_word_inj|by apply IH]. }
  intros Hl Hl'. unfold asset_words.
  destruct (length l mod 2 =? 1)%nat, (length l' mod 2 =? 1)%nat; rewrite ?app_nil_r; intros E.
  - apply app_inj_2 in E as [E _]; [|done]. by apply Hmap.
  - by apply Hodd in E.
  - symmetry in E. by apply Hodd in E.
  - by apply Hmap.
Qed.

Definition assets_preimage (l : list Asset) : preimage :=
  match l with [] => NoPreimage | _ => Elements (mjoin (word_elements <$> asset_words l)) end.
Lemma asset_commitment_image l : compute_asset_commitment l = image (assets_preimage l).
Proof. destruct l as [|a l]; [done|]. by rewrite compute_asset_commitment_eq. Qed.

Lemma asset_commitment_binding l l' :
  Forall valid_asset l → Forall valid_asset l' →
  compute_asset_commitment l = compute_asset_commitment l' →
  l = l' ∨ collision (assets_preimage l) (assets_preimage l').
Proof.
  intros Hl Hl'. rewrite !asset_commitment_image. intros [E|]%image_binds; [left|by right].
  destruct l as [|a l], l' as [|a' l']; [done|discriminate..|].
  apply asset_words_inj; [done..|]. apply word_elements_join_inj. exact (inj Elements _ _ E).
Qed.

(** Equal commitments give equal inputs up to the padding. *)
Definition inputs_preimage (i : NoteInputs) : preimage := Elements (pad_inputs (ni_values i)).
Lemma inputs_commitment_binding i i' :
  wf_inputs i → wf_inputs i' → ni_hash i = ni_hash i' →
  pad_inputs (ni_values i) = pad_inputs (ni_values i') ∨ collision (inputs_preimage i) (inputs_preimage i').
Proof.
  intros [_ Hi] [_ Hi'] E. rewrite Hi, Hi' in E.
  destruct (image_binds (inputs_preimage i) (inputs_preimage i') E) as [Ei%(inj Elements)|]; [by left|by right].
Qed.

(** ** Reading back *)

Lemma inputs_reads_back {B : ByteIO} {E} i :
  wf_inputs i → ∃ bs, inputs_write (E:=E) i = Ok bs ∧ ∀ rest, inputs_read (bs ++ rest) = Ok (i, rest).
Proof.
  intros [Hn Hi]. unfold MAX_INPUTS_PER_NOTE in Hn. unfold inputs_write.
  rewrite try_into_u8_small by lia. eexists. split; [done|]. intros rest.
  unfold inputs_read. rewrite <-app_assoc, read_u8_bind by lia.
  rewrite (read_many_bind (λ _, True)); [|apply felt_decodes|by apply Forall_true|lia].
  unfold reader_lift. assert (note_inputs_new (ni_values i) = Ok i) as ->; [|done].
  by apply note_inputs_new_Ok.
Qed.

Lemma assets_reads_back {B : ByteIO} {E} a :
  wf_note_assets a → ∃ bs, assets_write (E:=E) a = Ok bs ∧ ∀ rest, assets_read (bs ++ rest) = Ok (a, rest).
Proof.
  intros Ha. pose proof (wn_len _ Ha) as Hn. unfold MAX_ASSETS_PER_NOTE in Hn. unfold assets_write.
  rewrite try_into_u8_small by lia. eexists. split; [done|]. intros rest.
  unfold assets_read. rewrite <-app_assoc, read_u8_bind by lia.
  rewrite (read_many_bind valid_asset); [|apply serde_decodes|apply Ha|lia].
  unfold reader_lift. by rewrite note_assets_new_wf.
Qed.

(** ** Theorems *)

(** Inputs are accepted exactly when there are at most 128 of them. The
    advice format of accepted inputs is their number followed by the values and
    fewer than eight zeros that complete a multiple of eight; hashing what
    follows the number gives the commitment and cutting it at the number gives
    the values back. In a debug build the format panics exactly for 128 inputs,
    which the constructor accepts. *)
Theorem note_inputs_format v i :
  (note_inputs_new v = Ok i ↔ Z.of_nat (length v) ≤ MAX_INPUTS_PER_NOTE ∧ i = pad_and_build v) ∧
  (wf_inputs i →
   ∃ padded, inputs_format_for_advice (E:=NoteError) false i =
       Ok (felt_new (Z.of_nat (length (ni_values i))) :: padded) ∧
     hash_elements padded = ni_hash i ∧ (length padded mod 8 = 0)%nat ∧
     (length padded < length (ni_values i) + 8)%nat ∧
     take (length (ni_values i)) padded = ni_values i ∧
     (inputs_format_for_advice (E:=NoteError) true i = Panic ↔
      Z.of_nat (length (ni_values i)) = MAX_INPUTS_PER_NOTE)).
Proof.
  split; [apply note_inputs_new_Ok|]. intros [Hn Hi]. unfold MAX_INPUTS_PER_NOTE in *.
  exists (pad_inputs (ni_values i)). unfold inputs_format_for_advice, num_values, as_u8, MAX_INPUTS_PER_NOTE.
  cbn [andb]. rewrite Z.mod_small by lia. destruct (padding_spec (length (ni_values i))).
  split; [done|]. split; [by rewrite Hi at 2|]. rewrite pad_inputs_eq, length_app, length_replicate.
  split; [done|]. split; [lia|]. split; [by rewrite take_app_length|].
  destruct (Z.ltb_spec (Z.of_nat (length (ni_values i))) 128); cbn; split; (done || lia).
Qed.

(** A list of well-formed assets becomes note assets exactly when it has at
    most 255 entries and no two of them share a vault key; the constructor
    never panics. *)
Theorem note_assets_new_spec l a :
  Forall valid_asset l →
  note_assets_new l ≠ Panic ∧
  (note_assets_new l = Ok a ↔
   Z.of_nat (length l) ≤ MAX_ASSETS_PER_NOTE ∧ NoDup (vault_key <$> l) ∧
   a = mkNoteAssets l (compute_asset_commitment l)).
Proof.
  intros Hl. pose proof (note_assets_new_cases l Hl) as Hc. split.
  { intros E. by rewrite E in Hc. }
  split.
  - intros E. rewrite E in Hc. destruct Hc as [Ha <-]. split; [apply Ha|]. split; [apply Ha|].
    by apply wf_note_assets_eta.
  - intros (Hn & ND & ->). by apply (note_assets_new_wf (mkNoteAssets _ _)).
Qed.

(** Adding an asset to well-formed note assets never panics. When it
    succeeds the result is well formed, the balance of every faucet grows by
    exactly the amount added and the non-fungible assets gain exactly the asset
    added. It fails only for a sum above the maximum or a non-fungible asset
    already there, with nothing changed, or for a 256th entry, which is left in
    the list under the old commitment. *)
Theorem note_add_asset_spec asset a :
  wf_note_assets a → valid_asset asset →
  match note_add_asset asset a with
  | (Ok _, a') => wf_note_assets a' ∧
      (∀ id, note_balance (na_assets a') id = note_balance (na_assets a) id + asset_amount id asset) ∧
      (∀ x, NonFungible x ∈ na_assets a' ↔ NonFungible x ∈ na_assets a ∨ asset = NonFungible x)
  | (Err (InvalidAssetData (AmountTooBig n)), a') => a' = a ∧ ∃ f, asset = Fungible f ∧
      n = note_balance (na_assets a) (fa_faucet_id f) + fa_amount f ∧ MAX_AMOUNT < n
  | (Err (DuplicateNoteNonFungibleAsset x), a') => a' = a ∧ asset = NonFungible x ∧ asset ∈ na_assets a
  | (Err (TooManyAssets n), a') => n = 256 ∧ length (na_assets a) = 255%nat ∧
      a' = mkNoteAssets (na_assets a ++ [asset]) (na_hash a)
  | _ => False
  end.
Proof.
  intros Hwf Ha. pose proof (wn_valid _ Hwf) as Hv. unfold note_add_asset.
  destruct (find_same asset (na_assets a)) as [[i own]|] eqn:Hf.
  - apply find_same_Some in Hf as (Hi & Hk & Hs); [|done..].
    pose proof (Forall_lookup_1 _ _ _ _ Hv Hi) as Hown.
    destruct own as [f|x], asset as [g|y]; try discriminate Hs.
    + apply bool_decide_eq_true in Hs. cbn [unwrap_fungible mbind res_bind].
      rewrite fungible_add_cases, Z.gtb_ltb by done.
      destruct (Z.ltb_spec MAX_AMOUNT (fa_amount f + fa_amount g)); cbn [map_err].
      * split; [done|]. exists g. rewrite <-Hs, (note_balance_unique _ i) by (done || apply Hwf). done.
      * rewrite (wf_note_assets_eta _ Hwf) in Hwf. cbn [na_assets]. split; [|split].
        -- apply (wf_set_entry _ _ (Fungible f)); [done|done|done|].
           destruct Hown as (? & ? & ?), Ha as (_ & _ & ?). split_and!; cbn; (done || lia).
        -- intros id. by apply note_balance_merged.
        -- intros x. rewrite elem_of_merged by done. naive_solver.
    + apply bool_decide_eq_true in Hs as ->. split; [done|]. split; [done|].
      by eapply list_elem_of_lookup_2.
  - apply find_same_None in Hf; [|done..]. rewrite Z.gtb_ltb.
    destruct (Z.ltb_spec MAX_ASSETS_PER_NOTE (Z.of_nat (length (na_assets a ++ [asset])))) as [Hn|Hn].
    + pose proof (wn_len _ Hwf). rewrite length_app in *. unfold MAX_ASSETS_PER_NOTE in *.
      cbn [length] in *. split; [lia|]. split; [lia|done].
    + rewrite (wf_note_assets_eta _ Hwf) in Hwf. cbn [na_assets]. split; [by apply wf_push|]. split.
      * intros id. rewrite note_balance_app, note_balance_cons. cbn. lia.
      * intros x. set_solver.
Qed.
End NoteContents.

(** ** Witnesses *)

#[local] Existing Instance Goldilocks.
#[local] Existing Instance ToyHasher.
#[local] Existing Instance PlainIO.

Definition sample_values : list felt := [felt_new 4; felt_new 9; felt_new 1].

Lemma note_inputs_format_witness :
  ∃ padded, inputs_format_for_advice (E:=NoteError) false (pad_and_build sample_values) =
      Ok (felt_new 3 :: padded) ∧ take 3 padded = sample_values.
Proof.
  destruct (proj2 (note_inputs_format sample_values (pad_and_build sample_values)))
    as (padded & E & _ & _ & _ & T & _).
  - split; [vm_compute; discriminate|reflexivity].
  - exists padded. split; [exact E|exact T].
Defined.

Definition sample_assets : list Asset := [Fungible (sample_fungible 10); NonFungible sample_nf].
Definition sample_note_assets : NoteAssets :=
  mkNoteAssets sample_assets (compute_asset_commitment sample_assets).

Lemma sample_assets_valid : Forall valid_asset sample_assets.
Proof.
  constructor; [|constructor; [|constructor]].
  - apply sample_fungible_valid. unfold MAX_AMOUNT. lia.
  - apply sample_nf_valid.
Defined.

Lemma sample_note_assets_wf : wf_note_assets sample_note_assets.
Proof.
  constructor.
  - vm_compute. discriminate.
  - apply sample_assets_valid.
  - apply (bool_decide_unpack _). vm_compute. exact I.
  - reflexivity.
Defined.

Lemma note_assets_new_spec_witness :
  note_assets_new sample_assets ≠ Panic ∧
  (note_assets_new sample_assets = Ok sample_note_assets ↔
   Z.of_nat (length sample_assets) ≤ MAX_ASSETS_PER_NOTE ∧ NoDup (vault_key <$> sample_assets) ∧
   sample_note_assets = mkNoteAssets sample_assets (compute_asset_commitment sample_assets)).
Proof. apply (note_assets_new_spec sample_assets sample_note_assets). apply sample_assets_valid. Defined.

Lemma note_add_asset_spec_witness :
  match note_add_asset (Fungible (sample_fungible 5)) sample_note_assets with
  | (Ok _, a') => note_balance (na_assets a') sample_faucet = 15
  | _ => False
  end.
Proof.
  pose proof (note_add_asset_spec (Fungible (sample_fungible 5)) sample_note_assets sample_note_assets_wf
    (sample_fungible_valid 5 ltac:(unfold MAX_AMOUNT; lia))) as Hs.
  destruct (note_add_asset _ _) as [[[]|e|] a'] eqn:E; [|discriminate E..].
  destruct Hs as (_ & Hb & _). rewrite Hb. reflexivity.
Defined.
