(* ===== verification/Notes.v ===== *)
(** * Notes

    Models objects/src/notes/script.rs, recipient.rs, note_id.rs, nullifier.rs,
    header.rs, details.rs, partial.rs, location.rs, file.rs and mod.rs: notes
    built from metadata, assets and a recipient, the digests derived from them
    and their formats. Programs and MAST nodes come from the Miden VM and Merkle
    paths from miden-crypto; they are parameters. *)

From S2P Require Import Prelude Felt Crypto Serde Types AccountId Assets VaultDelta StorageDelta Storage.
From S2P Require Import Code NoteMeta NoteContents.
Open Scope Z_scope.

(** Nodes of MAST forests and assembled programs. *)
Class ProgramApi {F : FeltApi} {A : AsmApi} := {
  Program : Type;
  (** [Program::mast_forest] and [Program::entrypoint] (a node id, a [u32]) *)
  program_mast : Program → MastForest;
  program_entrypoint : Program → Z;
  (** [mast.get_node_by_id(id)], as the digest of the node *)
  node_digest : MastForest → Z → option Digest;
  (** [MastNodeId::from_u32_safe] *)
  from_u32_safe : Z → MastForest → res DeserializationError Z;
  (** [Assembler::assemble_program] on source code *)
  assemble_program : list Z → option Program;
  (** The entry point of a program is a node of its forest. *)
  program_entrypoint_node : ∀ p, 0 ≤ program_entrypoint p < 2 ^ 32 ∧
    is_Some (node_digest (program_mast p) (program_entrypoint p));
  (** The safe conversion accepts the ids of existing nodes and no others. *)
  from_u32_safe_spec : ∀ v m,
    match from_u32_safe v m with
    | Ok id => id = v ∧ is_Some (node_digest m v)
    | Err _ => node_digest m v = None
    | Panic => False
    end
}.

(** Merkle paths and strings on the wire: [MerklePath] is opaque, and
    [read_string] reads back characters that [write_bytes] wrote. *)
Class NoteIO {F : FeltApi} {B : ByteIO} := {
  MerklePath : Type;
  write_path : MerklePath → bytes;
  read_path : reader MerklePath;
  read_string : nat → reader (list Z);
  path_decodes : decodes (λ _, True) write_path read_path;
  string_decodes : ∀ s rest, Forall (λ c, 0 ≤ c < 128) s →
    read_string (length s) (s ++ rest) = Ok (s, rest)
}.

(** [MAX_BATCHES_PER_BLOCK] and [MAX_OUTPUT_NOTES_PER_BATCH] *)
Definition MAX_BATCHES_PER_BLOCK : Z := 2 ^ (16 - 10).
Definition MAX_OUTPUT_NOTES_PER_BATCH : Z := 2 ^ 10.

Section Notes.
  Context {F : FeltApi} {H : HasherApi} {A : AsmApi} {P : ProgramApi}.

(** ** Scripts *)

Record NoteScript : Type := mkScript { ns_mast : MastForest; ns_entrypoint : Z }.

Definition script_new (code : Program) : NoteScript := mkScript (program_mast code) (program_entrypoint code).
Definition script_compile (source_code : list Z) : res NoteError NoteScript :=
  program ← ok_or NoteScriptAssemblyError (assemble_program source_code);
  Ok (script_new program).
Definition script_from_parts {E} (mast : MastForest) (entrypoint : Z) : res E NoteScript :=
  match node_digest mast entrypoint with
  | Some _ => Ok (mkScript mast entrypoint)
  | None => Panic
  end.
(** [NoteScript::hash] indexes the forest, which panics on an absent node. *)
Definition script_hash {E} (s : NoteScript) : res E Digest :=
  expect_some (node_digest (ns_mast s) (ns_entrypoint s)).

(** ** Recipients *)

Record NoteRecipient : Type := mkRecipient {
  nr_serial_num : Word;
  nr_script : NoteScript;
  nr_inputs : NoteInputs;
  nr_digest : Digest
}.

Definition compute_recipient_digest {E} (serial_num : Word) (script : NoteScript) (inputs : NoteInputs)
    : res E Digest :=
  let serial_num_hash := hash_merge serial_num EMPTY_WORD in
  script_hash ← script_hash script;
  let merge_script := hash_merge serial_num_hash script_hash in
  Ok (hash_merge merge_script (ni_hash inputs)).
Definition recipient_new {E} (serial_num : Word) (script : NoteScript) (inputs : NoteInputs)
    : res E NoteRecipient :=
  digest ← compute_recipient_digest serial_num script inputs;
  Ok (mkRecipient serial_num script inputs digest).
Definition recipient_to_elements {E} (r : NoteRecipient) : res E (list felt) :=
  hash ← script_hash (nr_script r);
  Ok (word_elements (ni_hash (nr_inputs r)) ++ word_elements hash ++ word_elements (nr_serial_num r)).

(** ** Note ids, nullifiers, details *)

Definition note_id_new (recipient asset_commitment : Digest) : Digest := hash_merge recipient asset_commitment.

Definition nullifier_new (script_hash inputs_hash asset_hash : Digest) (serial_num : Word) : Digest :=
  hash_elements (word_elements serial_num ++ word_elements script_hash ++
                 word_elements inputs_hash ++ word_elements asset_hash).
Definition most_significant_felt (nullifier : Digest) : felt := w3 nullifier.

Record NoteDetails : Type := mkNoteDetails { nd_assets : NoteAssets; nd_recipient : NoteRecipient }.
Definition details_id (d : NoteDetails) : Digest :=
  note_id_new (nr_digest (nd_recipient d)) (na_hash (nd_assets d)).
Definition details_nullifier {E} (d : NoteDetails) : res E Digest :=
  hash ← script_hash (nr_script (nd_recipient d));
  Ok (nullifier_new hash (ni_hash (nr_inputs (nd_recipient d))) (na_hash (nd_assets d))
        (nr_serial_num (nd_recipient d))).

(** ** Headers *)

Record NoteHeader : Type := mkHeader { nh_note_id : Digest; nh_metadata : NoteMetadata }.
Definition compute_note_hash (id : Digest) (metadata : NoteMetadata) : Digest :=
  hash_merge id (metadata_to_word metadata).
Definition header_hash (h : NoteHeader) : Digest := compute_note_hash (nh_note_id h) (nh_metadata h).
(** [From<&NoteHeader> for [Felt; 8]], [for [Word; 2]] and [for [u8; 64]] *)
Definition header_to_words (h : NoteHeader) : list Word := [nh_note_id h; metadata_to_word (nh_metadata h)].
Definition header_to_elements (h : NoteHeader) : list felt :=
  word_elements (nh_note_id h) ++ word_elements (metadata_to_word (nh_metadata h)).

(** ** Notes *)

Record Note : Type := mkNote { note_header : NoteHeader; note_details : NoteDetails; note_nullifier : Digest }.

Definition note_new {E} (assets : NoteAssets) (metadata : NoteMetadata) (recipient : NoteRecipient)
    : res E Note :=
  let details := mkNoteDetails assets recipient in
  let header := mkHeader (details_id details) metadata in
  nullifier ← details_nullifier details;
  Ok (mkNote header details nullifier).
Definition note_id (n : Note) : Digest := nh_note_id (note_header n).
Definition note_hash (n : Note) : Digest := header_hash (note_header n).

Record PartialNote : Type := mkPartialNote {
  pn_metadata : NoteMetadata;
  pn_recipient_digest : Digest;
  pn_assets : NoteAssets
}.
Definition partial_id (p : PartialNote) : Digest := note_id_new (pn_recipient_digest p) (na_hash (pn_assets p)).
(** [From<&PartialNote> for NoteHeader] and [From<&Note> for PartialNote] *)
Definition partial_to_header (p : PartialNote) : NoteHeader := mkHeader (partial_id p) (pn_metadata p).
Definition note_to_partial (n : Note) : PartialNote :=
  mkPartialNote (nh_metadata (note_header n)) (nr_digest (nd_recipient (note_details n)))
    (nd_assets (note_details n)).

(** ** Locations *)

Record NoteLocation : Type := mkLocation { block_num : Z; node_index_in_block : Z }.

Definition HIGHEST_INDEX : Z := MAX_BATCHES_PER_BLOCK * MAX_OUTPUT_NOTES_PER_BATCH - 1.

(** ** Serialization

    The lengths of inputs and assets are converted with [expect], so that the
    writers of the types that contain them can panic. *)

Section Ser.
  Context {B : ByteIO} {M : MastIO} {N : NoteIO}.

Record NoteInclusionProof : Type := mkProof { np_location : NoteLocation; np_note_path : MerklePath }.
Definition inclusion_proof_new (block_num node_index_in_block : Z) (note_path : MerklePath)
    : res NoteError NoteInclusionProof :=
  if node_index_in_block >? HIGHEST_INDEX then Err InvalidLocationIndex
  else Ok (mkProof (mkLocation block_num node_index_in_block) note_path).

(** A [Result] with a [DeserializationError], inside a reader. *)
Definition reader_of {X} (m : res DeserializationError X) : reader X := λ bs, x ← m; Ok (x, bs).

Definition script_write (s : NoteScript) : bytes := write_mast (ns_mast s) ++ write_u32 (ns_entrypoint s).
Definition script_read : reader NoteScript :=
  mast ← read_mast;
  id ← read_u32;
  entrypoint ← reader_of (from_u32_safe id mast);
  reader_of (script_from_parts mast entrypoint).
Definition script_from_bytes (bs : bytes) : res NoteError NoteScript :=
  map_err NoteScriptDeserializationError (fst <$> script_read bs).

(** [From<&NoteScript> for Vec<Felt>]: the entry point, the length, and the
    bytes of the forest four at a time. *)
Fixpoint encode_u32 (encoded : bytes) : list felt :=
  match encoded with
  | a :: b :: c :: d :: rest => felt_new (from_le_bytes [a; b; c; d]) :: encode_u32 rest
  | _ => []
  end.
Definition script_to_elements (s : NoteScript) : list felt :=
  let bs := write_mast (ns_mast s) in
  let len := length bs in
  let missing := if (0 <? len mod 4)%nat then (4 - len mod 4)%nat else 0%nat in
  let bs := vec_resize bs (length bs + missing) 0 in
  felt_new (ns_entrypoint s) :: felt_new (Z.of_nat len) :: encode_u32 bs.

Definition felt_try_into_u32 (x : felt) : res DeserializationError Z :=
  ok_or InvalidValue (try_into_u32 (as_int x)).

(** The loop of [TryFrom<&[Felt]> for NoteScript]. *)
Fixpoint decode_u32 (elements : list felt) : res DeserializationError bytes :=
  match elements with
  | [] => Ok []
  | x :: rest => v ← felt_try_into_u32 x; data ← decode_u32 rest; Ok (to_le_bytes 4 v ++ data)
  end.
(** [Vec::shrink_to] lowers the capacity of a vector and leaves its contents. *)
Definition shrink_to {X} (data : list X) (_ : Z) : list X := data.
Definition script_try_from_elements (elements : list felt) : res DeserializationError NoteScript :=
  match elements with
  | e0 :: e1 :: rest =>
      entrypoint ← felt_try_into_u32 e0;
      let len := as_int e1 in
      data ← decode_u32 rest;
      let data := shrink_to data len in
      mast ← fst <$> read_mast data;
      entrypoint ← from_u32_safe entrypoint mast;
      script_from_parts mast entrypoint
  | _ => Err UnexpectedEOF
  end.

Definition recipient_write {E} (r : NoteRecipient) : res E bytes :=
  inputs ← inputs_write (nr_inputs r);
  Ok (script_write (nr_script r) ++ inputs ++ write_word (nr_serial_num r)).
Definition recipient_read : reader NoteRecipient :=
  script ← script_read;
  inputs ← inputs_read;
  serial_num ← read_word;
  reader_of (recipient_new serial_num script inputs).

Definition details_write {E} (d : NoteDetails) : res E bytes :=
  assets ← assets_write (nd_assets d);
  recipient ← recipient_write (nd_recipient d);
  Ok (assets ++ recipient).
Definition details_read : reader NoteDetails :=
  assets ← assets_read; recipient ← recipient_read; mret (mkNoteDetails assets recipient).

Definition header_write (h : NoteHeader) : bytes := write_digest (nh_note_id h) ++ write_into (nh_metadata h).
Definition header_read : reader NoteHeader :=
  note_id ← read_digest; note_metadata ← read_from; mret (mkHeader note_id note_metadata).

(** The note id and the nullifier are recomputed by the reader. *)
Definition note_write {E} (n : Note) : res E bytes :=
  details ← details_write (note_details n);
  Ok (write_into (nh_metadata (note_header n)) ++ details).
Definition note_read : reader Note :=
  metadata ← read_from; details ← details_read;
  reader_of (note_new (nd_assets details) metadata (nd_recipient details)).

Definition partial_write {E} (p : PartialNote) : res E bytes :=
  assets ← assets_write (pn_assets p);
  Ok (write_into (pn_metadata p) ++ write_digest (pn_recipient_digest p) ++ assets).
Definition partial_read : reader PartialNote :=
  metadata ← read_from; recipient_digest ← read_digest; assets ← assets_read;
  mret (mkPartialNote metadata recipient_digest assets).

Definition location_write (l : NoteLocation) : bytes :=
  write_u32 (block_num l) ++ write_u16 (node_index_in_block l).
Definition location_read : reader NoteLocation :=
  block_num ← read_u32; node_index_in_block ← read_u16; mret (mkLocation block_num node_index_in_block).
Definition proof_write (p : NoteInclusionProof) : bytes :=
  location_write (np_location p) ++ write_path (np_note_path p).
Definition proof_read : reader NoteInclusionProof :=
  location ← location_read; note_path ← read_path; mret (mkProof location note_path).

Inductive NoteFile : Type :=
  | FileNoteId (id : Digest)
  | FileNoteDetails (details : NoteDetails) (after_block_num : Z) (tag : option NoteTag)
  | FileNoteWithProof (note : Note) (proof : NoteInclusionProof).

(** The characters of "note". *)
Definition MAGIC : list Z := [110; 111; 116; 101].

Definition file_write {E} (f : NoteFile) : res E bytes :=
  match f with
  | FileNoteId note_id => Ok (MAGIC ++ write_u8 0 ++ write_digest note_id)
  | FileNoteDetails details after_block_num tag =>
      details ← details_write details;
      Ok (MAGIC ++ write_u8 1 ++ details ++ write_u32 after_block_num ++ write_option write_into tag)
  | FileNoteWithProof note proof =>
      note ← note_write note;
      Ok (MAGIC ++ write_u8 2 ++ note ++ proof_write proof)
  end.
Definition file_read : reader NoteFile :=
  magic_value ← read_string 4;
  if negb (bool_decide (magic_value = MAGIC)) then ((λ _, Err InvalidValue) : reader NoteFile)
  else
    variant ← read_u8;
    match variant return reader NoteFile with
    | 0 => id ← read_digest; mret (FileNoteId id)
    | 1 =>
        details ← details_read;
        after_block_num ← read_u32;
        tag ← read_option read_from;
        mret (FileNoteDetails details after_block_num tag)
    | 2 => note ← note_read; proof ← proof_read; mret (FileNoteWithProof note proof)
    | _ => λ _, Err InvalidValue
    end.
End Ser.

(** ** Well-formed notes *)

Definition wf_script (s : NoteScript) : Prop :=
  0 ≤ ns_entrypoint s < 2 ^ 32 ∧ is_Some (node_digest (ns_mast s) (ns_entrypoint s)).

Record wf_recipient (r : NoteRecipient) : Prop := {
  wr_script : wf_script (nr_script r);
  wr_inputs : wf_inputs (nr_inputs r);
  wr_digest : ∀ E, recipient_new (E:=E) (nr_serial_num r) (nr_script r) (nr_inputs r) = Ok r
}.

Record wf_details (d : NoteDetails) : Prop := {
  wd_assets : wf_note_assets (nd_assets d);
  wd_recipient : wf_recipient (nd_recipient d)
}.

Record wf_note (n : Note) : Prop := {
  wn_details : wf_details (note_details n);
  wn_metadata : valid_metadata (nh_metadata (note_header n));
  wn_new : ∀ E, note_new (E:=E) (nd_assets (note_details n)) (nh_metadata (note_header n))
                  (nd_recipient (note_details n)) = Ok n
}.

Lemma script_new_wf p : wf_script (script_new p).
Proof. apply program_entrypoint_node. Qed.

Lemma recipient_new_wf {E} serial script inputs :
  wf_script script → wf_inputs inputs →
  ∃ r, recipient_new (E:=E) serial script inputs = Ok r ∧ wf_recipient r ∧
    nr_serial_num r = serial ∧ nr_script r = script ∧ nr_inputs r = inputs.
Proof.
  intros Hs Hi. destruct Hs as [Hr [h Hh]]. unfold recipient_new, compute_recipient_digest, script_hash.
  rewrite Hh. cbn. eexists. split; [done|]. split; [|done]. split; cbn; [by split|done|].
  intros E'. unfold recipient_new, compute_recipient_digest, script_hash. by rewrite Hh.
Qed.

Lemma note_new_wf {E} assets metadata recipient :
  wf_note_assets assets → valid_metadata metadata → wf_recipient recipient →
  ∃ n, note_new (E:=E) assets metadata recipient = Ok n ∧ wf_note n ∧
    note_details n = mkNoteDetails assets recipient ∧ nh_metadata (note_header n) = metadata.
Proof.
  intros Ha Hm Hr. pose proof (wr_script _ Hr) as [_ [h Hh]].
  unfold note_new, details_nullifier, script_hash. cbn [nd_recipient]. rewrite Hh. cbn.
  eexists. split; [done|]. split; [|done]. split; cbn; [by split|done|].
  intros E'. unfold note_new, details_nullifier, script_hash. cbn. by rewrite Hh.
Qed.

(** ** What the digests of a note bind *)

(** What is hashed for the digests of a note: for the id, the recipient in three
    steps, the nullifier, the inputs and the assets. *)
Definition note_script_root (s : NoteScript) : Digest :=
  default EMPTY_WORD (node_digest (ns_mast s) (ns_entrypoint s)).
Definition note_preimages (n : Note) : list preimage :=
  let r := nd_recipient (note_details n) in
  let a := nd_assets (note_details n) in
  let serial := nr_serial_num r in
  let root := note_script_root (nr_script r) in
  [Merged (nr_digest r) (na_hash a);
   Merged (hash_merge (hash_merge serial EMPTY_WORD) root) (ni_hash (nr_inputs r));
   Merged (hash_merge serial EMPTY_WORD) root;
   Merged serial EMPTY_WORD;
   Elements (word_elements serial ++ word_elements root ++ word_elements (ni_hash (nr_inputs r)) ++ word_elements (na_hash a));
   inputs_preimage (nr_inputs r);
   assets_preimage (na_assets a)].

Lemma script_root_hash s :
  wf_script s →
  node_digest (ns_mast s) (ns_entrypoint s) = Some (note_script_root s) ∧
  script_hash (E:=Empty_set) s = Ok (note_script_root s).
Proof. intros [_ [h Hh]]. unfold note_script_root, script_hash. by rewrite Hh. Qed.

Lemma recipient_digest_eq r h :
  wf_recipient r → node_digest (ns_mast (nr_script r)) (ns_entrypoint (nr_script r)) = Some h →
  nr_digest r = hash_merge (hash_merge (hash_merge (nr_serial_num r) EMPTY_WORD) h) (ni_hash (nr_inputs r)).
Proof.
  intros Hr Hh. pose proof (wr_digest _ Hr Empty_set) as E.
  unfold recipient_new, compute_recipient_digest, script_hash in E. rewrite Hh in E. cbn in E.
  injection E as E. by rewrite <-E.
Qed.

Lemma note_new_eq n h :
  wf_note n →
  node_digest (ns_mast (nr_script (nd_recipient (note_details n))))
    (ns_entrypoint (nr_script (nd_recipient (note_details n)))) = Some h →
  note_id n = hash_merge (nr_digest (nd_recipient (note_details n))) (na_hash (nd_assets (note_details n))) ∧
  note_nullifier n = nullifier_new h (ni_hash (nr_inputs (nd_recipient (note_details n))))
    (na_hash (nd_assets (note_details n))) (nr_serial_num (nd_recipient (note_details n))).
Proof.
  intros Hn Hh. pose proof (wn_new _ Hn Empty_set) as E.
  unfold note_new, details_nullifier, script_hash in E. cbn [nd_recipient nd_assets] in E.
  rewrite Hh in E. cbn in E. injection E as E.
  rewrite <-E at 1. split; [done|]. by rewrite <-E at 1.
Qed.

(** The parts of a note that its digests determine. *)
Definition same_content (n n' : Note) : Prop :=
  let r := nd_recipient (note_details n) in
  let r' := nd_recipient (note_details n') in
  nr_serial_num r = nr_serial_num r' ∧
  script_hash (E:=Empty_set) (nr_script r) = script_hash (nr_script r') ∧
  pad_inputs (ni_values (nr_inputs r)) = pad_inputs (ni_values (nr_inputs r')) ∧
  na_assets (nd_assets (note_details n)) = na_assets (nd_assets (note_details n')).

Lemma same_content_intro n n' :
  wf_note n → wf_note n' →
  let r := nd_recipient (note_details n) in
  let r' := nd_recipient (note_details n') in
  nr_serial_num r = nr_serial_num r' →
  script_hash (E:=Empty_set) (nr_script r) = script_hash (nr_script r') →
  ni_hash (nr_inputs r) = ni_hash (nr_inputs r') →
  na_hash (nd_assets (note_details n)) = na_hash (nd_assets (note_details n')) →
  same_content n n' ∨ collides (note_preimages n) (note_preimages n').
Proof.
  intros Hn Hn' r r' Hs Hh Hi Ha.
  pose proof (wn_details _ Hn) as [Has [_ Hin _]]. pose proof (wn_details _ Hn') as [Has' [_ Hin' _]].
  destruct (inputs_commitment_binding _ _ Hin Hin' Hi) as [Ei|]; [|right; by eapply (collides_at 5)].
  rewrite (wn_hash _ Has), (wn_hash _ Has') in Ha.
  destruct (asset_commitment_binding _ _ (wn_valid _ Has) (wn_valid _ Has') Ha) as [Ea|]; [|right; by eapply (collides_at 6)].
  left. done.
Qed.

(** ** Reading back *)

Section Laws.
  Context {B : ByteIO} {M : MastIO} {N : NoteIO}.

(** The writer [w] succeeds on [x] and the reader [r] undoes it. *)
Definition reads_back {X} (w : res Empty_set bytes) (r : reader X) (x : X) : Prop :=
  ∃ bs, w = Ok bs ∧ ∀ rest, r (bs ++ rest) = Ok (x, rest).

Lemma reads_back_bind {X Y} w r (x : X) bs (k : X → reader Y) rest :
  w = Ok bs → reads_back w r x → (r ≫= k) (bs ++ rest) = k x rest.
Proof. intros -> (bs' & [= <-] & Hr). unfold mbind, reader_bind. by rewrite Hr. Qed.

Lemma from_u32_safe_Ok m v : is_Some (node_digest m v) → from_u32_safe v m = Ok v.
Proof.
  intros [d Hd]. pose proof (from_u32_safe_spec v m) as Hs.
  destruct (from_u32_safe v m); [by destruct Hs as [-> _]|congruence|done].
Qed.

Lemma script_from_parts_Ok {E} s :
  wf_script s → script_from_parts (E:=E) (ns_mast s) (ns_entrypoint s) = Ok s.
Proof. intros [_ [d Hd]]. unfold script_from_parts. rewrite Hd. by destruct s. Qed.

Lemma script_reads_back s rest : wf_script s → script_read (script_write s ++ rest) = Ok (s, rest).
Proof.
  intros Hs. pose proof (script_from_parts_Ok (E:=DeserializationError) s Hs) as Hp.
  destruct Hs as [Hr Hd]. unfold script_read, script_write.
  rewrite <-app_assoc, (decodes_bind _ _ _ _ _ _ mast_decodes) by done.
  rewrite (decodes_bind _ _ _ _ _ _ u32_decodes) by done.
  unfold mbind at 1, reader_bind at 1. unfold reader_of at 1.
  rewrite from_u32_safe_Ok by done. cbn [mbind res_bind]. unfold reader_of. by rewrite Hp.
Qed.

Lemma recipient_reads_back r : wf_recipient r → reads_back (recipient_write r) recipient_read r.
Proof.
  intros [Hs Hi Hd]. destruct (inputs_reads_back (E:=Empty_set) _ Hi) as (bi & Ei & Hri).
  unfold reads_back, recipient_write. rewrite Ei. eexists. split; [done|]. intros rest.
  unfold recipient_read. rewrite <-!app_assoc.
  unfold mbind at 1, reader_bind at 1. rewrite script_reads_back by done.
  unfold mbind at 1, reader_bind at 1. rewrite Hri.
  rewrite (decodes_bind _ _ _ _ _ _ word_decodes) by done. unfold reader_of. by rewrite Hd.
Qed.

Lemma details_reads_back d : wf_details d → reads_back (details_write d) details_read d.
Proof.
  intros [Ha Hr]. destruct (assets_reads_back (E:=Empty_set) _ Ha) as (ba & Ea & Hra).
  destruct (recipient_reads_back _ Hr) as (br & Er & Hrr).
  unfold reads_back, details_write. rewrite Ea. cbn [mbind res_bind]. rewrite Er. eexists.
  split; [done|]. intros rest. unfold details_read. rewrite <-app_assoc.
  unfold mbind, reader_bind. rewrite Hra, Hrr. by destruct d.
Qed.

Lemma note_reads_back n : wf_note n → reads_back (note_write n) note_read n.
Proof.
  intros [Hd Hm Hn]. destruct (details_reads_back _ Hd) as (bd & Ed & Hrd).
  unfold reads_back, note_write. rewrite Ed. eexists. split; [done|]. intros rest.
  unfold note_read. rewrite <-app_assoc, (decodes_bind _ _ _ _ _ _ note_metadata_decodes) by done.
  unfold mbind, reader_bind. rewrite Hrd. unfold reader_of. by rewrite Hn.
Qed.

Definition wf_partial (p : PartialNote) : Prop := valid_metadata (pn_metadata p) ∧ wf_note_assets (pn_assets p).

Lemma partial_reads_back p : wf_partial p → reads_back (partial_write p) partial_read p.
Proof.
  intros [Hm Ha]. destruct (assets_reads_back (E:=Empty_set) _ Ha) as (ba & Ea & Hra).
  unfold reads_back, partial_write. rewrite Ea. eexists. split; [done|]. intros rest.
  unfold partial_read. rewrite <-!app_assoc, (decodes_bind _ _ _ _ _ _ note_metadata_decodes) by done.
  rewrite (decodes_bind _ _ _ _ _ _ digest_decodes) by done.
  unfold mbind, reader_bind. rewrite Hra. by destruct p.
Qed.

Lemma header_reads_back h rest : valid_metadata (nh_metadata h) → header_read (header_write h ++ rest) = Ok (h, rest).
Proof.
  intros Hm. unfold header_read, header_write.
  rewrite <-app_assoc, (decodes_bind _ _ _ _ _ _ digest_decodes) by done.
  rewrite (decodes_bind _ _ _ _ _ _ note_metadata_decodes) by done. by destruct h.
Qed.

Definition wf_location (l : NoteLocation) : Prop :=
  0 ≤ block_num l < 2 ^ 32 ∧ 0 ≤ node_index_in_block l < 2 ^ 16.

Lemma proof_reads_back p rest : wf_location (np_location p) → proof_read (proof_write p ++ rest) = Ok (p, rest).
Proof.
  intros [Hb Hi]. unfold proof_read, proof_write, location_read, location_write.
  unfold mbind at 1, reader_bind at 1. rewrite <-!app_assoc.
  rewrite (decodes_bind _ _ _ _ _ _ u32_decodes), (decodes_bind _ _ _ _ _ _ u16_decodes) by done.
  cbn [mret reader_ret]. rewrite (decodes_bind _ _ _ _ _ _ path_decodes) by done.
  by destruct p as [[] ?].
Qed.

Definition wf_file (f : NoteFile) : Prop :=
  match f with
  | FileNoteId _ => True
  | FileNoteDetails d after tag =>
      wf_details d ∧ 0 ≤ after < 2 ^ 32 ∧ ∀ t, tag = Some t → valid_tag t
  | FileNoteWithProof n p => wf_note n ∧ wf_location (np_location p)
  end.

Lemma note_tag_decodes : decodes valid_tag (write_into (A:=NoteTag)) read_from.
Proof.
  intros [t] rest Ht. cbn [write_into read_from NoteTag_ser NoteTag_de tag_inner].
  by rewrite (decodes_bind _ _ _ _ _ _ u32_decodes).
Qed.

Lemma file_reads_back f : wf_file f → reads_back (file_write f) file_read f.
Proof.
  assert (∀ v rest (k : Z → reader NoteFile), 0 ≤ v < 2 ^ 8 →
    (magic ← read_string 4; if negb (bool_decide (magic = MAGIC))
     then ((λ _, Err InvalidValue) : reader NoteFile) else (read_u8 ≫= k)) (MAGIC ++ write_u8 v ++ rest) =
    k v rest) as Hmagic.
  { intros v rest k Hv. unfold mbind at 1, reader_bind at 1.
    rewrite (string_decodes MAGIC) by (repeat constructor; lia).
    rewrite bool_decide_true by done. cbn [negb]. by rewrite read_u8_bind. }
  intros Hf. destruct f as [id|d after tag|n p]; cbn [wf_file] in Hf; unfold reads_back, file_write, file_read.
  - eexists. split; [done|]. intros rest. rewrite <-!app_assoc, Hmagic by lia.
    by rewrite (decodes_bind _ _ _ _ _ _ digest_decodes).
  - destruct Hf as (Hd & Hafter & Htag). destruct (details_reads_back _ Hd) as (bd & Ed & Hrd).
    rewrite Ed. eexists. split; [done|]. intros rest. rewrite <-!app_assoc, Hmagic by lia.
    unfold mbind at 1, reader_bind at 1. rewrite Hrd.
    rewrite (decodes_bind _ _ _ _ _ _ u32_decodes) by done.
    by rewrite (decodes_bind _ _ _ _ _ _ (option_decodes _ _ _ note_tag_decodes)).
  - destruct Hf as (Hn & Hl). destruct (note_reads_back _ Hn) as (bn & En & Hrn).
    rewrite En. eexists. split; [done|]. intros rest. rewrite <-!app_assoc, Hmagic by lia.
    unfold mbind, reader_bind. rewrite Hrn. by rewrite proof_reads_back.
Qed.

(** ** Scripts as field elements *)

Lemma le4_roundtrip a b c d :
  Forall (λ x, 0 ≤ x < 2 ^ 8) [a; b; c; d] →
  0 ≤ from_le_bytes [a; b; c; d] < 2 ^ 32 ∧ to_le_bytes 4 (from_le_bytes [a; b; c; d]) = [a; b; c; d].
Proof.
  intros Hf. repeat (apply Forall_cons in Hf as [? Hf]).
  assert (from_le_bytes [a; b; c; d] = a + 2 ^ 8 * (b + 2 ^ 8 * (c + 2 ^ 8 * d))) as -> by (cbn; lia).
  split; [lia|]. cbn [to_le_bytes].
  assert (∀ x y, 0 ≤ x < 2 ^ 8 → (x + 2 ^ 8 * y) mod 256 = x) as Hm.
  { intros x y Hx. symmetry. apply (Z.mod_unique _ _ y); lia. }
  assert (∀ x y, 0 ≤ x < 2 ^ 8 → (x + 2 ^ 8 * y) / 256 = y) as Hd.
  { intros x y Hx. symmetry. apply (Z.div_unique _ _ _ x); lia. }
  rewrite !Hd, !Hm by done.
  by rewrite (Z.mod_small d) by lia.
Qed.

Lemma decode_encode_u32 n bs :
  length bs = (4 * n)%nat → Forall (λ x, 0 ≤ x < 2 ^ 8) bs → decode_u32 (encode_u32 bs) = Ok bs.
Proof.
  revert bs. induction n as [|n IH]; intros bs Hl Hf.
  { destruct bs; [done|cbn in Hl; lia]. }
  destruct bs as [|a [|b [|c [|d bs]]]]; cbn [length] in Hl; try lia.
  change (a :: b :: c :: d :: bs) with ([a; b; c; d] ++ bs) in Hf. apply Forall_app in Hf as [H4 Hf].
  destruct (le4_roundtrip a b c d H4) as [Hr Ht]. cbn [encode_u32 decode_u32].
  unfold felt_try_into_u32. rewrite as_int_small, try_into_u32_small by (unfold MODULUS; lia).
  cbn [ok_or mbind res_bind]. rewrite IH by (done || lia). cbn [mbind res_bind]. by rewrite Ht.
Qed.

Lemma script_elements_reads_back s :
  wf_script s → Forall (λ x, 0 ≤ x < 2 ^ 8) (write_mast (ns_mast s)) →
  script_try_from_elements (script_to_elements s) = Ok s.
Proof.
  intros Hs Hb. pose proof (script_from_parts_Ok (E:=DeserializationError) s Hs) as Hp.
  destruct Hs as [Hr Hd]. unfold script_to_elements. set (bs := write_mast (ns_mast s)) in *.
  set (missing := if (0 <? length bs mod 4)%nat then _ else _). rewrite vec_resize_pad.
  assert (∃ n, length bs + missing = 4 * n)%nat as [n Hn].
  { subst missing. pose proof (Nat.div_mod_eq (length bs) 4). pose proof (Nat.mod_upper_bound (length bs) 4).
    destruct (Nat.ltb_spec 0 (length bs mod 4)); [exists (length bs / 4 + 1)%nat|exists (length bs / 4)%nat]; lia. }
  cbn [script_try_from_elements]. unfold felt_try_into_u32 at 1.
  rewrite (as_int_small (ns_entrypoint s)), try_into_u32_small by (unfold MODULUS; lia). cbn [ok_or mbind res_bind].
  rewrite (decode_encode_u32 n); [| |].
  - cbn [mbind res_bind]. unfold shrink_to. subst bs. rewrite mast_decodes by done.
    cbn [fmap res_fmap fst mbind res_bind]. rewrite from_u32_safe_Ok by done. cbn [mbind res_bind]. done.
  - by rewrite length_app, length_replicate.
  - apply Forall_app_2; [done|]. apply Forall_replicate. lia.
Qed.
End Laws.

(** ** Theorems *)

(** C17. A note id is a commitment to the note. Two well-formed notes with the
    same id, or with the same nullifier, have the same serial number, script
    root and assets, and the same inputs up to the zero padding; or else the hash
    inputs that were computed for the two notes ([note_preimages]) contain a
    collision: at the same place two different inputs with the same digest. *)
Theorem note_digests_bind n n' :
  wf_note n → wf_note n' →
  note_id n = note_id n' ∨ note_nullifier n = note_nullifier n' →
  same_content n n' ∨ collides (note_preimages n) (note_preimages n').
Proof.
  intros Hn Hn' E. set (r := nd_recipient (note_details n)). set (r' := nd_recipient (note_details n')).
  pose proof (wd_recipient _ (wn_details _ Hn)) as Hr. pose proof (wd_recipient _ (wn_details _ Hn')) as Hr'.
  destruct (script_root_hash _ (wr_script _ Hr)) as [Hh Hs]. destruct (script_root_hash _ (wr_script _ Hr')) as [Hh' Hs'].
  destruct (note_new_eq n _ Hn Hh) as [Eid Enull]. destruct (note_new_eq n' _ Hn' Hh') as [Eid' Enull'].
  destruct E as [E|E].
  - rewrite Eid, Eid' in E.
    destruct (merge_binds _ _ _ _ E) as [[Ed Ea]|]; [|right; by eapply (collides_at 0)].
    rewrite (recipient_digest_eq _ _ Hr Hh), (recipient_digest_eq _ _ Hr' Hh') in Ed.
    destruct (merge_binds _ _ _ _ Ed) as [[Es Ei]|]; [|right; by eapply (collides_at 1)].
    destruct (merge_binds _ _ _ _ Es) as [[Eser Ehash]|]; [|right; by eapply (collides_at 2)].
    destruct (merge_binds _ _ _ _ Eser) as [[Eserial _]|]; [|right; by eapply (collides_at 3)].
    apply same_content_intro; [done..| |done|done]. by rewrite Hs, Hs', Ehash.
  - rewrite Enull, Enull' in E. apply (image_binds (Elements _) (Elements _)) in E as [Ew%(inj Elements)|];
      [|right; by eapply (collides_at 4)].
    apply app_inj_1 in Ew as [E1 Ew]; [|done]. apply app_inj_1 in Ew as [E2%word_elements_inj Ew]; [|done].
    apply app_inj_1 in Ew as [E3 E4]; [|done].
    apply same_content_intro; [done|done|by apply word_elements_inj| |by apply word_elements_inj..].
    by rewrite Hs, Hs', E2.
Qed.

(** The padding is not bound: unless the number of inputs is a multiple of
    eight, there is a well-formed note with one more (zero) input and the same
    id and nullifier. *)
Theorem note_id_not_unique n :
  wf_note n → (length (ni_values (nr_inputs (nd_recipient (note_details n)))) mod 8 ≠ 0)%nat →
  ∃ n', wf_note n' ∧ note_id n' = note_id n ∧ note_nullifier n' = note_nullifier n ∧
    ni_values (nr_inputs (nd_recipient (note_details n'))) =
      ni_values (nr_inputs (nd_recipient (note_details n))) ++ [ZERO].
Proof.
  intros Hn Hm. set (r := nd_recipient (note_details n)) in *.
  pose proof (wn_details _ Hn) as [Ha Hr]. destruct (wr_script _ Hr) as [Hran [h Hh]].
  destruct (inputs_append_zero (nr_inputs r) (wr_inputs _ Hr) Hm) as (i' & Hi' & Hv & Hhash).
  destruct (recipient_new_wf (E:=Empty_set) (nr_serial_num r) (nr_script r) i')
    as (r' & _ & Hwr' & Es & Esc & Ei); [by apply Hr|done|].
  destruct (note_new_wf (E:=Empty_set) (nd_assets (note_details n)) (nh_metadata (note_header n)) r')
    as (n' & _ & Hn' & Ed & _); [done|apply Hn|done|].
  exists n'. split; [done|].
  assert (nd_recipient (note_details n') = r' ∧ nd_assets (note_details n') = nd_assets (note_details n))
    as [Er' Ea'] by (by rewrite Ed).
  destruct (note_new_eq n h Hn Hh) as [-> ->].
  destruct (note_new_eq n' h Hn') as [-> ->]; [by rewrite Er', Esc|].
  rewrite Er', Ea'. unfold nullifier_new.
  rewrite (recipient_digest_eq r' h), (recipient_digest_eq _ h Hr Hh) by (done || by rewrite Esc).
  rewrite Es, Ei, Hhash, Hv. done.
Qed.

(** Building a note from well-formed parts never panics, and all views of
    the note agree: its details, the partial note made from it and the headers
    carry the same id, and the nullifier is that of the details. *)
Theorem note_views_agree {E} assets metadata serial script inputs :
  wf_note_assets assets → valid_metadata metadata → wf_script script → wf_inputs inputs →
  ∃ n, (r ← recipient_new (E:=E) serial script inputs; note_new assets metadata r) = Ok n ∧ wf_note n ∧
    note_id n = details_id (note_details n) ∧
    partial_id (note_to_partial n) = note_id n ∧
    partial_to_header (note_to_partial n) = note_header n ∧
    details_nullifier (E:=E) (note_details n) = Ok (note_nullifier n) ∧
    note_hash n = hash_merge (note_id n) (metadata_to_word metadata).
Proof.
  intros Ha Hm Hs Hi. destruct (recipient_new_wf (E:=E) serial script inputs Hs Hi) as (r & -> & Hr & _).
  cbn [mbind res_bind]. destruct (note_new_wf (E:=E) assets metadata r Ha Hm Hr) as (n & En & Hn & Ed & Em).
  exists n. split; [done|]. split; [done|]. rewrite Ed. unfold note_new in En.
  destruct (details_nullifier (mkNoteDetails assets r)) as [x| |]; [|discriminate..].
  cbn in En. injection En as <-. done.
Qed.

(** Every format of notes reads back: notes (whose id and nullifier are
    recomputed), partial notes, headers and note files of all three kinds. The
    writers do not panic on well-formed values. *)
Theorem note_formats_roundtrip {B : ByteIO} {M : MastIO} {N : NoteIO} :
  (∀ n, wf_note n → reads_back (note_write n) note_read n) ∧
  (∀ p, wf_partial p → reads_back (partial_write p) partial_read p) ∧
  (∀ h rest, valid_metadata (nh_metadata h) → header_read (header_write h ++ rest) = Ok (h, rest)) ∧
  (∀ f, wf_file f → reads_back (file_write f) file_read f).
Proof.
  split; [apply note_reads_back|]. split; [apply partial_reads_back|].
  split; [intros; by apply header_reads_back|apply file_reads_back].
Qed.

(** A script reads back from its bytes and from its field elements; there
    the padding bytes stay in the buffer and the reader leaves them behind. No
    sequence of elements makes the decoder panic unless the forest reader
    does. *)
Theorem script_roundtrips {B : ByteIO} {M : MastIO} s :
  wf_script s → Forall (λ x, 0 ≤ x < 2 ^ 8) (write_mast (ns_mast s)) →
  (∀ rest, script_read (script_write s ++ rest) = Ok (s, rest)) ∧
  script_try_from_elements (script_to_elements s) = Ok s ∧
  ((∀ bs, read_mast bs ≠ Panic) → ∀ l, script_try_from_elements l ≠ Panic).
Proof.
  intros Hs Hb. split; [intros; by apply script_reads_back|].
  split; [by apply script_elements_reads_back|]. intros Hmast l.
  destruct l as [|e0 [|e1 l]]; [done..|]. cbn [script_try_from_elements].
  unfold felt_try_into_u32. destruct (try_into_u32 _); [|done]. cbn [ok_or mbind res_bind].
  assert (decode_u32 l ≠ Panic) as Hl.
  { induction l as [|x l IH]; [done|]. cbn. unfold felt_try_into_u32. destruct (try_into_u32 _); [|done].
    cbn. by destruct (decode_u32 l). }
  destruct (decode_u32 l) as [data| |]; [|done..]. cbn [mbind res_bind].
  specialize (Hmast (shrink_to data (as_int e1))).
  destruct (read_mast _) as [[m rest]| |]; [|done..]. cbn [fmap res_fmap fst mbind res_bind].
  pose proof (from_u32_safe_spec z m) as Hsafe.
  destruct (from_u32_safe z m) as [id| |]; [|done..]. destruct Hsafe as [-> [d Hd]].
  cbn [mbind res_bind]. unfold script_from_parts. by rewrite Hd.
Qed.
End Notes.

(** ** Witnesses *)

#[local] Existing Instance Goldilocks.
#[local] Existing Instance ToyHasher.
#[local] Existing Instance PlainIO.
#[local] Existing Instance RootsAsm.
#[local] Existing Instance RootsIO.

(** Programs as non-empty lists of roots that start at the first. *)
Definition roots_node (m : list Digest) (v : Z) : option Digest :=
  if (0 <=? v) && (v <? 2 ^ 32) then m !! Z.to_nat v else None.
#[refine] Definition RootsProgram : @ProgramApi Goldilocks RootsAsm := {|
  Program := Digest * list Digest;
  program_mast p := p.1 :: p.2;
  program_entrypoint _ := 0;
  node_digest := roots_node;
  from_u32_safe v m := match roots_node m v with Some _ => Ok v | None => Err InvalidValue end;
  assemble_program _ := None
|}.
Proof.
  - abstract (intros p; split; [lia|by eexists]).
  - abstract (intros v m; destruct (roots_node m v) eqn:E; [by split; [|eexists]|done]).
Defined.
#[local] Existing Instance RootsProgram.

#[refine] Definition PlainNoteIO : @NoteIO Goldilocks PlainIO := {|
  MerklePath := list Digest;
  write_path := write_term plain_write_word;
  read_path := read_term plain_read_word;
  read_string n bs := if (length bs <? n)%nat then Err UnexpectedEOF else Ok (take n bs, drop n bs)
|}.
Proof.
  - exact (term_decodes _ _ plain_word_decodes).
  - abstract (intros s rest _; rewrite length_app;
      destruct (Nat.ltb_spec (length s + length rest) (length s))%nat; [lia|];
      by rewrite take_app_length, drop_app_length).
Defined.
#[local] Existing Instance PlainNoteIO.

Definition sample_script : NoteScript := script_new (mkWord (felt_new 3) (felt_new 1) ZERO ONE, []).
Definition sample_inputs : NoteInputs := pad_and_build sample_values.
Definition sample_serial : Word := mkWord ONE ZERO ONE (felt_new 77).

Lemma sample_inputs_wf : wf_inputs sample_inputs.
Proof. split; [vm_compute; discriminate|reflexivity]. Defined.

Definition sample_recipient : NoteRecipient :=
  mkRecipient sample_serial sample_script sample_inputs
    (hash_merge (hash_merge (hash_merge sample_serial EMPTY_WORD) (mkWord (felt_new 3) (felt_new 1) ZERO ONE))
       (ni_hash sample_inputs)).

Definition sample_note : Note :=
  let d := mkNoteDetails sample_note_assets sample_recipient in
  mkNote (mkHeader (details_id d) sample_metadata) d
    (nullifier_new (mkWord (felt_new 3) (felt_new 1) ZERO ONE) (ni_hash sample_inputs)
       (na_hash sample_note_assets) sample_serial).

Lemma sample_note_wf : wf_note sample_note.
Proof.
  constructor.
  - constructor; [apply sample_note_assets_wf|]. constructor.
    + apply script_new_wf.
    + apply sample_inputs_wf.
    + intros E. reflexivity.
  - apply sample_metadata_valid.
  - intros E. reflexivity.
Defined.

(** The sample note, and the note that has one more input, a zero. *)
Definition zero_padded_inputs : NoteInputs := mkInputs (sample_values ++ [ZERO]) (hash_elements (pad_inputs (sample_values ++ [ZERO]))).
Definition padded_note : Note :=
  let r := mkRecipient sample_serial sample_script zero_padded_inputs
    (nr_digest (nd_recipient (note_details sample_note))) in
  mkNote (note_header sample_note) (mkNoteDetails sample_note_assets r) (note_nullifier sample_note).

Lemma padded_note_wf : wf_note padded_note.
Proof.
  constructor.
  - constructor; [apply sample_note_assets_wf|]. constructor.
    + apply script_new_wf.
    + split; [by vm_compute|reflexivity].
    + intros E. reflexivity.
  - apply sample_metadata_valid.
  - intros E. reflexivity.
Qed.

Lemma note_digests_bind_witness :
  note_id sample_note = note_id padded_note ∧ sample_note ≠ padded_note ∧ same_content sample_note padded_note.
Proof.
  split; [reflexivity|]. split; [intros E; apply (f_equal (λ n, length (ni_values (nr_inputs (nd_recipient (note_details n)))))) in E; discriminate|].
  destruct (note_digests_bind sample_note padded_note sample_note_wf padded_note_wf) as [Hs|Hc].
  - left. reflexivity.
  - exact Hs.
  - exfalso. revert Hc. apply (bool_decide_unpack _). vm_compute. exact I.
Defined.

Lemma note_id_not_unique_witness :
  ∃ n', wf_note n' ∧ note_id n' = note_id sample_note ∧ note_nullifier n' = note_nullifier sample_note ∧
    ni_values (nr_inputs (nd_recipient (note_details n'))) = sample_values ++ [ZERO].
Proof. apply (note_id_not_unique sample_note sample_note_wf). discriminate. Defined.

Lemma note_views_agree_witness :
  ∃ n, (r ← recipient_new (E:=NoteError) sample_serial sample_script sample_inputs;
        note_new sample_note_assets sample_metadata r) = Ok n ∧ partial_id (note_to_partial n) = note_id n.
Proof.
  destruct (note_views_agree (E:=NoteError) sample_note_assets sample_metadata sample_serial sample_script
    sample_inputs sample_note_assets_wf sample_metadata_valid (script_new_wf _) sample_inputs_wf)
    as (n & En & _ & _ & Hp & _).
  exists n. split; [exact En|exact Hp].
Defined.

Lemma note_formats_roundtrip_witness :
  reads_back (file_write (FileNoteWithProof sample_note (mkProof (mkLocation 5 6) [EMPTY_WORD]))) file_read
    (FileNoteWithProof sample_note (mkProof (mkLocation 5 6) [EMPTY_WORD])).
Proof.
  apply (proj2 (proj2 (proj2 note_formats_roundtrip))). split; [apply sample_note_wf|].
  split; cbn; lia.
Defined.

Lemma script_roundtrips_witness :
  script_try_from_elements (script_to_elements sample_script) = Ok sample_script.
Proof.
  apply (script_roundtrips sample_script (script_new_wf _)).
  apply (bool_decide_unpack _). vm_compute. exact I.
Defined.
