(* ===== verification/Ids.v ===== *)
(** * Text and byte forms of ids

    Models the conversions of notes/note_id.rs, notes/nullifier.rs and
    transaction/transaction_id.rs, which wrap a digest, the bytes of note headers
    (notes/header.rs) and the names of storage modes (accounts/account_id.rs).
    Strings are sequences of bytes. *)

From S2P Require Import Prelude Felt Crypto Serde Types AccountId Assets NoteMeta NoteContents Code Notes.
From stdpp Require Import strings.
Open Scope Z_scope.

(** ** Storage modes *)

Definition storage_mode_to_string (mode : AccountStorageMode) : string :=
  match mode with Public => "public" | Private => "private" end.

(** [str::to_lowercase]. Only ASCII letters matter here: no other character has a
    lowercase form made of the letters of the two names. *)
Definition lower_ascii (c : Ascii.ascii) : Ascii.ascii :=
  let n := Ascii.nat_of_ascii c in
  if ((65 <=? n) && (n <=? 90))%nat then Ascii.ascii_of_nat (n + 32) else c.
Fixpoint to_lowercase (s : string) : string :=
  match s with "" => "" | String c s => String (lower_ascii c) (to_lowercase s) end.
(** ** Digests *)

(** [hex_to_bytes] of miden-crypto at 32 bytes, and [Digest::try_from] on bytes. *)
Inductive HexError : Type := HexParseFailed | OutOfRange.
Class DigestHexApi {F : FeltApi} := {
  hex_to_bytes32 : string → option (list Z);
  digest_try_from_bytes : list Z → option Digest;
  hex_to_bytes32_spec : ∀ bs, length bs = 32%nat → Forall (λ b, 0 ≤ b < 2 ^ 8) bs →
    hex_to_bytes32 ("0x" +:+ String.concat "" (hex_fixed 2 <$> bs)) = Some bs;
  (** each element is read from its eight bytes, least significant first *)
  digest_try_from_bytes_spec : ∀ d : Digest,
    digest_try_from_bytes (mjoin ((λ x, to_le_bytes 8 (as_int x)) <$> word_elements d)) = Some d
}.

Section Ids.
  Context {F : FeltApi} {B : ByteIO} {X : DigestHexApi}.

(** [TryFrom<&str>], [TryFrom<String>] and [FromStr] for [AccountStorageMode] *)
Definition storage_mode_try_from (value : string) : res AccountError AccountStorageMode :=
  let value := to_lowercase value in
  if decide (value = "public"%string) then Ok Public
  else if decide (value = "private"%string) then Ok Private
  else Err InvalidAccountStorageMode.

(** [Digest::as_bytes] and [Digest::to_hex] *)
Definition digest_bytes (d : Digest) : list Z := mjoin ((λ x, to_le_bytes 8 (as_int x)) <$> word_elements d).
Definition digest_to_hex (d : Digest) : string := "0x" +:+ String.concat "" (hex_fixed 2 <$> digest_bytes d).
(** [Digest::try_from] on a string *)
Definition digest_try_from_hex (s : string) : res HexError Digest :=
  bs ← ok_or HexParseFailed (hex_to_bytes32 s); ok_or OutOfRange (digest_try_from_bytes bs).

(** Ids and nullifiers are digests. *)
Record NoteId : Type := mkNoteId { note_id_inner : Digest }.
Definition note_id_as_elements (id : NoteId) : list felt := word_elements (note_id_inner id).
Definition note_id_as_bytes (id : NoteId) : list Z := digest_bytes (note_id_inner id).
Definition note_id_to_hex (id : NoteId) : string := digest_to_hex (note_id_inner id).
Definition note_id_try_from_hex (hex_value : string) : res HexError NoteId := mkNoteId <$> digest_try_from_hex hex_value.
Definition note_id_write (id : NoteId) : bytes := write_digest (note_id_inner id).
Definition note_id_read : reader NoteId := id ← read_digest; mret (mkNoteId id).

Record Nullifier : Type := mkNullifier { nullifier_inner : Digest }.
Definition nullifier_as_elements (n : Nullifier) : list felt := word_elements (nullifier_inner n).
Definition nullifier_to_hex (n : Nullifier) : string := digest_to_hex (nullifier_inner n).
Definition nullifier_from_hex (hex_value : string) : res HexError Nullifier :=
  bytes ← ok_or HexParseFailed (hex_to_bytes32 hex_value);
  digest ← ok_or OutOfRange (digest_try_from_bytes bytes);
  Ok (mkNullifier digest).
Definition nullifier_write (n : Nullifier) : bytes := write_digest (nullifier_inner n).
Definition nullifier_read : reader Nullifier := n ← read_digest; mret (mkNullifier n).

Record TransactionId : Type := mkTransactionId { tx_id_inner : Digest }.
Definition tx_id_as_elements (id : TransactionId) : list felt := word_elements (tx_id_inner id).
Definition tx_id_as_bytes (id : TransactionId) : list Z := digest_bytes (tx_id_inner id).
Definition tx_id_to_hex (id : TransactionId) : string := digest_to_hex (tx_id_inner id).
Definition tx_id_write (id : TransactionId) : bytes := write_digest (tx_id_inner id).
Definition tx_id_read : reader TransactionId := id ← read_digest; mret (mkTransactionId id).

(** [From<&NoteHeader> for [u8; 64]] *)
Definition header_to_bytes (h : NoteHeader) : list Z :=
  digest_bytes (nh_note_id h) ++ mjoin ((λ x, to_le_bytes 8 (as_int x)) <$> word_elements (metadata_to_word (nh_metadata h))).

(** ** Theorems *)

Lemma digest_bytes_length d : length (digest_bytes d) = 32%nat.
Proof. reflexivity. Qed.
Lemma digest_bytes_range d : Forall (λ b, 0 ≤ b < 2 ^ 8) (digest_bytes d).
Proof. unfold digest_bytes. cbn [word_elements fmap list_fmap mjoin list_join]. rewrite !Forall_app. split_and!; try apply to_le_bytes_range. constructor. Qed.
Lemma digest_bytes_inj d d' : digest_bytes d = digest_bytes d' → d = d'.
Proof. intros E. apply (inj Some). rewrite <-(digest_try_from_bytes_spec d), <-(digest_try_from_bytes_spec d'). exact (f_equal digest_try_from_bytes E). Qed.

Lemma digest_hex_roundtrip d : hex_to_bytes32 (digest_to_hex d) = Some (digest_bytes d).
Proof. apply hex_to_bytes32_spec; [apply digest_bytes_length|apply digest_bytes_range]. Qed.

(** The text and byte forms of note ids, nullifiers and transaction ids
    read back; different ones have different hexadecimal strings; and the 64
    bytes of a note header determine the header. *)
Theorem ids_roundtrip (d : Digest) rest :
  note_id_try_from_hex (note_id_to_hex (mkNoteId d)) = Ok (mkNoteId d) ∧
  nullifier_from_hex (nullifier_to_hex (mkNullifier d)) = Ok (mkNullifier d) ∧
  note_id_read (note_id_write (mkNoteId d) ++ rest) = Ok (mkNoteId d, rest) ∧
  nullifier_read (nullifier_write (mkNullifier d) ++ rest) = Ok (mkNullifier d, rest) ∧
  tx_id_read (tx_id_write (mkTransactionId d) ++ rest) = Ok (mkTransactionId d, rest) ∧
  (∀ d', tx_id_to_hex (mkTransactionId d') = tx_id_to_hex (mkTransactionId d) → d' = d) ∧
  (∀ h h', valid_metadata (nh_metadata h) → valid_metadata (nh_metadata h') → header_to_bytes h = header_to_bytes h' → h = h').
Proof.
  assert (digest_try_from_bytes (digest_bytes d) = Some d) as Hd by apply digest_try_from_bytes_spec.
  split_and!.
  - unfold note_id_try_from_hex, digest_try_from_hex, note_id_to_hex. cbn [note_id_inner]. rewrite digest_hex_roundtrip. cbn [ok_or mbind res_bind]. by rewrite Hd.
  - unfold nullifier_from_hex, nullifier_to_hex. cbn [nullifier_inner]. rewrite digest_hex_roundtrip. cbn [ok_or mbind res_bind]. by rewrite Hd.
  - unfold note_id_read, note_id_write. by rewrite (decodes_bind _ _ _ _ _ _ digest_decodes) by done.
  - unfold nullifier_read, nullifier_write. by rewrite (decodes_bind _ _ _ _ _ _ digest_decodes) by done.
  - unfold tx_id_read, tx_id_write. by rewrite (decodes_bind _ _ _ _ _ _ digest_decodes) by done.
  - unfold tx_id_to_hex. cbn [tx_id_inner]. intros d' E. apply digest_bytes_inj, (inj Some). by rewrite <-!digest_hex_roundtrip, E.
  - intros [id m] [id' m'] Hm Hm' E. unfold header_to_bytes in E. cbn [nh_note_id nh_metadata] in *.
    apply app_inj_1 in E as [->%digest_bytes_inj E]; [|by rewrite !digest_bytes_length].
    change (digest_bytes (metadata_to_word m) = digest_bytes (metadata_to_word m')) in E. apply digest_bytes_inj in E.
    f_equal. pose proof (metadata_word_roundtrip m Hm) as E1. rewrite E, (metadata_word_roundtrip m' Hm') in E1. congruence.
Qed.

Lemma to_lowercase_name mode : to_lowercase (storage_mode_to_string mode) = storage_mode_to_string mode.
Proof. by destruct mode. Qed.

(** The names of storage modes read back in upper and lower case, and
    everything else is refused. *)
Theorem storage_mode_names mode s :
  storage_mode_try_from s = Ok mode ↔ to_lowercase s = storage_mode_to_string mode.
Proof.
  unfold storage_mode_try_from. cbv zeta. destruct (decide (to_lowercase s = "public"%string)) as [->|H1'].
  { destruct mode; cbn; split; congruence. }
  destruct (decide (to_lowercase s = "private"%string)) as [->|H2']; destruct mode; cbn; split; congruence.
Qed.

End Ids.

(** ** Witnesses *)

#[local] Existing Instance Goldilocks.
#[local] Existing Instance PlainIO.

Definition bytes_digest {F : FeltApi} (bs : list Z) : option Digest :=
  a ← felt_try_from_bytes (take 8 bs); b ← felt_try_from_bytes (take 8 (drop 8 bs));
  c ← felt_try_from_bytes (take 8 (drop 16 bs)); d ← felt_try_from_bytes (take 8 (drop 24 bs));
  Some (mkWord a b c d).
Lemma felt_bytes {F : FeltApi} (x : felt) : felt_try_from_bytes (to_le_bytes 8 (as_int x)) = Some x.
Proof.
  pose proof (as_int_range x). rewrite felt_try_from_bytes_spec by apply as_int_u64.
  destruct (Z.ltb_spec (as_int x) MODULUS); [|lia]. f_equal. apply as_int_inj. by rewrite as_int_small.
Qed.
Lemma bytes_digest_spec {F : FeltApi} (d : Digest) : bytes_digest (digest_bytes d) = Some d.
Proof.
  unfold bytes_digest.
  change (take 8 (digest_bytes d)) with (to_le_bytes 8 (as_int (w0 d))).
  change (take 8 (drop 8 (digest_bytes d))) with (to_le_bytes 8 (as_int (w1 d))).
  change (take 8 (drop 16 (digest_bytes d))) with (to_le_bytes 8 (as_int (w2 d))).
  change (take 8 (drop 24 (digest_bytes d))) with (to_le_bytes 8 (as_int (w3 d))).
  rewrite !felt_bytes. by destruct d.
Qed.
#[refine] Definition ParseDigest {F : FeltApi} : DigestHexApi := {| hex_to_bytes32 := parse_hex; digest_try_from_bytes := bytes_digest |}.
Proof.
  - abstract (intros bs _ Hbs; exact (parse_pairs_bytes bs Hbs)).
  - exact bytes_digest_spec.
Defined.

Lemma ids_roundtrip_witness :
  nullifier_from_hex (X:=ParseDigest) (nullifier_to_hex (mkNullifier (mkWord (felt_new 5) ZERO ZERO ONE))) =
    Ok (mkNullifier (mkWord (felt_new 5) ZERO ZERO ONE)).
Proof. exact (proj1 (proj2 (ids_roundtrip (X:=ParseDigest) (mkWord (felt_new 5) ZERO ZERO ONE) []))). Defined.

(** The first element is written with its least significant byte first. *)
Example nullifier_hex_little_endian :
  nullifier_to_hex (mkNullifier (mkWord (felt_new 5) ZERO ZERO ONE)) =
    "0x0500000000000000000000000000000000000000000000000100000000000000"%string.
Proof. reflexivity. Qed.
