(* ===== verification/StdLib.v ===== *)
(** * Standard accounts and notes

    Models miden-lib/src/accounts/ (components, auth, wallets, faucets) and
    miden-lib/src/notes/ (mod.rs, utils.rs, scripts.rs): the components of basic
    wallets and faucets, the accounts built from them, and the P2ID, P2IDR and
    SWAP notes. The compiled libraries and scripts that the build ships, public
    keys and the random number generator are parameters. *)

From S2P Require Import Prelude Felt Crypto Serde Types AccountId Assets TokenSymbol VaultDelta Vault.
From S2P Require Import StorageDelta Storage Code Account NoteMeta NoteContents Notes.
Open Scope Z_scope.

(** The results of reading the shipped files, which the code expects to succeed;
    public keys of the signature scheme as words; [FeltRng::draw_word]. *)
Class StdLibApi {F : FeltApi} {A : AsmApi} {P : ProgramApi} := {
  basic_wallet_masl : res DeserializationError Library;
  rpo_falcon_512_masl : res DeserializationError Library;
  basic_fungible_faucet_masl : res DeserializationError Library;
  P2ID_masb : res DeserializationError Program;
  P2IDR_masb : res DeserializationError Program;
  SWAP_masb : res DeserializationError Program;
  PublicKey : Type;
  public_key_word : PublicKey → Word;
  FeltRng : Type;
  draw_word : FeltRng → Word * FeltRng;
  shipped_libraries : is_ok basic_wallet_masl ∧ is_ok rpo_falcon_512_masl ∧ is_ok basic_fungible_faucet_masl;
  shipped_scripts : is_ok P2ID_masb ∧ is_ok P2IDR_masb ∧ is_ok SWAP_masb
}.

Definition MAX_MAX_SUPPLY : Z := Z.shiftl 1 63 - 1.
Definition MAX_DECIMALS : Z := 12.
Definition SWAP_USE_CASE_ID : Z := 0.

Section Std.
  Context {F : FeltApi} {H : HasherApi} {S : SmtApi} {D : DigestOrd} {A : AsmApi} {P : ProgramApi} {L : StdLibApi}.

(** ** Components *)

Definition basic_wallet_library {E} : res E Library := expect_ok basic_wallet_masl.
Definition rpo_falcon_512_library {E} : res E Library := expect_ok rpo_falcon_512_masl.
Definition basic_fungible_faucet_library {E} : res E Library := expect_ok basic_fungible_faucet_masl.

Inductive AuthScheme : Type := AuthRpoFalcon512 (pub_key : PublicKey).

Record RpoFalcon512 : Type := mkFalcon { public_key : PublicKey }.
(** [From<RpoFalcon512> for AccountComponent] *)
Definition falcon_component {E} (falcon : RpoFalcon512) : res E AccountComponent :=
  library ← rpo_falcon_512_library;
  component ← expect_ok (component_new library [Value (public_key_word (public_key falcon))]);
  Ok (with_supports_all_types component).

(** [From<BasicWallet> for AccountComponent] *)
Definition wallet_component {E} : res E AccountComponent :=
  library ← basic_wallet_library;
  component ← expect_ok (component_new library []);
  Ok (with_supports_all_types component).

Record BasicFungibleFaucet : Type := mkFaucet {
  bf_symbol : TokenSymbol;
  bf_decimals : Z;
  bf_max_supply : felt
}.
Definition faucet_new (symbol : TokenSymbol) (decimals : Z) (max_supply : felt) : res AccountError BasicFungibleFaucet :=
  if decimals >? MAX_DECIMALS then Err FungibleFaucetInvalidMetadata
  else if as_int max_supply >? MAX_MAX_SUPPLY then Err FungibleFaucetInvalidMetadata
  else Ok (mkFaucet symbol decimals max_supply).
Definition faucet_metadata (faucet : BasicFungibleFaucet) : Word :=
  mkWord (bf_max_supply faucet) (felt_new (bf_decimals faucet)) (symbol_felt (bf_symbol faucet)) ZERO.
(** [From<BasicFungibleFaucet> for AccountComponent] *)
Definition faucet_component {E} (faucet : BasicFungibleFaucet) : res E AccountComponent :=
  library ← basic_fungible_faucet_library;
  component ← expect_ok (component_new library [Value (faucet_metadata faucet)]);
  Ok (with_supported_type FungibleFaucet component).

(** ** Accounts

    The seed search of the builder needs fuel. *)

Definition auth_component (auth_scheme : AuthScheme) : RpoFalcon512 :=
  match auth_scheme with AuthRpoFalcon512 pub_key => mkFalcon pub_key end.

Definition create_basic_wallet (fuel : nat) (init_seed : list Z) (auth_scheme : AuthScheme) (ty : AccountType)
    (mode : AccountStorageMode) : option (res AccountError (Account * Word)) :=
  match ty with
  | FungibleFaucet | NonFungibleFaucet => Some (Err AccountIdInvalidFieldElement)
  | _ =>
      match (auth ← falcon_component (auth_component auth_scheme); wallet ← wallet_component; Ok (auth, wallet)) with
      | Ok (auth, wallet) =>
          build fuel (builder_with_component wallet (builder_with_component auth
            (builder_storage_mode mode (builder_account_type ty (builder_init_seed init_seed builder_new)))))
      | Err e => Some (Err e)
      | Panic => Some Panic
      end
  end.

Definition create_basic_fungible_faucet (fuel : nat) (init_seed : list Z) (symbol : TokenSymbol) (decimals : Z)
    (max_supply : felt) (mode : AccountStorageMode) (auth_scheme : AuthScheme)
    : option (res AccountError (Account * Word)) :=
  match (auth ← falcon_component (auth_component auth_scheme); faucet ← faucet_new symbol decimals max_supply;
         component ← faucet_component faucet; Ok (auth, component)) with
  | Ok (auth, component) =>
      build fuel (builder_with_component component (builder_with_component auth
        (builder_storage_mode mode (builder_account_type FungibleFaucet (builder_init_seed init_seed builder_new)))))
  | Err e => Some (Err e)
  | Panic => Some Panic
  end.

(** ** Notes *)

Definition p2id {E} : res E NoteScript := program ← expect_ok P2ID_masb; Ok (script_new program).
Definition p2idr {E} : res E NoteScript := program ← expect_ok P2IDR_masb; Ok (script_new program).
Definition swap {E} : res E NoteScript := program ← expect_ok SWAP_masb; Ok (script_new program).

Definition draw {E} : mut FeltRng E Word := λ rng, let '(w, rng) := draw_word rng in (Ok w, rng).

Definition create_p2id_note (sender target : AccountId) (assets : list Asset) (note_type : NoteType) (aux : felt)
    : mut FeltRng NoteError Note :=
  note_script ← lift p2id;
  inputs ← lift (note_inputs_new [id_felt target]);
  tag ← lift (tag_from_account_id target Local);
  serial_num ← draw;
  metadata ← lift (metadata_new sender note_type tag Always aux);
  vault ← lift (note_assets_new assets);
  recipient ← lift (recipient_new serial_num note_script inputs);
  lift (note_new vault metadata recipient).

Definition create_p2idr_note (sender target : AccountId) (assets : list Asset) (note_type : NoteType) (aux : felt)
    (recall_height : Z) : mut FeltRng NoteError Note :=
  note_script ← lift p2idr;
  inputs ← lift (note_inputs_new [id_felt target; felt_new recall_height]);
  tag ← lift (tag_from_account_id target Local);
  serial_num ← draw;
  vault ← lift (note_assets_new assets);
  metadata ← lift (metadata_new sender note_type tag Always aux);
  recipient ← lift (recipient_new serial_num note_script inputs);
  lift (note_new vault metadata recipient).

Definition build_p2id_recipient (target : AccountId) (serial_num : Word) : res NoteError NoteRecipient :=
  program ← map_err NoteScriptDeserializationError P2ID_masb;
  note_inputs ← note_inputs_new [id_felt target];
  recipient_new serial_num (script_new program) note_inputs.

(** [(faucet_id >> 52) as u8] *)
Definition asset_tag (asset : Asset) : Z := as_u8 (Z.shiftr (account_id_to_u64 (asset_faucet_id asset)) 52).
Definition build_swap_tag (note_type : NoteType) (offered_asset requested_asset : Asset) : res NoteError NoteTag :=
  let payload := Z.lor (as_u16 (Z.shiftl (asset_tag offered_asset) 8)) (asset_tag requested_asset) in
  match note_type with
  | PublicNote => tag_for_public_use_case SWAP_USE_CASE_ID payload Local
  | _ => tag_for_local_use_case SWAP_USE_CASE_ID payload
  end.

Definition create_swap_note (sender : AccountId) (offered_asset requested_asset : Asset) (note_type : NoteType)
    (aux : felt) : mut FeltRng NoteError (Note * NoteDetails) :=
  note_script ← lift swap;
  payback_serial_num ← draw;
  payback_recipient ← lift (build_p2id_recipient sender payback_serial_num);
  let payback_recipient_word := nr_digest payback_recipient in
  let requested_asset_word := asset_to_word requested_asset in
  payback_tag ← lift (tag_from_account_id sender Local);
  inputs ← lift (note_inputs_new (word_elements payback_recipient_word ++ word_elements requested_asset_word ++
    [felt_new (tag_inner payback_tag); hint_to_felt Always]));
  tag ← lift (build_swap_tag note_type offered_asset requested_asset);
  serial_num ← draw;
  metadata ← lift (metadata_new sender note_type tag Always aux);
  assets ← lift (note_assets_new [offered_asset]);
  recipient ← lift (recipient_new serial_num note_script inputs);
  note ← lift (note_new assets metadata recipient);
  payback_assets ← lift (note_assets_new [requested_asset]);
  mret (note, mkNoteDetails payback_assets payback_recipient).

(** ** Tags *)

Lemma local_tag_valid id ty :
  valid_id id →
  let tag := mkNoteTag (3 * 2 ^ 30 + account_id_to_u64 id / 2 ^ 50 * 2 ^ 16) in
  tag_from_account_id id Local = Ok tag ∧ valid_tag tag ∧ tag_validate tag ty = Ok tag.
Proof.
  intros Hid tag. destruct (account_tag_layout id Hid) as [Ht _].
  pose proof (as_int_u64 (id_felt id)) as Hv. unfold account_id_to_u64 in *.
  assert (0 ≤ as_int (id_felt id) / 2 ^ 50 < 2 ^ 14) by (split; [apply Z.div_pos|apply Z.div_lt_upper_bound]; lia).
  assert (valid_tag tag) as Hvt by (unfold valid_tag, tag, account_id_to_u64; cbn [tag_inner]; lia).
  split; [done|]. split; [done|]. rewrite tag_validate_prefix by done.
  assert (tag_prefix tag = 3) as ->; [|by destruct (bool_decide _)].
  unfold tag_prefix, tag, account_id_to_u64. cbn [tag_inner]. rewrite Z.add_comm, Z.div_add by lia. rewrite Z.div_small by lia. done.
Qed.

Lemma asset_tag_range a : 0 ≤ asset_tag a < 2 ^ 8.
Proof. apply Z.mod_pos_bound. lia. Qed.

(** The tag of a swap: public and local, or local for all note types, with the
    bits 52 to 59 of the two faucet ids. *)
Lemma swap_tag_layout ty offered requested :
  let tag := mkNoteTag ((if bool_decide (ty = PublicNote) then 2 else 3) * 2 ^ 30 +
    asset_tag offered * 2 ^ 8 + asset_tag requested) in
  build_swap_tag ty offered requested = Ok tag ∧ valid_tag tag ∧ tag_validate tag ty = Ok tag.
Proof.
  intros tag. pose proof (asset_tag_range offered). pose proof (asset_tag_range requested).
  set (x := asset_tag offered) in *. set (y := asset_tag requested) in *.
  assert (Z.lor (as_u16 (Z.shiftl x 8)) y = x * 2 ^ 8 + y) as Hpay.
  { unfold as_u16. rewrite Z.mod_small by (rewrite Z.shiftl_mul_pow2; lia). apply lor_shiftl_add; lia. }
  assert (0 ≤ x * 2 ^ 8 + y < 2 ^ 16) as Hr by lia.
  destruct (use_case_tag_layout SWAP_USE_CASE_ID (x * 2 ^ 8 + y)) as [Hl Hp]; [unfold SWAP_USE_CASE_ID; lia|lia|].
  change (SWAP_USE_CASE_ID <? 2 ^ 14) with true in Hl, Hp. unfold SWAP_USE_CASE_ID in *.
  assert (valid_tag tag) as Hvt by (unfold valid_tag, tag; cbn [tag_inner]; case_bool_decide; lia).
  split.
  - unfold build_swap_tag. cbv zeta. fold x y. rewrite Hpay. unfold SWAP_USE_CASE_ID.
    destruct ty; rewrite ?Hl, ?Hp; unfold tag; case_bool_decide; try done; f_equal; f_equal; lia.
  - split; [done|]. rewrite tag_validate_prefix by done. unfold tag. case_bool_decide; [done|].
    assert (tag_prefix (mkNoteTag (3 * 2 ^ 30 + x * 2 ^ 8 + y)) = 3) as ->; [|done].
    unfold tag_prefix. cbn [tag_inner]. rewrite <-Z.add_assoc, Z.add_comm, Z.div_add by lia. rewrite Z.div_small by lia. done.
Qed.

(** ** Shipped files *)

Lemma is_ok_inv {E X} (m : res E X) : is_ok m → ∃ x, m = Ok x.
Proof. destruct m; [by eexists|done..]. Qed.
Lemma shipped_script {E} (masb : res DeserializationError Program) :
  is_ok masb → ∃ p, masb = Ok p ∧ (program ← expect_ok masb; Ok (script_new program)) = Ok (E:=E) (script_new p).
Proof. intros [p ->]%is_ok_inv. by exists p. Qed.

(** ** Notes *)

(** The last part of all constructors: a note from checked parts. *)
Lemma std_note {E} sender ty tag aux serial p inputs a :
  valid_id sender → valid_tag tag → tag_validate tag ty = Ok tag → wf_note_assets a → wf_inputs inputs →
  metadata_new sender ty tag Always aux = Ok (mkMetadata sender ty tag aux Always) ∧
  ∃ r n, recipient_new (E:=E) serial (script_new p) inputs = Ok r ∧
    note_new (E:=E) a (mkMetadata sender ty tag aux Always) r = Ok n ∧ wf_note n ∧
    note_details n = mkNoteDetails a r ∧ nh_metadata (note_header n) = mkMetadata sender ty tag aux Always ∧
    nr_serial_num r = serial ∧ nr_script r = script_new p ∧ nr_inputs r = inputs.
Proof.
  intros Hs Ht Hv Ha Hi. split; [unfold metadata_new; by rewrite Hv|].
  destruct (recipient_new_wf (E:=E) serial (script_new p) inputs (script_new_wf p) Hi) as (r & Hr & Wr & R1 & R2 & R3).
  destruct (note_new_wf (E:=E) a (mkMetadata sender ty tag aux Always) r Ha) as (n & Hn & Wn & N1 & N2); [by constructor|done|].
  by exists r, n.
Qed.

Lemma inputs_small values : (length values ≤ 128)%nat → ∃ i, note_inputs_new values = Ok i ∧ wf_inputs i ∧ ni_values i = values.
Proof.
  intros Hl. assert (note_inputs_new values = Ok (pad_and_build values)) as Hn.
  { apply note_inputs_new_Ok. split; [unfold MAX_INPUTS_PER_NOTE; lia|done]. }
  exists (pad_and_build values). split; [done|]. by apply note_inputs_new_wf.
Qed.

(** A note that pays to the account [target]: what its constructors promise. *)
Definition pays_to (script : res NoteError NoteScript) (sender target : AccountId) (assets : list Asset) (ty : NoteType) (aux : felt)
    (values : list felt) (serial : Word) (n : Note) : Prop :=
  script = Ok (nr_script (nd_recipient (note_details n))) ∧
  wf_note n ∧ na_assets (nd_assets (note_details n)) = assets ∧
  nh_metadata (note_header n) = mkMetadata sender ty (mkNoteTag (3 * 2 ^ 30 + account_id_to_u64 target / 2 ^ 50 * 2 ^ 16)) aux Always ∧
  nr_serial_num (nd_recipient (note_details n)) = serial ∧ ni_values (nr_inputs (nd_recipient (note_details n))) = values.

(** C28. P2ID and P2IDR notes are created for all valid senders and targets
    and all note types, unless the assets are refused, in which case the error is
    that of the assets. The note is well formed, carries the script of its kind, has
    the drawn serial number, the target (and the recall height) as inputs, exactly the given assets, and the
    tag of the target account, which fits every note type. The generator advances
    by one word either way, and nothing panics. *)
Theorem pay_to_id_notes sender target assets ty aux height rng :
  valid_id sender → valid_id target → Forall valid_asset assets →
  let '(serial, rng') := draw_word rng in
  match note_assets_new assets with
  | Ok _ =>
      (∃ n, create_p2id_note sender target assets ty aux rng = (Ok n, rng') ∧
         pays_to p2id sender target assets ty aux [id_felt target] serial n) ∧
      (∃ n, create_p2idr_note sender target assets ty aux height rng = (Ok n, rng') ∧
         pays_to p2idr sender target assets ty aux [id_felt target; felt_new height] serial n)
  | Err e => create_p2id_note sender target assets ty aux rng = (Err e, rng') ∧
      create_p2idr_note sender target assets ty aux height rng = (Err e, rng')
  | Panic => False
  end.
Proof.
  intros Hs Ht Ha. destruct (draw_word rng) as [serial rng'] eqn:Ed.
  destruct (local_tag_valid target ty Ht) as (Htag & Hvt & Hval).
  set (tag := mkNoteTag _) in *. destruct shipped_scripts as (S1 & S2 & _).
  destruct (shipped_script (E:=NoteError) _ S1) as (p1 & _ & H1). destruct (shipped_script (E:=NoteError) _ S2) as (p2 & _ & H2).
  destruct (inputs_small [id_felt target]) as (i1 & Hi1 & Wi1 & Vi1); [cbn; lia|].
  destruct (inputs_small [id_felt target; felt_new height]) as (i2 & Hi2 & Wi2 & Vi2); [cbn; lia|].
  pose proof (note_assets_new_cases assets Ha) as Hc.
  change (p2id (E:=NoteError) = Ok (script_new p1)) in H1. change (p2idr (E:=NoteError) = Ok (script_new p2)) in H2.
  unfold create_p2id_note, create_p2idr_note, draw, mbind, mut_bind, lift.
  rewrite H1, H2, Hi1, Hi2, Htag, Ed. destruct (note_assets_new assets) as [a|e|]; [|..|done].
  - destruct Hc as [Wa <-].
    destruct (std_note (E:=NoteError) sender ty tag aux serial p1 i1 a) as (Hm & r1 & n1 & Hr1 & Hn1 & W1 & D1 & M1 & E1 & E2 & E3); [done..|].
    destruct (std_note (E:=NoteError) sender ty tag aux serial p2 i2 a) as (_ & r2 & n2 & Hr2 & Hn2 & W2 & D2 & M2 & F1 & F2 & F3); [done..|].
    rewrite Hm, Hr1, Hn1, Hr2, Hn2. split.
    + exists n1. split; [done|]. unfold pays_to. rewrite D1. cbn [nd_assets nd_recipient]. rewrite E2, E3. by split_and!.
    + exists n2. split; [done|]. unfold pays_to. rewrite D2. cbn [nd_assets nd_recipient]. rewrite F2, F3. by split_and!.
  - split; [|done]. unfold metadata_new. by rewrite Hval.
Qed.

Lemma single_asset x : valid_asset x → ∃ a, note_assets_new [x] = Ok a ∧ wf_note_assets a ∧ na_assets a = [x].
Proof.
  intros Hx. pose proof (note_assets_new_cases [x]) as Hc.
  destruct (note_assets_new [x]) as [a|e|]; [exists a|exfalso..].
  - split; [done|]. apply Hc. by constructor.
  - destruct Hc as [Hl|Hd]; [by constructor|cbn in Hl; unfold MAX_ASSETS_PER_NOTE in Hl; lia|]. apply Hd. apply NoDup_singleton.
  - apply Hc. by constructor.
Qed.

(** C27. A swap note can be paid back from its inputs alone. For valid assets
    and a valid sender, creating a swap succeeds for every note type; the note is
    well formed and offers exactly the offered asset under the tag of the two
    faucets; and its inputs are the digest of the recipient of the payback note,
    the requested asset, the tag of the sender and the hint. Whoever reads them
    and creates a note with this recipient and this asset creates exactly the
    payback note that the sender expects, a P2ID note for the sender. *)
Theorem swap_pays_back sender offered requested ty aux rng :
  valid_id sender → valid_asset offered → valid_asset requested →
  let '(payback_serial, rng1) := draw_word rng in
  let '(serial, rng2) := draw_word rng1 in
  ∃ n payback, create_swap_note sender offered requested ty aux rng = (Ok (n, payback), rng2) ∧ wf_note n ∧
    na_assets (nd_assets (note_details n)) = [offered] ∧ nr_serial_num (nd_recipient (note_details n)) = serial ∧
    (∃ tag, build_swap_tag ty offered requested = Ok tag ∧ nh_metadata (note_header n) = mkMetadata sender ty tag aux Always) ∧
    build_p2id_recipient sender payback_serial = Ok (nd_recipient payback) ∧ na_assets (nd_assets payback) = [requested] ∧
    ∃ digest word tag hint, ni_values (nr_inputs (nd_recipient (note_details n))) = word_elements digest ++ word_elements word ++ [tag; hint] ∧
      tag_from_account_id sender Local = Ok (mkNoteTag (as_int tag)) ∧ hint = hint_to_felt Always ∧
      asset_try_from_word word = Ok requested ∧
      ∀ asset a, asset_try_from_word word = Ok asset → note_assets_new [asset] = Ok a →
        note_id_new digest (na_hash a) = details_id payback.
Proof.
  intros Hs Ho Hq. destruct (draw_word rng) as [pserial rng1] eqn:Ed. destruct (draw_word rng1) as [serial rng2] eqn:Ed'.
  destruct shipped_scripts as (S1 & _ & S3). destruct (is_ok_inv _ S1) as (p1 & Hp1).
  destruct (shipped_script (E:=NoteError) _ S3) as (p3 & _ & H3).
  destruct (inputs_small [id_felt sender]) as (i1 & Hi1 & Wi1 & _); [cbn; lia|].
  destruct (recipient_new_wf (E:=NoteError) pserial (script_new p1) i1 (script_new_wf p1) Wi1) as (pr & Hpr & _).
  assert (build_p2id_recipient sender pserial = Ok pr) as Hrec.
  { unfold build_p2id_recipient. rewrite Hp1. cbn [map_err mbind res_bind]. by rewrite Hi1. }
  destruct (local_tag_valid sender ty Hs) as (Htag & Hvt & _). set (ptag := mkNoteTag _) in *. clearbody ptag.
  destruct (swap_tag_layout ty offered requested) as (Hstag & Hsvt & Hsval). set (tag := mkNoteTag _) in *. clearbody tag.
  destruct (inputs_small (word_elements (nr_digest pr) ++ word_elements (asset_to_word requested) ++
    [felt_new (tag_inner ptag); hint_to_felt Always])) as (i3 & Hi3 & Wi3 & Vi3); [cbn; lia|].
  destruct (single_asset offered Ho) as (a & Ha & Wa & Va). destruct (single_asset requested Hq) as (pa & Hpa & Wpa & Vpa).
  destruct (std_note (E:=NoteError) sender ty tag aux serial p3 i3 a) as (Hm & r & n & Hr & Hn & Wn & D1 & M1 & E1 & _ & E3); [done..|].
  exists n, (mkNoteDetails pa pr). split.
  - change (swap (E:=NoteError) = Ok (script_new p3)) in H3. unfold create_swap_note, draw, mbind, mut_bind, lift. cbv zeta.
    rewrite H3, Ed, Hrec, Htag, Hi3, Hstag, Ed', Hm, Ha, Hr, Hn, Hpa. done.
  - rewrite D1. cbn [nd_assets nd_recipient]. split_and!; [done|done|done|by exists tag|done|done|].
    exists (nr_digest pr), (asset_to_word requested), (felt_new (tag_inner ptag)), (hint_to_felt Always).
    rewrite E3. split_and!; [done| |done|by apply asset_word_roundtrip|].
    + rewrite as_int_small; [by rewrite Htag; destruct ptag|]. unfold valid_tag in Hvt. unfold MODULUS. lia.
    + intros asset a' Hasset Ha'. rewrite asset_word_roundtrip in Hasset by done. injection Hasset as <-.
      rewrite Hpa in Ha'. by injection Ha' as <-.
Qed.

(** ** Accounts *)

Lemma build_parts fuel b a seed :
  build fuel b = Some (Ok (a, seed)) →
  initialize_from_components (b_account_type b) (b_components b) = Ok (acct_code a, acct_storage a) ∧ acct_vault a = vault_default.
Proof.
  unfold build, build_inner. destruct (b_init_seed b) as [init|]; [|discriminate]. cbn [ok_or mbind res_bind].
  destruct (initialize_from_components _ _) as [[code storage]|e|]; cbn [map_err mbind res_bind fst snd]; [|discriminate..].
  destruct (grind_account_id _ _ _ _ _) as [r|]; [|discriminate]. cbn [mbind option_bind]. intros Hr%(inj Some).
  apply res_bind_inv in Hr as ([id sd] & _ & Hr). apply res_bind_inv in Hr as (mode & _ & Hr).
  destruct (_ && _); [|discriminate]. by injection Hr as <- <-.
Qed.

Lemma initialize_slots ty components code storage :
  initialize_from_components ty components = Ok (code, storage) →
  slots storage = match ty with FungibleFaucet => [slot_empty_value] | NonFungibleFaucet => [slot_empty_map] | _ => [] end ++
    mjoin (comp_storage_slots <$> components).
Proof.
  unfold initialize_from_components. intros (u & _ & Hr)%res_bind_inv.
  apply res_bind_inv in Hr as (c & _ & Hr). apply res_bind_inv in Hr as (s & Hs & [= <- <-]).
  unfold storage_from_components, storage_new in Hs. cbv zeta in Hs. destruct (_ >? _); [discriminate|]. by injection Hs as <-.
Qed.

Lemma component_small {E} (library : Library) (l : list StorageSlot) :
  (length l ≤ 255)%nat → expect_ok (E':=E) (component_new library l) = Ok (mkComponent library l []).
Proof. intros Hl. unfold component_new. by rewrite try_into_u8_small by lia. Qed.

Lemma std_components {E} auth faucet :
  (∃ library, falcon_component (E:=E) auth = Ok (with_supports_all_types (mkComponent library [Value (public_key_word (public_key auth))] []))) ∧
  (∃ library, wallet_component (E:=E) = Ok (with_supports_all_types (mkComponent library [] []))) ∧
  (∃ library, faucet_component (E:=E) faucet =
     Ok (with_supported_type FungibleFaucet (mkComponent library [Value (faucet_metadata faucet)] []))).
Proof.
  destruct shipped_libraries as ((w & Hw)%is_ok_inv & (f & Hf)%is_ok_inv & (g & Hg)%is_ok_inv).
  unfold falcon_component, wallet_component, faucet_component, basic_wallet_library, rpo_falcon_512_library, basic_fungible_faucet_library.
  rewrite Hw, Hf, Hg. cbn [expect_ok mbind res_bind]. rewrite !component_small by (cbn; lia).
  split_and!; by eexists.
Qed.

(** A new account as the standard constructors return it. *)
Definition std_account (ty : AccountType) (mode : AccountStorageMode) (l : list StorageSlot)
    (r : res AccountError (Account * Word)) : Prop :=
  match r with
  | Ok (a, seed) => wf_account a ∧ account_is_new a = true ∧ account_new seed (acct_code a) (acct_storage a) = Ok a ∧
      account_type (acct_id a) = ty ∧ storage_mode (E:=AccountError) (acct_id a) = Ok mode ∧
      acct_vault a = vault_default ∧ slots (acct_storage a) = l
  | Err (BuildError _) => True
  | _ => False
  end.

Lemma build_std fuel seed ty mode c1 c2 r :
  valid_component c1 → valid_component c2 →
  build fuel (builder_with_component c2 (builder_with_component c1
    (builder_storage_mode mode (builder_account_type ty (builder_init_seed seed builder_new))))) = Some r →
  std_account ty mode (match ty with FungibleFaucet => [slot_empty_value] | NonFungibleFaucet => [slot_empty_map] | _ => [] end ++
    comp_storage_slots c1 ++ comp_storage_slots c2) r.
Proof.
  set (b := builder_with_component c2 _). intros H1 H2 Hb. assert (Forall valid_component [c1; c2]) as Hc by (constructor; [done|]; constructor; [done|constructor]).
  pose proof (build_result fuel b r Hc eq_refl Hb) as Hr.
  destruct r as [[a sd]|e|]; [|exact Hr..]. destruct Hr as (R1 & R2 & R3 & R4 & R5).
  apply build_parts in Hb as [Hi Hv]. apply initialize_slots in Hi.
  unfold std_account. split_and!; try done. rewrite Hi. cbn. by rewrite app_nil_r.
Qed.

(** Wallets are built as documented: faucet types are refused, and for
    the other types an account that is returned is new and well formed, has the
    requested type and storage mode and an empty vault, and its storage is one
    slot with the public key; a failure is one of the builder's. *)
Theorem wallet_layout fuel seed key ty mode r :
  create_basic_wallet fuel seed (AuthRpoFalcon512 key) ty mode = Some r →
  if AccountType_is_faucet ty then r = Err AccountIdInvalidFieldElement
  else std_account ty mode [Value (public_key_word key)] r.
Proof.
  destruct (std_components (E:=AccountError) (mkFalcon key) (mkFaucet (mkTokenSymbol ZERO) 0 ZERO)) as ((l1 & H1) & (l2 & H2) & _).
  unfold create_basic_wallet. cbn [auth_component]. rewrite H1. cbn [mbind res_bind]. rewrite H2.
  destruct ty; cbn [AccountType_is_faucet]; try (by intros [= <-]); intros Hb;
    (apply build_std in Hb; [exact Hb|unfold valid_component; cbn; lia..]).
Qed.

(** Faucets are built as documented: metadata with more than 12 decimals
    or a maximum supply above the largest amount of an asset is refused, and
    otherwise an account that is returned is a new fungible faucet whose storage
    has the slot reserved for the issuance, the public key and the metadata
    word, from which supply, decimals and symbol read back. *)
Theorem faucet_layout fuel seed symbol decimals supply mode key r :
  0 ≤ decimals < 2 ^ 8 →
  create_basic_fungible_faucet fuel seed symbol decimals supply mode (AuthRpoFalcon512 key) = Some r →
  if (decimals <=? 12) && (as_int supply <=? MAX_AMOUNT)
  then ∃ metadata, std_account FungibleFaucet mode [slot_empty_value; Value (public_key_word key); Value metadata] r ∧
    w0 metadata = supply ∧ as_int (w1 metadata) = decimals ∧ w2 metadata = symbol_felt symbol ∧ w3 metadata = ZERO
  else r = Err FungibleFaucetInvalidMetadata.
Proof.
  intros Hd. unfold create_basic_fungible_faucet, faucet_new. cbn [auth_component].
  destruct (std_components (E:=AccountError) (mkFalcon key) (mkFaucet symbol decimals supply)) as ((l1 & H1) & _ & (l3 & H3)).
  rewrite H1. cbn [mbind res_bind]. rewrite !Z.gtb_ltb. change MAX_MAX_SUPPLY with MAX_AMOUNT. unfold MAX_DECIMALS.
  destruct (Z.ltb_spec 12 decimals), (Z.leb_spec decimals 12); try lia; cbn [andb]; [by intros [= <-]|].
  destruct (Z.ltb_spec MAX_AMOUNT (as_int supply)), (Z.leb_spec (as_int supply) MAX_AMOUNT); try lia; [by intros [= <-]|].
  cbn [mbind res_bind]. rewrite H3. cbn [mbind res_bind]. intros Hb. apply build_std in Hb; [|unfold valid_component; cbn; lia..].
  exists (faucet_metadata (mkFaucet symbol decimals supply)). split; [exact Hb|]. split_and!; try done.
  unfold faucet_metadata. cbn [w1 bf_decimals]. apply as_int_small. unfold MODULUS. lia.
Qed.

End Std.

(** ** Witnesses *)

#[local] Existing Instance Goldilocks.
#[local] Existing Instance ToyHasher.
#[local] Existing Instance MapTree.
#[local] Existing Instance CodeOrd.
#[local] Existing Instance RootsAsm.
#[local] Existing Instance RootsProgram.

(** Libraries and scripts with one procedure each, words as keys, and a generator
    that counts. *)
#[refine] Definition CountingStdLib : StdLibApi := {|
  basic_wallet_masl := Ok (sample_word 21, []);
  rpo_falcon_512_masl := Ok (sample_word 22, []);
  basic_fungible_faucet_masl := Ok (sample_word 23, []);
  P2ID_masb := Ok (sample_word 31, []);
  P2IDR_masb := Ok (sample_word 32, []);
  SWAP_masb := Ok (sample_word 33, []);
  PublicKey := Word;
  public_key_word k := k;
  FeltRng := Z;
  draw_word n := (sample_word n, n + 1)
|}.
Proof. all: abstract done. Defined.
#[local] Existing Instance CountingStdLib.

Lemma sample_requested_valid : valid_asset (Fungible (sample_fungible 5)).
Proof. apply sample_amount. lia. Qed.

Lemma pay_to_id_notes_witness :
  ∃ n, create_p2id_note sample_faucet sample_wallet sample_assets PrivateNote ZERO 7 = (Ok n, 8) ∧
    pays_to p2id sample_faucet sample_wallet sample_assets PrivateNote ZERO [id_felt sample_wallet] (sample_word 7) n.
Proof.
  pose proof (pay_to_id_notes sample_faucet sample_wallet sample_assets PrivateNote ZERO 100 7
    eq_refl eq_refl sample_assets_valid) as Hn. cbn [draw_word CountingStdLib] in Hn.
  assert (is_ok (note_assets_new sample_assets) = true) as Hok by (vm_compute; reflexivity).
  destruct (note_assets_new sample_assets); [|discriminate..]. exact (proj1 Hn).
Defined.

Lemma swap_pays_back_witness :
  ∃ n payback, create_swap_note sample_wallet (NonFungible sample_nf) (Fungible (sample_fungible 5)) PublicNote ZERO 7 =
    (Ok (n, payback), 9) ∧ wf_note n.
Proof.
  pose proof (swap_pays_back sample_wallet (NonFungible sample_nf) (Fungible (sample_fungible 5)) PublicNote ZERO 7
    eq_refl sample_nf_valid sample_requested_valid) as (n & payback & E & W & _).
  exists n, payback. split; [exact E|exact W].
Defined.

(** A hash whose digests are ids of wallets. *)
Definition WalletHasher : @HasherApi Goldilocks :=
  let d := mkWord (id_felt sample_wallet) ZERO ZERO (felt_new (2 ^ 40)) in
  {| hash_elements _ := d; hash_bytes _ := d; hash_merge _ _ := d |}.

Lemma sample_wallet_created :
  match create_basic_wallet (H:=WalletHasher) 1 (replicate 32 0) (AuthRpoFalcon512 (sample_word 4))
    RegularAccountUpdatableCode Private with Some r => is_ok r | None => false end = true.
Proof. vm_compute. reflexivity. Qed.

Lemma wallet_layout_witness :
  ∃ a seed, create_basic_wallet (H:=WalletHasher) 1 (replicate 32 0) (AuthRpoFalcon512 (sample_word 4))
    RegularAccountUpdatableCode Private = Some (Ok (a, seed)) ∧
    std_account (H:=WalletHasher) RegularAccountUpdatableCode Private [Value (sample_word 4)] (Ok (a, seed)).
Proof.
  pose proof sample_wallet_created as Hok.
  destruct (create_basic_wallet (H:=WalletHasher) 1 _ _ _ _) as [[[a seed]|e|]|] eqn:E; [|discriminate..].
  exists a, seed. split; [reflexivity|]. exact (wallet_layout (H:=WalletHasher) _ _ _ _ _ _ E).
Defined.

Definition sample_symbol : TokenSymbol := mkTokenSymbol (felt_new 12).
Lemma sample_faucet_created :
  match create_basic_fungible_faucet (H:=ConstHasher) 1 (replicate 32 0) sample_symbol 8 (felt_new 1000) Public
    (AuthRpoFalcon512 (sample_word 4)) with Some r => is_ok r | None => false end = true.
Proof. vm_compute. reflexivity. Qed.

Lemma faucet_layout_witness :
  ∃ a seed metadata, create_basic_fungible_faucet (H:=ConstHasher) 1 (replicate 32 0) sample_symbol 8 (felt_new 1000)
      Public (AuthRpoFalcon512 (sample_word 4)) = Some (Ok (a, seed)) ∧
    std_account (H:=ConstHasher) FungibleFaucet Public [slot_empty_value; Value (sample_word 4); Value metadata] (Ok (a, seed)) ∧
    w0 metadata = felt_new 1000.
Proof.
  pose proof sample_faucet_created as Hok.
  destruct (create_basic_fungible_faucet (H:=ConstHasher) 1 _ _ _ _ _ _) as [[[a seed]|e|]|] eqn:E; [|discriminate..].
  destruct (faucet_layout (H:=ConstHasher) (L:=CountingStdLib) 1 (replicate 32 0) sample_symbol 8 (felt_new 1000) Public (sample_word 4) (Ok (a, seed)))
    as (metadata & Hs & Hw & _); [lia|exact E|]. exists a, seed, metadata. split_and!; [reflexivity|exact Hs|exact Hw].
Defined.
