(* ===== verification/TxOutputs.v ===== *)
(** * Transaction outputs

    Models objects/src/transaction/outputs.rs: the output notes of a
    transaction in the forms in which they are known, their list with its
    commitment, and the erasure of private notes. *)

From S2P Require Import Prelude Felt Crypto Serde Types AccountId Assets VaultDelta StorageDelta Storage.
From S2P Require Import Code NoteMeta NoteContents Notes.
Open Scope Z_scope.

Definition MAX_INPUT_NOTES_PER_TX : Z := 1024.
Definition MAX_OUTPUT_NOTES_PER_TX : Z := MAX_INPUT_NOTES_PER_TX.

(** [write_many] of a type whose writer can panic. *)
Fixpoint write_each {E X} (w : X → res E bytes) (l : list X) : res E (list bytes) :=
  match l with
  | [] => Ok []
  | x :: l' => b ← w x; bs ← write_each w l'; Ok (b :: bs)
  end.
Definition write_all {F : FeltApi} {B : ByteIO} {E X} (w : X → res E bytes) (l : list X) : res E bytes :=
  bs ← write_each w l; Ok (write_many id bs).

Section WriteAll.
  Context {F : FeltApi} {B : ByteIO} {X : Type}.

Definition written (w : X → res Empty_set bytes) (x : X) : bytes :=
  match w x with Ok bs => bs | _ => [] end.

Lemma write_each_Ok (w : X → res Empty_set bytes) l :
  (∀ x, x ∈ l → w x = Ok (written w x)) → write_each w l = Ok (written w <$> l).
Proof.
  induction l as [|x l IH]; intros Hl; [done|]. cbn [write_each].
  rewrite (Hl x) by left. cbn [mbind res_bind]. rewrite IH; [done|]. intros y Hy. apply Hl. by right.
Qed.

Lemma write_many_fmap (w : X → bytes) l : write_many id (w <$> l) = write_many w l.
Proof.
  induction l as [|x l IH]; [cbn; by rewrite !write_many_nil|].
  rewrite fmap_cons, !write_many_cons, IH. done.
Qed.

Lemma write_all_reads_back (P : X → Prop) w (r : reader X) l :
  (∀ x, P x → reads_back (w x) r x) → Forall P l →
  ∃ bs, write_all w l = Ok bs ∧ ∀ rest, read_many r (length l) (bs ++ rest) = Ok (l, rest).
Proof.
  intros Hw Hl. assert (∀ x, P x → w x = Ok (written w x)) as Hok.
  { intros x Hx. destruct (Hw x Hx) as (bs & E & _). unfold written. by rewrite E. }
  exists (write_many (written w) l). unfold write_all. split.
  - rewrite write_each_Ok; [|intros x Hx; apply Hok; by apply (Forall_forall P l)]. cbn [mbind res_bind].
    by rewrite write_many_fmap.
  - intros rest. apply (many_decodes P); [|done]. intros x rest' Hx.
    destruct (Hw x Hx) as (bs & E & Hr). unfold written. rewrite E. apply Hr.
Qed.
End WriteAll.

Section Outputs.
  Context {F : FeltApi} {H : HasherApi} {A : AsmApi} {P : ProgramApi}.

Inductive OutputNote : Type :=
  | Full (note : Note)
  | Partial (note : PartialNote)
  | Header (note : NoteHeader).

(** [OutputNote::assets], [id], [recipient_digest] and [metadata] *)
Definition output_assets (n : OutputNote) : option NoteAssets :=
  match n with
  | Full note => Some (nd_assets (note_details note))
  | Partial note => Some (pn_assets note)
  | Header _ => None
  end.
Definition output_id (n : OutputNote) : Digest :=
  match n with
  | Full note => note_id note
  | Partial note => partial_id note
  | Header note => nh_note_id note
  end.
Definition output_recipient_digest (n : OutputNote) : option Digest :=
  match n with
  | Full note => Some (nr_digest (nd_recipient (note_details note)))
  | Partial note => Some (pn_recipient_digest note)
  | Header _ => None
  end.
Definition output_metadata (n : OutputNote) : NoteMetadata :=
  match n with
  | Full note => nh_metadata (note_header note)
  | Partial note => pn_metadata note
  | Header note => nh_metadata note
  end.

(** [OutputNote::shrink] *)
Definition output_shrink (n : OutputNote) : OutputNote :=
  match n with
  | Full note => if metadata_is_private (nh_metadata (note_header note)) then Header (note_header note) else n
  | Partial note => Header (partial_to_header note)
  | Header _ => n
  end.

(** [OutputNote::hash] and [From<&OutputNote> for NoteHeader] *)
Definition output_hash (n : OutputNote) : Digest := compute_note_hash (output_id n) (output_metadata n).
Definition output_to_header (n : OutputNote) : NoteHeader :=
  match n with
  | Full note => note_header note
  | Partial note => partial_to_header note
  | Header note => note
  end.

Inductive TransactionOutputError : Type :=
  | DuplicateOutputNote (id : Digest)
  | FinalAccountDataNotFound
  | FinalAccountHeaderDataInvalid (e : AccountError)
  | OutputNoteDataNotFound
  | OutputNoteDataInvalid (e : NoteError)
  | OutputNotesCommitmentInconsistent (expected actual : Digest)
  | OutputStackInvalid
  | TooManyOutputNotes (n : Z).

Record OutputNotes : Type := mkOutputNotes { on_notes : list OutputNote; on_commitment : Digest }.

(** The loop of [build_output_notes_commitment]. *)
Fixpoint output_elements (notes : list OutputNote) : list felt :=
  match notes with
  | [] => []
  | n :: notes' =>
      word_elements (output_id n) ++ word_elements (metadata_to_word (output_metadata n)) ++ output_elements notes'
  end.
Definition build_output_notes_commitment (notes : list OutputNote) : Digest :=
  match notes with
  | [] => EMPTY_WORD
  | _ :: _ => hash_elements (output_elements notes)
  end.

(** [OutputNotes::new] *)
Definition output_notes_new (notes : list OutputNote) : res TransactionOutputError OutputNotes :=
  if Z.of_nat (length notes) >? MAX_OUTPUT_NOTES_PER_TX
  then Err (TooManyOutputNotes (Z.of_nat (length notes)))
  else match first_duplicate ∅ (output_id <$> notes) with
       | Some id => Err (DuplicateOutputNote id)
       | None => Ok (mkOutputNotes notes (build_output_notes_commitment notes))
       end.

Section Ser.
  Context {B : ByteIO} {M : MastIO} {N : NoteIO}.

Definition output_write {E} (n : OutputNote) : res E bytes :=
  match n with
  | Full note => b ← note_write note; Ok (write_u8 0 ++ b)
  | Partial note => b ← partial_write note; Ok (write_u8 1 ++ b)
  | Header note => Ok (write_u8 2 ++ header_write note)
  end.
Definition output_read : reader OutputNote :=
  v ← read_u8;
  match v return reader OutputNote with
  | 0 => n ← note_read; mret (Full n)
  | 1 => n ← partial_read; mret (Partial n)
  | 2 => n ← header_read; mret (Header n)
  | _ => λ _, Err InvalidValue
  end.

(** The writer asserts that the length fits. *)
Definition output_notes_write {E} (l : OutputNotes) : res E bytes :=
  if Z.of_nat (length (on_notes l)) <=? U16_MAX
  then b ← write_all output_write (on_notes l); Ok (write_u16 (Z.of_nat (length (on_notes l))) ++ b)
  else Panic.
Definition output_notes_read : reader OutputNotes :=
  num_notes ← read_u16;
  notes ← read_many output_read (Z.to_nat num_notes);
  reader_lift (output_notes_new notes).
End Ser.

(** ** Well-formed outputs *)

Definition wf_output (n : OutputNote) : Prop :=
  match n with
  | Full note => wf_note note
  | Partial note => wf_partial note
  | Header note => valid_metadata (nh_metadata note)
  end.
Definition wf_outputs (l : OutputNotes) : Prop :=
  Forall wf_output (on_notes l) ∧ output_notes_new (on_notes l) = Ok l.

Lemma output_notes_new_Ok notes l :
  output_notes_new notes = Ok l ↔
  Z.of_nat (length notes) ≤ MAX_OUTPUT_NOTES_PER_TX ∧ NoDup (output_id <$> notes) ∧
  l = mkOutputNotes notes (build_output_notes_commitment notes).
Proof.
  unfold output_notes_new. destruct (Z.gtb_spec (Z.of_nat (length notes)) MAX_OUTPUT_NOTES_PER_TX).
  { split; [discriminate|]. intros (? & _). lia. }
  rewrite <-first_duplicate_None. destruct (first_duplicate ∅ _).
  - split; [discriminate|]. by intros (_ & ? & _).
  - split; [intros [= <-]; auto with lia|]. by intros (_ & _ & ->).
Qed.


Lemma to_header_views n :
  output_id n = nh_note_id (output_to_header n) ∧ output_metadata n = nh_metadata (output_to_header n).
Proof. by destruct n. Qed.

Lemma shrink_views n : output_id (output_shrink n) = output_id n ∧ output_metadata (output_shrink n) = output_metadata n.
Proof. destruct n as [note|note|note]; cbn; [|done..]. by destruct (metadata_is_private _). Qed.

Lemma output_commitment_ext l l' :
  Forall2 (λ n n', output_id n = output_id n' ∧ output_metadata n = output_metadata n') l l' →
  build_output_notes_commitment l = build_output_notes_commitment l'.
Proof.
  assert (∀ l l', Forall2 (λ n n', output_id n = output_id n' ∧ output_metadata n = output_metadata n') l l' →
    output_elements l = output_elements l') as He.
  { intros m m'. induction 1 as [|n n' m m' [E1 E2] _ IH]; [done|]. cbn [output_elements]. by rewrite E1, E2, IH. }
  intros Hl. pose proof (He _ _ Hl) as E. destruct Hl; [done|]. cbn [build_output_notes_commitment]. by rewrite E.
Qed.

Lemma shrink_Forall2 l :
  Forall2 (λ n n', output_id n = output_id n' ∧ output_metadata n = output_metadata n') (output_shrink <$> l) l.
Proof. induction l as [|n l IH]; [constructor|]. constructor; [apply shrink_views|exact IH]. Qed.

Lemma output_elements_binding l l' :
  Forall (λ n, valid_metadata (output_metadata n)) l → Forall (λ n, valid_metadata (output_metadata n)) l' →
  output_elements l = output_elements l' → output_to_header <$> l = output_to_header <$> l'.
Proof.
  intros Hl. revert l'. induction Hl as [|n l Hn _ IH]; intros [|n' l'] Hl' E; [done|discriminate..|].
  apply Forall_cons in Hl' as [Hn' Hl']. cbn [output_elements] in E.
  apply app_inj_1 in E as [E1%word_elements_inj E]; [|done]. apply app_inj_1 in E as [E2%word_elements_inj E]; [|done].
  rewrite !fmap_cons. f_equal; [|by apply IH].
  destruct (to_header_views n) as [I1 M1], (to_header_views n') as [I2 M2].
  assert (output_metadata n = output_metadata n') as Em.
  { pose proof (metadata_word_roundtrip _ Hn) as R. rewrite E2, metadata_word_roundtrip in R by done.
    by injection R. }
  destruct (output_to_header n), (output_to_header n'); cbn in *. congruence.
Qed.

(** What is hashed for the commitment. *)
Definition output_preimage (l : list OutputNote) : preimage :=
  match l with [] => NoPreimage | _ => Elements (output_elements l) end.
Lemma output_commitment_image l : build_output_notes_commitment l = image (output_preimage l).
Proof. by destruct l. Qed.

Lemma output_commitment_binding l l' :
  Forall (λ n, valid_metadata (output_metadata n)) l → Forall (λ n, valid_metadata (output_metadata n)) l' →
  build_output_notes_commitment l = build_output_notes_commitment l' →
  output_to_header <$> l = output_to_header <$> l' ∨ collision (output_preimage l) (output_preimage l').
Proof.
  intros Hl Hl'. rewrite !output_commitment_image. intros [E|]%image_binds; [left|by right].
  destruct l as [|n l], l' as [|n' l']; [done|discriminate..|]. apply output_elements_binding; [done..|]. exact (inj Elements _ _ E).
Qed.

Lemma wf_output_metadata n : wf_output n → valid_metadata (output_metadata n).
Proof. destruct n; cbn; [apply wn_metadata|by intros []|done]. Qed.

Section Laws.
  Context {B : ByteIO} {M : MastIO} {N : NoteIO}.

Lemma output_reads_back n : wf_output n → reads_back (output_write n) output_read n.
Proof.
  intros Hn. unfold reads_back, output_read. destruct n as [n|n|n]; cbn [wf_output output_write] in *.
  - destruct (note_reads_back _ Hn) as (b & -> & Hr). eexists. split; [done|]. intros rest.
    rewrite <-app_assoc, read_u8_bind by lia. unfold mbind, reader_bind. by rewrite Hr.
  - destruct (partial_reads_back _ Hn) as (b & -> & Hr). eexists. split; [done|]. intros rest.
    rewrite <-app_assoc, read_u8_bind by lia. unfold mbind, reader_bind. by rewrite Hr.
  - eexists. split; [done|]. intros rest.
    rewrite <-app_assoc, read_u8_bind by lia. unfold mbind, reader_bind. by rewrite header_reads_back.
Qed.

Lemma output_notes_read_back l : wf_outputs l → reads_back (output_notes_write l) output_notes_read l.
Proof.
  intros [Hl Hnew]. destruct (proj1 (output_notes_new_Ok _ _) Hnew) as (Hlen & _).
  unfold MAX_OUTPUT_NOTES_PER_TX, MAX_INPUT_NOTES_PER_TX in Hlen.
  destruct (write_all_reads_back wf_output output_write output_read _ output_reads_back Hl) as (b & Eb & Hr).
  unfold reads_back, output_notes_write, output_notes_read. rewrite (proj2 (Z.leb_le _ _)) by (unfold U16_MAX; lia).
  rewrite Eb. eexists. split; [done|]. intros rest.
  rewrite <-app_assoc, (decodes_bind _ _ _ _ _ _ u16_decodes) by lia.
  unfold mbind, reader_bind. rewrite Nat2Z.id, Hr. unfold reader_lift. by rewrite Hnew.
Qed.
End Laws.

Lemma shrink_accepted notes l :
  output_notes_new notes = Ok l →
  output_notes_new (output_shrink <$> notes) = Ok (mkOutputNotes (output_shrink <$> notes) (on_commitment l)).
Proof.
  intros (Hlen & ND & ->)%output_notes_new_Ok. apply output_notes_new_Ok. rewrite length_fmap. split; [done|].
  rewrite <-list_fmap_compose.
  rewrite (list_fmap_ext (output_id ∘ output_shrink) output_id) by (intros i n _; apply shrink_views).
  split; [done|]. cbn [on_commitment]. f_equal. symmetry. apply output_commitment_ext, shrink_Forall2.
Qed.

(** ** Theorems *)

(** C30. Erasing private notes does not change what a transaction commits to:
    [shrink] keeps the header of a note, leaves no details of a private note
    behind, and a list of output notes that is accepted is accepted after
    erasing every note, with the same commitment. *)
Theorem shrink_keeps_commitment notes l :
  output_notes_new notes = Ok l →
  (∀ n, n ∈ notes → output_to_header (output_shrink n) = output_to_header n ∧
     (metadata_is_private (output_metadata n) = true → output_shrink n = Header (output_to_header n))) ∧
  output_notes_new (output_shrink <$> notes) = Ok (mkOutputNotes (output_shrink <$> notes) (on_commitment l)).
Proof.
  intros Hl. split; [|by apply shrink_accepted].
  intros n _. destruct n as [n|n|n]; cbn; [|done..]. by destruct (metadata_is_private _).
Qed.

(** The commitment to the output notes binds their headers: two accepted
    lists of well-formed notes with the same commitment have the same note ids
    and metadata in the same order, or the two inputs of the hash collide. *)
Theorem output_notes_bind l l' :
  wf_outputs l → wf_outputs l' → on_commitment l = on_commitment l' →
  output_to_header <$> on_notes l = output_to_header <$> on_notes l' ∨
  collision (output_preimage (on_notes l)) (output_preimage (on_notes l')).
Proof.
  intros [Hl (_ & _ & E)%output_notes_new_Ok] [Hl' (_ & _ & E')%output_notes_new_Ok] Ec.
  rewrite E, E' in Ec. cbn [on_commitment] in Ec. apply output_commitment_binding; [..|exact Ec].
  - eapply Forall_impl; [exact Hl|apply wf_output_metadata].
  - eapply Forall_impl; [exact Hl'|apply wf_output_metadata].
Qed.
End Outputs.

(** ** Witnesses *)

#[local] Existing Instance Goldilocks.
#[local] Existing Instance ToyHasher.
#[local] Existing Instance PlainIO.
#[local] Existing Instance RootsAsm.
#[local] Existing Instance RootsIO.
#[local] Existing Instance RootsProgram.
#[local] Existing Instance PlainNoteIO.

Definition sample_outputs : OutputNotes :=
  mkOutputNotes [Full sample_note] (build_output_notes_commitment [Full sample_note]).

Lemma sample_outputs_wf : wf_outputs sample_outputs.
Proof. split; [constructor; [exact sample_note_wf|constructor]|reflexivity]. Qed.

Lemma shrink_keeps_commitment_witness :
  output_notes_new [output_shrink (Full sample_note)] =
  Ok (mkOutputNotes [output_shrink (Full sample_note)] (on_commitment sample_outputs)).
Proof. apply (shrink_keeps_commitment [Full sample_note] sample_outputs). reflexivity. Defined.

(** The erased note is committed to like the full one. *)
Definition header_outputs : OutputNotes := mkOutputNotes [Header (note_header sample_note)] (on_commitment sample_outputs).
Lemma header_outputs_wf : wf_outputs header_outputs.
Proof. split; [constructor; [exact sample_metadata_valid|constructor]|reflexivity]. Qed.

Lemma output_notes_bind_witness :
  output_to_header <$> on_notes sample_outputs = output_to_header <$> on_notes header_outputs.
Proof.
  destruct (output_notes_bind sample_outputs header_outputs sample_outputs_wf header_outputs_wf) as [E|[Hne _]].
  - reflexivity.
  - exact E.
  - by destruct Hne.
Defined.
