(* ===== verification/Merkle.v ===== *)
(** * Merkle paths and note trees

    What the code calls of miden-crypto to authenticate notes: the check of a
    Merkle path against a root, and the sparse trees of a fixed depth that hold
    the notes of a block or a batch. They are parameters with their documented
    contract; the end of the file gives a concrete instance. *)

From S2P Require Import Prelude Felt Crypto Serde Notes.
Open Scope Z_scope.

Class PathApi {F : FeltApi} {B : ByteIO} {N : NoteIO} := {
  (** [MerklePath::verify(index, node, root)] *)
  path_verify : MerklePath → Z → Digest → Digest → bool;
  (** [MerklePath::inner_nodes(index, node)], which fails on an index that is
      not valid for the path *)
  InnerNodeInfo : Type;
  path_inner_nodes : MerklePath → Z → Digest → option (list InnerNodeInfo);
  (** A path that verifies has a valid index. *)
  path_verify_index : ∀ p i n r, path_verify p i n r = true → is_Some (path_inner_nodes p i n)
}.

Class SimpleSmtApi {F : FeltApi} {B : ByteIO} {N : NoteIO} {T : PathApi} := {
  (** [SimpleSmt<DEPTH>] *)
  SimpleSmt : Z → Type;
  ssmt_with_leaves : ∀ depth, list (Z * Word) → res MerkleError (SimpleSmt depth);
  ssmt_with_contiguous_leaves : ∀ depth, list Word → res MerkleError (SimpleSmt depth);
  ssmt_new : ∀ depth, SimpleSmt depth;
  ssmt_get_leaf : ∀ {depth}, SimpleSmt depth → Z → Word;
  ssmt_root : ∀ {depth}, SimpleSmt depth → Digest;
  (** [SimpleSmt::open(index).path] *)
  ssmt_open_path : ∀ {depth}, SimpleSmt depth → Z → MerklePath;
  (** [SimpleSmt::leaves], in the order of the indices *)
  ssmt_leaves : ∀ {depth}, SimpleSmt depth → list (Z * Word);
  (** Leaves at different indices inside the tree are accepted and stored; the
      other leaves are empty. A repeated index is an error. *)
  ssmt_with_leaves_ok : ∀ depth l, NoDup l.*1 → Forall (λ p, 0 ≤ p.1 < 2 ^ depth) l →
    ∃ t, ssmt_with_leaves depth l = Ok t ∧ (∀ i w, (i, w) ∈ l → ssmt_get_leaf t i = w) ∧
      (∀ i, i ∉ l.*1 → ssmt_get_leaf t i = EMPTY_WORD);
  ssmt_with_leaves_total : ∀ depth l, ssmt_with_leaves depth l ≠ Panic;
  (** Contiguous leaves start at index zero and are accepted up to the
      capacity. *)
  ssmt_contiguous : ∀ depth l,
    if Z.of_nat (length l) <=? 2 ^ depth
    then ∃ t, ssmt_with_contiguous_leaves depth l = Ok t ∧
      ∀ i, ssmt_get_leaf t (Z.of_nat i) = default EMPTY_WORD (l !! i)
    else ∃ e, ssmt_with_contiguous_leaves depth l = Err e;
  (** An opened path verifies against the root. *)
  ssmt_open_verifies : ∀ depth (t : SimpleSmt depth) i, 0 ≤ i < 2 ^ depth →
    path_verify (ssmt_open_path t i) i (ssmt_get_leaf t i) (ssmt_root t) = true;
  (** The leaves that are listed are the ones that are not empty, and a tree is
      determined by them. *)
  ssmt_leaves_nodup : ∀ depth (t : SimpleSmt depth), NoDup (ssmt_leaves t).*1;
  ssmt_leaves_spec : ∀ depth (t : SimpleSmt depth) i w,
    (i, w) ∈ ssmt_leaves t ↔ 0 ≤ i < 2 ^ depth ∧ ssmt_get_leaf t i = w ∧ w ≠ EMPTY_WORD;
  ssmt_root_ext : ∀ depth (t t' : SimpleSmt depth),
    (∀ i, 0 ≤ i < 2 ^ depth → ssmt_get_leaf t i = ssmt_get_leaf t' i) → ssmt_root t = ssmt_root t'
}.

(** ** A concrete instance

    A tree is a map from indices to leaves, and an opening lists the root and
    the leaf. *)

Section Listing.
  Context {F : FeltApi} {H : HasherApi}.

Definition tree_clean (depth : Z) (m : gmap Z Word) : gmap Z Word :=
  filter (λ p, 0 ≤ p.1 < 2 ^ depth ∧ p.2 ≠ EMPTY_WORD) m.
Definition tree_get (m : gmap Z Word) (i : Z) : Word := default EMPTY_WORD (m !! i).
Definition tree_root (depth : Z) (m : gmap Z Word) : Digest :=
  hash_elements (mjoin ((λ p, felt_new p.1 :: word_elements p.2) <$> btree_iter Z.leb (tree_clean depth m))).
Definition contiguous (l : list Word) : list (Z * Word) := zip (seqZ 0 (Z.of_nat (length l))) l.

Lemma tree_clean_spec depth m i w :
  tree_clean depth m !! i = Some w ↔ 0 ≤ i < 2 ^ depth ∧ tree_get m i = w ∧ w ≠ EMPTY_WORD.
Proof.
  unfold tree_clean, tree_get. rewrite map_lookup_filter_Some. split.
  - intros (E & Hi & Hw). rewrite E. done.
  - intros (Hi & E & Hw). destruct (m !! i) as [x|]; cbn in E; simplify_eq. done.
Qed.

Lemma tree_root_ext depth m m' :
  (∀ i, 0 ≤ i < 2 ^ depth → tree_get m i = tree_get m' i) → tree_root depth m = tree_root depth m'.
Proof.
  intros E. unfold tree_root. assert (tree_clean depth m = tree_clean depth m') as ->; [|done].
  apply map_eq. intros i. apply option_eq. intros w. rewrite !tree_clean_spec.
  split; intros (Hi & Ew & Hw); (split; [done|]; split; [|done]); rewrite <-Ew; [symmetry|]; by apply E.
Qed.

Lemma contiguous_lookup l i : tree_get (list_to_map (contiguous l)) (Z.of_nat i) = default EMPTY_WORD (l !! i).
Proof.
  unfold tree_get, contiguous.
  assert (NoDup (zip (seqZ 0 (Z.of_nat (length l))) l).*1) as ND.
  { rewrite fst_zip by (rewrite length_seqZ; lia). apply NoDup_seqZ. }
  destruct (l !! i) as [w|] eqn:E; cbn.
  - rewrite (elem_of_list_to_map_1 _ (Z.of_nat i) w ND); [done|].
    apply list_elem_of_lookup. exists i. apply lookup_zip_with_Some. exists (Z.of_nat i), w. split; [done|].
    split; [|done]. apply lookup_seqZ. apply lookup_lt_Some in E. lia.
  - rewrite not_elem_of_list_to_map_1; [done|]. rewrite fst_zip by (rewrite length_seqZ; lia).
    rewrite elem_of_seqZ. apply lookup_ge_None in E. lia.
Qed.
End Listing.

#[local] Existing Instance Goldilocks.
#[local] Existing Instance ToyHasher.
#[local] Existing Instance PlainIO.
#[local] Existing Instance PlainNoteIO.

#[refine] Definition ListPath : PathApi := {|
  path_verify p i n r := bool_decide (p = [r; n]);
  InnerNodeInfo := Digest;
  path_inner_nodes p i n := Some p
|}.
Proof. abstract done. Defined.
#[local] Existing Instance ListPath.

#[refine] Definition ListSmt : SimpleSmtApi := {|
  SimpleSmt _ := gmap Z Word;
  ssmt_with_leaves depth l :=
    if decide (NoDup l.*1 ∧ Forall (λ p, 0 ≤ p.1 < 2 ^ depth) l) then Ok (list_to_map l)
    else Err DuplicateValuesForIndex;
  ssmt_with_contiguous_leaves depth l :=
    if Z.of_nat (length l) <=? 2 ^ depth then Ok (list_to_map (contiguous l)) else Err DuplicateValuesForIndex;
  ssmt_new _ := ∅;
  ssmt_get_leaf _ := tree_get;
  ssmt_root depth t := tree_root depth t;
  ssmt_open_path depth t i := [tree_root depth t; tree_get t i];
  ssmt_leaves depth t := btree_iter Z.leb (tree_clean depth t)
|}.
Proof.
  - abstract (intros depth l ND Hl; rewrite decide_True by done; eexists; split; [done|]; split;
      [intros i w Hi; unfold tree_get; by rewrite (elem_of_list_to_map_1 _ i w ND Hi)
      |intros i Hi; unfold tree_get; by rewrite not_elem_of_list_to_map_1]).
  - abstract (intros depth l; by case_decide).
  - abstract (intros depth l; destruct (_ <=? _); [|by eexists]; eexists; split; [done|];
      intros i; apply contiguous_lookup).
  - abstract (intros depth t i _; by apply bool_decide_eq_true).
  - abstract (intros depth t; apply btree_iter_keys_NoDup).
  - abstract (intros depth t i w; rewrite elem_of_btree_iter; apply tree_clean_spec).
  - abstract (intros depth t t'; apply tree_root_ext).
Defined.
