(* ===== verification/Chain.v ===== *)
(** * Block headers and the chain

    Models objects/src/block/header.rs and objects/src/transaction/chain_mmr.rs.
    The partial Merkle mountain range comes from miden-crypto and is a
    parameter. *)

From S2P Require Import Prelude Felt Crypto Serde NoteContents Notes.
Open Scope Z_scope.

(** [PartialMmr] and [MmrPeaks]: the number of leaves, the peaks, the tracked
    positions, and appending a leaf. *)
Class MmrApi {F : FeltApi} {B : ByteIO} := {
  PartialMmr : Type;
  MmrPeaks : Type;
  mmr_forest : PartialMmr → Z;
  mmr_peaks : PartialMmr → MmrPeaks;
  mmr_is_tracked : PartialMmr → Z → bool;
  mmr_add : Digest → bool → PartialMmr → PartialMmr;
  hash_peaks : MmrPeaks → Digest;
  peaks_num_leaves : MmrPeaks → Z;
  flatten_and_pad_peaks : MmrPeaks → list felt;
  write_mmr : PartialMmr → bytes;
  read_mmr : reader PartialMmr;
  (** The number of leaves is a [usize]. *)
  mmr_forest_range : ∀ m, 0 ≤ mmr_forest m < 2 ^ 64;
  (** Appending adds one leaf at the end, tracked when this is requested, and
      keeps the other tracked positions. *)
  mmr_add_forest : ∀ leaf track m, mmr_forest m + 1 < 2 ^ 64 → mmr_forest (mmr_add leaf track m) = mmr_forest m + 1;
  mmr_add_tracked : ∀ leaf m, mmr_forest m + 1 < 2 ^ 64 → mmr_is_tracked (mmr_add leaf true m) (mmr_forest m) = true;
  mmr_add_keeps : ∀ leaf track m i, mmr_forest m + 1 < 2 ^ 64 →
    mmr_is_tracked m i = true → mmr_is_tracked (mmr_add leaf track m) i = true;
  mmr_decodes : decodes (λ _, True) write_mmr read_mmr
}.

Section Chain.
  Context {F : FeltApi} {H : HasherApi} {B : ByteIO} {R : MmrApi}.

(** ** Headers *)

Record BlockHeader : Type := mkBlockHeader {
  bh_version : Z;
  bh_prev_hash : Digest;
  bh_block_num : Z;
  bh_chain_root : Digest;
  bh_account_root : Digest;
  bh_nullifier_root : Digest;
  bh_note_root : Digest;
  bh_tx_hash : Digest;
  bh_kernel_root : Digest;
  bh_proof_hash : Digest;
  bh_timestamp : Z;
  bh_sub_hash : Digest;
  bh_hash : Digest
}.

Definition compute_sub_hash (version : Z) (prev_hash chain_root account_root nullifier_root tx_hash kernel_root
    proof_hash : Digest) (timestamp block_num : Z) : Digest :=
  hash_elements (word_elements prev_hash ++ word_elements chain_root ++ word_elements account_root ++
    word_elements nullifier_root ++ word_elements tx_hash ++ word_elements kernel_root ++
    word_elements proof_hash ++ [felt_new block_num; felt_new version; felt_new timestamp; ZERO]).

Definition block_header_new (version : Z) (prev_hash : Digest) (block_num : Z) (chain_root account_root
    nullifier_root note_root tx_hash kernel_root proof_hash : Digest) (timestamp : Z) : BlockHeader :=
  let sub_hash := compute_sub_hash version prev_hash chain_root account_root nullifier_root tx_hash
    kernel_root proof_hash timestamp block_num in
  let hash := hash_merge sub_hash note_root in
  mkBlockHeader version prev_hash block_num chain_root account_root nullifier_root note_root tx_hash
    kernel_root proof_hash timestamp sub_hash hash.

Definition block_header_write (h : BlockHeader) : bytes :=
  write_u32 (bh_version h) ++ write_digest (bh_prev_hash h) ++ write_u32 (bh_block_num h) ++
  write_digest (bh_chain_root h) ++ write_digest (bh_account_root h) ++ write_digest (bh_nullifier_root h) ++
  write_digest (bh_note_root h) ++ write_digest (bh_tx_hash h) ++ write_digest (bh_kernel_root h) ++
  write_digest (bh_proof_hash h) ++ write_u32 (bh_timestamp h).
Definition block_header_read : reader BlockHeader :=
  version ← read_u32;
  prev_hash ← read_digest;
  block_num ← read_u32;
  chain_root ← read_digest;
  account_root ← read_digest;
  nullifier_root ← read_digest;
  note_root ← read_digest;
  tx_hash ← read_digest;
  kernel_root ← read_digest;
  proof_hash ← read_digest;
  timestamp ← read_u32;
  mret (block_header_new version prev_hash block_num chain_root account_root nullifier_root note_root
    tx_hash kernel_root proof_hash timestamp).

(** A header that the constructor builds from numbers of 32 bits. *)
Record wf_header (h : BlockHeader) : Prop := {
  wh_version : 0 ≤ bh_version h < 2 ^ 32;
  wh_block_num : 0 ≤ bh_block_num h < 2 ^ 32;
  wh_timestamp : 0 ≤ bh_timestamp h < 2 ^ 32;
  wh_new : block_header_new (bh_version h) (bh_prev_hash h) (bh_block_num h) (bh_chain_root h)
    (bh_account_root h) (bh_nullifier_root h) (bh_note_root h) (bh_tx_hash h) (bh_kernel_root h)
    (bh_proof_hash h) (bh_timestamp h) = h
}.

(** ** The chain *)

Inductive ChainMmrError : Type :=
  | BlockNumTooBig (chain_length block_num : Z)
  | DuplicateBlock (block_num : Z)
  | UntrackedBlock (block_num : Z).

Record ChainMmr : Type := mkChainMmr { cm_mmr : PartialMmr; cm_blocks : gmap Z BlockHeader }.

(** The loop of [ChainMmr::new]. *)
Fixpoint chain_insert (mmr : PartialMmr) (blocks : list BlockHeader) (block_map : gmap Z BlockHeader)
    : res ChainMmrError (gmap Z BlockHeader) :=
  match blocks with
  | [] => Ok block_map
  | block :: blocks' =>
      let num := bh_block_num block in
      if num >=? mmr_forest mmr then Err (BlockNumTooBig (mmr_forest mmr) num)
      else match block_map !! num with
           | Some _ => Err (DuplicateBlock num)
           | None =>
               if negb (mmr_is_tracked mmr num) then Err (UntrackedBlock num)
               else chain_insert mmr blocks' (<[num := block]> block_map)
           end
  end.
Definition chain_mmr_new (mmr : PartialMmr) (blocks : list BlockHeader) : res ChainMmrError ChainMmr :=
  block_map ← chain_insert mmr blocks ∅;
  Ok (mkChainMmr mmr block_map).

Definition chain_length (c : ChainMmr) : Z := mmr_forest (cm_mmr c).
Definition contains_block (c : ChainMmr) (block_num : Z) : bool := bool_decide (is_Some (cm_blocks c !! block_num)).
Definition get_block (c : ChainMmr) (block_num : Z) : option BlockHeader := cm_blocks c !! block_num.

(** [ChainMmr::add_block] *)
Definition add_block {E} (block_header : BlockHeader) (track : bool) : mut ChainMmr E unit := λ c,
  if negb (bh_block_num block_header =? as_u32 (chain_length c)) then (Panic, c)
  else (Ok tt, mkChainMmr (mmr_add (bh_hash block_header) track (cm_mmr c)) (cm_blocks c)).

Definition chain_mmr_write (c : ChainMmr) : bytes :=
  write_mmr (cm_mmr c) ++ write_usize (Z.of_nat (size (cm_blocks c))) ++
  write_many block_header_write (btree_iter Z.leb (cm_blocks c)).*2.
Definition chain_mmr_read : reader ChainMmr :=
  mmr ← read_mmr;
  block_count ← read_usize;
  blocks ← read_loop block_header_read (λ m block, <[bh_block_num block := block]> m) (Z.to_nat block_count)
             (∅ : gmap Z BlockHeader);
  mret (mkChainMmr mmr blocks).

(** ** Invariants *)

(** Every stored header is at its number, inside the chain and tracked. *)
Definition wf_chain (c : ChainMmr) : Prop :=
  map_Forall (λ n h, bh_block_num h = n ∧ wf_header h ∧ n < chain_length c ∧ mmr_is_tracked (cm_mmr c) n = true)
    (cm_blocks c).

Lemma block_header_new_wf version prev num chain account nullifier note tx kernel proof time :
  0 ≤ version < 2 ^ 32 → 0 ≤ num < 2 ^ 32 → 0 ≤ time < 2 ^ 32 →
  wf_header (block_header_new version prev num chain account nullifier note tx kernel proof time).
Proof. intros. by split. Qed.

Lemma chain_insert_Ok mmr blocks m m' :
  chain_insert mmr blocks m = Ok m' ↔
  (∀ b, b ∈ blocks → bh_block_num b < mmr_forest mmr ∧ mmr_is_tracked mmr (bh_block_num b) = true ∧
     m !! bh_block_num b = None) ∧
  NoDup (bh_block_num <$> blocks) ∧
  m' = list_to_map ((λ b, (bh_block_num b, b)) <$> blocks) ∪ m.
Proof.
  revert m. induction blocks as [|b blocks IH]; intros m; cbn [chain_insert].
  { split; [intros [= <-]|].
    - split; [by intros b Hb%elem_of_nil|]. split; [constructor|]. cbn. by rewrite map_empty_union.
    - intros (_ & _ & ->). cbn. by rewrite map_empty_union. }
  rewrite fmap_cons, NoDup_cons.
  destruct (Z.geb_spec (bh_block_num b) (mmr_forest mmr)).
  { split; [discriminate|]. intros (Hall & _). destruct (Hall b); [left|lia]. }
  destruct (m !! bh_block_num b) as [x|] eqn:Em.
  { split; [discriminate|]. intros (Hall & _). destruct (Hall b) as (_ & _ & ?); [left|congruence]. }
  destruct (mmr_is_tracked mmr (bh_block_num b)) eqn:Et; cbn [negb].
  2: { split; [discriminate|]. intros (Hall & _). destruct (Hall b) as (_ & ? & _); [left|congruence]. }
  rewrite IH, fmap_cons. cbn [list_to_map foldr uncurry]. split.
  - intros (Hall & ND & ->). assert (bh_block_num b ∉ bh_block_num <$> blocks) as Hni.
    { intros (b' & Eb & Hb)%list_elem_of_fmap. destruct (Hall b' Hb) as (_ & _ & Hn).
      by rewrite <-Eb, lookup_insert_eq in Hn. }
    split; [|split; [done|]].
    + intros b' [->|Hb]%elem_of_cons; [done|]. destruct (Hall b' Hb) as (? & ? & Hn). split; [done|]. split; [done|].
      by apply lookup_insert_None in Hn as [].
    + rewrite <-insert_union_l, insert_union_r; [done|]. apply not_elem_of_list_to_map_1.
      by rewrite <-list_fmap_compose.
  - intros (Hall & [Hni ND] & ->). split; [|split; [done|]].
    + intros b' Hb. destruct (Hall b') as (? & ? & Hn); [by right|]. split; [done|]. split; [done|].
      apply lookup_insert_None. split; [done|]. intros E. apply Hni. rewrite E. by apply list_elem_of_fmap_2.
    + rewrite <-insert_union_l, insert_union_r; [done|]. apply not_elem_of_list_to_map_1.
      by rewrite <-list_fmap_compose.
Qed.

Lemma chain_insert_no_panic mmr blocks m : chain_insert mmr blocks m ≠ Panic.
Proof.
  revert m. induction blocks as [|b blocks IH]; intros m; cbn [chain_insert]; [done|].
  destruct (_ >=? _); [done|]. destruct (m !! _); [done|]. by destruct (negb _).
Qed.

Lemma chain_mmr_new_Ok mmr blocks c :
  chain_mmr_new mmr blocks = Ok c ↔
  (∀ b, b ∈ blocks → bh_block_num b < mmr_forest mmr ∧ mmr_is_tracked mmr (bh_block_num b) = true) ∧
  NoDup (bh_block_num <$> blocks) ∧
  c = mkChainMmr mmr (list_to_map ((λ b, (bh_block_num b, b)) <$> blocks)).
Proof.
  unfold chain_mmr_new. destruct (chain_insert mmr blocks ∅) as [m|e|] eqn:E; cbn [mbind res_bind].
  - apply chain_insert_Ok in E as (Hall & ND & ->). rewrite map_union_empty. split.
    + intros [= <-]. split; [|done]. intros b Hb. by destruct (Hall b Hb) as (? & ? & _).
    + by intros (_ & _ & ->).
  - split; [discriminate|]. intros (Hall & ND & ->).
    enough (chain_insert mmr blocks ∅ = Ok (list_to_map ((λ b, (bh_block_num b, b)) <$> blocks))) by congruence.
    apply chain_insert_Ok. rewrite map_union_empty. split; [|done]. intros b Hb.
    destruct (Hall b Hb). split; [done|]. split; [done|]. apply lookup_empty.
  - exfalso. by apply (chain_insert_no_panic mmr blocks ∅).
Qed.

Lemma block_header_decodes : decodes wf_header block_header_write block_header_read.
Proof.
  intros h rest [Hv Hn Ht Hnew]. unfold block_header_write, block_header_read. rewrite <-!app_assoc.
  repeat first [rewrite (decodes_bind _ _ _ _ _ _ u32_decodes) by done
               |rewrite (decodes_bind _ _ _ _ _ _ digest_decodes) by done].
  by rewrite Hnew.
Qed.

Lemma u32_felt_inj v v' : 0 ≤ v < 2 ^ 32 → 0 ≤ v' < 2 ^ 32 → felt_new v = felt_new v' → v = v'.
Proof.
  intros Hv Hv' E. apply (f_equal as_int) in E.
  by rewrite !as_int_small in E by (unfold MODULUS; lia).
Qed.

(** Folding the headers back into a map. *)
Lemma fold_insert_blocks (l : list (Z * BlockHeader)) (m : gmap Z BlockHeader) :
  NoDup l.*1 → Forall (λ p, bh_block_num p.2 = p.1) l →
  foldl (λ m block, <[bh_block_num block := block]> m) m l.*2 = list_to_map l ∪ m.
Proof.
  intros ND Hl. revert m ND. induction Hl as [|[k b] l Hb _ IH]; intros m ND; cbn in *.
  { by rewrite map_empty_union. }
  apply NoDup_cons in ND as [Hni ND]. rewrite IH, Hb by done.
  rewrite <-insert_union_l, insert_union_r; [done|]. by apply not_elem_of_list_to_map_1.
Qed.

Lemma chain_mmr_reads_back c rest :
  wf_chain c → Z.of_nat (size (cm_blocks c)) < 2 ^ 64 → chain_mmr_read (chain_mmr_write c ++ rest) = Ok (c, rest).
Proof.
  intros Hc Hs. unfold chain_mmr_read, chain_mmr_write. rewrite <-!app_assoc.
  rewrite (decodes_bind _ _ _ _ _ _ mmr_decodes) by done. rewrite read_usize_bind by lia.
  rewrite (read_loop_bind wf_header block_header_write).
  - rewrite fold_insert_blocks, list_to_map_btree_iter, map_union_empty; [by destruct c|apply btree_iter_keys_NoDup|].
    apply Forall_forall. intros [k b] Hb%elem_of_btree_iter. by destruct (Hc k b Hb) as (? & _).
  - apply block_header_decodes.
  - apply Forall_forall. intros b ([k b'] & -> & Hb%elem_of_btree_iter)%list_elem_of_fmap.
    by destruct (Hc k b' Hb) as (_ & ? & _).
  - by rewrite length_fmap, length_btree_iter, Nat2Z.id.
Qed.

(** ** Theorems *)

(** What is hashed for a header. *)
Definition header_preimages (h : BlockHeader) : list preimage :=
  [Merged (bh_sub_hash h) (bh_note_root h);
   Elements (word_elements (bh_prev_hash h) ++ word_elements (bh_chain_root h) ++ word_elements (bh_account_root h) ++
     word_elements (bh_nullifier_root h) ++ word_elements (bh_tx_hash h) ++ word_elements (bh_kernel_root h) ++
     word_elements (bh_proof_hash h) ++
     [felt_new (bh_block_num h); felt_new (bh_version h); felt_new (bh_timestamp h); ZERO])].

(** C31. The hash of a block header binds every field: two well-formed headers with
    the same hash are equal, or the hash inputs that were computed for the two
    ([header_preimages]) contain a collision: two different inputs, at the same
    place, with the same digest. *)
Theorem block_header_binds h h' :
  wf_header h → wf_header h' → bh_hash h = bh_hash h' →
  h = h' ∨ collides (header_preimages h) (header_preimages h').
Proof.
  intros [Hv Hn Ht Hnew] [Hv' Hn' Ht' Hnew'] E. rewrite <-Hnew, <-Hnew' in E |- *. cbn [block_header_new bh_hash] in E.
  destruct (merge_binds _ _ _ _ E) as [[Es Enote]|]; [|right; by eapply (collides_at 0)].
  apply (image_binds (Elements _) (Elements _)) in Es as [El%(inj Elements)|]; [|right; by eapply (collides_at 1)].
  left. do 7 (apply app_inj_1 in El as [?%word_elements_inj El]; [|done]). injection El as E1 E2 E3.
  apply u32_felt_inj in E1, E2, E3; try done. congruence.
Qed.

(** A partial view of the chain is accepted exactly when the blocks lie
    inside the chain, are tracked and have different numbers; then looking a
    number up gives the listed header of that number and nothing else. *)
Theorem chain_mmr_new_spec mmr blocks :
  match chain_mmr_new mmr blocks with
  | Ok c =>
      (∀ n h, get_block c n = Some h ↔ h ∈ blocks ∧ bh_block_num h = n) ∧
      NoDup (bh_block_num <$> blocks) ∧
      Forall (λ b, bh_block_num b < chain_length c ∧ mmr_is_tracked mmr (bh_block_num b) = true) blocks ∧
      chain_length c = mmr_forest mmr
  | Err e => ¬ (NoDup (bh_block_num <$> blocks) ∧
      Forall (λ b, bh_block_num b < mmr_forest mmr ∧ mmr_is_tracked mmr (bh_block_num b) = true) blocks)
  | Panic => False
  end.
Proof.
  destruct (chain_mmr_new mmr blocks) as [c|e|] eqn:E.
  - apply chain_mmr_new_Ok in E as (Hall & ND & ->). split; [|split; [done|]; split; [by apply Forall_forall|done]].
    intros n h. unfold get_block. cbn [cm_blocks]. rewrite <-elem_of_list_to_map.
    + rewrite list_elem_of_fmap. split; [intros (b & [= -> ->] & Hb); done|]. intros [Hh <-]. by exists h.
    + rewrite <-list_fmap_compose. exact ND.
  - intros [ND Hall]. rewrite Forall_forall in Hall.
    enough (chain_mmr_new mmr blocks = Ok (mkChainMmr mmr (list_to_map ((λ b, (bh_block_num b, b)) <$> blocks))))
      by congruence.
    by apply chain_mmr_new_Ok.
  - unfold chain_mmr_new in E. destruct (chain_insert mmr blocks ∅) eqn:Ei; try discriminate.
    by apply (chain_insert_no_panic mmr blocks ∅).
Qed.

(** Appending a block keeps the view well formed and grows the chain by
    one, and panics exactly when the number is not the length of the chain; but
    a block that is appended with tracking is tracked by the range without
    being found by its number, so that notes of it cannot be authenticated. *)
Theorem add_block_spec {E} h track c :
  wf_chain c → chain_length c + 1 < 2 ^ 32 →
  let '(r, c') := add_block (E:=E) h track c in
  if bh_block_num h =? chain_length c
  then r = Ok tt ∧ wf_chain c' ∧ chain_length c' = chain_length c + 1 ∧
    (track = true → mmr_is_tracked (cm_mmr c') (bh_block_num h) = true) ∧ get_block c' (bh_block_num h) = None
  else r = Panic ∧ c' = c.
Proof.
  intros Hc Hl. unfold add_block. pose proof (mmr_forest_range (cm_mmr c)) as Hr.
  assert (as_u32 (chain_length c) = chain_length c) as -> by (apply Z.mod_small; unfold chain_length in *; lia).
  destruct (Z.eqb_spec (bh_block_num h) (chain_length c)) as [En|]; cbn [negb]; [|done].
  unfold chain_length in *. split_and!; [done| | | |].
  - intros n b Hb. destruct (Hc n b Hb) as (? & ? & Hn & Ht). unfold chain_length in *. cbn [cm_mmr].
    rewrite mmr_add_forest by lia. split_and!; [done..|lia|]. by apply mmr_add_keeps; [lia|].
  - cbn [cm_mmr]. apply mmr_add_forest. lia.
  - intros ->. cbn [cm_mmr]. rewrite En. apply mmr_add_tracked. lia.
  - unfold get_block. cbn [cm_blocks]. destruct (cm_blocks c !! bh_block_num h) as [b|] eqn:Eb; [|done].
    destruct (Hc _ b Eb) as (_ & _ & Hn & _). unfold chain_length in Hn. lia.
Qed.
End Chain.

(** ** A concrete range

    The leaves themselves, each with a mark that says whether it is tracked. *)

Section ListMmr.
  Context {F : FeltApi} {H : HasherApi} {B : ByteIO}.

Definition write_leaf (p : Digest * bool) : bytes := write_digest p.1 ++ write_u8 (Z.b2z p.2).
Definition read_leaf : reader (Digest * bool) := d ← read_digest; b ← read_u8; mret (d, b =? 1).

Lemma leaf_decodes : decodes (λ _, True) write_leaf read_leaf.
Proof.
  intros [d b] rest _. unfold write_leaf, read_leaf. cbn [fst snd].
  rewrite <-app_assoc, (decodes_bind _ _ _ _ _ _ digest_decodes) by done.
  rewrite read_u8_bind by (destruct b; cbn; lia). by destruct b.
Qed.

Definition list_forest (m : list (Digest * bool)) : Z := Z.min (Z.of_nat (length m)) (2 ^ 64 - 1).
Definition list_tracked (m : list (Digest * bool)) (i : Z) : bool :=
  if i <? 0 then false else match m !! Z.to_nat i with Some p => p.2 | None => false end.

#[refine] Definition ListMmr : MmrApi := {|
  PartialMmr := list (Digest * bool);
  MmrPeaks := list Digest;
  mmr_forest := list_forest;
  mmr_peaks m := m.*1;
  mmr_is_tracked := list_tracked;
  mmr_add leaf track m := m ++ [(leaf, track)];
  hash_peaks p := hash_elements (mjoin (word_elements <$> p));
  peaks_num_leaves p := Z.of_nat (length p);
  flatten_and_pad_peaks p := mjoin (word_elements <$> p);
  write_mmr := write_term write_leaf;
  read_mmr := read_term read_leaf
|}.
Proof.
  - abstract (intros m; unfold list_forest; lia).
  - abstract (intros leaf track m; unfold list_forest; rewrite length_app; cbn [length]; lia).
  - abstract (intros leaf m; unfold list_forest, list_tracked; intros Hm;
      rewrite Z.min_l by lia; rewrite (proj2 (Z.ltb_ge _ _)) by lia; rewrite Nat2Z.id, lookup_app_r, Nat.sub_diag by lia; done).
  - abstract (intros leaf track m i _; unfold list_tracked; destruct (i <? 0); [done|];
      destruct (m !! Z.to_nat i) as [p|] eqn:E; [|done]; by rewrite (lookup_app_l_Some _ _ _ _ E)).
  - exact (term_decodes _ _ leaf_decodes).
Defined.
End ListMmr.

(** ** Witnesses *)

#[local] Existing Instance Goldilocks.
#[local] Existing Instance ToyHasher.
#[local] Existing Instance PlainIO.
#[local] Existing Instance ListMmr.

Definition sample_block_header (num : Z) (chain_root note_root : Digest) : BlockHeader :=
  block_header_new 1 EMPTY_WORD num chain_root EMPTY_WORD EMPTY_WORD note_root EMPTY_WORD EMPTY_WORD EMPTY_WORD 99.

Lemma sample_block_header_wf num c n : 0 ≤ num < 2 ^ 32 → wf_header (sample_block_header num c n).
Proof. intros. apply block_header_new_wf; lia. Qed.

Definition sample_genesis : BlockHeader := sample_block_header 0 EMPTY_WORD EMPTY_WORD.
Definition sample_mmr : PartialMmr := [(bh_hash sample_genesis, true)].
Definition sample_chain : ChainMmr := mkChainMmr sample_mmr {[ 0 := sample_genesis ]}.

Lemma sample_chain_wf : wf_chain sample_chain.
Proof.
  intros n h Hl. apply (lookup_singleton_Some 0 n sample_genesis h) in Hl as [<- <-]. split; [reflexivity|]. split; [|split; reflexivity].
  apply sample_block_header_wf. lia.
Qed.

(** The hash of the witnesses does have collisions: block 31 of version 1 and
    block 0 of version 2 have the same hash. *)
Definition colliding_header (version num : Z) : BlockHeader :=
  block_header_new version EMPTY_WORD num EMPTY_WORD EMPTY_WORD EMPTY_WORD EMPTY_WORD EMPTY_WORD EMPTY_WORD EMPTY_WORD 99.

Lemma block_header_binds_witness :
  colliding_header 1 31 ≠ colliding_header 2 0 ∧
  collides (header_preimages (colliding_header 1 31)) (header_preimages (colliding_header 2 0)).
Proof.
  assert (colliding_header 1 31 ≠ colliding_header 2 0) as Hne by (intros E; by apply (f_equal bh_version) in E).
  split; [exact Hne|].
  destruct (block_header_binds (colliding_header 1 31) (colliding_header 2 0)) as [E|Hc].
  - apply block_header_new_wf; lia.
  - apply block_header_new_wf; lia.
  - apply (bool_decide_unpack _). vm_compute. exact I.
  - by destruct Hne.
  - exact Hc.
Defined.

Lemma add_block_spec_witness :
  let c' := (add_block (E:=Empty_set) (sample_block_header 1 EMPTY_WORD EMPTY_WORD) true sample_chain).2 in
  mmr_is_tracked (cm_mmr c') 1 = true ∧ get_block c' 1 = None.
Proof.
  pose proof (add_block_spec (E:=Empty_set) (sample_block_header 1 EMPTY_WORD EMPTY_WORD) true sample_chain
    sample_chain_wf eq_refl) as Hs.
  destruct Hs as (_ & _ & _ & Ht & Hg). split; [exact (Ht eq_refl)|exact Hg].
Defined.
