(* ===== verification/TxInputs.v ===== *)
(** * Transaction inputs

    Models objects/src/transaction/inputs.rs: the notes that a transaction
    consumes, in the two forms in which they are known, their commitment, and
    the checks on the inputs of a transaction. *)

From S2P Require Import Prelude Felt Crypto Serde Types AccountId Assets VaultDelta Vault StorageDelta Storage.
From S2P Require Import Code Account NoteMeta NoteContents Notes TxOutputs Merkle Chain.
Open Scope Z_scope.

(** [ToInputNoteCommitments] *)
Class ToInputNoteCommitments {F : FeltApi} (T : Type) := {
  to_nullifier : T → Digest;
  to_note_hash : T → option Digest
}.

Inductive TransactionInputError {F : FeltApi} : Type :=
  | AccountSeedNotProvidedForNewAccount
  | AccountSeedProvidedForExistingAccount
  | DuplicateInputNote (nullifier : Digest)
  | InconsistentAccountSeed (expected actual : AccountId)
  | InconsistentChainLength (expected actual : Z)
  | InconsistentChainRoot (expected actual : Digest)
  | InputNoteBlockNotInChainMmr (id : Digest)
  | InputNoteNotInBlock (id : Digest) (block_num : Z)
  | InvalidAccountSeed (e : AccountError)
  | TooManyInputNotes (max actual : Z).

(** ** Lists of input notes *)

Section InputNotes.
  Context {F : FeltApi} {H : HasherApi} {T : Type} {C : ToInputNoteCommitments T}.

Record InputNotes : Type := mkInputNotes { in_notes : list T; in_commitment : Digest }.

(** The loop of [build_input_note_commitment]. *)
Fixpoint input_elements (notes : list T) : list felt :=
  match notes with
  | [] => []
  | n :: notes' =>
      word_elements (to_nullifier n) ++ word_elements (default EMPTY_WORD (to_note_hash n)) ++ input_elements notes'
  end.
Definition build_input_note_commitment (notes : list T) : Digest :=
  match notes with
  | [] => EMPTY_WORD
  | _ :: _ => hash_elements (input_elements notes)
  end.

(** [InputNotes::new] and [default] *)
Definition input_notes_new (notes : list T) : res TransactionInputError InputNotes :=
  if Z.of_nat (length notes) >? MAX_INPUT_NOTES_PER_TX
  then Err (TooManyInputNotes MAX_INPUT_NOTES_PER_TX (Z.of_nat (length notes)))
  else match first_duplicate ∅ (to_nullifier <$> notes) with
       | Some nullifier => Err (DuplicateInputNote nullifier)
       | None => Ok (mkInputNotes notes (build_input_note_commitment notes))
       end.
Definition input_notes_default : InputNotes := mkInputNotes [] (build_input_note_commitment []).

Section Ser.
  Context {B : ByteIO}.

Definition input_notes_write {E} (w : T → res E bytes) (l : InputNotes) : res E bytes :=
  if Z.of_nat (length (in_notes l)) <=? U16_MAX
  then b ← write_all w (in_notes l); Ok (write_u16 (Z.of_nat (length (in_notes l))) ++ b)
  else Panic.
Definition input_notes_read (r : reader T) : reader InputNotes :=
  num_notes ← read_u16;
  notes ← read_many r (Z.to_nat num_notes);
  reader_lift (input_notes_new notes).
End Ser.

Lemma input_notes_new_Ok notes l :
  input_notes_new notes = Ok l ↔
  Z.of_nat (length notes) ≤ MAX_INPUT_NOTES_PER_TX ∧ NoDup (to_nullifier <$> notes) ∧
  l = mkInputNotes notes (build_input_note_commitment notes).
Proof.
  unfold input_notes_new. destruct (Z.gtb_spec (Z.of_nat (length notes)) MAX_INPUT_NOTES_PER_TX).
  { split; [discriminate|]. intros (? & _). lia. }
  rewrite <-first_duplicate_None. destruct (first_duplicate ∅ _).
  - split; [discriminate|]. by intros (_ & ? & _).
  - split; [intros [= <-]; auto with lia|]. by intros (_ & _ & ->).
Qed.

Definition wf_input_list (Q : T → Prop) (l : InputNotes) : Prop :=
  Forall Q (in_notes l) ∧ input_notes_new (in_notes l) = Ok l.

Lemma input_notes_read_back {B : ByteIO} (Q : T → Prop) w r l :
  (∀ n, Q n → reads_back (w n) r n) → wf_input_list Q l →
  reads_back (input_notes_write w l) (input_notes_read r) l.
Proof.
  intros Hw [Hl Hnew]. destruct (proj1 (input_notes_new_Ok _ _) Hnew) as (Hlen & _).
  unfold MAX_INPUT_NOTES_PER_TX in Hlen.
  destruct (write_all_reads_back Q w r _ Hw Hl) as (b & Eb & Hr).
  unfold reads_back, input_notes_write, input_notes_read. rewrite (proj2 (Z.leb_le _ _)) by (unfold U16_MAX; lia).
  rewrite Eb. eexists. split; [done|]. intros rest.
  rewrite <-app_assoc, (decodes_bind _ _ _ _ _ _ u16_decodes) by lia.
  unfold mbind, reader_bind. rewrite Nat2Z.id, Hr. unfold reader_lift. by rewrite Hnew.
Qed.

(** What the commitment determines. *)
Definition commitment_view (n : T) : Digest * Word := (to_nullifier n, default EMPTY_WORD (to_note_hash n)).

Lemma input_elements_binding l l' :
  input_elements l = input_elements l' → commitment_view <$> l = commitment_view <$> l'.
Proof.
  revert l'. induction l as [|n l IH]; intros [|n' l'] E; [done|discriminate..|]. cbn [input_elements] in E.
  apply app_inj_1 in E as [E1%word_elements_inj E]; [|done]. apply app_inj_1 in E as [E2%word_elements_inj E]; [|done].
  rewrite !fmap_cons, (IH l' E). unfold commitment_view at 1 3. by rewrite E1, E2.
Qed.

(** What is hashed for the commitment. *)
Definition input_preimage (l : list T) : preimage :=
  match l with [] => NoPreimage | _ => Elements (input_elements l) end.
Lemma input_commitment_image l : build_input_note_commitment l = image (input_preimage l).
Proof. by destruct l. Qed.

Lemma input_commitment_binding l l' :
  build_input_note_commitment l = build_input_note_commitment l' →
  commitment_view <$> l = commitment_view <$> l' ∨ collision (input_preimage l) (input_preimage l').
Proof.
  rewrite !input_commitment_image. intros [E|]%image_binds; [left|by right].
  destruct l as [|n l], l' as [|n' l']; [done|discriminate..|]. apply input_elements_binding. exact (inj Elements _ _ E).
Qed.
End InputNotes.
Arguments InputNotes {F} T.

(** The commitment depends on the nullifiers and hashes only. *)
Lemma input_commitment_ext {F : FeltApi} {H : HasherApi} {T T'} {C : ToInputNoteCommitments T}
    {C' : ToInputNoteCommitments T'} (l : list T) (l' : list T') :
  commitment_view <$> l = commitment_view <$> l' →
  build_input_note_commitment l = build_input_note_commitment l'.
Proof.
  intros E. assert (input_elements l = input_elements l') as Ee.
  { revert l' E. induction l as [|n l IH]; intros [|n' l'] E; [done|discriminate..|].
    rewrite !fmap_cons in E. injection E as E1 E2 E. cbn [input_elements]. by rewrite E1, E2, (IH l' E). }
  destruct l, l'; [done|discriminate..|]. cbn [build_input_note_commitment]. by rewrite Ee.
Qed.

(** ** Input notes and transaction inputs *)

Section Inputs.
  Context {F : FeltApi} {H : HasherApi} {S : SmtApi} {D : DigestOrd} {A : AsmApi} {P : ProgramApi}.
  Context {B : ByteIO} {N : NoteIO} {T : PathApi} {R : MmrApi}.

Inductive InputNote : Type :=
  | Authenticated (note : Note) (proof : NoteInclusionProof)
  | Unauthenticated (note : Note).

(** [InputNote::note], [proof], [location] and [id] *)
Definition input_note (n : InputNote) : Note :=
  match n with Authenticated note _ => note | Unauthenticated note => note end.
Definition input_proof (n : InputNote) : option NoteInclusionProof :=
  match n with Authenticated _ proof => Some proof | Unauthenticated _ => None end.
Definition input_location (n : InputNote) : option NoteLocation := np_location <$> input_proof n.
Definition input_id (n : InputNote) : Digest := note_id (input_note n).

#[export] Instance InputNote_commitments : ToInputNoteCommitments InputNote := {|
  to_nullifier n := note_nullifier (input_note n);
  to_note_hash n := match n with Authenticated _ _ => None | Unauthenticated note => Some (note_hash note) end
|}.

Definition validate_is_in_block (note : Note) (proof : NoteInclusionProof) (block_header : BlockHeader)
    : res TransactionInputError unit :=
  let note_index := node_index_in_block (np_location proof) in
  if path_verify (np_note_path proof) note_index (note_hash note) (bh_note_root block_header) then Ok tt
  else Err (InputNoteNotInBlock (note_id note) (block_num (np_location proof))).

Definition validate_account_seed (account : Account) (account_seed : option Word) : res TransactionInputError unit :=
  match account_is_new account, account_seed with
  | true, Some seed =>
      account_id ← map_err InvalidAccountSeed
        (account_id_new seed (code_commitment (acct_code account)) (storage_commitment (acct_storage account)));
      if decide (account_id ≠ acct_id account) then Err (InconsistentAccountSeed (acct_id account) account_id)
      else Ok tt
  | true, None => Err AccountSeedNotProvidedForNewAccount
  | false, Some _ => Err AccountSeedProvidedForExistingAccount
  | false, None => Ok tt
  end.

Record TransactionInputs : Type := mkTxInputs {
  ti_account : Account;
  ti_account_seed : option Word;
  ti_block_header : BlockHeader;
  ti_block_chain : ChainMmr;
  ti_input_notes : InputNotes InputNote
}.

(** The block whose note root authenticates a note. *)
Definition note_block (block_header : BlockHeader) (block_chain : ChainMmr) (note_block_num : Z) : option BlockHeader :=
  if note_block_num =? bh_block_num block_header then Some block_header
  else get_block block_chain note_block_num.

(** The loop of [TransactionInputs::new] over the input notes. *)
Fixpoint check_notes (block_header : BlockHeader) (block_chain : ChainMmr) (notes : list InputNote)
    : res TransactionInputError unit :=
  match notes with
  | [] => Ok tt
  | Authenticated note proof :: notes' =>
      header ← ok_or (InputNoteBlockNotInChainMmr (note_id note))
        (note_block block_header block_chain (block_num (np_location proof)));
      validate_is_in_block note proof header ;;
      check_notes block_header block_chain notes'
  | Unauthenticated _ :: notes' => check_notes block_header block_chain notes'
  end.

Definition tx_inputs_new (account : Account) (account_seed : option Word) (block_header : BlockHeader)
    (block_chain : ChainMmr) (input_notes : InputNotes InputNote) : res TransactionInputError TransactionInputs :=
  validate_account_seed account account_seed ;;
  if negb (chain_length block_chain =? bh_block_num block_header)
  then Err (InconsistentChainLength (bh_block_num block_header) (as_u32 (chain_length block_chain)))
  else if decide (hash_peaks (mmr_peaks (cm_mmr block_chain)) ≠ bh_chain_root block_header)
  then Err (InconsistentChainRoot (bh_chain_root block_header) (hash_peaks (mmr_peaks (cm_mmr block_chain))))
  else
    check_notes block_header block_chain (in_notes input_notes) ;;
    Ok (mkTxInputs account account_seed block_header block_chain input_notes).

(** ** Serialization *)

Section Ser.
  Context {SI : SmtIO} {M : MastIO}.

Definition input_write {E} (n : InputNote) : res E bytes :=
  match n with
  | Authenticated note proof => b ← note_write note; Ok (write_u8 0 ++ b ++ proof_write proof)
  | Unauthenticated note => b ← note_write note; Ok (write_u8 1 ++ b)
  end.
Definition input_read : reader InputNote :=
  v ← read_u8;
  match v return reader InputNote with
  | 0 => note ← note_read; proof ← proof_read; mret (Authenticated note proof)
  | 1 => note ← note_read; mret (Unauthenticated note)
  | _ => λ _, Err InvalidValue
  end.

Definition tx_inputs_write {E} (t : TransactionInputs) : res E bytes :=
  notes ← input_notes_write input_write (ti_input_notes t);
  Ok (write_into (ti_account t) ++ write_option write_word (ti_account_seed t) ++
      block_header_write (ti_block_header t) ++ chain_mmr_write (ti_block_chain t) ++ notes).
Definition tx_inputs_read : reader TransactionInputs :=
  account ← read_from (A:=Account);
  account_seed ← read_option read_word;
  block_header ← block_header_read;
  block_chain ← chain_mmr_read;
  input_notes ← input_notes_read input_read;
  reader_lift (tx_inputs_new account account_seed block_header block_chain input_notes).
End Ser.

(** ** Accepted inputs *)

Definition seed_accepted (account : Account) (account_seed : option Word) : Prop :=
  if account_is_new account
  then ∃ seed, account_seed = Some seed ∧
    account_id_new seed (code_commitment (acct_code account)) (storage_commitment (acct_storage account)) =
      Ok (acct_id account)
  else account_seed = None.

(** A note that is authenticated by the note root of a block of the view. *)
Definition authentic (block_header : BlockHeader) (block_chain : ChainMmr) (n : InputNote) : Prop :=
  match n with
  | Authenticated note proof =>
      ∃ h, note_block block_header block_chain (block_num (np_location proof)) = Some h ∧
        path_verify (np_note_path proof) (node_index_in_block (np_location proof)) (note_hash note)
          (bh_note_root h) = true
  | Unauthenticated _ => True
  end.

Lemma account_id_new_total seed code storage : account_id_new seed code storage ≠ Panic.
Proof.
  unfold account_id_new, validate_seed_digest, account_id_from_felt. cbn.
  repeat (case_match; cbn; try discriminate).
Qed.

Lemma validate_account_seed_Ok a seed :
  validate_account_seed a seed = Ok tt ↔ seed_accepted a seed.
Proof.
  unfold validate_account_seed, seed_accepted. destruct (account_is_new a), seed as [s|].
  - destruct (account_id_new _ _ _) as [id|e|] eqn:E; cbn [map_err mbind res_bind].
    + case_decide as Hd.
      * split; [discriminate|]. intros (s' & [= <-] & E'). rewrite E in E'. by injection E' as ->.
      * rewrite Hd in E. split; [intros _; by exists s|done].
    + split; [discriminate|]. intros (s' & [= <-] & E'). rewrite E in E'. discriminate.
    + split; [discriminate|]. intros (s' & [= <-] & E'). rewrite E in E'. discriminate.
  - split; [discriminate|]. by intros (s' & ? & _).
  - by split.
  - by split.
Qed.

Lemma validate_account_seed_total a seed : validate_account_seed a seed ≠ Panic.
Proof.
  unfold validate_account_seed. destruct (account_is_new a), seed as [s|]; try done.
  pose proof (account_id_new_total s (code_commitment (acct_code a)) (storage_commitment (acct_storage a))).
  destruct (account_id_new _ _ _); cbn; [by case_decide|done|done].
Qed.

Lemma check_notes_Ok h c notes : check_notes h c notes = Ok tt ↔ Forall (authentic h c) notes.
Proof.
  induction notes as [|[note proof|note] notes IH]; cbn [check_notes]; [done| |].
  - rewrite Forall_cons, <-IH. cbn [authentic].
    destruct (note_block h c _) as [b|]; cbn [ok_or mbind res_bind].
    + unfold validate_is_in_block. destruct (path_verify _ _ _ _) eqn:E; cbn [mbind res_bind].
      * split; [intros Hc; split; [by exists b|done]|by intros []].
      * split; [discriminate|]. intros [(b' & [= <-] & ?) _]. congruence.
    + split; [discriminate|]. by intros [(b' & ? & _) _].
  - rewrite Forall_cons, <-IH. cbn [authentic]. tauto.
Qed.

Lemma check_notes_total h c notes : check_notes h c notes ≠ Panic.
Proof.
  induction notes as [|[note proof|note] notes IH]; cbn [check_notes]; [done| |done].
  destruct (note_block h c _) as [b|]; cbn [ok_or mbind res_bind]; [|done].
  unfold validate_is_in_block. by destruct (path_verify _ _ _ _).
Qed.

Lemma tx_inputs_new_Ok a seed h c notes t :
  tx_inputs_new a seed h c notes = Ok t ↔
  (seed_accepted a seed ∧ chain_length c = bh_block_num h ∧
   hash_peaks (mmr_peaks (cm_mmr c)) = bh_chain_root h ∧ Forall (authentic h c) (in_notes notes)) ∧
  t = mkTxInputs a seed h c notes.
Proof.
  unfold tx_inputs_new. rewrite <-validate_account_seed_Ok, <-check_notes_Ok.
  destruct (validate_account_seed a seed) as [[]|e|]; cbn [mbind res_bind]; [|split; [discriminate|by intros [(? & _) _]]..].
  destruct (Z.eqb_spec (chain_length c) (bh_block_num h)); cbn [negb]; [|split; [discriminate|by intros [(_ & ? & _) _]]].
  case_decide as Hp; [split; [discriminate|by intros [(_ & _ & ? & _) _]]|].
  destruct (check_notes h c _) as [[]|e'|]; cbn [mbind res_bind]; [|split; [discriminate|by intros [(_ & _ & _ & ?) _]]..].
  split; [by intros [= <-]|by intros [_ ->]].
Qed.

Lemma seed_accepted_equiv a a' seed : account_equiv a a' → seed_accepted a seed ↔ seed_accepted a' seed.
Proof.
  intros (E1 & _ & E3 & E4 & E5). unfold seed_accepted, account_is_new.
  rewrite E1, E4, E5, (storage_commitment_proper _ _ E3). done.
Qed.

Section Laws.
  Context {SI : SmtIO} {M : MastIO}.

Definition wf_input (n : InputNote) : Prop :=
  wf_note (input_note n) ∧ match n with Authenticated _ p => wf_location (np_location p) | Unauthenticated _ => True end.

Lemma input_reads_back n : wf_input n → reads_back (input_write n) input_read n.
Proof.
  intros [Hn Hp]. destruct (note_reads_back _ Hn) as (b & Eb & Hr).
  unfold reads_back, input_read. destruct n as [note proof|note]; cbn [input_write input_note] in *; rewrite Eb.
  - eexists. split; [done|]. intros rest. rewrite <-!app_assoc, read_u8_bind by lia.
    unfold mbind, reader_bind. rewrite Hr. by rewrite proof_reads_back.
  - eexists. split; [done|]. intros rest. rewrite <-app_assoc, read_u8_bind by lia.
    unfold mbind, reader_bind. by rewrite Hr.
Qed.

(** Inputs that were accepted, with well-formed parts. *)
Record wf_tx_inputs (t : TransactionInputs) : Prop := {
  wti_account : wf_account (ti_account t);
  wti_assets : fits_usize (length (vault_assets (acct_vault (ti_account t))));
  wti_header : wf_header (ti_block_header t);
  wti_chain : wf_chain (ti_block_chain t);
  wti_blocks : Z.of_nat (size (cm_blocks (ti_block_chain t))) < 2 ^ 64;
  wti_notes : wf_input_list wf_input (ti_input_notes t);
  wti_new : tx_inputs_new (ti_account t) (ti_account_seed t) (ti_block_header t) (ti_block_chain t)
    (ti_input_notes t) = Ok t
}.

Definition set_ti_account (a : Account) (t : TransactionInputs) : TransactionInputs :=
  mkTxInputs a (ti_account_seed t) (ti_block_header t) (ti_block_chain t) (ti_input_notes t).

Lemma tx_inputs_read_back t :
  wf_tx_inputs t →
  ∃ bs, tx_inputs_write (E:=Empty_set) t = Ok bs ∧
    ∀ rest, ∃ a', account_equiv a' (ti_account t) ∧ tx_inputs_read (bs ++ rest) = Ok (set_ti_account a' t, rest).
Proof.
  intros [Ha Hl Hh Hc Hb Hn Hnew].
  destruct (input_notes_read_back wf_input input_write input_read _ input_reads_back Hn) as (bn & En & Hrn).
  unfold tx_inputs_write. rewrite En. eexists. split; [done|]. intros rest. unfold tx_inputs_read.
  rewrite <-!app_assoc.
  destruct (account_reads_back (ti_account t) (write_option write_word (ti_account_seed t) ++
    block_header_write (ti_block_header t) ++ chain_mmr_write (ti_block_chain t) ++ bn ++ rest) Ha Hl)
    as [(a' & Hra & He & _) _].
  exists a'. split; [done|]. unfold mbind at 1, reader_bind at 1. rewrite Hra.
  rewrite (decodes_bind _ _ _ _ _ _ (option_decodes _ _ _ word_decodes)) by done.
  rewrite (decodes_bind _ _ _ _ _ _ block_header_decodes) by done.
  unfold mbind at 1, reader_bind at 1. rewrite chain_mmr_reads_back by done.
  unfold mbind at 1, reader_bind at 1. rewrite Hrn. unfold reader_lift.
  apply tx_inputs_new_Ok in Hnew as [Hnew _].
  assert (tx_inputs_new a' (ti_account_seed t) (ti_block_header t) (ti_block_chain t) (ti_input_notes t) =
    Ok (set_ti_account a' t)) as ->; [|done].
  apply tx_inputs_new_Ok. split; [|done]. by rewrite (seed_accepted_equiv a' (ti_account t)).
Qed.
End Laws.

(** ** Theorems *)

(** C14. Transaction inputs are accepted exactly when the seed fits the account
    (a new account has the seed that its id is derived from, an existing one has
    none), the view of the chain ends at the reference block and has its root,
    and every authenticated note has a path to the note root of the reference
    block or of a block of the view. The constructor never panics. *)
Theorem tx_inputs_new_spec a seed h c notes :
  tx_inputs_new a seed h c notes ≠ Panic ∧
  ∀ t, tx_inputs_new a seed h c notes = Ok t ↔
    (seed_accepted a seed ∧ chain_length c = bh_block_num h ∧
     hash_peaks (mmr_peaks (cm_mmr c)) = bh_chain_root h ∧ Forall (authentic h c) (in_notes notes)) ∧
    t = mkTxInputs a seed h c notes.
Proof.
  split; [|intros t; apply tx_inputs_new_Ok]. unfold tx_inputs_new.
  pose proof (validate_account_seed_total a seed). pose proof (check_notes_total h c (in_notes notes)).
  destruct (validate_account_seed a seed); cbn [mbind res_bind]; [|done|done].
  destruct (negb _); [done|]. case_decide; [done|]. by destruct (check_notes h c _).
Qed.

(** The input commitment binds what is consumed: an accepted list has
    different nullifiers, and two accepted lists with the same commitment have
    the same nullifiers and the same hashes of unauthenticated notes in the same
    order, or the two inputs of the hash collide. *)
Theorem input_notes_bind notes notes' l l' :
  input_notes_new notes = Ok l → input_notes_new notes' = Ok l' →
  NoDup (to_nullifier <$> in_notes l) ∧
  (in_commitment l = in_commitment l' →
   commitment_view <$> in_notes l = commitment_view <$> in_notes l' ∨
   collision (input_preimage (in_notes l)) (input_preimage (in_notes l'))).
Proof.
  intros (_ & ND & ->)%input_notes_new_Ok (_ & _ & ->)%input_notes_new_Ok. split; [done|].
  apply input_commitment_binding.
Qed.

(** Transaction inputs read back from their bytes: the writer does not
    panic, and the reader, which runs all checks again, returns the same inputs
    up to the layout of the trees in the account. *)
Theorem tx_inputs_roundtrip {SI : SmtIO} {M : MastIO} t rest :
  wf_tx_inputs t →
  ∃ bs a', tx_inputs_write (E:=Empty_set) t = Ok bs ∧ account_equiv a' (ti_account t) ∧
    tx_inputs_read (bs ++ rest) = Ok (set_ti_account a' t, rest).
Proof.
  intros Ht. destruct (tx_inputs_read_back t Ht) as (bs & Hw & Hr). destruct (Hr rest) as (a' & He & Hread).
  by exists bs, a'.
Qed.
End Inputs.

(** ** Witnesses *)

#[local] Existing Instance Goldilocks.
#[local] Existing Instance ToyHasher.
#[local] Existing Instance MapTree.
#[local] Existing Instance CodeOrd.
#[local] Existing Instance PlainIO.
#[local] Existing Instance MapTreeIO.
#[local] Existing Instance RootsAsm.
#[local] Existing Instance RootsIO.
#[local] Existing Instance RootsProgram.
#[local] Existing Instance PlainNoteIO.
#[local] Existing Instance ListPath.
#[local] Existing Instance ListMmr.

(** An existing account and one note, authenticated by the reference block. *)
Definition sample_existing : Account := set_acct_nonce ONE sample_account.
Definition sample_note_root : Digest := sample_word 21.
Definition sample_reference : BlockHeader :=
  sample_block_header 1 (hash_peaks (mmr_peaks sample_mmr)) sample_note_root.
Definition sample_input : InputNote :=
  Authenticated sample_note (mkProof (mkLocation 1 5) [sample_note_root; note_hash sample_note]).
Definition sample_input_notes : InputNotes InputNote :=
  mkInputNotes [sample_input] (build_input_note_commitment [sample_input]).
Definition sample_tx_inputs : TransactionInputs :=
  mkTxInputs sample_existing None sample_reference sample_chain sample_input_notes.

Lemma sample_input_notes_new : input_notes_new [sample_input] = Ok sample_input_notes.
Proof. reflexivity. Qed.

Lemma sample_tx_inputs_wf : wf_tx_inputs sample_tx_inputs.
Proof.
  constructor.
  - exact sample_account_wf.
  - reflexivity.
  - apply sample_block_header_wf. lia.
  - exact sample_chain_wf.
  - reflexivity.
  - split; [|reflexivity]. constructor; [|constructor]. split; [exact sample_note_wf|].
    split; cbn; lia.
  - apply tx_inputs_new_Ok. split; [|reflexivity]. split; [reflexivity|]. split; [reflexivity|].
    split; [reflexivity|]. constructor; [|constructor]. exists sample_reference. split; [reflexivity|].
    by apply bool_decide_eq_true.
Qed.

Lemma input_notes_bind_witness :
  NoDup (to_nullifier <$> in_notes sample_input_notes).
Proof. apply (input_notes_bind _ _ _ _ sample_input_notes_new sample_input_notes_new). Defined.

Lemma tx_inputs_roundtrip_witness :
  ∃ bs a', tx_inputs_write (E:=Empty_set) sample_tx_inputs = Ok bs ∧ account_equiv a' sample_existing ∧
    tx_inputs_read (bs ++ [7]) = Ok (set_ti_account a' sample_tx_inputs, [7]).
Proof. apply (tx_inputs_roundtrip sample_tx_inputs [7] sample_tx_inputs_wf). Defined.
