(* ===== verification/Equality.v ===== *)
(** * Equality and order

    Models the implementations of [PartialEq], [Ord] and [PartialOrd] that are
    written by hand, where the compiler's would compare all fields: note inputs and
    note assets (objects/src/notes/inputs.rs, assets.rs), lists of input notes
    (transaction/inputs.rs) and account code (accounts/code/mod.rs). *)

From S2P Require Import Prelude Felt Crypto Serde Types AccountId Assets Code NoteContents Notes TxInputs.
Open Scope Z_scope.

Section Equality.
  Context {F : FeltApi} {H : HasherApi} {D : DigestOrd} {A : AsmApi}.

Definition note_inputs_eqb (a b : NoteInputs) : bool := bool_decide (ni_values a = ni_values b).
Definition note_assets_eqb (a b : NoteAssets) : bool := bool_decide (na_assets a = na_assets b).
Definition input_notes_eqb {T} `{!EqDecision T} (a b : InputNotes T) : bool := bool_decide (in_notes a = in_notes b).

(** [AccountCode]: equality of forests is that of the VM, and a parameter. *)
Section CodeEq.
  Context (mast_eqb : MastForest → MastForest → bool).
#[local] Instance procedure_info_eq_dec : EqDecision AccountProcedureInfo.
Proof. solve_decision. Defined.
Definition procedures_eqb (a b : AccountCode) : bool := bool_decide (procedures a = procedures b).
Definition code_eqb (a b : AccountCode) : bool := mast_eqb (mast a) (mast b) && procedures_eqb a b.
Definition code_cmp (a b : AccountCode) : comparison :=
  if decide (code_commitment a = code_commitment b) then Eq
  else if digest_leb (code_commitment a) (code_commitment b) then Lt else Gt.
Definition code_partial_cmp (a b : AccountCode) : option comparison := Some (code_cmp a b).
End CodeEq.

(** The fields that are not compared are functions of the others. *)
Theorem derived_equalities :
  (∀ a b, wf_inputs a → wf_inputs b → note_inputs_eqb a b = true ↔ a = b) ∧
  (∀ a b, wf_note_assets a → wf_note_assets b → note_assets_eqb a b = true ↔ a = b) ∧
  (∀ T (EqT : EqDecision T) (I : ToInputNoteCommitments T) (a b : InputNotes T),
     input_notes_new (in_notes a) = Ok a → input_notes_new (in_notes b) = Ok b → input_notes_eqb a b = true ↔ a = b).
Proof.
  split; [|split].
  - intros a b [_ Ha] [_ Hb]. unfold note_inputs_eqb. rewrite bool_decide_eq_true. split; [|by intros ->]. congruence.
  - intros [a ha] [b hb] Ha Hb. unfold note_assets_eqb. rewrite bool_decide_eq_true. split; [|by intros ->].
    cbn. intros ->. f_equal. pose proof (wn_hash _ Ha). pose proof (wn_hash _ Hb). cbn in *. congruence.
  - intros T EqT I a b Ha Hb. unfold input_notes_eqb. rewrite bool_decide_eq_true. split; [|by intros ->].
    intros E. rewrite E in Ha. congruence.
Qed.

(** The order of account code is the order of commitments: it is antisymmetric and
    transitive, and equal codes compare as equal. It does not distinguish codes with
    the same procedures, which the equality does when their forests differ. *)
Theorem code_order mast_eqb a b c :
  code_cmp b a = CompOpp (code_cmp a b) ∧
  (code_cmp a b = Lt → code_cmp b c = Lt → code_cmp a c = Lt) ∧
  (wf_code a → wf_code b → procedures a = procedures b → code_cmp a b = Eq) ∧
  (wf_code a → wf_code b → code_eqb mast_eqb a b = true → code_cmp a b = Eq) ∧
  (procedures a = procedures b → mast_eqb (mast a) (mast b) = false → code_eqb mast_eqb a b = false).
Proof.
  assert (wf_code a → wf_code b → procedures a = procedures b → code_cmp a b = Eq) as Hsame.
  { intros (_ & _ & Ha) (_ & _ & Hb) Hp. unfold code_cmp. rewrite decide_True; [done|]. congruence. }
  split; [|split; [|split; [done|split]]].
  - unfold code_cmp. destruct (decide (code_commitment a = code_commitment b)) as [->|Hab]; [by rewrite decide_True|].
    rewrite decide_False by done. destruct (digest_leb (code_commitment a) (code_commitment b)) eqn:E1,
      (digest_leb (code_commitment b) (code_commitment a)) eqn:E2; try done.
    + by destruct Hab; apply digest_leb_antisym.
    + destruct (digest_leb_total (code_commitment a) (code_commitment b)); congruence.
  - assert (∀ x y, code_cmp x y = Lt ↔ code_commitment x ≠ code_commitment y ∧ digest_leb (code_commitment x) (code_commitment y) = true) as Hlt.
    { intros x y. unfold code_cmp. destruct (decide _); [by split; [|intros []]|]. by destruct (digest_leb _ _); split; [..|intros []]. }
    rewrite !Hlt. intros [Hab E1] [Hbc E2]. split; [|by eapply digest_leb_trans].
    intros Hac. rewrite Hac in E1. by destruct Hbc; apply digest_leb_antisym.
  - intros Ha Hb [_ Hp%bool_decide_eq_true]%andb_true_iff. by apply Hsame.
  - intros _ Hm. unfold code_eqb. by rewrite Hm.
Qed.
End Equality.
