(* ===== verification/TxArgs.v ===== *)
(** * Transaction arguments

    Models objects/src/transaction/tx_args.rs: transaction scripts and the
    optional arguments of a transaction, which carry data for the advice
    provider of the VM. The advice inputs themselves are a type of the VM and a
    parameter. *)

From S2P Require Import Prelude Felt Crypto Serde Types AccountId Assets VaultDelta StorageDelta Storage.
From S2P Require Import Code NoteMeta NoteContents Notes TxOutputs Merkle.
Open Scope Z_scope.

(** A [BTreeMap] collected from pairs: of equal keys the last one wins. *)
Definition collect_map {F : FeltApi} {V} (l : list (Digest * V)) : gmap Digest V := list_to_map (reverse l).

(** [AdviceInputs] of the VM: a stack, a map and a Merkle store that only
    grow; in the map later values replace earlier ones. *)
Class AdviceInputsApi {F : FeltApi} {B : ByteIO} {N : NoteIO} {T : PathApi} := {
  AdviceInputs : Type;
  advice_default : AdviceInputs;
  advice_stack : AdviceInputs → list felt;
  mapped_values : AdviceInputs → Digest → option (list felt);
  has_node : AdviceInputs → InnerNodeInfo → Prop;
  extend_stack : list felt → AdviceInputs → AdviceInputs;
  extend_map : list (Digest * list felt) → AdviceInputs → AdviceInputs;
  extend_store : list InnerNodeInfo → AdviceInputs → AdviceInputs;
  (** [self.extend(other)] *)
  advice_extend : AdviceInputs → AdviceInputs → AdviceInputs;
  write_advice : AdviceInputs → bytes;
  read_advice : reader AdviceInputs;
  default_stack : advice_stack advice_default = [];
  default_mapped k : mapped_values advice_default k = None;
  extend_stack_stack l a : advice_stack (extend_stack l a) = advice_stack a ++ l;
  extend_stack_mapped l a k : mapped_values (extend_stack l a) k = mapped_values a k;
  extend_stack_node l a n : has_node (extend_stack l a) n ↔ has_node a n;
  extend_map_stack l a : advice_stack (extend_map l a) = advice_stack a;
  extend_map_mapped l a k : mapped_values (extend_map l a) k = (collect_map l !! k) ∪ mapped_values a k;
  extend_map_node l a n : has_node (extend_map l a) n ↔ has_node a n;
  extend_store_stack l a : advice_stack (extend_store l a) = advice_stack a;
  extend_store_mapped l a k : mapped_values (extend_store l a) k = mapped_values a k;
  extend_store_node l a n : has_node (extend_store l a) n ↔ n ∈ l ∨ has_node a n;
  advice_extend_stack other a : advice_stack (advice_extend other a) = advice_stack a ++ advice_stack other;
  advice_extend_mapped other a k :
    mapped_values (advice_extend other a) k = mapped_values other k ∪ mapped_values a k;
  advice_extend_node other a n : has_node (advice_extend other a) n ↔ has_node other n ∨ has_node a n;
  advice_decodes : decodes (λ _, True) write_advice read_advice
}.

Inductive TransactionScriptError : Type := TxScriptAssemblyError.

Section TxArgs.
  Context {F : FeltApi} {H : HasherApi} {D : DigestOrd} {A : AsmApi} {P : ProgramApi}.
  Context {B : ByteIO} {N : NoteIO} {T : PathApi} {V : AdviceInputsApi}.

(** ** Transaction scripts *)

Record TransactionScript : Type := mkTxScript {
  ts_mast : MastForest;
  ts_entrypoint : Z;
  ts_inputs : gmap Digest (list felt)
}.

Definition tx_script_new (code : Program) (inputs : list (Word * list felt)) : TransactionScript :=
  mkTxScript (program_mast code) (program_entrypoint code) (collect_map inputs).
Definition tx_script_compile (source_code : list Z) (inputs : list (Word * list felt))
    : res TransactionScriptError TransactionScript :=
  program ← ok_or TxScriptAssemblyError (assemble_program source_code);
  Ok (tx_script_new program inputs).
Definition tx_script_from_parts {E} (mast : MastForest) (entrypoint : Z) (inputs : gmap Digest (list felt))
    : res E TransactionScript :=
  match node_digest mast entrypoint with
  | Some _ => Ok (mkTxScript mast entrypoint inputs)
  | None => Panic
  end.
(** [TransactionScript::hash] indexes the forest, which panics on an absent
    node. *)
Definition tx_script_hash {E} (s : TransactionScript) : res E Digest :=
  expect_some (node_digest (ts_mast s) (ts_entrypoint s)).

(** ** Arguments *)

Record TransactionArgs : Type := mkTxArgs {
  ta_tx_script : option TransactionScript;
  ta_note_args : gmap Digest Word;
  ta_advice_inputs : AdviceInputs
}.
Definition set_ta_advice (x : AdviceInputs) (a : TransactionArgs) : TransactionArgs :=
  mkTxArgs (ta_tx_script a) (ta_note_args a) x.

Definition tx_args_new (tx_script : option TransactionScript) (note_args : option (gmap Digest Word))
    (advice_map : gmap Digest (list felt)) : TransactionArgs :=
  let advice_inputs := extend_map (btree_iter digest_leb advice_map) advice_default in
  let advice_inputs :=
    match tx_script with
    | Some s => extend_map (btree_iter digest_leb (ts_inputs s)) advice_inputs
    | None => advice_inputs
    end in
  mkTxArgs tx_script (default ∅ note_args) advice_inputs.
Definition with_tx_script (tx_script : TransactionScript) : TransactionArgs := tx_args_new (Some tx_script) (Some ∅) ∅.
Definition with_note_args (note_args : gmap Digest Word) : TransactionArgs := tx_args_new None (Some note_args) ∅.
Definition with_advice_inputs (advice_inputs : AdviceInputs) (a : TransactionArgs) : TransactionArgs :=
  set_ta_advice (advice_extend advice_inputs (ta_advice_inputs a)) a.
Definition get_note_args (a : TransactionArgs) (note_id : Digest) : option Word := ta_note_args a !! note_id.

Definition extend_advice_map (l : list (Digest * list felt)) (a : TransactionArgs) : TransactionArgs :=
  set_ta_advice (extend_map l (ta_advice_inputs a)) a.
Definition extend_merkle_store (l : list InnerNodeInfo) (a : TransactionArgs) : TransactionArgs :=
  set_ta_advice (extend_store l (ta_advice_inputs a)) a.

Section Expected.
  Context {M : MastIO}.

(** The three entries of [add_expected_output_note]. [debug] says whether the
    debug assertion on the number of inputs is compiled in. *)
Definition expected_note_entries {E} (debug : bool) (note : NoteDetails) : res E (list (Digest * list felt)) :=
  let recipient := nd_recipient note in
  let inputs := nr_inputs recipient in
  let script := nr_script recipient in
  let script_encoded := script_to_elements script in
  recipient_elements ← recipient_to_elements recipient;
  inputs_elements ← inputs_format_for_advice debug inputs;
  script_hash ← script_hash script;
  Ok [(nr_digest recipient, recipient_elements); (ni_hash inputs, inputs_elements); (script_hash, script_encoded)].
Definition add_expected_output_note {E} (debug : bool) (note : NoteDetails) : mut TransactionArgs E unit :=
  new_elements ← lift (expected_note_entries debug note);
  a ← get_self;
  put_self (extend_advice_map new_elements a).
Definition extend_expected_output_notes {E} (debug : bool) (notes : list NoteDetails) : mut TransactionArgs E unit :=
  for_each notes (add_expected_output_note debug).

(** ** Serialization *)

Definition write_elements (l : list felt) : bytes := write_usize (Z.of_nat (length l)) ++ write_many write_felt l.
Definition read_elements : reader (list felt) := n ← read_usize; read_many read_felt (Z.to_nat n).
(** A [BTreeMap] with digests as keys. *)
Definition write_digest_map {X} (w : X → bytes) (m : gmap Digest X) : bytes :=
  write_usize (Z.of_nat (size m)) ++ write_many (write_pair write_digest w) (btree_iter digest_leb m).
Definition read_digest_map {X} (r : reader X) : reader (gmap Digest X) :=
  n ← read_usize;
  l ← read_many (read_pair read_digest r) (Z.to_nat n);
  mret (collect_map l).

Definition tx_script_write (s : TransactionScript) : bytes :=
  write_mast (ts_mast s) ++ write_u32 (ts_entrypoint s) ++ write_digest_map write_elements (ts_inputs s).
Definition tx_script_read : reader TransactionScript :=
  mast ← read_mast;
  id ← read_u32;
  entrypoint ← reader_of (from_u32_safe id mast);
  inputs ← read_digest_map read_elements;
  reader_of (tx_script_from_parts mast entrypoint inputs).

Definition tx_args_write (a : TransactionArgs) : bytes :=
  write_option tx_script_write (ta_tx_script a) ++ write_digest_map write_word (ta_note_args a) ++
  write_advice (ta_advice_inputs a).
Definition tx_args_read : reader TransactionArgs :=
  tx_script ← read_option tx_script_read;
  note_args ← read_digest_map read_word;
  advice_inputs ← read_advice;
  mret (mkTxArgs tx_script note_args advice_inputs).
End Expected.

(** ** Maps built from lists *)

Lemma collect_map_app {X} (l1 l2 : list (Digest * X)) k :
  collect_map (l1 ++ l2) !! k = (collect_map l2 !! k) ∪ (collect_map l1 !! k).
Proof. unfold collect_map. by rewrite reverse_app, list_to_map_app, lookup_union. Qed.

Lemma collect_map_None {X} (l : list (Digest * X)) k : k ∉ l.*1 → collect_map l !! k = None.
Proof.
  intros Hk. unfold collect_map. apply not_elem_of_list_to_map_1. by rewrite fmap_reverse, elem_of_reverse.
Qed.

Lemma collect_map_agree {X} (l : list (Digest * X)) k v :
  (k, v) ∈ l → (∀ v', (k, v') ∈ l → v' = v) → collect_map l !! k = Some v.
Proof.
  intros Hin Ha. unfold collect_map. destruct (list_to_map (M:=gmap Digest X) (reverse l) !! k) as [v'|] eqn:E.
  - f_equal. apply Ha. apply elem_of_list_to_map_2 in E. by apply elem_of_reverse.
  - apply not_elem_of_list_to_map_2 in E. rewrite fmap_reverse, elem_of_reverse in E. destruct E.
    by apply (list_elem_of_fmap_2 fst _ (k, v)).
Qed.

Lemma collect_btree_iter {X} (m : gmap Digest X) : collect_map (btree_iter digest_leb m) = m.
Proof.
  apply map_eq. intros k. destruct (m !! k) as [v|] eqn:E.
  - apply collect_map_agree; [by apply elem_of_btree_iter|]. intros v' Hv%elem_of_btree_iter. congruence.
  - apply collect_map_None. intros ([k' v] & -> & Hv%elem_of_btree_iter)%list_elem_of_fmap. cbn in E. congruence.
Qed.

Lemma mapped_agree l a k v :
  (k, v) ∈ l → (∀ v', (k, v') ∈ l → v' = v) → mapped_values (extend_map l a) k = Some v.
Proof. intros Hin Ha. by rewrite extend_map_mapped, (collect_map_agree l k v Hin Ha), union_Some_l. Qed.

(** ** Expected output notes *)

(** A map holds the recipient [r] in the form in which the host looks for it. *)
Record map_has_recipient {M : MastIO} (get : Digest → option (list felt)) (r : NoteRecipient) (root : Digest) : Prop := {
  hr_root : node_digest (ns_mast (nr_script r)) (ns_entrypoint (nr_script r)) = Some root;
  hr_recipient : get (nr_digest r) =
    Some (word_elements (ni_hash (nr_inputs r)) ++ word_elements root ++ word_elements (nr_serial_num r));
  hr_inputs : ∃ data, inputs_format_for_advice (E:=Empty_set) false (nr_inputs r) = Ok data ∧
    get (ni_hash (nr_inputs r)) = Some data;
  hr_script : get root = Some (script_to_elements (nr_script r))
}.

Section ExpectedLaws.
  Context {M : MastIO}.

Definition note_entries (d : NoteDetails) : list (Digest * list felt) :=
  match expected_note_entries (E:=Empty_set) false d with Ok l => l | _ => [] end.

Lemma expected_note_entries_Ok {E} debug d :
  wf_recipient (nd_recipient d) →
  expected_note_entries (E:=E) debug d = if fits_debug debug (nr_inputs (nd_recipient d)) then Ok (note_entries d) else Panic.
Proof.
  intros [[_ [root Hroot]] _ _]. unfold note_entries, expected_note_entries, recipient_to_elements, script_hash.
  rewrite Hroot, (inputs_format_debug debug). by destruct (fits_debug debug _).
Qed.

(** The debug assertions on the inputs of the notes hold. *)
Definition details_fit (debug : bool) (notes : list NoteDetails) : bool :=
  forallb (λ d, fits_debug debug (nr_inputs (nd_recipient d))) notes.

Lemma extend_expected_Ok {E} debug notes a :
  Forall (λ d, wf_recipient (nd_recipient d)) notes → details_fit debug notes = true →
  ∃ a', extend_expected_output_notes (E:=E) debug notes a = (Ok tt, a') ∧
    ta_tx_script a' = ta_tx_script a ∧ ta_note_args a' = ta_note_args a ∧
    advice_stack (ta_advice_inputs a') = advice_stack (ta_advice_inputs a) ∧
    ∀ k, mapped_values (ta_advice_inputs a') k =
      (collect_map (mjoin (note_entries <$> notes)) !! k) ∪ mapped_values (ta_advice_inputs a) k.
Proof.
  unfold extend_expected_output_notes. intros Hl. revert a.
  induction Hl as [|d notes Hd _ IH]; intros a Hf; cbn [for_each].
  { exists a. split_and!; try done. intros k.
    change (collect_map (mjoin (note_entries <$> [])) !! k) with ((∅ : gmap Digest (list felt)) !! k).
    by rewrite lookup_empty, (left_id_L None (∪)). }
  cbn [details_fit forallb] in Hf. apply andb_true_iff in Hf as [Hfd Hf].
  destruct (IH (extend_advice_map (note_entries d) a) Hf) as (a' & Hrun & Hs & Hn & Hst & Hm).
  exists a'. split.
  - unfold mbind at 1, mut_bind at 1, add_expected_output_note at 1, mbind, mut_bind, lift.
    rewrite expected_note_entries_Ok, Hfd by done. exact Hrun.
  - rewrite Hs, Hn, Hst. split_and!; try done; [cbn; apply extend_map_stack|].
    intros k. rewrite Hm. cbn [extend_advice_map set_ta_advice ta_advice_inputs fmap list_fmap].
    change (mjoin (note_entries d :: (note_entries <$> notes))) with (note_entries d ++ mjoin (note_entries <$> notes)).
    by rewrite extend_map_mapped, collect_map_app, option_union_assoc.
Qed.

Lemma extend_expected_panics {E} debug notes a :
  Forall (λ d, wf_recipient (nd_recipient d)) notes → details_fit debug notes = false →
  (extend_expected_output_notes (E:=E) debug notes a).1 = Panic.
Proof.
  unfold extend_expected_output_notes. intros Hl. revert a. induction Hl as [|d notes Hd _ IH]; intros a Hf; [done|].
  cbn [for_each]. unfold mbind at 1, mut_bind at 1, add_expected_output_note at 1, mbind, mut_bind, lift.
  rewrite expected_note_entries_Ok by done. cbn [details_fit forallb] in Hf.
  destruct (fits_debug debug _); [|done]. apply IH. exact Hf.
Qed.

(** No entry of [l] has a different value under a key of [own]. *)
Definition undisputed (l own : list (Digest * list felt)) : Prop :=
  ∀ k v v', (k, v) ∈ own → (k, v') ∈ l → v' = v.

Lemma note_entries_found d get :
  wf_recipient (nd_recipient d) → (∀ k v, (k, v) ∈ note_entries d → get k = Some v) →
  ∃ root, map_has_recipient get (nd_recipient d) root.
Proof.
  intros [[_ [root Hroot]] Hi _] Hget. exists root. revert Hget.
  unfold note_entries, expected_note_entries, recipient_to_elements, script_hash. rewrite Hroot. cbn. intros Hget.
  split; [done|..].
  - apply Hget. set_solver.
  - eexists. split; [reflexivity|]. apply Hget. set_solver.
  - apply Hget. set_solver.
Qed.
End ExpectedLaws.

(** ** Laws of the formats *)

Section ArgsLaws.
  Context {M : MastIO}.

Lemma elements_decodes : decodes (λ l, fits_usize (length l)) write_elements read_elements.
Proof.
  intros l rest Hl. unfold write_elements, read_elements, fits_usize in *.
  rewrite <-app_assoc, read_usize_bind by lia.
  rewrite Nat2Z.id. apply (many_decodes (λ _, True)); [apply felt_decodes|by apply Forall_true].
Qed.

Lemma digest_map_decodes {X} (good : X → Prop) w r :
  decodes good w r →
  decodes (λ m : gmap Digest X, fits_usize (size m) ∧ map_Forall (λ _, good) m) (write_digest_map w) (read_digest_map r).
Proof.
  intros Hd m rest [Hn Hm]. unfold write_digest_map, read_digest_map, fits_usize in *.
  rewrite <-app_assoc, read_usize_bind by lia.
  rewrite (read_many_bind (λ p, True ∧ good p.2) (write_pair write_digest w)).
  - by rewrite collect_btree_iter.
  - exact (pair_decodes _ _ _ _ _ _ digest_decodes Hd).
  - apply Forall_forall. intros [k x] Hx%elem_of_btree_iter. split; [done|]. by apply (Hm k).
  - rewrite length_btree_iter. lia.
Qed.

Definition wf_tx_script (s : TransactionScript) : Prop :=
  0 ≤ ts_entrypoint s < 2 ^ 32 ∧ is_Some (node_digest (ts_mast s) (ts_entrypoint s)) ∧
  fits_usize (size (ts_inputs s)) ∧ map_Forall (λ _ l, fits_usize (length l)) (ts_inputs s).

Lemma reader_of_bind {X Y} (x : X) (k : X → reader Y) bs : (reader_of (Ok x) ≫= k) bs = k x bs.
Proof. done. Qed.

Lemma tx_script_decodes : decodes wf_tx_script tx_script_write tx_script_read.
Proof.
  intros [mast entrypoint inputs] rest (He & [root Hroot] & Hi). cbn [ts_mast ts_entrypoint ts_inputs] in *.
  unfold tx_script_write, tx_script_read. cbn [ts_mast ts_entrypoint ts_inputs]. rewrite <-!app_assoc.
  rewrite (decodes_bind _ _ _ _ _ _ mast_decodes), (decodes_bind _ _ _ _ _ _ u32_decodes) by done.
  pose proof (from_u32_safe_spec entrypoint mast) as Hs.
  destruct (from_u32_safe entrypoint mast) as [id|e|]; [|congruence|done]. destruct Hs as [-> _].
  rewrite reader_of_bind.
  rewrite (decodes_bind _ _ _ _ _ _ (digest_map_decodes _ _ _ elements_decodes)) by done.
  unfold reader_of, tx_script_from_parts. by rewrite Hroot.
Qed.

Definition wf_tx_args (a : TransactionArgs) : Prop :=
  (∀ s, ta_tx_script a = Some s → wf_tx_script s) ∧ fits_usize (size (ta_note_args a)).

Lemma tx_args_decodes : decodes wf_tx_args tx_args_write tx_args_read.
Proof.
  intros [script args adv] rest [Hs Hn]. cbn [ta_tx_script ta_note_args] in *.
  unfold tx_args_write, tx_args_read. cbn [ta_tx_script ta_note_args ta_advice_inputs]. rewrite <-!app_assoc.
  rewrite (decodes_bind _ _ _ _ _ _ (option_decodes _ _ _ tx_script_decodes)) by done.
  rewrite (decodes_bind _ _ _ _ _ _ (digest_map_decodes _ _ _ word_decodes)) by (split; [done|by intros k x _]).
  by rewrite (decodes_bind _ _ _ _ _ _ advice_decodes).
Qed.

(** ** Theorems *)

(** C24. Expected output notes can be looked up in the arguments. Adding well-formed
    notes panics exactly when debug assertions are compiled in and a note has 128
    inputs. Otherwise it leaves the script and the note arguments as they are, and
    the advice map then has under every key the last of the entries of the notes
    for that key, or what it had before. So it holds the recipient, the inputs and
    the script of each note for whose keys no other note has different data. *)
Theorem expected_notes_mapped {E} debug notes a :
  Forall wf_details notes →
  if details_fit debug notes then
    ∃ a', extend_expected_output_notes (E:=E) debug notes a = (Ok tt, a') ∧
      ta_tx_script a' = ta_tx_script a ∧ ta_note_args a' = ta_note_args a ∧
      (∀ k, mapped_values (ta_advice_inputs a') k =
         (collect_map (mjoin (note_entries <$> notes)) !! k) ∪ mapped_values (ta_advice_inputs a) k) ∧
      ∀ d, d ∈ notes → undisputed (mjoin (note_entries <$> notes)) (note_entries d) →
        ∃ root, map_has_recipient (mapped_values (ta_advice_inputs a')) (nd_recipient d) root
  else (extend_expected_output_notes (E:=E) debug notes a).1 = Panic.
Proof.
  intros Hl. assert (Forall (λ d, wf_recipient (nd_recipient d)) notes) as Hr
    by (eapply Forall_impl; [exact Hl|]; intros d Hd; apply Hd).
  destruct (details_fit debug notes) eqn:Hf; [|by apply extend_expected_panics].
  destruct (extend_expected_Ok (E:=E) debug notes a Hr Hf) as (a' & Hrun & Hs & Hn & _ & Hm).
  exists a'. split_and!; try done. intros d Hd Hc. rewrite Forall_forall in Hr.
  apply (note_entries_found d); [by apply Hr|]. intros k v Hin.
  assert ((k, v) ∈ mjoin (note_entries <$> notes)) as Hin'.
  { apply list_elem_of_join. exists (note_entries d). split; [done|]. by apply (list_elem_of_fmap_2 note_entries). }
  rewrite Hm, (collect_map_agree _ k v Hin'), union_Some_l; [done|]. intros v' Hv'. by apply (Hc k v v').
Qed.

(** The inputs of expected notes overwrite each other when they differ only
    in their padding: after expecting two notes whose inputs have the same
    commitment, the map holds the inputs of the second one for both. *)
Theorem expected_inputs_overwritten {E} d1 d2 a a' data1 data2 root2 :
  wf_details d1 → wf_details d2 →
  ni_hash (nr_inputs (nd_recipient d1)) = ni_hash (nr_inputs (nd_recipient d2)) →
  inputs_format_for_advice (E:=Empty_set) false (nr_inputs (nd_recipient d1)) = Ok data1 →
  inputs_format_for_advice (E:=Empty_set) false (nr_inputs (nd_recipient d2)) = Ok data2 → data1 ≠ data2 →
  node_digest (ns_mast (nr_script (nd_recipient d2))) (ns_entrypoint (nr_script (nd_recipient d2))) = Some root2 →
  ni_hash (nr_inputs (nd_recipient d2)) ≠ root2 →
  extend_expected_output_notes (E:=E) false [d1; d2] a = (Ok tt, a') →
  mapped_values (ta_advice_inputs a') (ni_hash (nr_inputs (nd_recipient d1))) = Some data2 ∧
  ∀ root, ¬ map_has_recipient (mapped_values (ta_advice_inputs a')) (nd_recipient d1) root.
Proof.
  intros H1 H2 Eh F1 F2 Hne Hroot Hk Hrun.
  destruct (extend_expected_Ok (E:=E) false [d1; d2] a) as (a'' & Hrun' & _ & _ & _ & Hm).
  { constructor; [apply H1|]. constructor; [apply H2|constructor]. }
  { reflexivity. }
  rewrite Hrun in Hrun'. injection Hrun' as <-.
  assert (mapped_values (ta_advice_inputs a') (ni_hash (nr_inputs (nd_recipient d1))) = Some data2) as Hget.
  { rewrite Hm. cbn [fmap list_fmap mjoin list_join]. rewrite app_nil_r, collect_map_app.
    assert (note_entries d2 = [(nr_digest (nd_recipient d2),
        word_elements (ni_hash (nr_inputs (nd_recipient d2))) ++ word_elements root2 ++ word_elements (nr_serial_num (nd_recipient d2)));
      (ni_hash (nr_inputs (nd_recipient d2)), data2); (root2, script_to_elements (nr_script (nd_recipient d2)))]) as ->.
    { unfold note_entries, expected_note_entries, recipient_to_elements, script_hash. rewrite Hroot. cbn [expect_some mbind res_bind].
      rewrite F2. done. }
    rewrite Eh. change ([?a; ?b; ?c]) with ([a] ++ [b] ++ [c]). rewrite !collect_map_app.
    rewrite (collect_map_None [(root2, _)]) by (by intros ?%list_elem_of_singleton).
    rewrite (collect_map_agree [(ni_hash (nr_inputs (nd_recipient d2)), data2)] _ data2) by set_solver.
    by rewrite (left_id_L None (∪)), !union_Some_l. }
  split; [done|]. intros root [_ _ (data & Ed & Eg) _]. rewrite Hget in Eg. rewrite F1 in Ed. congruence.
Qed.

(** Transaction arguments read back from their bytes. *)
Theorem tx_args_roundtrip a rest : wf_tx_args a → tx_args_read (tx_args_write a ++ rest) = Ok (a, rest).
Proof. apply tx_args_decodes. Qed.
End ArgsLaws.
End TxArgs.

(** ** Witnesses *)

#[local] Existing Instance Goldilocks.
#[local] Existing Instance ToyHasher.
#[local] Existing Instance CodeOrd.
#[local] Existing Instance PlainIO.
#[local] Existing Instance RootsAsm.
#[local] Existing Instance RootsIO.
#[local] Existing Instance RootsProgram.
#[local] Existing Instance PlainNoteIO.
#[local] Existing Instance ListPath.

(** Advice inputs as their three parts. *)
Record PlainAdvice : Type := mkAdvice {
  pa_stack : list felt;
  pa_map : gmap Digest (list felt);
  pa_nodes : list Digest
}.

Definition write_entry (p : Digest * list felt) : bytes := write_digest p.1 ++ write_term write_felt p.2.
Definition read_entry : reader (Digest * list felt) := k ← read_digest; v ← read_term read_felt; mret (k, v).

Lemma entry_decodes : decodes (λ _, True) write_entry read_entry.
Proof.
  intros [k v] rest _. unfold write_entry, read_entry. cbn [fst snd].
  rewrite <-app_assoc, (decodes_bind _ _ _ _ _ _ digest_decodes) by done.
  by rewrite (decodes_bind _ _ _ _ _ _ (term_decodes _ _ felt_decodes)).
Qed.

Definition write_plain_advice (a : PlainAdvice) : bytes :=
  write_term write_felt (pa_stack a) ++ write_term write_entry (map_to_list (pa_map a)) ++
  write_term write_digest (pa_nodes a).
Definition read_plain_advice : reader PlainAdvice :=
  s ← read_term read_felt; m ← read_term read_entry; n ← read_term read_digest;
  mret (mkAdvice s (list_to_map m) n).

Lemma plain_advice_decodes : decodes (λ _, True) write_plain_advice read_plain_advice.
Proof.
  intros [s m n] rest _. unfold write_plain_advice, read_plain_advice. cbn [pa_stack pa_map pa_nodes].
  rewrite <-!app_assoc, (decodes_bind _ _ _ _ _ _ (term_decodes _ _ felt_decodes)) by done.
  rewrite (decodes_bind _ _ _ _ _ _ (term_decodes _ _ entry_decodes)) by done.
  rewrite (decodes_bind _ _ _ _ _ _ (term_decodes _ _ digest_decodes)) by done.
  by rewrite list_to_map_to_list.
Qed.

#[refine] Definition ListAdvice : AdviceInputsApi := {|
  AdviceInputs := PlainAdvice;
  advice_default := mkAdvice [] ∅ [];
  advice_stack := pa_stack;
  mapped_values a k := pa_map a !! k;
  has_node a n := n ∈ pa_nodes a;
  extend_stack l a := mkAdvice (pa_stack a ++ l) (pa_map a) (pa_nodes a);
  extend_map l a := mkAdvice (pa_stack a) (collect_map l ∪ pa_map a) (pa_nodes a);
  extend_store l a := mkAdvice (pa_stack a) (pa_map a) (l ++ pa_nodes a);
  advice_extend o a := mkAdvice (pa_stack a ++ pa_stack o) (pa_map o ∪ pa_map a) (pa_nodes o ++ pa_nodes a);
  write_advice := write_plain_advice;
  read_advice := read_plain_advice
|}.
Proof.
  all: try exact plain_advice_decodes.
  all: try (abstract (intros; apply lookup_empty)).
  all: try (abstract (intros; cbn; apply lookup_union)).
  all: try (abstract (intros; cbn; apply elem_of_app)).
  all: abstract done.
Defined.
#[local] Existing Instance ListAdvice.

Definition sample_args : TransactionArgs := tx_args_new None None ∅.

Lemma undisputed_keys l : NoDup l.*1 → undisputed l l.
Proof.
  intros ND k v v' Hv Hv'. apply (elem_of_list_to_map_1 l _ _ ND) in Hv, Hv'. congruence.
Qed.

Lemma sample_entries_keys : NoDup (note_entries (note_details sample_note)).*1.
Proof.
  repeat constructor; rewrite ?elem_of_cons, elem_of_nil; cbn [fst]; intros HE; repeat destruct HE as [HE|HE];
    try exact HE; apply (f_equal (λ w, (as_int (w0 w), as_int (w1 w)))) in HE; vm_compute in HE; discriminate.
Qed.

Lemma expected_notes_mapped_witness :
  ∃ a' root, extend_expected_output_notes (E:=Empty_set) false [note_details sample_note] sample_args = (Ok tt, a') ∧
    map_has_recipient (mapped_values (ta_advice_inputs a')) sample_recipient root.
Proof.
  destruct (expected_notes_mapped (E:=Empty_set) false [note_details sample_note] sample_args) as (a' & Hrun & _ & _ & _ & Hm).
  - constructor; [apply sample_note_wf|constructor].
  - destruct (Hm (note_details sample_note)) as [root Hroot].
    + left.
    + apply undisputed_keys. exact sample_entries_keys.
    + exists a', root. split; [exact Hrun|exact Hroot].
Defined.

(** The sample note with one more input, a zero. *)
Definition padded_inputs : NoteInputs := pad_and_build (sample_values ++ [ZERO]).
Definition padded_details : NoteDetails :=
  mkNoteDetails sample_note_assets
    (mkRecipient sample_serial sample_script padded_inputs
      (hash_merge (hash_merge (hash_merge sample_serial EMPTY_WORD) (mkWord (felt_new 3) (felt_new 1) ZERO ONE))
         (ni_hash padded_inputs))).

Lemma padded_details_wf : wf_details padded_details.
Proof.
  constructor; [apply sample_note_assets_wf|]. constructor; [apply script_new_wf| |done].
  split; [vm_compute; discriminate|done].
Qed.

Lemma padded_inputs_hash : ni_hash sample_inputs = ni_hash padded_inputs.
Proof.
  symmetry. change (hash_elements (pad_inputs (sample_values ++ [ZERO])) = hash_elements (pad_inputs sample_values)).
  rewrite pad_inputs_zero; [done|]. vm_compute. discriminate.
Qed.

Lemma expected_inputs_overwritten_witness :
  ∃ a', extend_expected_output_notes (E:=Empty_set) false [note_details sample_note; padded_details] sample_args = (Ok tt, a') ∧
    ∀ root, ¬ map_has_recipient (mapped_values (ta_advice_inputs a')) sample_recipient root.
Proof.
  destruct (extend_expected_Ok (E:=Empty_set) false [note_details sample_note; padded_details] sample_args)
    as (a' & Hrun & _); [|reflexivity|].
  { constructor; [apply sample_note_wf|]. constructor; [apply padded_details_wf|constructor]. }
  exists a'. split; [exact Hrun|].
  refine (proj2 (expected_inputs_overwritten (note_details sample_note) padded_details sample_args a'
    (felt_new 3 :: pad_inputs sample_values) (felt_new 4 :: pad_inputs (sample_values ++ [ZERO]))
    (mkWord (felt_new 3) (felt_new 1) ZERO ONE) _ padded_details_wf padded_inputs_hash _ _ _ _ _ Hrun)).
  - apply sample_note_wf.
  - reflexivity.
  - reflexivity.
  - intros E. apply (f_equal (λ l, as_int (hd ZERO l))) in E. vm_compute in E. discriminate.
  - reflexivity.
  - intros E. apply (f_equal (λ w, (as_int (w0 w), as_int (w1 w)))) in E. vm_compute in E. discriminate.
Defined.

Definition sample_script_args : TransactionArgs :=
  with_tx_script (tx_script_new (mkWord (felt_new 5) ONE ONE ONE, []) [(sample_serial, sample_values)]).

Lemma sample_script_args_wf : wf_tx_args sample_script_args.
Proof.
  split; [|reflexivity]. intros s [= <-]. split; [cbn; lia|]. split; [by eexists|]. split; [vm_compute; reflexivity|].
  intros k l Hl. apply (elem_of_list_to_map_2 (M:=gmap Digest) [(sample_serial, sample_values)]) in Hl.
  apply list_elem_of_singleton in Hl as [= -> ->]. vm_compute. reflexivity.
Qed.

Lemma tx_args_roundtrip_witness :
  tx_args_read (tx_args_write sample_script_args ++ [7]) = Ok (sample_script_args, [7]).
Proof. exact (tx_args_roundtrip sample_script_args [7] sample_script_args_wf). Defined.
