(* ===== verification/Memory.v ===== *)
(** * The memory of the transaction kernel

    Models miden-lib/src/transaction/memory.rs: the addresses that the
    transaction kernel and the host agree on. The theorem checks that the
    sections do not overlap when all counts are at their limits, and that what
    the limits of accounts and notes allow fits into its section. *)

From S2P Require Import Prelude Felt Crypto Serde Types AccountId Assets VaultDelta StorageDelta Storage Code.
From S2P Require Import NoteMeta NoteContents Notes TxOutputs.
Open Scope Z_scope.

Definition FAUCET_STORAGE_DATA_SLOT : Z := 0.
(** Bookkeeping *)
Definition TX_VAULT_ROOT_PTR : Z := 0.
Definition CURRENT_INPUT_NOTE_PTR : Z := 1.
Definition NUM_OUTPUT_NOTES_PTR : Z := 2.
Definition INPUT_VAULT_ROOT_PTR : Z := 3.
Definition OUTPUT_VAULT_ROOT_PTR : Z := 4.
Definition CURRENT_ACCOUNT_DATA_PTR : Z := 5.
Definition NEW_CODE_ROOT_PTR : Z := 6.
Definition TX_EXPIRATION_BLOCK_NUM_PTR : Z := 7.

(** Global inputs *)
Definition GLOBAL_INPUTS_SECTION_OFFSET : Z := 100.
Definition BLK_HASH_PTR : Z := 100.
Definition ACCT_ID_PTR : Z := 101.
Definition INIT_ACCT_HASH_PTR : Z := 102.
Definition INPUT_NOTES_COMMITMENT_PTR : Z := 103.
Definition INIT_NONCE_PTR : Z := 104.
Definition TX_SCRIPT_ROOT_PTR : Z := 105.

(** Block data *)
Definition BLOCK_DATA_SECTION_OFFSET : Z := 200.
Definition PREV_BLOCK_HASH_PTR : Z := 200.
Definition CHAIN_ROOT_PTR : Z := 201.
Definition ACCT_DB_ROOT_PTR : Z := 202.
Definition NULLIFIER_DB_ROOT_PTR : Z := 203.
Definition TX_HASH_PTR : Z := 204.
Definition KERNEL_ROOT_PTR : Z := 205.
Definition PROOF_HASH_PTR : Z := 206.
Definition BLOCK_METADATA_PTR : Z := 207.
Definition BLOCK_NUMBER_IDX : Z := 0.
Definition PROTOCOL_VERSION_IDX : Z := 1.
Definition TIMESTAMP_IDX : Z := 2.
Definition NOTE_ROOT_PTR : Z := 208.

(** Chain data *)
Definition CHAIN_MMR_PTR : Z := 300.
Definition CHAIN_MMR_NUM_LEAVES_PTR : Z := 300.
Definition CHAIN_MMR_PEAKS_PTR : Z := 301.

(** Kernel data *)
Definition NUM_KERNEL_PROCEDURES_PTR : Z := 400.
Definition KERNEL_PROCEDURES_PTR : Z := 401.

(** Account data *)
Definition ACCT_DATA_MEM_SIZE : Z := 4.
Definition NATIVE_ACCOUNT_DATA_PTR : Z := 2048.
Definition ACCOUNT_DATA_LENGTH : Z := 2048.
Definition ACCT_ID_AND_NONCE_OFFSET : Z := 0.
Definition NATIVE_ACCT_ID_AND_NONCE_PTR : Z := NATIVE_ACCOUNT_DATA_PTR + ACCT_ID_AND_NONCE_OFFSET.
Definition ACCT_ID_IDX : Z := 0.
Definition ACCT_NONCE_IDX : Z := 3.
Definition ACCT_VAULT_ROOT_OFFSET : Z := 1.
Definition NATIVE_ACCT_VAULT_ROOT_PTR : Z := NATIVE_ACCOUNT_DATA_PTR + ACCT_VAULT_ROOT_OFFSET.
Definition ACCT_STORAGE_COMMITMENT_OFFSET : Z := 2.
Definition NATIVE_ACCT_STORAGE_COMMITMENT_PTR : Z := NATIVE_ACCOUNT_DATA_PTR + ACCT_STORAGE_COMMITMENT_OFFSET.
Definition ACCT_CODE_COMMITMENT_OFFSET : Z := 3.
Definition NATIVE_ACCT_CODE_COMMITMENT_PTR : Z := NATIVE_ACCOUNT_DATA_PTR + ACCT_CODE_COMMITMENT_OFFSET.
Definition NUM_ACCT_PROCEDURES_OFFSET : Z := 7.
Definition NATIVE_NUM_ACCT_PROCEDURES_PTR : Z := NATIVE_ACCOUNT_DATA_PTR + NUM_ACCT_PROCEDURES_OFFSET.
Definition ACCT_PROCEDURES_SECTION_OFFSET : Z := 8.
Definition NATIVE_ACCT_PROCEDURES_SECTION_PTR : Z := NATIVE_ACCOUNT_DATA_PTR + ACCT_PROCEDURES_SECTION_OFFSET.
Definition NUM_ACCT_STORAGE_SLOTS_OFFSET : Z := 521.
Definition NATIVE_NUM_ACCT_STORAGE_SLOTS_PTR : Z := NATIVE_ACCOUNT_DATA_PTR + NUM_ACCT_STORAGE_SLOTS_OFFSET.
Definition ACCT_STORAGE_SLOTS_SECTION_OFFSET : Z := 522.
Definition NATIVE_ACCT_STORAGE_SLOTS_SECTION_PTR : Z := NATIVE_ACCOUNT_DATA_PTR + ACCT_STORAGE_SLOTS_SECTION_OFFSET.

(** Notes *)
Definition NOTE_MEM_SIZE : Z := 512.
Definition INPUT_NOTE_SECTION_OFFSET : Z := 1048576.
Definition INPUT_NOTE_DATA_SECTION_OFFSET : Z := 1064960.
Definition NUM_INPUT_NOTES_PTR : Z := INPUT_NOTE_SECTION_OFFSET.
Definition INPUT_NOTE_ID_OFFSET : Z := 0.
Definition INPUT_NOTE_SERIAL_NUM_OFFSET : Z := 1.
Definition INPUT_NOTE_SCRIPT_ROOT_OFFSET : Z := 2.
Definition INPUT_NOTE_INPUTS_HASH_OFFSET : Z := 3.
Definition INPUT_NOTE_ASSETS_HASH_OFFSET : Z := 4.
Definition INPUT_NOTE_METADATA_OFFSET : Z := 5.
Definition INPUT_NOTE_ARGS_OFFSET : Z := 6.
Definition INPUT_NOTE_NUM_ASSETS_OFFSET : Z := 7.
Definition INPUT_NOTE_ASSETS_OFFSET : Z := 8.
Definition OUTPUT_NOTE_SECTION_OFFSET : Z := 4194304.
Definition OUTPUT_NOTE_CORE_DATA_SIZE : Z := 4.
Definition OUTPUT_NOTE_ID_OFFSET : Z := 0.
Definition OUTPUT_NOTE_METADATA_OFFSET : Z := 1.
Definition OUTPUT_NOTE_RECIPIENT_OFFSET : Z := 2.
Definition OUTPUT_NOTE_ASSET_HASH_OFFSET : Z := 3.
Definition OUTPUT_NOTE_NUM_ASSETS_OFFSET : Z := 4.
Definition OUTPUT_NOTE_ASSETS_OFFSET : Z := 5.

(** [MAX_NUM_FOREIGN_ACCOUNTS] of constants.rs, and the number of procedures of
    the kernel in procedures/kernel_v0.rs. *)
Definition MAX_NUM_FOREIGN_ACCOUNTS : Z := 64.
Definition NUM_KERNEL0_PROCEDURES : Z := 32.

(** ** Sections

    First address and length in words, in the order of the layout, with as many
    accounts, notes and kernel procedures as there can be, and one peak for each
    bit of a 32-bit chain length. *)
Definition memory_sections : list (Z * Z) :=
  [ (TX_VAULT_ROOT_PTR, TX_EXPIRATION_BLOCK_NUM_PTR + 1 - TX_VAULT_ROOT_PTR);
    (GLOBAL_INPUTS_SECTION_OFFSET, TX_SCRIPT_ROOT_PTR + 1 - GLOBAL_INPUTS_SECTION_OFFSET);
    (BLOCK_DATA_SECTION_OFFSET, NOTE_ROOT_PTR + 1 - BLOCK_DATA_SECTION_OFFSET);
    (CHAIN_MMR_PTR, CHAIN_MMR_PEAKS_PTR + 32 - CHAIN_MMR_PTR);
    (NUM_KERNEL_PROCEDURES_PTR, KERNEL_PROCEDURES_PTR + NUM_KERNEL0_PROCEDURES - NUM_KERNEL_PROCEDURES_PTR);
    (NATIVE_ACCOUNT_DATA_PTR, ACCOUNT_DATA_LENGTH * (1 + MAX_NUM_FOREIGN_ACCOUNTS));
    (INPUT_NOTE_SECTION_OFFSET, 1 + MAX_INPUT_NOTES_PER_TX);
    (INPUT_NOTE_DATA_SECTION_OFFSET, NOTE_MEM_SIZE * MAX_INPUT_NOTES_PER_TX);
    (OUTPUT_NOTE_SECTION_OFFSET, NOTE_MEM_SIZE * MAX_OUTPUT_NOTES_PER_TX) ].

Fixpoint sections_fit (first bound : Z) (l : list (Z * Z)) : bool :=
  match l with
  | [] => first <=? bound
  | (start, len) :: l' => (first <=? start) && (0 <? len) && sections_fit (start + len) bound l'
  end.

Lemma sections_fit_spec first bound l :
  sections_fit first bound l = true →
  (∀ s, s ∈ l → first ≤ s.1 ∧ 0 < s.2 ∧ s.1 + s.2 ≤ bound) ∧
  (∀ i j s t, (i < j)%nat → l !! i = Some s → l !! j = Some t → s.1 + s.2 ≤ t.1).
Proof.
  revert first. induction l as [|[start len] l IH]; intros first; cbn.
  { intros _. split; [intros s Hs; by apply elem_of_nil in Hs|done]. }
  rewrite !andb_true_iff, Z.leb_le, Z.ltb_lt. intros [[H1 H2] Hl]. destruct (IH _ Hl) as [Ha Hp].
  assert (∀ b f m, sections_fit f b m = true → f ≤ b) as Hbound.
  { clear. intros b f m. revert f. induction m as [|[s n] m IH]; intros f; cbn; [by rewrite Z.leb_le|].
    rewrite !andb_true_iff, Z.leb_le, Z.ltb_lt. intros [[? ?] Hm%IH]. lia. }
  apply Hbound in Hl as Hb. split.
  - intros s [->|Hs]%elem_of_cons; [cbn; lia|]. apply Ha in Hs. lia.
  - intros [|i] [|j] s t Hij Hs Ht; cbn in Hs, Ht; [lia| |lia|].
    + injection Hs as <-. apply list_elem_of_lookup_2, Ha in Ht. cbn. lia.
    + apply (Hp i j); [lia|done..].
Qed.

(** The number of words that a list of elements takes. *)
Definition words {F : FeltApi} (l : list felt) : Z := (Z.of_nat (length l) + 3) / 4.

Section Layout.
  Context {F : FeltApi} {H : HasherApi} {S : SmtApi} {D : DigestOrd} {A : AsmApi}.

Lemma length_join_const {X Y} (f : X → list Y) n l :
  (∀ x, length (f x) = n) → length (mjoin (f <$> l)) = (n * length l)%nat.
Proof.
  intros Hf. induction l as [|x l IH]; cbn [fmap list_fmap length]; [cbn; lia|].
  change (mjoin (f x :: (f <$> l))) with (f x ++ mjoin (f <$> l)). rewrite length_app, IH, Hf. lia.
Qed.

Lemma code_words c : wf_code c → words (procedures_as_elements (procedures c)) ≤ 2 * MAX_NUM_PROCEDURES.
Proof.
  intros ([_ Hn] & _). unfold words, procedures_as_elements. rewrite (length_join_const _ 8) by done.
  apply Z.lt_succ_r, Z.div_lt_upper_bound; unfold MAX_NUM_PROCEDURES in *; lia.
Qed.

Lemma storage_words s : wf_storage s → words (slots_as_elements (slots s)) ≤ 2 * MAX_NUM_STORAGE_SLOTS.
Proof.
  intros Hn. unfold wf_storage in Hn. unfold words, slots_as_elements. rewrite (length_join_const _ 8) by (by intros []).
  apply Z.lt_succ_r, Z.div_lt_upper_bound; unfold MAX_NUM_STORAGE_SLOTS in *; lia.
Qed.

Lemma assets_words a : wf_note_assets a → words (to_padded_assets a) ≤ MAX_ASSETS_PER_NOTE + 1.
Proof.
  intros [Hn _ _ _]. unfold words, to_padded_assets, vec_resize, WORD_SIZE. rewrite length_app, length_take, length_replicate.
  rewrite (length_join_const _ 4) by done. unfold MAX_ASSETS_PER_NOTE in *.
  apply Z.lt_succ_r, Z.div_lt_upper_bound; [lia|]. destruct (_ =? _)%nat; lia.
Qed.

(** ** Theorem *)

(** The memory layout has room: with every count at its limit the sections
    lie in the 32-bit address space and do not overlap; the procedures of any
    well-formed account code end before the number of storage slots, the slots
    of any well-formed storage end inside the account's segment, and the assets
    of any well-formed note end inside the note's segment, for input and for
    output notes. *)
Theorem memory_layout :
  ((∀ s, s ∈ memory_sections → 0 ≤ s.1 ∧ 0 < s.2 ∧ s.1 + s.2 ≤ 2 ^ 32) ∧
   (∀ i j s t, (i < j)%nat → memory_sections !! i = Some s → memory_sections !! j = Some t → s.1 + s.2 ≤ t.1)) ∧
  (∀ c, wf_code c →
     ACCT_PROCEDURES_SECTION_OFFSET + words (procedures_as_elements (procedures c)) ≤ NUM_ACCT_STORAGE_SLOTS_OFFSET) ∧
  (∀ s, wf_storage s →
     ACCT_STORAGE_SLOTS_SECTION_OFFSET + words (slots_as_elements (slots s)) ≤ ACCOUNT_DATA_LENGTH) ∧
  (∀ a, wf_note_assets a →
     INPUT_NOTE_ASSETS_OFFSET + words (to_padded_assets a) ≤ NOTE_MEM_SIZE ∧
     OUTPUT_NOTE_ASSETS_OFFSET + words (to_padded_assets a) ≤ NOTE_MEM_SIZE).
Proof.
  split; [apply sections_fit_spec; reflexivity|]. split; [|split].
  - intros c Hc%code_words. unfold ACCT_PROCEDURES_SECTION_OFFSET, NUM_ACCT_STORAGE_SLOTS_OFFSET, MAX_NUM_PROCEDURES in *. lia.
  - intros s Hs%storage_words. unfold ACCT_STORAGE_SLOTS_SECTION_OFFSET, ACCOUNT_DATA_LENGTH, MAX_NUM_STORAGE_SLOTS in *. lia.
  - intros a Ha%assets_words. unfold INPUT_NOTE_ASSETS_OFFSET, OUTPUT_NOTE_ASSETS_OFFSET, NOTE_MEM_SIZE, MAX_ASSETS_PER_NOTE in *. lia.
Qed.
End Layout.
