(* ===== verification/Kernel.v ===== *)
(** * Inputs and outputs of the transaction kernel

    Models miden-lib/src/transaction/mod.rs, inputs.rs, outputs.rs and
    procedures/: how a transaction is turned into the initial stack and the
    advice inputs of the kernel program, and how its final stack is read. The
    stacks of the VM, the nodes of its trees and the grouping of elements into
    words are parameters. *)

From S2P Require Import Prelude Felt Crypto Serde Types AccountId Assets VaultDelta Vault StorageDelta Storage.
From S2P Require Import Code Account NoteMeta NoteContents Notes TxOutputs Merkle Chain TxInputs TxArgs Memory.
Open Scope Z_scope.

(** Stacks of the VM: sixteen elements; a shorter list is padded with zeros and
    a longer one refused. [StackInputs::new] takes the top of the stack last,
    [StackOutputs::new] first; a word [a, b, c, d] lies on the stack as
    [d, c, b, a]. *)
Class StackApi {F : FeltApi} := {
  StackInputs : Type;
  StackOutputs : Type;
  stack_inputs_new : list felt → option StackInputs;
  stack_outputs_new : list felt → option StackOutputs;
  input_item : StackInputs → nat → option felt;
  output_item : StackOutputs → nat → option felt;
  output_word : StackOutputs → nat → option Word;
  stack_inputs_new_spec l : if (length l <=? 16)%nat
    then ∃ s, stack_inputs_new l = Some s ∧ ∀ i, (i < 16)%nat → input_item s i = Some (default ZERO (reverse l !! i))
    else stack_inputs_new l = None;
  stack_outputs_new_spec l : if (length l <=? 16)%nat
    then ∃ s, stack_outputs_new l = Some s ∧ ∀ i, (i < 16)%nat → output_item s i = Some (default ZERO (l !! i))
    else stack_outputs_new l = None;
  output_item_range s i : is_Some (output_item s i) ↔ (i < 16)%nat;
  output_word_spec s i : (i + 3 < 16)%nat →
    output_word s i = (d ← output_item s i; c ← output_item s (i + 1); b ← output_item s (i + 2);
                       a ← output_item s (i + 3); Some (mkWord a b c d));
  outputs_ext s s' : (∀ i, (i < 16)%nat → output_item s i = output_item s' i) → s = s'
}.

(** The nodes of the trees that go into the Merkle store, the leaves of a sparse
    tree, and [group_slice_elements], which panics on a length that is not a
    multiple of the word size. *)
Class NodesApi {F : FeltApi} {S : SmtApi} {B : ByteIO} {N : NoteIO} {T : PathApi} {R : MmrApi} := {
  mmr_inner_nodes : PartialMmr → list (Z * Digest) → list InnerNodeInfo;
  smt_inner_nodes : Smt → list InnerNodeInfo;
  SmtLeaf : Type;
  smt_leaves : Smt → list SmtLeaf;
  leaf_hash : SmtLeaf → Digest;
  leaf_to_elements : SmtLeaf → list felt;
  group_words : list felt → option (list Word);
  group_words_spec l : match group_words l with
    | Some ws => l = mjoin (word_elements <$> ws)
    | None => (length l mod 4 ≠ 0)%nat
    end
}.

Section Kernel.
  Context {F : FeltApi} {H : HasherApi} {S : SmtApi} {D : DigestOrd} {A : AsmApi} {P : ProgramApi}.
  Context {B : ByteIO} {N : NoteIO} {T : PathApi} {R : MmrApi} {V : AdviceInputsApi} {K : StackApi} {O : NodesApi}.

(** ** Procedures of the kernel *)

Definition digest (a b c d : Z) : Digest := mkWord (felt_new a) (felt_new b) (felt_new c) (felt_new d).

Definition KERNEL0_PROCEDURES : list Digest :=
  [
    (** account_vault_add_asset *) digest 0xa9fe41a58d609bc6 0xca49c09c352213a4 0x30f55868815fc5 0x84f2f2540b3d335e;
    (** account_vault_get_balance *) digest 0xc9f641c7cb28c537 0x5f1835b4bc0216d8 0x67a3595a70ec1e47 0xe80706963236ef04;
    (** account_vault_has_non_fungible_asset *) digest 0xea8a34165d532089 0x59a926dbd5aa3ff2 0xe5115a03af1df001 0x76389bdaf65efbe7;
    (** account_vault_remove_asset *) digest 0x50d3cb33cd1418ba 0x7557071cd1d80348 0x15bf59b92f4acbf0 0xe5b38d70ced94a21;
    (** get_account_id *) digest 0x6aced4e086435d59 0xba76f46e942cef62 0xb200b248f2dcd162 0x1157061dd5f0d46f;
    (** get_account_item *) digest 0x17eb77c44f50731a 0xf3a47bd9edfcc9c9 0x18ff2a567c82c997 0x18dae9f808fda222;
    (** get_account_map_item *) digest 0xe8bc7c2fc9d43a2b 0x3161e056efe3ea43 0xbdc7cd1661a4417b 0x23852218531bdad9;
    (** get_account_nonce *) digest 0xacdebda374aa5674 0x8a0b1304eb02cffb 0xeb0a5fb1b57207ea 0xf76bd169121bf949;
    (** get_account_vault_commitment *) digest 0x3c4f947b6f95a1bf 0x50ce4a4edb6f4e8e 0x2034c3ca943fa0cd 0x1c98390c7ae9b7c8;
    (** get_current_account_hash *) digest 0x802c0790eeeabe44 0xd88044083d9bf1ff 0x516b86ae7774a2e 0x79fc0a0193b24fd7;
    (** get_initial_account_hash *) digest 0xef64acfbf231cccf 0x1cb9c8cf93a1b0ae 0x72f5eee9bd238830 0x326baec63364b9be;
    (** incr_account_nonce *) digest 0xb0dfaaa97c2b4ce5 0x2bd39c4c6176fc56 0xd96082a492f92d0a 0x8db29879a967bd2d;
    (** set_account_code *) digest 0xfe85c2bde64f0700 0x8aa763adc38d6662 0xe3f29524e6f8a6d9 0x653dea6b152cba52;
    (** set_account_item *) digest 0x499f79c1362b9a07 0x1b92269850061e98 0x796953b19ee46adc 0xe72dd36a7b0ddcbb;
    (** set_account_map_item *) digest 0xb725af2709828550 0xb7ba61b264bdcb95 0x46fb74585d83ff7a 0xa5f4990bf3f25698;
    (** burn_asset *) digest 0xe04d74db39cc3b5b 0x9cc09131a411012b 0x1359ac8f13bfaf7c 0xaa61f025022959d9;
    (** get_fungible_faucet_total_issuance *) digest 0x9dc9fa65171ea10b 0x3f7735402fe315d6 0x7cedd24bf19310ad 0x197e0ba67054fa98;
    (** mint_asset *) digest 0x5f1b1ef4632de4c1 0xde69adb0010e558b 0x6c034d21e74f265b 0x22e4b88e992799a0;
    (** add_asset_to_note *) digest 0xa64a1ece11db2897 0x892200d8bf530f42 0x9d03e9da185baad3 0xebcb1e54b2e23e3c;
    (** create_note *) digest 0xabde835730b7c0f3 0x29f54d09ca7fe6ea 0xc1799a2c33024aa0 0x9d95083bf6532962;
    (** get_input_notes_commitment *) digest 0x7e3ca0c93364a844 0x56ed10c6b049de9 0xb676b1eb055f27df 0xb5e8ea2972209301;
    (** get_note_assets_info *) digest 0x98dddf82d366a2cc 0x5c5278df4b88d10a 0x9d83d6f405fe90c0 0x2f0e122b3867f01d;
    (** get_note_inputs_hash *) digest 0xade126b7999e20e6 0xfabc302b719eb825 0xdc817bb4fe45ad3b 0xdacb0d2bb050a651;
    (** get_note_sender *) digest 0x967b8f2b43a079c5 0xfb8a3cf7b33ac140 0xfa3c4ab109a40a6f 0xfda24ed0606e53ff;
    (** get_note_serial_number *) digest 0x627519c20e1391ad 0xde388aafdecac613 0xc3b70c620ce56887 0xb654604c8731c547;
    (** get_output_notes_hash *) digest 0xaf7e3e2ce3a65a5d 0xd20c093c6816dda7 0x9d029901984dc860 0x8a9968ec5c7dea98;
    (** get_block_hash *) digest 0xccc964fdf761d004 0xd919b4cb05cb160 0xda45a051c1bc0ab9 0x8ea560fbf3191913;
    (** get_block_number *) digest 0x88278b8772ada17 0x69b99e5f2bffbf54 0xf4978f996ae7e2a4 0x7c4396761a2b7b96;
    (** start_foreign_context *) digest 0xfc26cc8cc1a4d7b4 0xeb50a928de2c5222 0x7930027d939740e3 0x4218d117620f4664;
    (** end_foreign_context *) digest 0xc1ce8ecafe502b13 0x73590c6440c73709 0x4c30d8c1893e643e 0x28047ae2203152f4;
    (** update_expiration_block_num *) digest 0xfd51bff9ff681633 0x8075745cbe89f84c 0xebecbce5a2c97df9 0xad195ad3e589976f;
    (** get_expiration_delta *) digest 0x60d571bf3cbe4ca0 0x1969d046d6e5e007 0x5f97e0173f503c60 0x8064d7deb54c2f13
  ].

Definition NUM_VERSIONS : nat := 1.
Definition PROCEDURES : list (list Digest) := [KERNEL0_PROCEDURES].

Definition kernel_procedures_as_elements {E} (kernel_version : Z) : res E (list felt) :=
  procedures ← expect_some (PROCEDURES !! Z.to_nat kernel_version);
  Ok (mjoin (word_elements <$> procedures)).
Definition kernel_hash {E} (kernel_version : Z) : res E Digest :=
  elements ← kernel_procedures_as_elements kernel_version; Ok (hash_elements elements).
Definition kernel_root {E} : res E Digest :=
  hash ← kernel_hash 0; Ok (hash_elements (word_elements hash)).

(** ** Stacks *)

Definition OUTPUT_NOTES_COMMITMENT_WORD_IDX : nat := 0.
Definition FINAL_ACCOUNT_HASH_WORD_IDX : nat := 1.
Definition EXPIRATION_BLOCK_ELEMENT_IDX : nat := 8.

Definition build_input_stack {E} (acct_id : AccountId) (init_acct_hash input_notes_hash block_hash : Digest)
    : res E StackInputs :=
  let inputs := word_elements input_notes_hash ++ word_elements init_acct_hash ++ [id_felt acct_id] ++
                word_elements block_hash in
  expect_some (stack_inputs_new inputs).

Definition build_output_stack {E} (final_acct_hash output_notes_hash : Digest) (expiration_block_num : Z)
    : res E StackOutputs :=
  let outputs := [felt_new expiration_block_num] ++ word_elements final_acct_hash ++ word_elements output_notes_hash in
  expect_some (stack_outputs_new (reverse outputs)).

Definition parse_output_stack (stack : StackOutputs) : res TransactionOutputError (Digest * Digest * Z) :=
  output_notes_hash ← expect_some (output_word stack (OUTPUT_NOTES_COMMITMENT_WORD_IDX * 4));
  final_account_hash ← expect_some (output_word stack (FINAL_ACCOUNT_HASH_WORD_IDX * 4));
  expiration_block_num ← expect_some (output_item stack EXPIRATION_BLOCK_ELEMENT_IDX);
  expiration_block_num ← ok_or OutputStackInvalid (try_into_u32 (as_int expiration_block_num));
  fourth ← expect_some (output_word stack 12);
  if decide (fourth ≠ EMPTY_WORD) then Err OutputStackInvalid
  else Ok (final_account_hash, output_notes_hash, expiration_block_num).

Definition word_idx (w : Word) (i : Z) : felt := default ZERO (word_elements w !! Z.to_nat i).

Definition parse_final_account_header (elements : list Word) : res AccountError AccountHeader :=
  if negb (Z.of_nat (length elements) =? ACCT_DATA_MEM_SIZE)
  then Err (HeaderDataIncorrectLength (Z.of_nat (length elements)) ACCT_DATA_MEM_SIZE)
  else
    id_and_nonce ← expect_some (elements !! Z.to_nat ACCT_ID_AND_NONCE_OFFSET);
    id ← account_id_from_felt (word_idx id_and_nonce ACCT_ID_IDX);
    let nonce := word_idx id_and_nonce ACCT_NONCE_IDX in
    vault_root ← expect_some (elements !! Z.to_nat ACCT_VAULT_ROOT_OFFSET);
    storage_commitment ← expect_some (elements !! Z.to_nat ACCT_STORAGE_COMMITMENT_OFFSET);
    code_commitment ← expect_some (elements !! Z.to_nat ACCT_CODE_COMMITMENT_OFFSET);
    Ok (mkAccountHeader id nonce vault_root storage_commitment code_commitment).

Record TransactionOutputs : Type := mkTxOutputs {
  to_account : AccountHeader;
  to_output_notes : OutputNotes;
  to_expiration_block_num : Z
}.

(** The advice map is given by its lookup function. *)
Definition from_transaction_parts (stack : StackOutputs) (adv_map : Digest → option (list felt))
    (output_notes : list OutputNote) : res TransactionOutputError TransactionOutputs :=
  parsed ← parse_output_stack stack;
  let '(final_acct_hash, output_notes_hash, expiration_block_num) := parsed in
  data ← ok_or FinalAccountDataNotFound (adv_map final_acct_hash);
  final_account_data ← expect_some (group_words data);
  account ← map_err FinalAccountHeaderDataInvalid (parse_final_account_header final_account_data);
  output_notes ← output_notes_new output_notes;
  if decide (output_notes_hash ≠ on_commitment output_notes)
  then Err (OutputNotesCommitmentInconsistent output_notes_hash (on_commitment output_notes))
  else Ok (mkTxOutputs account output_notes expiration_block_num).

(** ** Advice inputs

    The functions extend the advice inputs they are given. *)

Definition push_words {E} (l : list felt) : mut AdviceInputs E unit := λ a, (Ok tt, extend_stack l a).
Definition add_entries {E} (l : list (Digest * list felt)) : mut AdviceInputs E unit := λ a, (Ok tt, extend_map l a).
Definition add_nodes {E} (l : list InnerNodeInfo) : mut AdviceInputs E unit := λ a, (Ok tt, extend_store l a).

Definition add_advice {E} (other : AdviceInputs) : mut AdviceInputs E unit := λ a, (Ok tt, advice_extend other a).

Definition build_advice_stack {E} (ti : TransactionInputs) (tx_script : option TransactionScript) (kernel_version : Z)
    : mut AdviceInputs E unit :=
  let header := ti_block_header ti in
  push_words (word_elements (bh_prev_hash header)) ;;
  push_words (word_elements (bh_chain_root header)) ;;
  push_words (word_elements (bh_account_root header)) ;;
  push_words (word_elements (bh_nullifier_root header)) ;;
  push_words (word_elements (bh_tx_hash header)) ;;
  push_words (word_elements (bh_kernel_root header)) ;;
  push_words (word_elements (bh_proof_hash header)) ;;
  push_words [felt_new (bh_block_num header); felt_new (bh_version header); felt_new (bh_timestamp header); ZERO] ;;
  push_words (word_elements (bh_note_root header)) ;;
  push_words [felt_new kernel_version] ;;
  let account := ti_account ti in
  push_words [id_felt (acct_id account); ZERO; ZERO; acct_nonce account] ;;
  push_words (word_elements (vault_commitment (acct_vault account))) ;;
  push_words (word_elements (storage_commitment (acct_storage account))) ;;
  push_words (word_elements (code_commitment (acct_code account))) ;;
  push_words [felt_new (as_u32 (Z.of_nat (length (in_notes (ti_input_notes ti)))))] ;;
  script_root ← lift (match tx_script with Some script => tx_script_hash script | None => Ok EMPTY_WORD end);
  push_words (word_elements script_root).

Fixpoint all_kernel_hashes {E} (versions : list nat) : res E (list felt) :=
  match versions with
  | [] => Ok []
  | version :: versions' =>
      hash ← kernel_hash (as_u8 (Z.of_nat version));
      rest ← all_kernel_hashes versions';
      Ok (word_elements hash ++ rest)
  end.
(** [&v[from..from + 4]] as a digest *)
Definition slice_word {E} (v : list felt) (from : nat) : res E Digest :=
  match take 4 (drop from v) with
  | [a; b; c; d] => Ok (mkWord a b c d)
  | _ => Panic
  end.
Definition add_kernel_hashes_to_advice_inputs {E} (kernel_version : Z) : mut AdviceInputs E unit :=
  kernel_hashes ← lift (all_kernel_hashes (seq 0 NUM_VERSIONS));
  selected ← lift (slice_word kernel_hashes (Z.to_nat kernel_version));
  procedures ← lift (kernel_procedures_as_elements kernel_version);
  add_entries [(selected, procedures)] ;;
  root ← lift kernel_root;
  add_entries [(root, kernel_hashes)].

(** [ChainMmr::inner_nodes] *)
Definition chain_inner_nodes (c : ChainMmr) : list InnerNodeInfo :=
  mmr_inner_nodes (cm_mmr c) ((λ p, (bh_block_num p.2, bh_hash p.2)) <$> btree_iter Z.leb (cm_blocks c)).
Definition add_chain_mmr_to_advice_inputs {E} (mmr : ChainMmr) : mut AdviceInputs E unit :=
  add_nodes (chain_inner_nodes mmr) ;;
  let peaks := mmr_peaks (cm_mmr mmr) in
  let elements := [felt_new (peaks_num_leaves peaks); ZERO; ZERO; ZERO] ++ flatten_and_pad_peaks peaks in
  add_entries [(hash_peaks peaks, elements)].

Definition leaf_entries (t : Smt) : list (Digest * list felt) := (λ l, (leaf_hash l, leaf_to_elements l)) <$> smt_leaves t.
Definition add_slot {E} (slot : StorageSlot) : mut AdviceInputs E unit :=
  match slot with
  | Map map => add_nodes (smt_inner_nodes (map_tree map)) ;; add_entries (leaf_entries (map_tree map))
  | Value _ => mret tt
  end.
Definition add_account_to_advice_inputs {E} (account : Account) (account_seed : option Word) : mut AdviceInputs E unit :=
  let storage := acct_storage account in
  for_each (slots storage) add_slot ;;
  add_entries [(storage_commitment storage, slots_as_elements (slots storage))] ;;
  let vault := acct_vault account in
  add_nodes (smt_inner_nodes (asset_tree vault)) ;;
  add_entries (leaf_entries (asset_tree vault)) ;;
  let code := acct_code account in
  add_entries [(code_commitment code, procedures_as_elements (procedures code))] ;;
  match account_seed with
  | Some account_seed => add_entries [(mkWord (id_felt (acct_id account)) ZERO ZERO ZERO, word_elements account_seed)]
  | None => mret tt
  end.

(** The data of one input note, and the nodes of its path. [debug] says whether
    the debug assertion on the number of inputs is compiled in. *)
Definition note_proof_data {E} (ti : TransactionInputs) (input_note : InputNote)
    : res E (list felt * list InnerNodeInfo) :=
  match input_note with
  | Authenticated note proof =>
      let block_num := block_num (np_location proof) in
      note_block_header ← expect_some (note_block (ti_block_header ti) (ti_block_chain ti) block_num);
      nodes ← expect_some (path_inner_nodes (np_note_path proof) (node_index_in_block (np_location proof)) (note_hash note));
      Ok ([ONE] ++ [felt_new block_num] ++ word_elements (bh_sub_hash note_block_header) ++
          word_elements (bh_note_root note_block_header) ++ [felt_new (node_index_in_block (np_location proof))], nodes)
  | Unauthenticated _ => Ok ([ZERO], [])
  end.
Definition add_input_note {E} (debug : bool) (ti : TransactionInputs) (ta : TransactionArgs) (n : InputNote)
    : mut (AdviceInputs * list felt) E unit :=
  let note := input_note n in
  let assets := nd_assets (note_details note) in
  let recipient := nd_recipient (note_details note) in
  let note_arg := default EMPTY_WORD (get_note_args ta (note_id note)) in
  inputs_elements ← lift (inputs_format_for_advice debug (nr_inputs recipient));
  on_field fst (λ a s, (a, s.2)) (add_entries [(ni_hash (nr_inputs recipient), inputs_elements)]) ;;
  on_field fst (λ a s, (a, s.2)) (add_entries [(na_hash assets, to_padded_assets assets)]) ;;
  script_root ← lift (script_hash (nr_script recipient));
  proof_data ← lift (note_proof_data ti n);
  on_field fst (λ a s, (a, s.2)) (add_nodes proof_data.2) ;;
  s ← get_self;
  put_self (s.1, s.2 ++ word_elements (nr_serial_num recipient) ++ word_elements script_root ++
    word_elements (ni_hash (nr_inputs recipient)) ++ word_elements (na_hash assets) ++
    word_elements note_arg ++ word_elements (metadata_to_word (nh_metadata (note_header note))) ++
    [felt_new (as_u32 (Z.of_nat (length (na_assets assets))))] ++ to_padded_assets assets ++ proof_data.1).
Definition add_input_notes_to_advice_inputs {E} (debug : bool) (ti : TransactionInputs) (ta : TransactionArgs)
    : mut AdviceInputs E unit :=
  match in_notes (ti_input_notes ti) with
  | [] => mret tt
  | _ :: _ => λ a,
      match for_each (in_notes (ti_input_notes ti)) (add_input_note debug ti ta) (a, []) with
      | (Ok _, (a', note_data)) => add_entries [(in_commitment (ti_input_notes ti), note_data)] a'
      | (Err e, (a', _)) => (Err e, a')
      | (Panic, (a', _)) => (Panic, a')
      end
  end.

Definition extend_advice_inputs {E} (debug : bool) (ti : TransactionInputs) (ta : TransactionArgs)
    : mut AdviceInputs E unit :=
  let kernel_version := 0 in
  build_advice_stack ti (ta_tx_script ta) kernel_version ;;
  add_kernel_hashes_to_advice_inputs kernel_version ;;
  add_chain_mmr_to_advice_inputs (ti_block_chain ti) ;;
  add_account_to_advice_inputs (ti_account ti) (ti_account_seed ti) ;;
  add_input_notes_to_advice_inputs debug ti ta ;;
  add_advice (ta_advice_inputs ta).

Definition prepare_inputs {E} (debug : bool) (ti : TransactionInputs) (ta : TransactionArgs)
    (init_advice_inputs : option AdviceInputs) : res E (StackInputs * AdviceInputs) :=
  let account := ti_account ti in
  stack_inputs ← build_input_stack (acct_id account) (account_init_hash account)
    (in_commitment (ti_input_notes ti)) (bh_hash (ti_block_header ti));
  match extend_advice_inputs debug ti ta (default advice_default init_advice_inputs) with
  | (Ok _, advice_inputs) => Ok (stack_inputs, advice_inputs)
  | (Err e, _) => Err e
  | (Panic, _) => Panic
  end.

(** ** Laws of the stacks *)

Lemma stack_outputs_ok l : (length l ≤ 16)%nat →
  ∃ s, stack_outputs_new l = Some s ∧ ∀ i, (i < 16)%nat → output_item s i = Some (default ZERO (l !! i)).
Proof. intros Hl. pose proof (stack_outputs_new_spec l) as Hs. by rewrite (proj2 (Nat.leb_le _ _)) in Hs by lia. Qed.

Lemma stack_inputs_ok l : (length l ≤ 16)%nat →
  ∃ s, stack_inputs_new l = Some s ∧ ∀ i, (i < 16)%nat → input_item s i = Some (default ZERO (reverse l !! i)).
Proof. intros Hl. pose proof (stack_inputs_new_spec l) as Hs. by rewrite (proj2 (Nat.leb_le _ _)) in Hs by lia. Qed.

Lemma output_word_items s i a b c d :
  (i + 3 < 16)%nat →
  output_item s i = Some d → output_item s (i + 1) = Some c → output_item s (i + 2) = Some b →
  output_item s (i + 3) = Some a → output_word s i = Some (mkWord a b c d).
Proof. intros Hi E1 E2 E3 E4. rewrite output_word_spec by done. by rewrite E1, E2, E3, E4. Qed.

(** The word at a position, as its items. *)
Lemma output_word_inv s i w :
  (i + 3 < 16)%nat → output_word s i = Some w →
  output_item s i = Some (w3 w) ∧ output_item s (i + 1) = Some (w2 w) ∧
  output_item s (i + 2) = Some (w1 w) ∧ output_item s (i + 3) = Some (w0 w).
Proof.
  intros Hi. rewrite output_word_spec by done. destruct (output_item s i), (output_item s (i + 1)),
    (output_item s (i + 2)), (output_item s (i + 3)); try discriminate. cbn. by intros [= <-].
Qed.

Lemma output_item_some s i : (i < 16)%nat → ∃ x, output_item s i = Some x.
Proof. apply output_item_range. Qed.

Lemma output_word_some s i : (i + 3 < 16)%nat → ∃ w, output_word s i = Some w.
Proof.
  intros Hi. destruct (output_item_some s i) as [d Ed]; [lia|]. destruct (output_item_some s (i + 1)) as [c Ec]; [lia|].
  destruct (output_item_some s (i + 2)) as [b Eb]; [lia|]. destruct (output_item_some s (i + 3)) as [a Ea]; [lia|].
  eexists. by apply output_word_items.
Qed.

(** What the kernel leaves on the stack: the two words, the block number, three
    elements that are not looked at, and an empty word. *)
Lemma parse_output_stack_Ok s f o e :
  parse_output_stack s = Ok (f, o, e) ↔
  output_word s 0 = Some o ∧ output_word s 4 = Some f ∧
  (∃ x, output_item s 8 = Some x ∧ as_int x = e ∧ e < 2 ^ 32) ∧ output_word s 12 = Some EMPTY_WORD.
Proof.
  unfold parse_output_stack, OUTPUT_NOTES_COMMITMENT_WORD_IDX, FINAL_ACCOUNT_HASH_WORD_IDX, EXPIRATION_BLOCK_ELEMENT_IDX.
  cbn [Nat.mul Nat.add].
  destruct (output_word_some s 0) as [o' ->]; [lia|]. destruct (output_word_some s 4) as [f' ->]; [lia|].
  destruct (output_item_some s 8) as [x ->]; [lia|]. destruct (output_word_some s 12) as [w ->]; [lia|].
  cbn [expect_some mbind res_bind]. unfold try_into_u32, in_u32. pose proof (as_int_range x) as Hx.
  destruct (Z.leb_spec 0 (as_int x)); [|lia]. unfold U32_MAX. cbn [andb].
  destruct (Z.leb_spec (as_int x) (2 ^ 32 - 1)); cbn [ok_or mbind res_bind].
  - case_decide as Hw; split.
    + discriminate.
    + intros (_ & _ & _ & [= ->]). done.
    + intros [= <- <- <-]. subst w. split_and!; try done. exists x. split_and!; [done..|lia].
    + intros ([= ->] & [= ->] & (y & [= <-] & <- & _) & [= ->]). done.
  - split; [discriminate|]. intros (_ & _ & (y & [= <-] & <- & ?) & _). lia.
Qed.

Definition output_items (f o : Digest) (e : Z) : list felt :=
  [w3 o; w2 o; w1 o; w0 o; w3 f; w2 f; w1 f; w0 f; felt_new e].

Lemma build_output_stack_Ok {E} f o e :
  ∃ s, build_output_stack (E:=E) f o e = Ok s ∧
    ∀ i, (i < 16)%nat → output_item s i = Some (default ZERO (output_items f o e !! i)).
Proof.
  destruct (stack_outputs_ok (output_items f o e)) as (s & Hs & Hi); [cbn; lia|].
  exists s. split; [|done]. unfold build_output_stack.
  change (reverse ([felt_new e] ++ word_elements f ++ word_elements o)) with (output_items f o e). by rewrite Hs.
Qed.

Lemma parse_built_stack f o e s' :
  0 ≤ e < 2 ^ 32 →
  (∀ i, (i < 16)%nat → i ≠ 9%nat → output_item s' i = Some (default ZERO (output_items f o e !! i))) →
  parse_output_stack s' = Ok (f, o, e).
Proof.
  intros He Hi'. assert (as_int (felt_new e) = e) as Ee by (apply as_int_small; unfold MODULUS; lia).
  apply parse_output_stack_Ok. split_and!.
  - destruct o. by apply output_word_items; [lia|rewrite Hi' by lia..].
  - destruct f. by apply output_word_items; [lia|rewrite Hi' by lia..].
  - exists (felt_new e). split; [by rewrite Hi' by lia|lia].
  - by apply output_word_items; [lia|rewrite Hi' by lia..].
Qed.

Lemma build_parse_output_stack {E} f o e s :
  0 ≤ e < 2 ^ 32 → build_output_stack (E:=E) f o e = Ok s → parse_output_stack s = Ok (f, o, e).
Proof.
  intros He Hs. destruct (build_output_stack_Ok (E:=E) f o e) as (s' & Hs' & Hi). rewrite Hs in Hs'. injection Hs' as <-.
  apply parse_built_stack; [done|]. auto.
Qed.

(** C25. The output stack that the verifier rebuilds is the one that the prover
    parsed: building and then parsing returns the three values, and parsing and
    then building returns the same stack, provided that the elements between the
    expiration block and the last word are zero. This is not checked when
    parsing: for all values there is another stack that parses to them. *)
Theorem output_stack_roundtrip {E} f o e :
  0 ≤ e < 2 ^ 32 →
  (∃ s, build_output_stack (E:=E) f o e = Ok s ∧ parse_output_stack s = Ok (f, o, e)) ∧
  (∀ s, parse_output_stack s = Ok (f, o, e) →
     output_item s 9 = Some ZERO → output_item s 10 = Some ZERO → output_item s 11 = Some ZERO →
     build_output_stack (E:=E) f o e = Ok s) ∧
  (∃ s, parse_output_stack s = Ok (f, o, e) ∧ build_output_stack (E:=E) f o e ≠ Ok s).
Proof.
  intros He. destruct (build_output_stack_Ok (E:=E) f o e) as (s & Hs & Hi).
  pose proof (λ s', parse_built_stack f o e s' He) as Hparse.
  split_and!.
  - exists s. split; [done|]. apply Hparse. auto.
  - intros s' (Ho & Hf & (x & Hx & Ex & _) & Hw)%parse_output_stack_Ok H9 H10 H11. rewrite Hs. f_equal.
    apply outputs_ext. intros i Hlt. rewrite Hi by done.
    apply output_word_inv in Ho as (? & ? & ? & ?), Hf as (? & ? & ? & ?), Hw as (? & ? & ? & ?); [|lia..].
    assert (x = felt_new e) as -> by (rewrite <-Ex; symmetry; apply felt_new_as_int).
    do 16 (destruct i as [|i]; [symmetry; assumption|]). lia.
  - destruct (stack_outputs_ok (output_items f o e ++ [ONE])) as (s' & Hs' & Hi'); [cbn; lia|].
    exists s'. split.
    + apply Hparse. intros i Hlt Hne. rewrite Hi' by done.
      do 9 (destruct i as [|i]; [done|]). destruct i as [|i]; [done|]. done.
    + rewrite Hs. intros [= ->]. specialize (Hi 9%nat ltac:(lia)). rewrite Hi' in Hi by lia.
      cbn in Hi. injection Hi as Hi. apply (f_equal as_int) in Hi. by rewrite as_int_ONE, as_int_ZERO in Hi.
Qed.

Lemma build_input_stack_Ok {E} id h n b :
  ∃ s, build_input_stack (E:=E) id h n b = Ok s ∧
    ∀ i, (i < 16)%nat → input_item s i = Some (default ZERO
      ([w3 b; w2 b; w1 b; w0 b; id_felt id; w3 h; w2 h; w1 h; w0 h; w3 n; w2 n; w1 n; w0 n] !! i)).
Proof.
  unfold build_input_stack. destruct (stack_inputs_ok (word_elements n ++ word_elements h ++ [id_felt id] ++ word_elements b))
    as (s & -> & Hi); [cbn; lia|]. by exists s.
Qed.

(** The input stack binds the public inputs of a transaction: it can always
    be built, and two transactions with the same input stack have the same
    account id, initial account hash, input notes commitment and reference
    block. *)
Theorem input_stack_binds {E} id h n b id' h' n' b' :
  ∃ s, build_input_stack (E:=E) id h n b = Ok s ∧
    (build_input_stack (E:=E) id' h' n' b' = Ok s → (id', h', n', b') = (id, h, n, b)).
Proof.
  destruct (build_input_stack_Ok (E:=E) id h n b) as (s & Hs & Hi). exists s. split; [done|]. intros Hs'.
  destruct (build_input_stack_Ok (E:=E) id' h' n' b') as (s' & Es & Hi'). rewrite Hs' in Es. injection Es as <-.
  assert (∀ i, (i < 16)%nat → default ZERO ([w3 b; w2 b; w1 b; w0 b; id_felt id; w3 h; w2 h; w1 h; w0 h; w3 n; w2 n; w1 n; w0 n] !! i) =
    default ZERO ([w3 b'; w2 b'; w1 b'; w0 b'; id_felt id'; w3 h'; w2 h'; w1 h'; w0 h'; w3 n'; w2 n'; w1 n'; w0 n'] !! i)) as Heq.
  { intros i Hlt. specialize (Hi i Hlt). rewrite Hi' in Hi by done. by injection Hi. }
  pose proof (Heq 0%nat ltac:(lia)). pose proof (Heq 1%nat ltac:(lia)). pose proof (Heq 2%nat ltac:(lia)).
  pose proof (Heq 3%nat ltac:(lia)). pose proof (Heq 4%nat ltac:(lia)). pose proof (Heq 5%nat ltac:(lia)).
  pose proof (Heq 6%nat ltac:(lia)). pose proof (Heq 7%nat ltac:(lia)). pose proof (Heq 8%nat ltac:(lia)).
  pose proof (Heq 9%nat ltac:(lia)). pose proof (Heq 10%nat ltac:(lia)). pose proof (Heq 11%nat ltac:(lia)).
  pose proof (Heq 12%nat ltac:(lia)). destruct id, h, n, b, id', h', n', b'. cbn in *. congruence.
Qed.

(** ** Transaction outputs *)

Lemma join_words_inj (ws ws' : list Word) :
  mjoin (word_elements <$> ws) = mjoin (word_elements <$> ws') → ws = ws'.
Proof.
  revert ws'. induction ws as [|w ws IH]; intros [|w' ws'] E; [done|discriminate..|].
  rewrite !fmap_cons in E.
  change (mjoin (word_elements w :: (word_elements <$> ws))) with (word_elements w ++ mjoin (word_elements <$> ws)) in E.
  change (mjoin (word_elements w' :: (word_elements <$> ws'))) with (word_elements w' ++ mjoin (word_elements <$> ws')) in E.
  apply app_inj_1 in E as [->%word_elements_inj E]; [|done]. by rewrite (IH _ E).
Qed.

Lemma group_words_join ws : group_words (mjoin (word_elements <$> ws)) = Some ws.
Proof.
  pose proof (group_words_spec (mjoin (word_elements <$> ws))) as Hs. destruct (group_words _) as [ws'|].
  - f_equal. symmetry. by apply join_words_inj.
  - rewrite (length_join_const _ 4) in Hs by done. rewrite Nat.mul_comm, Nat.Div0.mod_mul in Hs. done.
Qed.

Definition header_words (h : AccountHeader) (x y : felt) : list Word :=
  [mkWord (id_felt (ah_id h)) x y (ah_nonce h); ah_vault_root h; ah_storage_commitment h; ah_code_commitment h].

Lemma parse_header_words w v st c :
  parse_final_account_header [w; v; st; c] =
  (id ← account_id_from_felt (w0 w); Ok (mkAccountHeader id (w3 w) v st c)).
Proof.
  unfold parse_final_account_header.
  change (negb (Z.of_nat (length [w; v; st; c]) =? ACCT_DATA_MEM_SIZE)) with false. cbv iota.
  change ([w; v; st; c] !! Z.to_nat ACCT_ID_AND_NONCE_OFFSET) with (Some w).
  change ([w; v; st; c] !! Z.to_nat ACCT_VAULT_ROOT_OFFSET) with (Some v).
  change ([w; v; st; c] !! Z.to_nat ACCT_STORAGE_COMMITMENT_OFFSET) with (Some st).
  change ([w; v; st; c] !! Z.to_nat ACCT_CODE_COMMITMENT_OFFSET) with (Some c).
  cbn [expect_some]. rewrite (res_bind_Ok (Ok w) _ w eq_refl).
  replace (word_idx w ACCT_ID_IDX) with (w0 w) by reflexivity. replace (word_idx w ACCT_NONCE_IDX) with (w3 w) by reflexivity.
  destruct (account_id_from_felt (w0 w)); reflexivity.
Qed.

Lemma parse_final_account_header_Ok ws h :
  parse_final_account_header ws = Ok h ↔ valid_id (ah_id h) ∧ ∃ x y, ws = header_words h x y.
Proof.
  split.
  - intros Hp. assert (Z.of_nat (length ws) = 4) as Hlen.
    { unfold parse_final_account_header in Hp. by destruct (Z.eqb_spec (Z.of_nat (length ws)) ACCT_DATA_MEM_SIZE). }
    destruct ws as [|[i x y n] [|v [|st [|c [|? ?]]]]]; try (exfalso; cbn in Hlen; lia).
    rewrite parse_header_words in Hp. cbn [w0 w3] in Hp.
    destruct (account_id_from_felt i) as [id|e|] eqn:Eid; cbn [mbind res_bind] in Hp; [|discriminate..]. injection Hp as <-.
    cbn [ah_id]. pose proof (account_id_from_felt_Ok _ _ Eid) as ->. split; [exact Eid|]. by exists x, y.
  - destruct h as [id n v st c]. unfold header_words. cbn [ah_id ah_nonce ah_vault_root ah_storage_commitment ah_code_commitment].
    intros (Hid & x & y & ->). rewrite parse_header_words. cbn [w0 w3]. by rewrite Hid.
Qed.

Lemma header_words_hash h :
  account_header_hash h = hash_elements (mjoin (word_elements <$> header_words h ZERO ZERO)).
Proof. by destruct h. Qed.

Lemma from_transaction_parts_Ok stack get notes o :
  from_transaction_parts stack get notes = Ok o ↔
  ∃ f x y, parse_output_stack stack = Ok (f, on_commitment (to_output_notes o), to_expiration_block_num o) ∧
    valid_id (ah_id (to_account o)) ∧ get f = Some (mjoin (word_elements <$> header_words (to_account o) x y)) ∧
    output_notes_new notes = Ok (to_output_notes o) ∧
    (hash_elements (mjoin (word_elements <$> header_words (to_account o) x y)) = f → x = ZERO → y = ZERO →
     account_header_hash (to_account o) = f).
Proof.
  unfold from_transaction_parts. split.
  - intros ([[f c] e] & -> & Hp)%res_bind_inv. apply res_bind_inv in Hp as (data & Hget%ok_or_inv & Hp).
    apply res_bind_inv in Hp as (ws & Hg%expect_some_inv & Hp).
    apply res_bind_inv in Hp as (h & Hh%map_err_inv & Hp). apply res_bind_inv in Hp as (l & -> & Hp).
    apply parse_final_account_header_Ok in Hh as (Hid & x & y & ->).
    pose proof (group_words_spec data) as Hdata. rewrite Hg in Hdata. subst data. exists f, x, y.
    case_decide as Hc; [discriminate|]. injection Hp as <-. cbn [to_account to_output_notes to_expiration_block_num].
    rewrite Hc. split_and!; try done. intros <- -> ->. apply header_words_hash.
  - intros (f & x & y & Hp & Hid & Hget & Hn & _). rewrite (res_bind_Ok _ _ _ Hp). cbv iota beta. rewrite Hget.
    cbn [ok_or]. rewrite (res_bind_Ok (Ok _) _ _ eq_refl), group_words_join. cbn [expect_some].
    rewrite (res_bind_Ok (Ok _) _ _ eq_refl).
    rewrite (proj2 (parse_final_account_header_Ok _ (to_account o))) by eauto. cbn [map_err].
    rewrite (res_bind_Ok (Ok _) _ _ eq_refl), (res_bind_Ok _ _ _ Hn).
    rewrite decide_False by (by intros []). by destruct o.
Qed.

(** C26. Outputs of a transaction are read exactly when the parts fit together:
    the stack parses, the advice map has the four words of a header with a valid
    account id under the final account hash, and the notes that the host
    collected are accepted and have the commitment on the stack. When the map is
    keyed by hashes, the header that is read has the final account hash. *)
Theorem from_transaction_parts_spec stack get notes o :
  from_transaction_parts stack get notes = Ok o ↔
  ∃ f x y, parse_output_stack stack = Ok (f, on_commitment (to_output_notes o), to_expiration_block_num o) ∧
    valid_id (ah_id (to_account o)) ∧ get f = Some (mjoin (word_elements <$> header_words (to_account o) x y)) ∧
    output_notes_new notes = Ok (to_output_notes o) ∧
    (hash_elements (mjoin (word_elements <$> header_words (to_account o) x y)) = f → x = ZERO → y = ZERO →
     account_header_hash (to_account o) = f).
Proof. apply from_transaction_parts_Ok. Qed.

(** ** Advice inputs that grow *)

Record grows (a a' : AdviceInputs) (st : list felt) (es : list (Digest * list felt)) (ns : list InnerNodeInfo) : Prop := {
  g_stack : advice_stack a' = advice_stack a ++ st;
  g_mapped : ∀ k, mapped_values a' k = (collect_map es !! k) ∪ mapped_values a k;
  g_nodes : ∀ n, has_node a' n ↔ n ∈ ns ∨ has_node a n
}.

(** A step that adds a stack, entries and nodes, whatever it is applied to. *)
Definition adds {E} (m : mut AdviceInputs E unit) (st : list felt) (es : list (Digest * list felt))
    (ns : list InnerNodeInfo) : Prop := ∀ a, ∃ a', m a = (Ok tt, a') ∧ grows a a' st es ns.

Lemma collect_nil k : collect_map (V:=list felt) [] !! k = None.
Proof. apply collect_map_None. by intros ?%elem_of_nil. Qed.

Lemma adds_ret {E} : adds (E:=E) (mret tt) [] [] [].
Proof.
  intros a. exists a. split; [done|]. split.
  - by rewrite app_nil_r.
  - intros k. by rewrite collect_nil, (left_id_L None (∪)).
  - intros n. rewrite elem_of_nil. tauto.
Qed.

Lemma adds_seq {E} (m m' : mut AdviceInputs E unit) st es ns st' es' ns' :
  adds m st es ns → adds m' st' es' ns' → adds (m ;; m') (st ++ st') (es ++ es') (ns ++ ns').
Proof.
  intros Hm Hm' a. destruct (Hm a) as (a1 & E1 & [S1 M1 N1]). destruct (Hm' a1) as (a2 & E2 & [S2 M2 N2]).
  exists a2. split; [unfold mbind, mut_bind; by rewrite E1|]. split.
  - by rewrite S2, S1, app_assoc.
  - intros k. by rewrite M2, M1, collect_map_app, option_union_assoc.
  - intros n. rewrite N2, N1, elem_of_app. tauto.
Qed.

Lemma adds_lift {E X} (r : res E X) x (k : X → mut AdviceInputs E unit) st es ns :
  r = Ok x → adds (k x) st es ns → adds (lift r ≫= k) st es ns.
Proof. intros -> Hk. exact Hk. Qed.

Lemma adds_words {E} l : adds (E:=E) (push_words l) l [] [].
Proof.
  intros a. eexists. split; [done|]. split; [apply extend_stack_stack|..].
  - intros k. by rewrite collect_nil, extend_stack_mapped, (left_id_L None (∪)).
  - intros n. rewrite elem_of_nil, extend_stack_node. tauto.
Qed.
Lemma adds_entries {E} l : adds (E:=E) (add_entries l) [] l [].
Proof.
  intros a. eexists. split; [done|]. split; [by rewrite extend_map_stack, app_nil_r|apply extend_map_mapped|].
  intros n. rewrite elem_of_nil, extend_map_node. tauto.
Qed.
Lemma adds_nodes {E} l : adds (E:=E) (add_nodes l) [] [] l.
Proof.
  intros a. eexists. split; [done|]. split; [by rewrite extend_store_stack, app_nil_r|..].
  - intros k. by rewrite collect_nil, extend_store_mapped, (left_id_L None (∪)).
  - intros n. apply extend_store_node.
Qed.

Lemma adds_each {E X} (f : X → mut AdviceInputs E unit) es ns l :
  (∀ x, x ∈ l → adds (f x) [] (es x) (ns x)) →
  adds (for_each l f) [] (mjoin (es <$> l)) (mjoin (ns <$> l)).
Proof.
  induction l as [|x l IH]; intros Hf; [apply adds_ret|].
  change (adds (f x ;; for_each l f) ([] ++ []) (es x ++ mjoin (es <$> l)) (ns x ++ mjoin (ns <$> l))).
  apply adds_seq.
  - apply Hf. left.
  - apply IH. intros y Hy. apply Hf. by right.
Qed.

(** ** What the kernel is given

    The advice stack, the entries of the advice map and the nodes of the Merkle
    store, as plain lists. *)

Definition initial_stack (ti : TransactionInputs) (script_root : Word) : list felt :=
  let header := ti_block_header ti in
  let account := ti_account ti in
  mjoin (word_elements <$>
    [bh_prev_hash header; bh_chain_root header; bh_account_root header; bh_nullifier_root header; bh_tx_hash header;
     bh_kernel_root header; bh_proof_hash header;
     mkWord (felt_new (bh_block_num header)) (felt_new (bh_version header)) (felt_new (bh_timestamp header)) ZERO;
     bh_note_root header]) ++
  [felt_new 0] ++
  mjoin (word_elements <$>
    [mkWord (id_felt (acct_id account)) ZERO ZERO (acct_nonce account); vault_commitment (acct_vault account);
     storage_commitment (acct_storage account); code_commitment (acct_code account)]) ++
  [felt_new (as_u32 (Z.of_nat (length (in_notes (ti_input_notes ti)))))] ++ word_elements script_root.

Definition kernel_elements : list felt := mjoin (word_elements <$> KERNEL0_PROCEDURES).
Definition kernel_entries : list (Digest * list felt) :=
  [(hash_elements kernel_elements, kernel_elements);
   (hash_elements (word_elements (hash_elements kernel_elements)), word_elements (hash_elements kernel_elements))].
Definition chain_entries (c : ChainMmr) : list (Digest * list felt) :=
  [(hash_peaks (mmr_peaks (cm_mmr c)),
    [felt_new (peaks_num_leaves (mmr_peaks (cm_mmr c))); ZERO; ZERO; ZERO] ++ flatten_and_pad_peaks (mmr_peaks (cm_mmr c)))].
Definition slot_entries (s : StorageSlot) : list (Digest * list felt) :=
  match s with Map m => leaf_entries (map_tree m) | Value _ => [] end.
Definition slot_nodes (s : StorageSlot) : list InnerNodeInfo :=
  match s with Map m => smt_inner_nodes (map_tree m) | Value _ => [] end.
Definition seed_entries (a : Account) (seed : option Word) : list (Digest * list felt) :=
  match seed with Some w => [(mkWord (id_felt (acct_id a)) ZERO ZERO ZERO, word_elements w)] | None => [] end.
Definition account_entries (a : Account) (seed : option Word) : list (Digest * list felt) :=
  mjoin (slot_entries <$> slots (acct_storage a)) ++
  [(storage_commitment (acct_storage a), slots_as_elements (slots (acct_storage a)))] ++
  leaf_entries (asset_tree (acct_vault a)) ++
  [(code_commitment (acct_code a), procedures_as_elements (procedures (acct_code a)))] ++ seed_entries a seed.
Definition account_nodes (a : Account) : list InnerNodeInfo :=
  mjoin (slot_nodes <$> slots (acct_storage a)) ++ smt_inner_nodes (asset_tree (acct_vault a)).

Definition script_root_of (note : Note) : Digest :=
  let s := nr_script (nd_recipient (note_details note)) in default EMPTY_WORD (node_digest (ns_mast s) (ns_entrypoint s)).
Definition proof_data_of (ti : TransactionInputs) (n : InputNote) : list felt * list InnerNodeInfo :=
  match note_proof_data (E:=Empty_set) ti n with Ok p => p | _ => ([], []) end.
Definition inputs_data_of (note : Note) : list felt :=
  match inputs_format_for_advice (E:=Empty_set) false (nr_inputs (nd_recipient (note_details note))) with
  | Ok l => l | _ => [] end.
Definition input_note_entries (n : InputNote) : list (Digest * list felt) :=
  let note := input_note n in
  [(ni_hash (nr_inputs (nd_recipient (note_details note))), inputs_data_of note);
   (na_hash (nd_assets (note_details note)), to_padded_assets (nd_assets (note_details note)))].
Definition input_note_data (ti : TransactionInputs) (ta : TransactionArgs) (n : InputNote) : list felt :=
  let note := input_note n in
  let assets := nd_assets (note_details note) in
  let recipient := nd_recipient (note_details note) in
  mjoin (word_elements <$>
    [nr_serial_num recipient; script_root_of note; ni_hash (nr_inputs recipient); na_hash assets;
     default EMPTY_WORD (get_note_args ta (note_id note)); metadata_to_word (nh_metadata (note_header note))]) ++
  [felt_new (as_u32 (Z.of_nat (length (na_assets assets))))] ++ to_padded_assets assets ++ (proof_data_of ti n).1.
Definition notes_entries (ti : TransactionInputs) (ta : TransactionArgs) : list (Digest * list felt) :=
  match in_notes (ti_input_notes ti) with
  | [] => []
  | notes => mjoin (input_note_entries <$> notes) ++
             [(in_commitment (ti_input_notes ti), mjoin (input_note_data ti ta <$> notes))]
  end.
Definition notes_nodes (ti : TransactionInputs) : list InnerNodeInfo :=
  mjoin ((λ n, (proof_data_of ti n).2) <$> in_notes (ti_input_notes ti)).

Definition tx_entries (ti : TransactionInputs) (ta : TransactionArgs) : list (Digest * list felt) :=
  kernel_entries ++ chain_entries (ti_block_chain ti) ++ account_entries (ti_account ti) (ti_account_seed ti) ++
  notes_entries ti ta.
Definition tx_nodes (ti : TransactionInputs) : list InnerNodeInfo :=
  chain_inner_nodes (ti_block_chain ti) ++ account_nodes (ti_account ti) ++ notes_nodes ti.

(** ** The steps add what they should *)

Lemma adds_eq {E} (m : mut AdviceInputs E unit) st es ns st' es' ns' :
  adds m st es ns → st = st' → es = es' → ns = ns' → adds m st' es' ns'.
Proof. by intros Hm -> -> ->. Qed.

Lemma adds_words_seq {E} l (m : mut AdviceInputs E unit) st es ns :
  adds m st es ns → adds (push_words l ;; m) (l ++ st) es ns.
Proof. intros Hm. exact (adds_seq _ _ _ _ _ _ _ _ (adds_words l) Hm). Qed.
Lemma adds_entries_seq {E} l (m : mut AdviceInputs E unit) st es ns :
  adds m st es ns → adds (add_entries l ;; m) st (l ++ es) ns.
Proof. intros Hm. exact (adds_seq _ _ _ _ _ _ _ _ (adds_entries l) Hm). Qed.
Lemma adds_nodes_seq {E} l (m : mut AdviceInputs E unit) st es ns :
  adds m st es ns → adds (add_nodes l ;; m) st es (l ++ ns).
Proof. intros Hm. exact (adds_seq _ _ _ _ _ _ _ _ (adds_nodes l) Hm). Qed.

Lemma adds_stack {E} ti script script_root :
  match script with Some s => tx_script_hash (E:=E) s | None => Ok EMPTY_WORD end = Ok script_root →
  adds (E:=E) (build_advice_stack ti script 0) (initial_stack ti script_root) [] [].
Proof.
  intros Hs. unfold build_advice_stack. eapply adds_eq.
  - repeat apply adds_words_seq. apply (adds_lift _ _ _ _ _ _ Hs). apply adds_words.
  - reflexivity.
  - reflexivity.
  - reflexivity.
Qed.

Lemma slice_own_word {E} (w : Digest) : slice_word (E:=E) (word_elements w ++ []) 0 = Ok w.
Proof. by destruct w. Qed.

Lemma adds_kernel {E} : adds (E:=E) (add_kernel_hashes_to_advice_inputs 0) [] kernel_entries [].
Proof.
  unfold add_kernel_hashes_to_advice_inputs.
  assert (all_kernel_hashes (E:=E) (seq 0 NUM_VERSIONS) = Ok (word_elements (hash_elements kernel_elements) ++ [])) as Ek
    by reflexivity.
  apply (adds_lift _ _ _ _ _ _ Ek). apply (adds_lift _ _ _ _ _ _ (slice_own_word _)).
  apply (adds_lift _ kernel_elements); [reflexivity|]. rewrite app_nil_r. eapply adds_eq.
  - apply adds_entries_seq. apply (adds_lift _ (hash_elements (word_elements (hash_elements kernel_elements)))); [reflexivity|].
    apply adds_entries.
  - reflexivity.
  - reflexivity.
  - reflexivity.
Qed.

Lemma adds_chain {E} c : adds (E:=E) (add_chain_mmr_to_advice_inputs c) [] (chain_entries c) (chain_inner_nodes c).
Proof.
  unfold add_chain_mmr_to_advice_inputs. eapply adds_eq; [apply adds_nodes_seq, adds_entries|done..|apply app_nil_r].
Qed.

Lemma adds_slot {E} slot : adds (E:=E) (add_slot slot) [] (slot_entries slot) (slot_nodes slot).
Proof.
  destruct slot as [w|m]; [apply adds_ret|]. cbn [add_slot slot_entries slot_nodes].
  eapply adds_eq; [apply adds_nodes_seq, adds_entries|done..|apply app_nil_r].
Qed.

Lemma adds_account {E} a seed :
  adds (E:=E) (add_account_to_advice_inputs a seed) [] (account_entries a seed) (account_nodes a).
Proof.
  unfold add_account_to_advice_inputs, account_entries, account_nodes. cbv zeta.
  apply (adds_seq _ _ [] _ _ []).
  - apply adds_each. intros slot _. apply adds_slot.
  - apply adds_entries_seq. eapply adds_eq.
    + apply adds_nodes_seq, adds_entries_seq, adds_entries_seq.
      instantiate (1 := []). instantiate (1 := seed_entries a seed). instantiate (1 := []).
      destruct seed; [apply adds_entries|apply adds_ret].
    + done.
    + done.
    + apply app_nil_r.
Qed.

(** ** Input notes *)

Lemma note_proof_data_Ok {E} ti n :
  authentic (ti_block_header ti) (ti_block_chain ti) n → note_proof_data (E:=E) ti n = Ok (proof_data_of ti n).
Proof.
  unfold proof_data_of, note_proof_data. destruct n as [note proof|note]; [|done].
  intros (h & Hb & Hp%path_verify_index). destruct Hp as [nodes Hn]. by rewrite Hb, Hn.
Qed.

Lemma inputs_data_Ok {E} note :
  inputs_format_for_advice (E:=E) false (nr_inputs (nd_recipient (note_details note))) = Ok (inputs_data_of note).
Proof. reflexivity. Qed.

Lemma script_root_Ok {E} note : wf_note note →
  script_hash (E:=E) (nr_script (nd_recipient (note_details note))) = Ok (script_root_of note).
Proof. intros [[_ [[_ [root Hr]] _ _]] _ _]. unfold script_hash, script_root_of. by rewrite Hr. Qed.

(** The debug assertion on the number of inputs holds. *)
Definition input_fits (debug : bool) (n : InputNote) : bool :=
  fits_debug debug (nr_inputs (nd_recipient (note_details (input_note n)))).
Definition inputs_fit (debug : bool) (ti : TransactionInputs) : bool :=
  forallb (input_fits debug) (in_notes (ti_input_notes ti)).
Lemma inputs_fit_release ti : inputs_fit false ti = true.
Proof. unfold inputs_fit. by induction (in_notes (ti_input_notes ti)). Qed.

Lemma add_input_note_panics {E} debug ti ta n s :
  input_fits debug n = false → (add_input_note (E:=E) debug ti ta n s).1 = Panic.
Proof.
  intros Hf. unfold add_input_note, mbind, mut_bind, lift. rewrite (inputs_format_debug debug).
  unfold input_fits in Hf. by rewrite Hf.
Qed.

Lemma add_input_note_Ok {E} debug ti ta n a data :
  wf_note (input_note n) → authentic (ti_block_header ti) (ti_block_chain ti) n → input_fits debug n = true →
  ∃ a', add_input_note (E:=E) debug ti ta n (a, data) = (Ok tt, (a', data ++ input_note_data ti ta n)) ∧
    grows a a' [] (input_note_entries n) (proof_data_of ti n).2.
Proof.
  intros Hw Ha Hf. unfold input_fits in Hf. set (note := input_note n) in *.
  assert (adds (E:=E) (add_entries [(ni_hash (nr_inputs (nd_recipient (note_details note))), inputs_data_of note)] ;;
    (add_entries [(na_hash (nd_assets (note_details note)), to_padded_assets (nd_assets (note_details note)))] ;;
     add_nodes (proof_data_of ti n).2)) [] (input_note_entries n) (proof_data_of ti n).2) as Hadds.
  { eapply adds_eq; [apply adds_entries_seq, adds_entries_seq, adds_nodes|reflexivity..]. }
  destruct (Hadds a) as (a' & Hrun & Hg). exists a'. split; [|done].
  unfold add_input_note. fold note. unfold mbind, mut_bind, lift.
  rewrite (inputs_format_debug debug), Hf, inputs_data_Ok. unfold on_field, add_entries.
  rewrite (script_root_Ok note Hw), (note_proof_data_Ok ti n Ha). unfold add_nodes, get_self, put_self. cbn [fst snd].
  unfold mbind, mut_bind, add_entries, add_nodes in Hrun. injection Hrun as ->. reflexivity.
Qed.

Lemma grows_trans a a1 a2 st es ns st' es' ns' :
  grows a a1 st es ns → grows a1 a2 st' es' ns' → grows a a2 (st ++ st') (es ++ es') (ns ++ ns').
Proof.
  intros [S1 M1 N1] [S2 M2 N2]. split.
  - by rewrite S2, S1, app_assoc.
  - intros k. by rewrite M2, M1, collect_map_app, option_union_assoc.
  - intros n. rewrite N2, N1, elem_of_app. tauto.
Qed.

Lemma add_input_notes_panic {E} debug ti ta notes a data :
  Forall (λ n, wf_note (input_note n)) notes → Forall (authentic (ti_block_header ti) (ti_block_chain ti)) notes →
  forallb (input_fits debug) notes = false →
  (for_each notes (add_input_note (E:=E) debug ti ta) (a, data)).1 = Panic.
Proof.
  intros Hw. revert a data. induction Hw as [|n notes Hn _ IH]; intros a data Ha Hf; [done|].
  apply Forall_cons in Ha as [Han Ha]. cbn [forallb] in Hf. cbn [for_each]. unfold mbind, mut_bind.
  destruct (input_fits debug n) eqn:Hfn.
  - destruct (add_input_note_Ok (E:=E) debug ti ta n a data Hn Han Hfn) as (a1 & -> & _). by apply IH.
  - pose proof (add_input_note_panics (E:=E) debug ti ta n (a, data) Hfn) as Hp.
    destruct (add_input_note debug ti ta n (a, data)) as [r s]. cbn in Hp. by subst r.
Qed.

Lemma add_input_notes_Ok {E} debug ti ta notes a data :
  Forall (λ n, wf_note (input_note n)) notes → Forall (authentic (ti_block_header ti) (ti_block_chain ti)) notes →
  forallb (input_fits debug) notes = true →
  ∃ a', for_each notes (add_input_note (E:=E) debug ti ta) (a, data) =
      (Ok tt, (a', data ++ mjoin (input_note_data ti ta <$> notes))) ∧
    grows a a' [] (mjoin (input_note_entries <$> notes)) (mjoin ((λ n, (proof_data_of ti n).2) <$> notes)).
Proof.
  intros Hw. revert a data. induction Hw as [|n notes Hn _ IH]; intros a data Ha Hf.
  { destruct (adds_ret (E:=E) a) as (a' & [= <-] & Hg). exists a. split; [cbn; by rewrite app_nil_r|done]. }
  apply Forall_cons in Ha as [Han Ha]. cbn [forallb] in Hf. apply andb_true_iff in Hf as [Hfn Hf].
  destruct (add_input_note_Ok (E:=E) debug ti ta n a data Hn Han Hfn) as (a1 & E1 & G1).
  destruct (IH a1 (data ++ input_note_data ti ta n) Ha Hf) as (a2 & E2 & G2). exists a2. split.
  - cbn [for_each]. unfold mbind, mut_bind. rewrite E1, E2, <-app_assoc. done.
  - exact (grows_trans _ _ _ _ _ _ _ _ _ G1 G2).
Qed.

Lemma adds_notes {E} debug ti ta :
  Forall (λ n, wf_note (input_note n)) (in_notes (ti_input_notes ti)) →
  Forall (authentic (ti_block_header ti) (ti_block_chain ti)) (in_notes (ti_input_notes ti)) → inputs_fit debug ti = true →
  adds (E:=E) (add_input_notes_to_advice_inputs debug ti ta) [] (notes_entries ti ta) (notes_nodes ti).
Proof.
  unfold add_input_notes_to_advice_inputs, notes_entries, notes_nodes, inputs_fit.
  destruct (in_notes (ti_input_notes ti)) as [|n notes]; intros Hw Ha Hf; [apply adds_ret|]. intros a.
  destruct (add_input_notes_Ok (E:=E) debug ti ta (n :: notes) a [] Hw Ha Hf) as (a' & Er & Hg). rewrite Er.
  destruct (adds_entries (E:=E) [(in_commitment (ti_input_notes ti), mjoin (input_note_data ti ta <$> n :: notes))] a')
    as (a'' & Er' & Hg'). exists a''. split; [exact Er'|].
  rewrite <-(app_nil_r (mjoin ((λ n, (proof_data_of ti n).2) <$> n :: notes))). exact (grows_trans _ _ _ _ _ _ _ _ _ Hg Hg').
Qed.

(** ** Preparing a transaction *)

(** Inputs that [TransactionInputs::new] accepts, with well-formed notes. *)
Definition accepted_inputs (ti : TransactionInputs) : Prop :=
  tx_inputs_new (ti_account ti) (ti_account_seed ti) (ti_block_header ti) (ti_block_chain ti) (ti_input_notes ti) = Ok ti ∧
  Forall (λ n, wf_note (input_note n)) (in_notes (ti_input_notes ti)).

(** The root of the transaction script, if it has a node. *)
Definition args_script_root (ta : TransactionArgs) : option Word :=
  match ta_tx_script ta with Some s => node_digest (ts_mast s) (ts_entrypoint s) | None => Some EMPTY_WORD end.

(** What comes before the input notes. *)
Lemma adds_prefix {E} ti ta script_root :
  args_script_root ta = Some script_root →
  adds (E:=E) (build_advice_stack ti (ta_tx_script ta) 0 ;; (add_kernel_hashes_to_advice_inputs 0 ;;
    (add_chain_mmr_to_advice_inputs (ti_block_chain ti) ;; add_account_to_advice_inputs (ti_account ti) (ti_account_seed ti))))
    (initial_stack ti script_root) (kernel_entries ++ chain_entries (ti_block_chain ti) ++ account_entries (ti_account ti) (ti_account_seed ti))
    (chain_inner_nodes (ti_block_chain ti) ++ account_nodes (ti_account ti)).
Proof.
  intros Hs. eapply adds_eq.
  - apply adds_seq; [|apply adds_seq; [apply adds_kernel|apply adds_seq; [apply adds_chain|apply adds_account]]].
    apply adds_stack. unfold args_script_root in Hs. destruct (ta_tx_script ta) as [sc|]; [|by injection Hs as ->].
    unfold tx_script_hash. by rewrite Hs.
  - by rewrite !app_nil_r.
  - reflexivity.
  - reflexivity.
Qed.

(** The prefix, the notes and the arguments. *)
Lemma extend_advice_inputs_eq {E} debug ti ta script_root a :
  args_script_root ta = Some script_root →
  ∃ a1, grows a a1 (initial_stack ti script_root)
      (kernel_entries ++ chain_entries (ti_block_chain ti) ++ account_entries (ti_account ti) (ti_account_seed ti))
      (chain_inner_nodes (ti_block_chain ti) ++ account_nodes (ti_account ti)) ∧
    extend_advice_inputs (E:=E) debug ti ta a =
      (add_input_notes_to_advice_inputs debug ti ta ;; add_advice (ta_advice_inputs ta)) a1.
Proof.
  intros Hs. destruct (adds_prefix (E:=E) ti ta script_root Hs a) as (a1 & Hrun & Hg). exists a1. split; [done|].
  revert Hrun. unfold extend_advice_inputs, mbind, mut_bind. cbv zeta.
  destruct (build_advice_stack ti (ta_tx_script ta) 0 a) as [[[]|?|] b1]; [|discriminate..].
  destruct (add_kernel_hashes_to_advice_inputs 0 b1) as [[[]|?|] b2]; [|discriminate..].
  destruct (add_chain_mmr_to_advice_inputs (ti_block_chain ti) b2) as [[[]|?|] b3]; [|discriminate..].
  by intros ->.
Qed.

Lemma accepted_authentic ti :
  accepted_inputs ti → Forall (authentic (ti_block_header ti) (ti_block_chain ti)) (in_notes (ti_input_notes ti)).
Proof. intros [Hnew Hw]. by apply tx_inputs_new_Ok in Hnew as [(_ & _ & _ & Ha) _]. Qed.

Lemma prepare_inputs_Ok {E} debug ti ta script_root init :
  accepted_inputs ti → args_script_root ta = Some script_root → inputs_fit debug ti = true →
  ∃ si a1, prepare_inputs (E:=E) debug ti ta init = Ok (si, advice_extend (ta_advice_inputs ta) a1) ∧
    (∀ E', build_input_stack (E:=E') (acct_id (ti_account ti)) (account_init_hash (ti_account ti))
      (in_commitment (ti_input_notes ti)) (bh_hash (ti_block_header ti)) = Ok si) ∧
    grows (default advice_default init) a1 (initial_stack ti script_root) (tx_entries ti ta) (tx_nodes ti).
Proof.
  intros Ht Hs Hf. destruct (build_input_stack_Ok (E:=E) (acct_id (ti_account ti)) (account_init_hash (ti_account ti))
    (in_commitment (ti_input_notes ti)) (bh_hash (ti_block_header ti))) as (si & Hsi & _).
  destruct (extend_advice_inputs_eq (E:=E) debug ti ta script_root (default advice_default init) Hs) as (a0 & Hg0 & Hrun0).
  destruct (adds_notes (E:=E) debug ti ta (proj2 Ht) (accepted_authentic ti Ht) Hf a0) as (a1 & Hrun1 & Hg1).
  exists si, a1. split_and!.
  - unfold prepare_inputs. cbv zeta. rewrite (res_bind_Ok _ _ _ Hsi), Hrun0. unfold mbind, mut_bind. by rewrite Hrun1.
  - intros E'. unfold build_input_stack in *. apply expect_some_inv in Hsi. by rewrite Hsi.
  - pose proof (grows_trans _ _ _ _ _ _ _ _ _ Hg0 Hg1) as Hg. by rewrite app_nil_r, <-!app_assoc in Hg.
Qed.

Lemma prepare_inputs_panics {E} debug ti ta script_root init :
  accepted_inputs ti → args_script_root ta = Some script_root → inputs_fit debug ti = false →
  prepare_inputs (E:=E) debug ti ta init = Panic.
Proof.
  intros Ht Hs Hf. destruct (build_input_stack_Ok (E:=E) (acct_id (ti_account ti)) (account_init_hash (ti_account ti))
    (in_commitment (ti_input_notes ti)) (bh_hash (ti_block_header ti))) as (si & Hsi & _).
  destruct (extend_advice_inputs_eq (E:=E) debug ti ta script_root (default advice_default init) Hs) as (a0 & _ & Hrun0).
  unfold prepare_inputs. cbv zeta. rewrite (res_bind_Ok _ _ _ Hsi), Hrun0. unfold mbind, mut_bind, add_input_notes_to_advice_inputs.
  pose proof (λ a, add_input_notes_panic (E:=E) debug ti ta (in_notes (ti_input_notes ti)) a [] (proj2 Ht) (accepted_authentic ti Ht) Hf) as Hp.
  unfold inputs_fit in Hf. destruct (in_notes (ti_input_notes ti)) as [|n notes]; [done|]. specialize (Hp a0).
  destruct (for_each (n :: notes) (add_input_note debug ti ta) (a0, [])) as [r [a1 data]]. cbn in Hp. by subst r.
Qed.

(** What the advice map of a prepared transaction has under a key: the value of
    the arguments, or else that of the last documented entry for the key, or else
    the initial value. *)
Definition advice_lookup (ti : TransactionInputs) (ta : TransactionArgs) (init : option AdviceInputs) (k : Digest)
    : option (list felt) :=
  mapped_values (ta_advice_inputs ta) k ∪ ((collect_map (tx_entries ti ta) !! k) ∪
    mapped_values (default advice_default init) k).

(** C8. Preparing an accepted transaction gives the kernel what it documents. It
    panics exactly when debug assertions are compiled in and a note has 128
    inputs; otherwise no expectation in the preparation fails (in particular every
    authenticated note finds its block and its path has a valid index). The advice
    stack then gets the block header, the kernel version, the account, the number
    of notes and the script root in this order, followed by the stack of the
    arguments. The advice map has, under every key, the value of the arguments, or
    else that of the last documented entry for the key (the kernel's procedures,
    the chain peaks, the storage, vault and code of the account, its seed, and for
    the notes their inputs, assets and data), or else the initial value; so a
    documented entry is there unless the arguments or another entry have a
    different value under its key. The nodes of all trees and paths are in the
    Merkle store. *)
Theorem prepare_inputs_complete {E} debug ti ta script_root init :
  accepted_inputs ti → args_script_root ta = Some script_root →
  if inputs_fit debug ti then
    ∃ si ai, prepare_inputs (E:=E) debug ti ta init = Ok (si, ai) ∧
      build_input_stack (E:=E) (acct_id (ti_account ti)) (account_init_hash (ti_account ti))
        (in_commitment (ti_input_notes ti)) (bh_hash (ti_block_header ti)) = Ok si ∧
      advice_stack ai = advice_stack (default advice_default init) ++ initial_stack ti script_root ++
        advice_stack (ta_advice_inputs ta) ∧
      (∀ k, mapped_values ai k = advice_lookup ti ta init k) ∧
      (∀ k v, (k, v) ∈ tx_entries ti ta → (∀ v', (k, v') ∈ tx_entries ti ta → v' = v) →
         mapped_values (ta_advice_inputs ta) k = None ∨ mapped_values (ta_advice_inputs ta) k = Some v →
         mapped_values ai k = Some v) ∧
      (∀ n, n ∈ tx_nodes ti → has_node ai n)
  else prepare_inputs (E:=E) debug ti ta init = Panic.
Proof.
  intros Ht Hs. destruct (inputs_fit debug ti) eqn:Hf; [|by eapply prepare_inputs_panics].
  destruct (prepare_inputs_Ok (E:=E) debug ti ta script_root init Ht Hs Hf) as (si & a1 & Hprep & Hsi & [Gs Gm Gn]).
  exists si, (advice_extend (ta_advice_inputs ta) a1).
  assert (∀ k, mapped_values (advice_extend (ta_advice_inputs ta) a1) k = advice_lookup ti ta init k) as Hk
    by (intros k; by rewrite advice_extend_mapped, Gm).
  split_and!; [done|done|by rewrite advice_extend_stack, Gs, <-app_assoc|done|..].
  - intros k v Hin Ha Hargs. rewrite Hk. unfold advice_lookup. rewrite (collect_map_agree _ k v Hin Ha), union_Some_l.
    destruct Hargs as [->| ->]; [by rewrite (left_id_L None (∪))|by rewrite union_Some_l].
  - intros n Hn. apply advice_extend_node. right. apply Gn. by left.
Qed.
End Kernel.

(** ** Concrete stacks and nodes *)

Section Listing.
  Context {F : FeltApi}.

Definition stack16 : Type := dsig (λ l : list felt, length l = 16%nat).
Definition pad16 (l : list felt) : list felt := l ++ replicate (16 - length l) ZERO.
Lemma pad16_length l : (length l <=? 16)%nat = true → length (pad16 l) = 16%nat.
Proof. rewrite Nat.leb_le. intros Hl. unfold pad16. rewrite length_app, length_replicate. lia. Qed.

Definition to_stack16 (l : list felt) : option stack16 :=
  match decide (length (pad16 l) = 16%nat) with
  | left Hl => if (length l <=? 16)%nat then Some (dexist (pad16 l) Hl) else None
  | right _ => None
  end.
Definition stack16_item (s : stack16) (i : nat) : option felt := `s !! i.

Lemma pad16_lookup l i : (length l ≤ 16)%nat → (i < 16)%nat → pad16 l !! i = Some (default ZERO (l !! i)).
Proof.
  intros Hl Hi. unfold pad16. destruct (l !! i) as [x|] eqn:E.
  - by rewrite (lookup_app_l_Some _ _ _ _ E).
  - apply lookup_ge_None in E. rewrite lookup_app_r by lia. apply lookup_replicate_2. lia.
Qed.

Lemma to_stack16_spec l : if (length l <=? 16)%nat
  then ∃ s, to_stack16 l = Some s ∧ ∀ i, (i < 16)%nat → stack16_item s i = Some (default ZERO (l !! i))
  else to_stack16 l = None.
Proof.
  unfold to_stack16. pose proof (pad16_length l) as Hp. destruct (length l <=? 16)%nat eqn:El.
  - destruct (decide _) as [Hl|Hl]; [|by destruct (Hl (Hp eq_refl))]. eexists. split; [done|].
    intros i Hi. apply pad16_lookup; [by apply Nat.leb_le|done].
  - by destruct (decide _).
Qed.

#[refine] Definition ListStack : StackApi := {|
  StackInputs := stack16;
  StackOutputs := stack16;
  stack_inputs_new l := to_stack16 (reverse l);
  stack_outputs_new := to_stack16;
  input_item := stack16_item;
  output_item := stack16_item;
  output_word s i := d ← stack16_item s i; c ← stack16_item s (i + 1); b ← stack16_item s (i + 2);
                     a ← stack16_item s (i + 3); Some (mkWord a b c d)
|}.
Proof.
  - abstract (intros l; pose proof (to_stack16_spec (reverse l)) as Hs; by rewrite length_reverse in Hs).
  - exact to_stack16_spec.
  - abstract (intros [l Hl] i; unfold stack16_item; cbn; rewrite lookup_lt_is_Some; apply bool_decide_unpack in Hl; lia).
  - abstract done.
  - abstract (intros [l Hl] [l' Hl'] Hi; apply dsig_eq; cbn; apply list_eq_same_length with 16%nat;
      [exact (bool_decide_unpack _ Hl')|exact (bool_decide_unpack _ Hl)|];
      intros i x y Hlt Hx Hy; specialize (Hi i Hlt); unfold stack16_item in Hi; cbn in Hi; congruence).
Defined.
End Listing.

Section Grouping.
  Context {F : FeltApi}.

Fixpoint chunk_words (l : list felt) : option (list Word) :=
  match l with
  | [] => Some []
  | a :: b :: c :: d :: l' => ws ← chunk_words l'; Some (mkWord a b c d :: ws)
  | _ => None
  end.

Lemma chunk_words_spec n l : (length l ≤ n)%nat →
  match chunk_words l with Some ws => l = mjoin (word_elements <$> ws) | None => (length l mod 4 ≠ 0)%nat end.
Proof.
  revert l. induction n as [|n IH]; intros [|a [|b [|c [|d l]]]] Hl; try done; try (cbn in Hl; lia).
  cbn [chunk_words]. specialize (IH l ltac:(cbn in Hl; lia)). destruct (chunk_words l) as [ws|]; cbn [mbind option_bind].
  - rewrite IH. done.
  - cbn [length]. replace (S (S (S (S (length l))))) with (length l + 1 * 4)%nat by lia. by rewrite Nat.Div0.mod_add.
Qed.
End Grouping.

(** ** Witnesses *)

#[local] Existing Instance Goldilocks.
#[local] Existing Instance ToyHasher.
#[local] Existing Instance MapTree.
#[local] Existing Instance CodeOrd.
#[local] Existing Instance PlainIO.
#[local] Existing Instance RootsAsm.
#[local] Existing Instance RootsIO.
#[local] Existing Instance RootsProgram.
#[local] Existing Instance PlainNoteIO.
#[local] Existing Instance ListPath.
#[local] Existing Instance ListMmr.
#[local] Existing Instance ListAdvice.
#[local] Existing Instance ListStack.

#[refine] Definition PlainNodes : NodesApi := {|
  mmr_inner_nodes m _ := m.*1;
  smt_inner_nodes t := [smt_root t];
  SmtLeaf := Digest * Word;
  smt_leaves := smt_entries;
  leaf_hash p := hash_elements (word_elements p.1 ++ word_elements p.2);
  leaf_to_elements p := word_elements p.1 ++ word_elements p.2;
  group_words := chunk_words
|}.
Proof. abstract (intros l; by apply (chunk_words_spec (length l))). Defined.
#[local] Existing Instance PlainNodes.

Lemma output_stack_roundtrip_witness :
  ∃ s, build_output_stack (E:=Empty_set) (sample_word 1) (sample_word 2) 99 = Ok s ∧
    parse_output_stack s = Ok (sample_word 1, sample_word 2, 99).
Proof. exact (proj1 (output_stack_roundtrip (E:=Empty_set) (sample_word 1) (sample_word 2) 99 ltac:(lia))). Defined.

Lemma sample_inputs_accepted : accepted_inputs sample_tx_inputs.
Proof.
  split; [exact (wti_new _ sample_tx_inputs_wf)|]. constructor; [exact sample_note_wf|constructor].
Qed.

Lemma prepare_inputs_complete_witness :
  ∃ si ai, prepare_inputs (E:=Empty_set) true sample_tx_inputs sample_args None = Ok (si, ai) ∧
    advice_stack ai = initial_stack sample_tx_inputs EMPTY_WORD.
Proof.
  destruct (prepare_inputs_complete (E:=Empty_set) true sample_tx_inputs sample_args EMPTY_WORD None sample_inputs_accepted eq_refl)
    as (si & ai & Hp & _ & Hs & _).
  exists si, ai. split; [exact Hp|]. rewrite Hs. change (advice_stack (ta_advice_inputs sample_args)) with (@nil felt).
  by rewrite app_nil_r.
Defined.
