(* ===== verification/Blocks.v ===== *)
(** * Blocks and batches

    Models objects/src/block/mod.rs, block/note_tree.rs and
    batches/note_tree.rs: blocks with their account updates, the notes they
    create in batches, and the trees that commit to those notes. *)

From S2P Require Import Prelude Felt Crypto Serde Types AccountId Assets VaultDelta Vault StorageDelta Storage.
From S2P Require Import Code Account NoteMeta NoteContents Notes TxOutputs Merkle Chain TxInputs.
Open Scope Z_scope.

Definition BATCH_NOTE_TREE_DEPTH : Z := 10.
Definition BLOCK_NOTE_TREE_DEPTH : Z := 16.
Definition MAX_ACCOUNTS_PER_BATCH : Z := 1024.
Definition MAX_OUTPUT_NOTES_PER_BLOCK : Z := MAX_OUTPUT_NOTES_PER_BATCH * MAX_BATCHES_PER_BLOCK.
Definition MAX_INPUT_NOTES_PER_BLOCK : Z := MAX_OUTPUT_NOTES_PER_BLOCK.
Definition MAX_ACCOUNTS_PER_BLOCK : Z := MAX_ACCOUNTS_PER_BATCH * MAX_BATCHES_PER_BLOCK.

Inductive BlockError {F : FeltApi} : Type :=
  | DuplicateNoteFound (id : Digest)
  | TooManyAccountUpdates (n : Z)
  | TooManyNotesInBatch (n : Z)
  | TooManyNotesInBlock (n : Z)
  | TooManyNullifiersInBlock (n : Z)
  | TooManyTransactionBatches (n : Z).

(** ** Indices of notes *)

Record BlockNoteIndex : Type := mkNoteIndex { batch_idx : Z; note_idx_in_batch : Z }.

Definition note_index_new {F : FeltApi} (batch_idx note_idx_in_batch : Z) : res BlockError BlockNoteIndex :=
  if note_idx_in_batch >=? MAX_OUTPUT_NOTES_PER_BATCH then Err (TooManyNotesInBatch note_idx_in_batch)
  else if batch_idx >=? MAX_BATCHES_PER_BLOCK then Err (TooManyTransactionBatches batch_idx)
  else Ok (mkNoteIndex batch_idx note_idx_in_batch).

(** [LeafIndex::new] refuses values that the depth does not allow; the result
    is unwrapped. *)
Definition leaf_index {E} (i : BlockNoteIndex) : res E Z :=
  let v := batch_idx i * MAX_OUTPUT_NOTES_PER_BATCH + note_idx_in_batch i in
  if v <? 2 ^ BLOCK_NOTE_TREE_DEPTH then Ok v else Panic.
Definition leaf_index_value {E} (i : BlockNoteIndex) : res E Z :=
  v ← leaf_index i;
  if v <=? U16_MAX then Ok v else Panic.

Definition valid_index (i : BlockNoteIndex) : Prop :=
  0 ≤ batch_idx i < MAX_BATCHES_PER_BLOCK ∧ 0 ≤ note_idx_in_batch i < MAX_OUTPUT_NOTES_PER_BATCH.
Definition leaf_of (i : BlockNoteIndex) : Z := batch_idx i * MAX_OUTPUT_NOTES_PER_BATCH + note_idx_in_batch i.

Lemma leaf_of_range i : valid_index i → 0 ≤ leaf_of i < 2 ^ 16.
Proof. unfold valid_index, leaf_of, MAX_BATCHES_PER_BLOCK, MAX_OUTPUT_NOTES_PER_BATCH. cbn. lia. Qed.

Lemma leaf_of_inj i j : valid_index i → valid_index j → leaf_of i = leaf_of j → i = j.
Proof.
  destruct i as [b n], j as [b' n']. unfold valid_index, leaf_of, MAX_OUTPUT_NOTES_PER_BATCH. cbn.
  intros [_ Hn] [_ Hn'] E. f_equal; lia.
Qed.

Lemma leaf_index_Ok {E} i : valid_index i → leaf_index (E:=E) i = Ok (leaf_of i) ∧ leaf_index_value (E:=E) i = Ok (leaf_of i).
Proof.
  intros Hi%leaf_of_range. unfold leaf_index_value, leaf_index. fold (leaf_of i).
  assert ((leaf_of i <? 2 ^ BLOCK_NOTE_TREE_DEPTH) = true) as -> by (apply Z.ltb_lt; unfold BLOCK_NOTE_TREE_DEPTH; lia).
  split; [done|]. cbn [mbind res_bind]. by rewrite (proj2 (Z.leb_le _ _)) by (unfold U16_MAX; lia).
Qed.

Section Blocks.
  Context {F : FeltApi} {H : HasherApi} {S : SmtApi} {D : DigestOrd} {A : AsmApi} {P : ProgramApi}.
  Context {B : ByteIO} {N : NoteIO} {T : PathApi} {Q : SimpleSmtApi} {R : MmrApi}.

(** ** Note trees *)

Definition BlockNoteTree : Type := SimpleSmt BLOCK_NOTE_TREE_DEPTH.

(** The leaves of the entries; computing an index can panic. *)
Fixpoint entry_leaves {E} (entries : list (BlockNoteIndex * Digest * NoteMetadata)) : res E (list (Z * Word)) :=
  match entries with
  | [] => Ok []
  | (index, note_id, metadata) :: entries' =>
      i ← leaf_index_value index;
      leaves ← entry_leaves entries';
      Ok ((i, compute_note_hash note_id metadata) :: leaves)
  end.
Definition note_tree_with_entries (entries : list (BlockNoteIndex * Digest * NoteMetadata))
    : res MerkleError BlockNoteTree :=
  leaves ← entry_leaves entries;
  ssmt_with_leaves BLOCK_NOTE_TREE_DEPTH leaves.
Definition note_tree_root (t : BlockNoteTree) : Digest := ssmt_root t.
Definition get_note_path {E} (t : BlockNoteTree) (index : BlockNoteIndex) : res E MerklePath :=
  i ← leaf_index index; Ok (ssmt_open_path t i).
Definition note_tree_default : BlockNoteTree := ssmt_new BLOCK_NOTE_TREE_DEPTH.

Definition write_leaf_pair (p : Z * Word) : bytes := write_pair write_u64 write_word p.
Definition note_tree_write (t : BlockNoteTree) : bytes :=
  write_u32 (as_u32 (Z.of_nat (length (ssmt_leaves t)))) ++ write_many write_leaf_pair (ssmt_leaves t).
Definition note_tree_read : reader BlockNoteTree :=
  count ← read_u32;
  leaves ← read_many (read_pair read_u64 read_word) (Z.to_nat count);
  reader_lift (ssmt_with_leaves BLOCK_NOTE_TREE_DEPTH leaves).

(** [BatchNoteTree::with_contiguous_leaves] *)
Definition batch_tree_with_contiguous_leaves (entries : list (Digest * NoteMetadata))
    : res MerkleError (SimpleSmt BATCH_NOTE_TREE_DEPTH) :=
  ssmt_with_contiguous_leaves BATCH_NOTE_TREE_DEPTH ((λ e, compute_note_hash e.1 e.2) <$> entries).

(** ** Blocks *)

Record BlockAccountUpdate : Type := mkAccountUpdate {
  au_account_id : AccountId;
  au_new_state_hash : Digest;
  au_details : AccountUpdateDetails;
  au_transactions : list Digest
}.

#[local] Notation NoteBatch := (list OutputNote).

Record Block : Type := mkBlock {
  blk_header : BlockHeader;
  blk_updated_accounts : list BlockAccountUpdate;
  blk_output_note_batches : list NoteBatch;
  blk_nullifiers : list Digest
}.

(** The loop of [Block::validate] over the batches. *)
Fixpoint check_batches (batches : list NoteBatch) (output_notes : gset Digest) (output_note_count : Z)
    : res BlockError Z :=
  match batches with
  | [] => Ok output_note_count
  | batch :: batches' =>
      let n := Z.of_nat (length batch) in
      if n >? MAX_OUTPUT_NOTES_PER_BATCH then Err (TooManyNotesInBatch n)
      else match first_duplicate output_notes (output_id <$> batch) with
           | Some id => Err (DuplicateNoteFound id)
           | None => check_batches batches' (list_to_set (output_id <$> batch) ∪ output_notes) (output_note_count + n)
           end
  end.
Definition block_validate (b : Block) : res BlockError unit :=
  let account_count := Z.of_nat (length (blk_updated_accounts b)) in
  let batch_count := Z.of_nat (length (blk_output_note_batches b)) in
  let nullifier_count := Z.of_nat (length (blk_nullifiers b)) in
  if account_count >? MAX_ACCOUNTS_PER_BLOCK then Err (TooManyAccountUpdates account_count)
  else if batch_count >? MAX_BATCHES_PER_BLOCK then Err (TooManyTransactionBatches batch_count)
  else if nullifier_count >? MAX_INPUT_NOTES_PER_BLOCK then Err (TooManyNullifiersInBlock nullifier_count)
  else
    output_note_count ← check_batches (blk_output_note_batches b) ∅ 0;
    if output_note_count >? MAX_OUTPUT_NOTES_PER_BLOCK then Err (TooManyNotesInBlock output_note_count)
    else Ok tt.
Definition block_new (header : BlockHeader) (updated_accounts : list BlockAccountUpdate)
    (output_note_batches : list NoteBatch) (nullifiers : list Digest) : res BlockError Block :=
  let block := mkBlock header updated_accounts output_note_batches nullifiers in
  block_validate block ;; Ok block.

(** [Block::hash] *)
Definition block_hash (b : Block) : Digest := bh_hash (blk_header b).

(** [Block::notes]: the batches and their notes, with their indices. *)
Fixpoint batch_notes {E} (batch note : Z) (notes : NoteBatch) : res E (list (BlockNoteIndex * OutputNote)) :=
  match notes with
  | [] => Ok []
  | n :: notes' =>
      index ← expect_ok (note_index_new batch note);
      rest ← batch_notes batch (note + 1) notes';
      Ok ((index, n) :: rest)
  end.
Fixpoint notes_from {E} (batch : Z) (batches : list NoteBatch) : res E (list (BlockNoteIndex * OutputNote)) :=
  match batches with
  | [] => Ok []
  | notes :: batches' =>
      l ← batch_notes batch 0 notes;
      rest ← notes_from (batch + 1) batches';
      Ok (l ++ rest)
  end.
Definition block_notes {E} (b : Block) : res E (list (BlockNoteIndex * OutputNote)) :=
  notes_from 0 (blk_output_note_batches b).

(** [Block::build_note_tree] *)
Definition build_note_tree {E} (b : Block) : res E BlockNoteTree :=
  notes ← block_notes b;
  expect_ok (note_tree_with_entries ((λ x, (x.1, output_id x.2, output_metadata x.2)) <$> notes)).

(** [Block::transactions] and [compute_tx_hash] *)
Definition block_transactions (b : Block) : list (Digest * AccountId) :=
  mjoin ((λ u, (λ t, (t, au_account_id u)) <$> au_transactions u) <$> blk_updated_accounts b).
Fixpoint tx_elements (l : list (Digest * AccountId)) : list felt :=
  match l with
  | [] => []
  | (transaction_id, account_id) :: l' =>
      [id_felt account_id; ZERO; ZERO; ZERO] ++ word_elements transaction_id ++ tx_elements l'
  end.
Definition compute_tx_hash (updated_accounts : list (Digest * AccountId)) : Digest :=
  hash_elements (tx_elements updated_accounts).

(** ** Validation *)

Definition total_notes (batches : list NoteBatch) : Z := Z.of_nat (length (mjoin batches)).

Lemma check_batches_Ok batches seen count n :
  check_batches batches seen count = Ok n ↔
  Forall (λ batch, Z.of_nat (length batch) ≤ MAX_OUTPUT_NOTES_PER_BATCH) batches ∧
  NoDup (output_id <$> mjoin batches) ∧ (∀ id, id ∈ output_id <$> mjoin batches → id ∉ seen) ∧
  n = count + total_notes batches.
Proof.
  revert seen count. induction batches as [|batch batches IH]; intros seen count; unfold total_notes; cbn [check_batches].
  { split; [intros [= <-]|intros (_ & _ & _ & ->)]; [|f_equal; cbn; lia].
    split; [done|]. split; [constructor|]. split; [intros id Hid; by apply elem_of_nil in Hid|cbn; lia]. }
  change (mjoin (batch :: batches)) with (batch ++ mjoin batches).
  destruct (Z.gtb_spec (Z.of_nat (length batch)) MAX_OUTPUT_NOTES_PER_BATCH).
  { split; [discriminate|]. intros (Hb & _). apply Forall_cons in Hb as [? _]. lia. }
  destruct (first_duplicate seen (output_id <$> batch)) as [id|] eqn:E.
  { split; [discriminate|]. rewrite fmap_app. intros (_ & ND & Hs & _). apply NoDup_app in ND as (ND & _).
    assert (first_duplicate seen (output_id <$> batch) = None) by
      (apply first_duplicate_None_seen; split; [done|]; intros k Hk; apply Hs; set_solver). congruence. }
  apply first_duplicate_None_seen in E as [ND Hs]. rewrite IH, Forall_cons, fmap_app, NoDup_app. unfold total_notes.
  rewrite length_app. split.
  - intros (Hb & ND' & Hs' & ->). split; [by split; [lia|]|]. split; [|split; [set_solver|lia]]. set_solver.
  - intros ([_ Hb] & (_ & Hd & ND') & Hs' & ->). split; [done|]. split; [done|]. split; [set_solver|lia].
Qed.

Lemma check_batches_total batches seen count : check_batches batches seen count ≠ Panic.
Proof.
  revert seen count. induction batches as [|batch batches IH]; intros seen count; cbn; [done|].
  destruct (_ >? _); [done|]. by destruct (first_duplicate _ _).
Qed.

Lemma total_notes_bound batches :
  Forall (λ batch, Z.of_nat (length batch) ≤ MAX_OUTPUT_NOTES_PER_BATCH) batches →
  total_notes batches ≤ MAX_OUTPUT_NOTES_PER_BATCH * Z.of_nat (length batches).
Proof.
  unfold total_notes. induction 1 as [|batch batches Hb _ IH]; cbn [length]; [cbn; lia|].
  change (mjoin (batch :: batches)) with (batch ++ mjoin batches). rewrite length_app. lia.
Qed.

Lemma check_batches_error batches seen count n : check_batches batches seen count ≠ Err (TooManyNotesInBlock n).
Proof.
  revert seen count. induction batches as [|batch batches IH]; intros seen count; cbn; [done|].
  destruct (_ >? _); [done|]. by destruct (first_duplicate _ _).
Qed.

Lemma count_in_bounds batches :
  Z.of_nat (length batches) ≤ MAX_BATCHES_PER_BLOCK →
  Forall (λ batch, Z.of_nat (length batch) ≤ MAX_OUTPUT_NOTES_PER_BATCH) batches →
  (0 + total_notes batches >? MAX_OUTPUT_NOTES_PER_BLOCK) = false.
Proof.
  intros Hn Hb%total_notes_bound. rewrite Z.gtb_ltb. apply Z.ltb_ge.
  change MAX_OUTPUT_NOTES_PER_BLOCK with 65536 in *. change MAX_OUTPUT_NOTES_PER_BATCH with 1024 in *.
  change MAX_BATCHES_PER_BLOCK with 64 in *. lia.
Qed.

(** What [Block::validate] asks for. *)
Definition valid_block (b : Block) : Prop :=
  Z.of_nat (length (blk_updated_accounts b)) ≤ MAX_ACCOUNTS_PER_BLOCK ∧
  Z.of_nat (length (blk_output_note_batches b)) ≤ MAX_BATCHES_PER_BLOCK ∧
  Z.of_nat (length (blk_nullifiers b)) ≤ MAX_INPUT_NOTES_PER_BLOCK ∧
  Forall (λ batch, Z.of_nat (length batch) ≤ MAX_OUTPUT_NOTES_PER_BATCH) (blk_output_note_batches b) ∧
  NoDup (output_id <$> mjoin (blk_output_note_batches b)).

Lemma block_validate_Ok b : block_validate b = Ok tt ↔ valid_block b.
Proof.
  unfold block_validate, valid_block.
  destruct (Z.gtb_spec (Z.of_nat (length (blk_updated_accounts b))) MAX_ACCOUNTS_PER_BLOCK);
    [split; [discriminate|lia]|].
  destruct (Z.gtb_spec (Z.of_nat (length (blk_output_note_batches b))) MAX_BATCHES_PER_BLOCK);
    [split; [discriminate|lia]|].
  destruct (Z.gtb_spec (Z.of_nat (length (blk_nullifiers b))) MAX_INPUT_NOTES_PER_BLOCK);
    [split; [discriminate|lia]|].
  pose proof (check_batches_Ok (blk_output_note_batches b) ∅ 0) as Hc.
  destruct (check_batches _ _ _) as [n|e|]; cbn [mbind res_bind].
  - destruct (proj1 (Hc n) eq_refl) as (Hb & ND & _ & ->). 
    rewrite count_in_bounds by done. tauto.
  - split; [discriminate|]. intros (_ & _ & _ & Hb & ND).
    assert (Err e = Ok (0 + total_notes (blk_output_note_batches b))) as Hd; [|discriminate].
    apply Hc. split_and!; [done..|set_solver|done].
  - split; [discriminate|]. intros (_ & _ & _ & Hb & ND).
    assert (Panic (E:=BlockError) = Ok (0 + total_notes (blk_output_note_batches b))) as Hd; [|discriminate].
    apply Hc. split_and!; [done..|set_solver|done].
Qed.

Lemma block_new_Ok h us bs ns b :
  block_new h us bs ns = Ok b ↔ valid_block b ∧ b = mkBlock h us bs ns.
Proof.
  unfold block_new. rewrite <-block_validate_Ok.
  destruct (block_validate (mkBlock h us bs ns)) as [[]|e|] eqn:E; cbn [mbind res_bind]; split.
  - intros [= <-]. by split.
  - by intros [_ ->].
  - discriminate.
  - intros [? ->]. congruence.
  - discriminate.
  - intros [? ->]. congruence.
Qed.

(** ** Notes and their indices *)

(** The notes of a batch and of all batches, with the indices they should have. *)
Definition indexed_batch (batch note : Z) (notes : NoteBatch) : list (BlockNoteIndex * OutputNote) :=
  imap (λ i n, (mkNoteIndex batch (note + Z.of_nat i), n)) notes.
Definition indexed_notes (batch : Z) (batches : list NoteBatch) : list (BlockNoteIndex * OutputNote) :=
  mjoin (imap (λ i notes, indexed_batch (batch + Z.of_nat i) 0 notes) batches).

Lemma indexed_batch_cons batch note n notes :
  indexed_batch batch note (n :: notes) = (mkNoteIndex batch note, n) :: indexed_batch batch (note + 1) notes.
Proof.
  unfold indexed_batch. rewrite imap_cons. f_equal; [by rewrite Z.add_0_r|].
  apply imap_ext. intros i x _. cbn. by replace (note + Z.of_nat (Datatypes.S i)) with (note + 1 + Z.of_nat i) by lia.
Qed.

Lemma indexed_notes_cons batch notes batches :
  indexed_notes batch (notes :: batches) = indexed_batch batch 0 notes ++ indexed_notes (batch + 1) batches.
Proof.
  unfold indexed_notes. rewrite imap_cons. cbn [mjoin list_join]. f_equal; [by rewrite Z.add_0_r|]. f_equal.
  apply imap_ext. intros i x _. cbn. by replace (batch + Z.of_nat (Datatypes.S i)) with (batch + 1 + Z.of_nat i) by lia.
Qed.

Lemma batch_notes_Ok {E} batch note notes :
  batch < MAX_BATCHES_PER_BLOCK → note + Z.of_nat (length notes) ≤ MAX_OUTPUT_NOTES_PER_BATCH →
  batch_notes (E:=E) batch note notes = Ok (indexed_batch batch note notes).
Proof.
  intros Hb. revert note. induction notes as [|n notes IH]; intros note Hn; [done|]. cbn [length] in Hn.
  cbn [batch_notes]. unfold note_index_new. rewrite !Z.geb_leb, !(proj2 (Z.leb_gt _ _)) by lia.
  cbn [expect_ok mbind res_bind]. rewrite IH by lia. by rewrite indexed_batch_cons.
Qed.

Lemma notes_from_Ok {E} batch batches :
  batch + Z.of_nat (length batches) ≤ MAX_BATCHES_PER_BLOCK →
  Forall (λ notes, Z.of_nat (length notes) ≤ MAX_OUTPUT_NOTES_PER_BATCH) batches →
  notes_from (E:=E) batch batches = Ok (indexed_notes batch batches).
Proof.
  intros Hb Hl. revert batch Hb. induction Hl as [|notes batches Hn _ IH]; intros batch Hb; [done|].
  cbn [length] in Hb. cbn [notes_from]. rewrite batch_notes_Ok by lia. cbn [mbind res_bind].
  rewrite IH by lia. by rewrite indexed_notes_cons.
Qed.

Lemma indexed_batch_snd batch note notes : (indexed_batch batch note notes).*2 = notes.
Proof.
  revert note. induction notes as [|n notes IH]; intros note; [done|].
  rewrite indexed_batch_cons, fmap_cons, IH. done.
Qed.

Lemma indexed_notes_snd batch batches : (indexed_notes batch batches).*2 = mjoin batches.
Proof.
  revert batch. induction batches as [|notes batches IH]; intros batch; [done|].
  rewrite indexed_notes_cons, fmap_app, indexed_batch_snd, IH. done.
Qed.

Lemma elem_of_indexed_batch batch note notes p :
  p ∈ indexed_batch batch note notes →
  batch_idx p.1 = batch ∧ note ≤ note_idx_in_batch p.1 < note + Z.of_nat (length notes).
Proof.
  revert note. induction notes as [|n notes IH]; intros note; [by intros ?%elem_of_nil|].
  rewrite indexed_batch_cons. cbn [length]. intros [->|[? ?]%IH]%elem_of_cons; cbn; lia.
Qed.

Lemma elem_of_indexed_notes batch batches p :
  Forall (λ notes, Z.of_nat (length notes) ≤ MAX_OUTPUT_NOTES_PER_BATCH) batches →
  p ∈ indexed_notes batch batches →
  batch ≤ batch_idx p.1 < batch + Z.of_nat (length batches) ∧
  0 ≤ note_idx_in_batch p.1 < MAX_OUTPUT_NOTES_PER_BATCH.
Proof.
  intros Hl. revert batch. induction Hl as [|notes batches Hn _ IH]; intros batch; [by intros ?%elem_of_nil|].
  rewrite indexed_notes_cons. cbn [length]. intros [[? ?]%elem_of_indexed_batch|[? ?]%IH]%elem_of_app; lia.
Qed.

Lemma indexed_batch_NoDup batch note notes : NoDup (indexed_batch batch note notes).*1.
Proof.
  revert note. induction notes as [|n notes IH]; intros note; [constructor|].
  rewrite indexed_batch_cons. cbn. constructor; [|apply IH].
  intros (p & E & [_ ?]%elem_of_indexed_batch)%list_elem_of_fmap. rewrite <-E in *. cbn in *. lia.
Qed.

Lemma indexed_notes_NoDup batch batches :
  Forall (λ notes, Z.of_nat (length notes) ≤ MAX_OUTPUT_NOTES_PER_BATCH) batches →
  NoDup (indexed_notes batch batches).*1.
Proof.
  intros Hl. revert batch. induction Hl as [|notes batches Hn Hl IH]; intros batch; [constructor|].
  rewrite indexed_notes_cons, fmap_app. apply NoDup_app. split; [apply indexed_batch_NoDup|]. split; [|apply IH].
  intros i (p & -> & [Hp _]%elem_of_indexed_batch)%list_elem_of_fmap
    (q & E & [Hq _]%(elem_of_indexed_notes _ _ _ Hl))%list_elem_of_fmap. rewrite E in Hp. lia.
Qed.

Lemma valid_block_indices b :
  valid_block b → Forall (λ p, valid_index p.1) (indexed_notes 0 (blk_output_note_batches b)).
Proof.
  intros (_ & Hb & _ & Hl & _). apply Forall_forall. intros p Hp%(elem_of_indexed_notes _ _ _ Hl).
  unfold valid_index in *. lia.
Qed.

Lemma block_notes_Ok {E} b :
  valid_block b → block_notes (E:=E) b = Ok (indexed_notes 0 (blk_output_note_batches b)).
Proof. intros (_ & Hb & _ & Hl & _). apply notes_from_Ok; [lia|done]. Qed.

(** ** The note tree of a block *)

Definition note_leaf (p : BlockNoteIndex * OutputNote) : Z * Word := (leaf_of p.1, output_hash p.2).

Lemma entry_leaves_Ok {E} (notes : list (BlockNoteIndex * OutputNote)) :
  Forall (λ p, valid_index p.1) notes →
  entry_leaves (E:=E) ((λ x, (x.1, output_id x.2, output_metadata x.2)) <$> notes) = Ok (note_leaf <$> notes).
Proof.
  induction 1 as [|[i n] notes Hi _ IH]; [done|]. rewrite fmap_cons. cbn [entry_leaves fst snd].
  rewrite (proj2 (leaf_index_Ok _ Hi)). cbn [mbind res_bind]. by rewrite IH.
Qed.

Lemma leaves_NoDup (notes : list (BlockNoteIndex * OutputNote)) :
  Forall (λ p, valid_index p.1) notes → NoDup notes.*1 → NoDup (note_leaf <$> notes).*1.
Proof.
  intros Hl ND. rewrite <-list_fmap_compose. change (fst ∘ note_leaf) with (leaf_of ∘ (fst : BlockNoteIndex * OutputNote → _)).
  rewrite list_fmap_compose. apply (NoDup_fmap_2_strong leaf_of); [|done].
  intros i j (p & -> & Hp)%list_elem_of_fmap (q & -> & Hq)%list_elem_of_fmap.
  apply leaf_of_inj; by eapply (Forall_forall (λ p, valid_index p.1)).
Qed.

Lemma build_note_tree_Ok {E} b :
  valid_block b →
  ∃ t, build_note_tree (E:=E) b = Ok t ∧
    (∀ p, p ∈ indexed_notes 0 (blk_output_note_batches b) → ssmt_get_leaf t (leaf_of p.1) = output_hash p.2) ∧
    (∀ i, (∀ p, p ∈ indexed_notes 0 (blk_output_note_batches b) → leaf_of p.1 ≠ i) → ssmt_get_leaf t i = EMPTY_WORD).
Proof.
  intros Hb. pose proof (valid_block_indices b Hb) as Hv. unfold build_note_tree.
  rewrite block_notes_Ok by done. cbn [mbind res_bind]. unfold note_tree_with_entries.
  rewrite entry_leaves_Ok by done. cbn [mbind res_bind].
  destruct (ssmt_with_leaves_ok BLOCK_NOTE_TREE_DEPTH (note_leaf <$> indexed_notes 0 (blk_output_note_batches b)))
    as (t & -> & Hget & Hempty).
  - apply leaves_NoDup; [done|]. apply indexed_notes_NoDup. apply Hb.
  - apply Forall_fmap. eapply Forall_impl; [exact Hv|]. intros p Hp. apply leaf_of_range, Hp.
  - exists t. split; [done|]. split.
    + intros p Hp. apply Hget. by apply (list_elem_of_fmap_2 note_leaf).
    + intros i Hi. apply Hempty. rewrite <-list_fmap_compose. intros (p & -> & Hp)%list_elem_of_fmap. by apply (Hi p).
Qed.

Lemma inclusion_proof_leaf num i path :
  valid_index i →
  inclusion_proof_new num (leaf_of i) path = Ok (mkProof (mkLocation num (leaf_of i)) path).
Proof.
  intros Hi%leaf_of_range. unfold inclusion_proof_new. destruct (Z.gtb_spec (leaf_of i) HIGHEST_INDEX) as [Hgt|]; [|done].
  change HIGHEST_INDEX with 65535 in Hgt. lia.
Qed.

(** ** Transactions *)

Lemma tx_elements_inj l l' : tx_elements l = tx_elements l' → l = l'.
Proof.
  revert l'. induction l as [|[t [a]] l IH]; intros [|[t' [a']] l'] E; [done|discriminate..|].
  cbn [tx_elements id_felt] in E. apply app_inj_1 in E as [[= E1] E]; [|done].
  apply app_inj_1 in E as [->%word_elements_inj E]; [|done]. by rewrite E1, (IH _ E).
Qed.

(** ** Serialization *)

Section Ser.
  Context {SI : SmtIO} {M : MastIO}.

(** [Vec::write_into]: the length and the elements. *)
Definition write_vec {E X} (w : X → res E bytes) (l : list X) : res E bytes :=
  b ← write_all w l; Ok (write_usize (Z.of_nat (length l)) ++ b).
Definition read_vec {X} (r : reader X) : reader (list X) :=
  n ← read_usize; read_many r (Z.to_nat n).

Definition account_update_write {E} (u : BlockAccountUpdate) : res E bytes :=
  txs ← write_vec (λ d, Ok (write_digest d)) (au_transactions u);
  Ok (write_into (au_account_id u) ++ write_digest (au_new_state_hash u) ++ write_into (au_details u) ++ txs).
Definition account_update_read : reader BlockAccountUpdate :=
  account_id ← read_from (A:=AccountId);
  new_state_hash ← read_digest;
  details ← read_from (A:=AccountUpdateDetails);
  transactions ← read_vec read_digest;
  mret (mkAccountUpdate account_id new_state_hash details transactions).

Definition block_write {E} (b : Block) : res E bytes :=
  accounts ← write_vec account_update_write (blk_updated_accounts b);
  batches ← write_vec (write_vec output_write) (blk_output_note_batches b);
  nullifiers ← write_vec (λ d, Ok (write_digest d)) (blk_nullifiers b);
  Ok (block_header_write (blk_header b) ++ accounts ++ batches ++ nullifiers).
Definition block_read : reader Block :=
  header ← block_header_read;
  updated_accounts ← read_vec account_update_read;
  output_note_batches ← read_vec (read_vec output_read);
  nullifiers ← read_vec read_digest;
  let block := mkBlock header updated_accounts output_note_batches nullifiers in
  reader_lift (block_validate block) ;;
  mret block.
(** ** Laws of the formats *)

Lemma write_vec_reads_back {X} (good : X → Prop) w (r : reader X) l :
  (∀ x, good x → reads_back (w x) r x) → Forall good l → fits_usize (length l) →
  ∃ bs, write_vec (E:=Empty_set) w l = Ok bs ∧ ∀ rest, read_vec r (bs ++ rest) = Ok (l, rest).
Proof.
  intros Hw Hl Hn. destruct (write_all_reads_back good w r l Hw Hl) as (b & Eb & Hr). unfold write_vec, read_vec.
  rewrite Eb. eexists. split; [done|]. intros rest.
  rewrite <-app_assoc, read_usize_bind by (unfold fits_usize in Hn; lia). by rewrite Nat2Z.id, Hr.
Qed.

Lemma digest_reads_back (d : Digest) : True → reads_back (Ok (write_digest d)) read_digest d.
Proof. intros _. eexists. split; [done|]. intros rest. by apply digest_decodes. Qed.

Definition wf_account_update (u : BlockAccountUpdate) : Prop :=
  valid_id (au_account_id u) ∧ wf_update (au_details u) ∧ fits_usize (length (au_transactions u)).
Definition account_update_equiv (u u' : BlockAccountUpdate) : Prop :=
  au_account_id u = au_account_id u' ∧ au_new_state_hash u = au_new_state_hash u' ∧
  update_equiv (au_details u) (au_details u') ∧ au_transactions u = au_transactions u'.

Lemma account_update_reads_back u :
  wf_account_update u →
  ∃ bs, account_update_write (E:=Empty_set) u = Ok bs ∧
    ∀ rest, ∃ u', account_update_read (bs ++ rest) = Ok (u', rest) ∧ account_update_equiv u' u.
Proof.
  intros (Hid & Hd & Ht).
  destruct (write_vec_reads_back _ _ _ (au_transactions u) digest_reads_back) as (bt & Et & Hr);
    [by apply Forall_true|done|].
  unfold account_update_write. rewrite Et. eexists. split; [done|]. intros rest.
  destruct (update_reads_back (au_details u) (bt ++ rest) Hd) as [(d' & Hrd & He & _) _].
  exists (mkAccountUpdate (au_account_id u) (au_new_state_hash u) d' (au_transactions u)).
  split; [|by split_and!]. unfold account_update_read.
  rewrite <-!app_assoc, (serde_bind valid_id), (decodes_bind _ _ _ _ _ _ digest_decodes) by done.
  unfold mbind, reader_bind. by rewrite Hrd, Hr.
Qed.

Lemma account_updates_read_back l :
  Forall wf_account_update l → fits_usize (length l) →
  ∃ bs, write_vec (E:=Empty_set) account_update_write l = Ok bs ∧
    ∀ rest, ∃ l', read_vec account_update_read (bs ++ rest) = Ok (l', rest) ∧ Forall2 account_update_equiv l' l.
Proof.
  intros Hl Hn. unfold write_vec, read_vec, write_all. rewrite write_each_Ok.
  2:{ intros u Hu. destruct (account_update_reads_back u) as (bs & E & _); [by eapply Forall_forall|].
      unfold written. by rewrite E. }
  cbn [mbind res_bind]. rewrite write_many_fmap. eexists. split; [done|]. intros rest.
  destruct (many_reads_rel account_update_equiv wf_account_update (written account_update_write)
    account_update_read l rest) as (l' & Hr & Hq); [|done|].
  - intros u rest' Hu. destruct (account_update_reads_back u Hu) as (bs & E & Hr). unfold written. rewrite E. apply Hr.
  - exists l'. split; [|done]. rewrite <-app_assoc, read_usize_bind by (unfold fits_usize in Hn; lia). by rewrite Nat2Z.id.
Qed.

Definition wf_block (b : Block) : Prop :=
  wf_header (blk_header b) ∧ Forall wf_account_update (blk_updated_accounts b) ∧
  Forall (Forall wf_output) (blk_output_note_batches b) ∧ valid_block b.
Definition block_equiv (b b' : Block) : Prop :=
  blk_header b = blk_header b' ∧ Forall2 account_update_equiv (blk_updated_accounts b) (blk_updated_accounts b') ∧
  blk_output_note_batches b = blk_output_note_batches b' ∧ blk_nullifiers b = blk_nullifiers b'.

Lemma valid_block_equiv b b' : block_equiv b b' → valid_block b' → valid_block b.
Proof.
  destruct b, b'. unfold block_equiv, valid_block. cbn.
  intros (-> & Hl%Forall2_length & -> & ->). by rewrite Hl.
Qed.

Lemma batch_reads_back (batch : NoteBatch) :
  Forall wf_output batch ∧ fits_usize (length batch) → reads_back (write_vec output_write batch) (read_vec output_read) batch.
Proof. intros [Hw Hn]. by apply (write_vec_reads_back wf_output); [apply output_reads_back|..]. Qed.
Lemma block_read_back b :
  wf_block b →
  ∃ bs, block_write (E:=Empty_set) b = Ok bs ∧
    ∀ rest, ∃ b', block_read (bs ++ rest) = Ok (b', rest) ∧ block_equiv b' b.
Proof.
  intros (Hh & Hu & Hn & Hb). pose proof Hb as (Hu1 & Hn1 & Hnul & Hl & _).
  change MAX_ACCOUNTS_PER_BLOCK with 65536 in Hu1. change MAX_BATCHES_PER_BLOCK with 64 in Hn1.
  change MAX_INPUT_NOTES_PER_BLOCK with 65536 in Hnul.
  destruct (account_updates_read_back _ Hu) as (bu & Eu & Hru); [unfold fits_usize; lia|].
  destruct (write_vec_reads_back _ _ _ (blk_output_note_batches b) batch_reads_back) as (bb & Eb & Hrb);
    [|unfold fits_usize; lia|].
  { apply Forall_and. split; [done|]. eapply Forall_impl; [exact Hl|]. cbn. intros x Hx.
    change MAX_OUTPUT_NOTES_PER_BATCH with 1024 in Hx. unfold fits_usize. lia. }
  destruct (write_vec_reads_back _ _ _ (blk_nullifiers b) digest_reads_back) as (bn & En & Hrn);
    [by apply Forall_true|unfold fits_usize; lia|].
  unfold block_write. rewrite Eu, Eb, En. eexists. split; [done|]. intros rest.
  destruct (Hru (bb ++ bn ++ rest)) as (us & Er & Hq).
  set (b' := mkBlock (blk_header b) us (blk_output_note_batches b) (blk_nullifiers b)).
  assert (block_equiv b' b) as He by by split_and!.
  exists b'. split; [|done]. unfold block_read.
  rewrite <-!app_assoc, (decodes_bind _ _ _ _ _ _ block_header_decodes) by done.
  unfold mbind, reader_bind. rewrite Er, Hrb, Hrn. fold b'. unfold reader_lift.
  by rewrite (proj2 (block_validate_Ok b')) by by apply (valid_block_equiv _ _ He).
Qed.

Lemma leaves_bounded (l : list (Z * Word)) d :
  NoDup l.*1 → Forall (λ p, 0 ≤ p.1 < 2 ^ Z.of_nat d) l → Z.of_nat (length l) ≤ 2 ^ Z.of_nat d.
Proof.
  intros ND Hl. assert (l.*1 ⊆ seqZ 0 (2 ^ Z.of_nat d)) as Hs.
  { intros i (p & -> & Hp)%list_elem_of_fmap. apply elem_of_seqZ. rewrite Forall_forall in Hl. specialize (Hl _ Hp). lia. }
  apply (NoDup_submseteq _ _ ND) in Hs. apply submseteq_length in Hs. rewrite length_fmap, length_seqZ in Hs. lia.
Qed.

Lemma note_tree_leaves_ok (t : BlockNoteTree) :
  Forall (λ p, 0 ≤ p.1 < 2 ^ BLOCK_NOTE_TREE_DEPTH) (ssmt_leaves t) ∧ Z.of_nat (length (ssmt_leaves t)) ≤ 2 ^ 16.
Proof.
  assert (Forall (λ p, 0 ≤ p.1 < 2 ^ BLOCK_NOTE_TREE_DEPTH) (ssmt_leaves t)) as Hl.
  { apply Forall_forall. intros [i w] Hp. by apply ssmt_leaves_spec in Hp as [? _]. }
  split; [done|]. apply (leaves_bounded _ 16 (ssmt_leaves_nodup _ t) Hl).
Qed.

(** Trees with the same leaves. *)
Definition note_tree_equiv (t t' : BlockNoteTree) : Prop :=
  ∀ i, 0 ≤ i < 2 ^ BLOCK_NOTE_TREE_DEPTH → ssmt_get_leaf t i = ssmt_get_leaf t' i.
(** ** Theorems *)

(** A block note tree reads back from its bytes with the same leaves and the
    same root: the count of leaves always fits its 32 bits. *)
Theorem note_tree_roundtrip (t : BlockNoteTree) rest :
  ∃ t', note_tree_read (note_tree_write t ++ rest) = Ok (t', rest) ∧ note_tree_equiv t' t ∧
    note_tree_root t' = note_tree_root t.
Proof.
  destruct (note_tree_leaves_ok t) as [Hl Hn]. pose proof (ssmt_leaves_nodup _ t) as ND.
  destruct (ssmt_with_leaves_ok _ _ ND Hl) as (t' & Ht' & Hget & Hempty). exists t'. split.
  - unfold note_tree_read, note_tree_write, as_u32. rewrite Z.mod_small by lia.
    rewrite <-app_assoc, (decodes_bind _ _ _ _ _ _ u32_decodes) by lia.
    rewrite (read_many_bind (λ p, (0 ≤ p.1 < 2 ^ 64) ∧ True) write_leaf_pair); [..|by rewrite Nat2Z.id].
    + unfold reader_lift. by rewrite Ht'.
    + exact (pair_decodes _ _ _ _ _ _ u64_decodes word_decodes).
    + eapply Forall_impl; [exact Hl|]. intros p Hp. cbn. unfold BLOCK_NOTE_TREE_DEPTH in Hp. lia.
  - assert (note_tree_equiv t' t) as He; [|split; [done|by apply ssmt_root_ext]].
    intros i Hi. destruct (decide (ssmt_get_leaf t i = EMPTY_WORD)) as [E|Hw].
    + rewrite E. apply Hempty. intros ([j w] & -> & Hp)%list_elem_of_fmap.
      apply ssmt_leaves_spec in Hp as (_ & Hp & ?). cbn in *. congruence.
    + apply Hget. by apply ssmt_leaves_spec.
Qed.

(** A well-formed block reads back from its bytes: neither the writer nor
    the reader panics, the validation of the reader succeeds, and all fields are
    the same (new public accounts up to the contents of their trees). *)
Theorem block_roundtrip b rest :
  wf_block b →
  ∃ bs b', block_write (E:=Empty_set) b = Ok bs ∧ block_read (bs ++ rest) = Ok (b', rest) ∧
    block_equiv b' b ∧ block_hash b' = block_hash b.
Proof.
  intros Hb. destruct (block_read_back b Hb) as (bs & Hw & Hr). destruct (Hr rest) as (b' & Hread & He).
  exists bs, b'. split_and!; [done..|]. unfold block_hash. by destruct He as [-> _].
Qed.
End Ser.

(** C40. Block::new accepts exactly the blocks within the limits and without
    duplicate note ids, and never panics. The limit on the notes of the whole
    block cannot be exceeded on its own: the limits on the batches imply it, and
    its error is never returned. *)
Theorem block_new_spec h us bs ns :
  block_new h us bs ns ≠ Panic ∧ (∀ n, block_new h us bs ns ≠ Err (TooManyNotesInBlock n)) ∧
  ∀ b, block_new h us bs ns = Ok b ↔ valid_block b ∧ b = mkBlock h us bs ns.
Proof.
  split; [|split; [|intros b; apply block_new_Ok]]; unfold block_new, block_validate;
    cbn [blk_updated_accounts blk_output_note_batches blk_nullifiers].
  - destruct (_ >? _); [done|]. destruct (_ >? _); [done|]. destruct (_ >? _); [done|].
    pose proof (check_batches_total bs ∅ 0). destruct (check_batches bs ∅ 0); cbn; [|done..]. by destruct (_ >? _).
  - intros m. destruct (_ >? _); [done|].
    destruct (Z.gtb_spec (Z.of_nat (length bs)) MAX_BATCHES_PER_BLOCK) as [|Hbs]; [done|]. destruct (_ >? _); [done|].
    pose proof (check_batches_error bs ∅ 0 m). destruct (check_batches bs ∅ 0) as [n|e|] eqn:E; cbn [mbind res_bind]; [|congruence|done].
    apply check_batches_Ok in E as (Hb & _ & _ & ->). by rewrite count_in_bounds.
Qed.

(** C7. Every note created in a valid block can be authenticated against it:
    listing the notes and building the note tree do not panic, the list has each
    note of each batch once and in order, and for every note the index of its
    leaf fits its types, the inclusion proof is accepted, and the path of the
    note verifies against the root, so that a transaction that consumes the note
    with a header that has this root accepts the proof. All other leaves are
    empty. *)
Theorem block_notes_authenticated {E} b :
  valid_block b →
  ∃ notes t, block_notes (E:=E) b = Ok notes ∧ build_note_tree (E:=E) b = Ok t ∧
    notes.*2 = mjoin (blk_output_note_batches b) ∧ NoDup notes.*1 ∧
    (∀ index note, (index, note) ∈ notes → ∃ i path proof,
       leaf_index_value (E:=E) index = Ok i ∧ get_note_path (E:=E) t index = Ok path ∧
       inclusion_proof_new (bh_block_num (blk_header b)) i path = Ok proof ∧
       path_verify path i (output_hash note) (note_tree_root t) = true ∧
       ∀ n header, note = Full n → bh_note_root header = note_tree_root t → validate_is_in_block n proof header = Ok tt) ∧
    (∀ i, (∀ index note, (index, note) ∈ notes → leaf_of index ≠ i) → ssmt_get_leaf t i = EMPTY_WORD).
Proof.
  intros Hb. destruct (build_note_tree_Ok (E:=E) b Hb) as (t & Ht & Hget & Hempty).
  exists (indexed_notes 0 (blk_output_note_batches b)), t. split; [by apply block_notes_Ok|]. split; [done|].
  split; [apply indexed_notes_snd|]. split; [apply indexed_notes_NoDup, Hb|].
  split; [|intros i Hi; apply Hempty; intros [index note]; apply Hi].
  intros index note Hin. pose proof (valid_block_indices b Hb) as Hv. rewrite Forall_forall in Hv. specialize (Hv _ Hin).
  cbn in Hv. pose proof (leaf_of_range index Hv) as Hr. destruct (leaf_index_Ok (E:=E) index Hv) as [Hi Hiv].
  exists (leaf_of index), (ssmt_open_path t (leaf_of index)),
    (mkProof (mkLocation (bh_block_num (blk_header b)) (leaf_of index)) (ssmt_open_path t (leaf_of index))).
  assert (path_verify (ssmt_open_path t (leaf_of index)) (leaf_of index) (output_hash note) (note_tree_root t) = true) as Hp.
  { change (output_hash note) with (output_hash (index, note).2). rewrite <-(Hget _ Hin). by apply ssmt_open_verifies. }
  split; [done|]. split; [unfold get_note_path; by rewrite Hi|]. split; [by apply inclusion_proof_leaf|]. split; [done|].
  intros n header -> Er. unfold validate_is_in_block. cbn [np_location np_note_path node_index_in_block].
  change (note_hash n) with (output_hash (Full n)). rewrite Er. by rewrite Hp.
Qed.

(** The transaction commitment binds the transactions of a block: two lists
    with the same commitment are equal, order included, or the two inputs of the
    hash collide. *)
Theorem tx_hash_binds l l' :
  compute_tx_hash l = compute_tx_hash l' → l = l' ∨ collision (Elements (tx_elements l)) (Elements (tx_elements l')).
Proof.
  intros [E%(inj Elements)|]%(image_binds (Elements _) (Elements _)); [left|by right]. by apply tx_elements_inj.
Qed.
End Blocks.

(** ** Witnesses *)

#[local] Existing Instance Goldilocks.
#[local] Existing Instance ToyHasher.
#[local] Existing Instance MapTree.
#[local] Existing Instance CodeOrd.
#[local] Existing Instance PlainIO.
#[local] Existing Instance MapTreeIO.
#[local] Existing Instance RootsAsm.
#[local] Existing Instance RootsIO.
#[local] Existing Instance RootsProgram.
#[local] Existing Instance PlainNoteIO.
#[local] Existing Instance ListPath.
#[local] Existing Instance ListSmt.
#[local] Existing Instance ListMmr.

(** A block with one private update, an empty batch and a batch of one note. *)
Definition sample_block : Block :=
  mkBlock sample_genesis [mkAccountUpdate (acct_id sample_account) (sample_word 3) PrivateUpdate [sample_word 4]]
    [[]; [Full sample_note]] [sample_word 5].

Lemma sample_block_valid : valid_block sample_block.
Proof.
  split_and!; [vm_compute; discriminate..| |].
  - repeat constructor; vm_compute; discriminate.
  - cbn [blk_output_note_batches sample_block]. cbn. apply NoDup_singleton.
Qed.

Lemma sample_block_wf : wf_block sample_block.
Proof.
  split; [apply sample_block_header_wf; lia|]. split; [|split; [|exact sample_block_valid]].
  - constructor; [|constructor]. split; [exact (proj1 sample_account_wf)|]. split; [done|]. unfold fits_usize. cbn. lia.
  - constructor; [constructor|]. constructor; [|constructor]. constructor; [exact sample_note_wf|constructor].
Qed.

Lemma block_roundtrip_witness :
  ∃ bs b', block_write (E:=Empty_set) sample_block = Ok bs ∧ block_read (bs ++ [7]) = Ok (b', [7]) ∧
    block_equiv b' sample_block ∧ block_hash b' = block_hash sample_block.
Proof. exact (block_roundtrip sample_block [7] sample_block_wf). Defined.

Lemma block_notes_authenticated_witness :
  ∃ notes t, block_notes (E:=Empty_set) sample_block = Ok notes ∧ build_note_tree (E:=Empty_set) sample_block = Ok t ∧
    notes.*2 = [Full sample_note].
Proof.
  destruct (block_notes_authenticated (E:=Empty_set) sample_block sample_block_valid) as (notes & t & Hn & Ht & Es & _).
  by exists notes, t.
Defined.

(** Two ids that collide in the hash of the witnesses. *)
Lemma tx_hash_binds_witness :
  let l := [(mkWord (felt_new 32) ZERO ZERO ZERO, acct_id sample_account)] in
  let l' := [(mkWord ONE ONE ZERO ZERO, acct_id sample_account)] in
  collision (Elements (tx_elements l)) (Elements (tx_elements l')).
Proof.
  intros l l'. destruct (tx_hash_binds l l') as [E|Hc].
  - apply (bool_decide_unpack _). vm_compute. exact I.
  - exfalso. apply (f_equal (λ l, (λ x, as_int (w0 x.1)) <$> l)) in E. vm_compute in E. discriminate.
  - exact Hc.
Defined.
