(* ===== verification/TxTracker.v ===== *)
(** * The account delta tracker

    Models miden-tx/src/host/account_delta_tracker.rs: the host of a
    transaction records the changes of the account as a delta while the kernel
    makes them. The file shows what the recorded delta, applied to the account
    as it was, says of the account as the transaction leaves it. *)

From S2P Require Import Prelude Felt Crypto Serde Types AccountId Assets VaultDelta Vault.
From S2P Require Import StorageDelta Storage Code Account.
Open Scope Z_scope.

(** Addition of field elements. *)
Definition felt_add {F : FeltApi} (x y : felt) : felt := felt_new ((as_int x + as_int y) mod MODULUS).

Section Tracker.
  Context {F : FeltApi} {H : HasherApi} {S : SmtApi} {D : DigestOrd} {A : AsmApi}.

Record AccountDeltaTracker : Type := mkTracker {
  tr_storage : AccountStorageDelta;
  tr_vault : AccountVaultDelta;
  tr_init_nonce : felt;
  tr_nonce_delta : felt
}.
Definition set_tr_storage s (t : AccountDeltaTracker) := mkTracker s (tr_vault t) (tr_init_nonce t) (tr_nonce_delta t).
Definition set_tr_vault v (t : AccountDeltaTracker) := mkTracker (tr_storage t) v (tr_init_nonce t) (tr_nonce_delta t).
Definition set_tr_nonce_delta n (t : AccountDeltaTracker) := mkTracker (tr_storage t) (tr_vault t) (tr_init_nonce t) n.

Definition tracker_new (account : AccountHeader) : AccountDeltaTracker :=
  mkTracker storage_delta_default vault_delta_default (ah_nonce account) ZERO.

(** [into_delta] unwraps the result of [AccountDelta::new]. *)
Definition into_delta {E} (t : AccountDeltaTracker) : res E AccountDelta :=
  let nonce_delta :=
    if decide (tr_nonce_delta t ≠ ZERO) then Some (felt_add (tr_init_nonce t) (tr_nonce_delta t)) else None in
  expect_ok (account_delta_new (tr_storage t) (tr_vault t) nonce_delta).

Definition increment_nonce (value : felt) (t : AccountDeltaTracker) : AccountDeltaTracker :=
  set_tr_nonce_delta (felt_add (tr_nonce_delta t) value) t.

(** ** What the kernel does to the account

    The operations of the kernel on the native account that it tells the host of,
    with the meaning that the account itself gives them. The nonce is incremented
    by a field addition. *)

Inductive account_op : Type :=
  | OpAddAsset (asset : Asset)
  | OpRemoveAsset (asset : Asset)
  | OpSetItem (index : Z) (value : Word)
  | OpSetMapItem (index : Z) (key value : Word)
  | OpIncrNonce (value : felt).

Definition run_op (op : account_op) : mut Account AccountError unit :=
  match op with
  | OpAddAsset asset =>
      on_field acct_vault set_acct_vault (mut_map_err AssetVaultUpdateError (vault_add_asset asset)) ;; mret tt
  | OpRemoveAsset asset =>
      on_field acct_vault set_acct_vault (mut_map_err AssetVaultUpdateError (vault_remove_asset asset)) ;; mret tt
  | OpSetItem index value => on_field acct_storage set_acct_storage (set_item index value) ;; mret tt
  | OpSetMapItem index key value =>
      on_field acct_storage set_acct_storage (set_map_item index key value) ;; mret tt
  | OpIncrNonce value => λ a, (Ok tt, set_acct_nonce (felt_add (acct_nonce a) value) a)
  end.

(** Operands that the kernel passes: well-formed assets, of any amount, and slot
    indices of one byte. *)
Definition valid_op (op : account_op) : Prop :=
  match op with
  | OpAddAsset asset | OpRemoveAsset asset => valid_asset asset
  | OpSetItem index _ | OpSetMapItem index _ _ => 0 ≤ index < 2 ^ 8
  | OpIncrNonce _ => True
  end.

(** Operations that do not add or remove an asset of amount zero. *)
Definition positive_asset (asset : Asset) : Prop :=
  match asset with Fungible f => 0 < fa_amount f | NonFungible _ => True end.
Definition positive_op (op : account_op) : Prop :=
  match op with OpAddAsset asset | OpRemoveAsset asset => positive_asset asset | _ => True end.

(** What the host records for an operation; [current] is the value that the
    kernel passes for a slot that is being set. *)
Definition track_op (current : Word) (op : account_op) : mut AccountDeltaTracker AccountDeltaError unit :=
  match op with
  | OpAddAsset asset => on_field tr_vault set_tr_vault (vault_delta_add_asset asset)
  | OpRemoveAsset asset => on_field tr_vault set_tr_vault (vault_delta_remove_asset asset)
  | OpSetItem index value => λ t,
      if decide (current = value) then (Ok tt, t)
      else (Ok tt, set_tr_storage (storage_delta_set_item index value (tr_storage t)) t)
  | OpSetMapItem index key value => λ t,
      (Ok tt, set_tr_storage (storage_delta_set_map_item index key value (tr_storage t)) t)
  | OpIncrNonce value => λ t, (Ok tt, increment_nonce value t)
  end.

(** ** Deltas of one change *)

Lemma btree_iter_singleton {K B} `{Countable K} (leb : K → K → bool) (k : K) (x : B) :
  btree_iter leb ({[ k := x ]} : gmap K B) = [(k, x)].
Proof. apply Permutation_singleton_r. by rewrite btree_iter_perm, map_to_list_singleton. Qed.

Lemma btree_iter_empty {K B} `{Countable K} (leb : K → K → bool) : btree_iter leb (∅ : gmap K B) = [].
Proof. apply Permutation_nil_r. by rewrite btree_iter_perm, map_to_list_empty. Qed.

Lemma for_each_one {T E X} (body : X → mut T E unit) x s : for_each [x] body s = body x s.
Proof. cbn. unfold mbind, mut_bind. by destruct (body x s) as [[[]|e|] s']. Qed.

Definition single_delta (c : change) : AccountVaultDelta :=
  match c with
  | FungibleChange id n => mkVaultDelta {[ id := n ]} ∅
  | NonFungibleChange a x => mkVaultDelta ∅ {[ a := x ]}
  end.
Definition track_change (c : change) : mut AccountVaultDelta AccountDeltaError unit :=
  match c with
  | FungibleChange id n => on_field vd_fungible set_vd_fungible (add_delta id n)
  | NonFungibleChange a x => on_field vd_non_fungible set_vd_non_fungible (apply_action a x)
  end.

Lemma vault_apply_single c v : vault_apply_delta (single_delta c) v = apply_change c v.
Proof.
  rewrite vault_apply_delta_changes. rewrite <-(for_each_one apply_change c v). f_equal.
  unfold changes. destruct c; cbn [single_delta vd_fungible vd_non_fungible];
    by rewrite btree_iter_singleton, btree_iter_empty.
Qed.

Lemma vault_merge_single c d : vault_delta_merge (single_delta c) d = track_change c d.
Proof.
  unfold vault_delta_merge, nf_delta_merge, fungible_delta_merge.
  destruct c as [id n|a x]; cbn [single_delta vd_fungible vd_non_fungible track_change];
    rewrite btree_iter_singleton, btree_iter_empty; unfold mbind, mut_bind, on_field.
  - destruct d as [f nf]. cbn. unfold mbind, mut_bind.
    by destruct (add_delta id n f) as [[[]|e|] m].
  - rewrite for_each_one. destruct d as [f nf]. cbn. unfold mut_ret.
    by destruct (apply_action a x nf) as [[[]|e|] m].
Qed.

Definition nonzero_change (c : change) : Prop :=
  match c with FungibleChange _ n => n ≠ 0 | NonFungibleChange _ _ => True end.

Lemma single_delta_valid c :
  valid_change c →
  valid_vault_delta (single_delta c) ∧ (nonzero_change c → no_zero_delta (vd_fungible (single_delta c))).
Proof.
  destruct c as [id n|a x]; cbn; intros Hc.
  - destruct Hc as (? & ? & ?). split; [split; [|apply map_Forall_empty]|intros Hz]; apply map_Forall_singleton;
      [|done]. unfold I64_MIN, I64_MAX, MAX_AMOUNT in *. split_and!; (done || lia).
  - split; [split; [apply map_Forall_empty|by apply map_Forall_singleton]|intros _; apply map_Forall_empty].
Qed.

(** ** The vault *)

(** What a change does to the balances and to the non-fungible assets. *)
Definition stepped (c : change) (v v' : AssetVault) : Prop :=
  match c with
  | FungibleChange id n => vault_balance v' id = vault_balance v id + n
  | NonFungibleChange a x => owned_step x (word_owned (slot v (nf_word a))) = Some (word_owned (slot v' (nf_word a)))
  end ∧ ∀ k, k ≠ change_key c → slot v' k = slot v k.

Lemma vault_balance_range v id : wf_vault v → 0 ≤ vault_balance v id ≤ MAX_AMOUNT.
Proof.
  intros Hv. destruct (wf_slot_balance id _ (Hv (fkey id))) as [_ Hb]. unfold vault_balance.
  destruct (word_balance _) as [n|]; cbn; [|by vm_compute]. by destruct (Hb n eq_refl) as (_ & _ & ?).
Qed.

(** A change that leads from [v] to the contents of [v'] can be applied to a vault
    that agrees with [v], and gives one that agrees with [v']. *)
Lemma stepped_apply c v v' u :
  wf_vault u → wf_vault v' → valid_change c → vault_same u v → stepped c v v' →
  ∃ u', apply_change c u = (Ok tt, u') ∧ vault_same u' v'.
Proof.
  intros Hu Hv' Hc [Hb Hn] [Hs Ho]. pose proof (apply_change_spec c u Hu Hc) as Sp.
  destruct c as [fid n|a x]; cbn [change_key valid_change slot_step] in *.
  - destruct Hc as (Hid & Hty & Hrange). pose proof (vault_balance_range v' fid Hv') as Hr.
    destruct (wf_slot_balance fid _ (Hu (fkey fid))) as [_ Hw].
    assert (∃ b, balance_step n (word_balance (slot u (fkey fid))) = Some b ∧ default 0 b = vault_balance v' fid) as (b & Eb & Db).
    { rewrite Hs, <-Hb in Hr |- *. unfold vault_balance in *. unfold balance_step, add_step, remove_step.
      destruct (word_balance (slot u (fkey fid))) as [y|]; cbn [default from_option id] in *.
      - destruct (Z.leb_spec 0 n).
        + destruct (Z.leb_spec (y + n) MAX_AMOUNT); [|lia]. by eexists.
        + destruct (Z.leb_spec (- n) y); [|lia]. eexists. split; [done|]. destruct (Z.eqb_spec (y - - n) 0); cbn; lia.
      - destruct (Z.leb_spec 0 n); [|lia]. by eexists. }
    rewrite Eb in Sp. destruct Sp as (u' & Ru & _ & Uu & Ou). exists u'. split; [done|]. split.
    + intros i. destruct (decide (i = fid)) as [->|Hi].
      * unfold vault_balance at 1. rewrite Uu, word_balance_word; [done|].
        exact (balance_step_valid fid n _ b Hid Hty Hrange Hw Eb).
      * assert (fkey i ≠ fkey fid) as Hk by (by intros ?%fkey_inj). unfold vault_balance.
        rewrite Ou, Ho by done. apply Hb.
    + intros a Ha. assert (nf_word a ≠ fkey fid) as Hk by (intros E; by apply (fkey_not_nf fid a Ha)).
      rewrite Ou, Ho by done. by apply Hn.
  - rewrite (Hn a Hc) in Sp. rewrite Hs in Sp. destruct Sp as (u' & Ru & _ & Uu & Ou). exists u'. split; [done|]. split.
    + intros i. assert (fkey i ≠ nf_word a) as Hk by (by apply fkey_not_nf). unfold vault_balance.
      rewrite Ou, Ho by done. apply Hb.
    + intros b Hb'. destruct (decide (b = a)) as [->|Hne].
      * rewrite Uu. symmetry. by apply wf_slot_owned.
      * assert (nf_word b ≠ nf_word a) as Hk by (intros E; apply Hne; destruct a, b; cbn in E; by subst).
        rewrite Ou, Ho by done. by apply Hn.
Qed.

(** The delta [d] leads from the vault [v0] to a vault that agrees with [v]. *)
Definition vault_tracks (v0 : AssetVault) (d : AccountVaultDelta) (v : AssetVault) : Prop :=
  wf_vault v ∧ valid_vault_delta d ∧ ∃ v1, vault_apply_delta d v0 = (Ok tt, v1) ∧ vault_same v1 v.

Lemma vault_tracks_init v0 : wf_vault v0 → vault_tracks v0 vault_delta_default v0.
Proof.
  intros Hv. split; [done|]. split; [split; apply map_Forall_empty|].
  exists v0. split; [|done]. unfold vault_apply_delta, vault_delta_default.
  cbn [vd_fungible vd_non_fungible]. by rewrite !btree_iter_empty.
Qed.

Lemma vault_tracks_step v0 d v c v' :
  wf_vault v0 → vault_tracks v0 d v → valid_change c → wf_vault v' → stepped c v v' →
  ∃ d', track_change c d = (Ok tt, d') ∧ vault_tracks v0 d' v' ∧
    (no_zero_delta (vd_fungible d) → nonzero_change c → no_zero_delta (vd_fungible d')).
Proof.
  intros H0 (Hv & Hd & v1 & Hrun & E) Hc Hv' Hst.
  destruct (stepped_apply c v v' v1) as (u' & Hu & Eu); [exact (vault_apply_wf d v0 v1 H0 Hd Hrun)|done..|].
  destruct (single_delta_valid c Hc) as [Hs Hsz]. rewrite <-vault_apply_single in Hu.
  destruct (vault_apply_compose_same v0 v1 u' d (single_delta c)) as (m & v'' & Hm & Hrun' & E'); [done..|].
  destruct (merged_delta_valid _ _ _ Hd Hs Hm) as [Hvm Hzm].
  exists m. rewrite <-vault_merge_single. split; [done|]. split; [|intros Hz Hn; by apply Hzm, Hsz].
  split; [done|]. split; [done|]. exists v''. split; [done|]. by rewrite E'.
Qed.

Definition add_change (asset : Asset) : change :=
  match asset with
  | Fungible f => FungibleChange (fa_faucet_id f) (fa_amount f)
  | NonFungible x => NonFungibleChange x Add
  end.
Definition remove_change (asset : Asset) : change :=
  match asset with
  | Fungible f => FungibleChange (fa_faucet_id f) (- fa_amount f)
  | NonFungible x => NonFungibleChange x Remove
  end.

Lemma asset_change_valid asset :
  valid_asset asset → valid_change (add_change asset) ∧ valid_change (remove_change asset).
Proof.
  intros Ha. destruct asset as [f|x]; cbn in *; [|done].
  destruct Ha as (? & ? & ?). split; split_and!; (done || lia).
Qed.
Lemma positive_asset_change asset :
  positive_asset asset → nonzero_change (add_change asset) ∧ nonzero_change (remove_change asset).
Proof. destruct asset as [f|x]; cbn; [lia|done]. Qed.

(** Setting the balance of a faucet, and the ownership of an asset. *)
Lemma vault_set_balance id n v b :
  wf_vault v → (∀ x, b = Some x → valid_fungible (mkFungibleAsset id x)) → default 0 b = vault_balance v id + n →
  let v' := vault_set v (fkey id) (balance_word id b) in
  wf_vault v' ∧ stepped (FungibleChange id n) v v' ∧ (positive_vault v → (∀ x, b = Some x → 0 < x) → positive_vault v').
Proof.
  intros Hv Hb Hd v'. destruct (vault_set_update v (fkey id) (balance_word id b)) as [Uk Uo].
  split_and!.
  - eapply slot_update_wf; [done| |split; [exact Uk|exact Uo]]. by apply balance_word_wf.
  - split; [|exact Uo]. unfold vault_balance at 1. subst v'. by rewrite Uk, word_balance_word.
  - intros Hp Hbp i x. destruct (decide (i = id)) as [->|Hi].
    + subst v'. rewrite Uk, word_balance_word by done. apply Hbp.
    + assert (fkey i ≠ fkey id) as Hk by (by intros ?%fkey_inj). subst v'. rewrite Uo by done. apply Hp.
Qed.
Lemma vault_set_owned a x v o :
  wf_vault v → valid_nf a → owned_step x (word_owned (slot v (nf_word a))) = Some o →
  let v' := vault_set v (nf_word a) (owned_word a o) in
  wf_vault v' ∧ stepped (NonFungibleChange a x) v v' ∧ (positive_vault v → positive_vault v').
Proof.
  intros Hv Ha Ho v'. destruct (vault_set_update v (nf_word a) (owned_word a o)) as [Uk Uo]. split_and!.
  - eapply slot_update_wf; [done| |split; [exact Uk|exact Uo]]. destruct o; [right|by left]. by exists (NonFungible a).
  - split; [|exact Uo]. subst v'. by rewrite Uk, word_owned_word.
  - intros Hp i y. assert (fkey i ≠ nf_word a) as Hk by (by apply fkey_not_nf). subst v'. rewrite Uo by done. apply Hp.
Qed.

Lemma add_asset_steps asset v r v' :
  wf_vault v → valid_asset asset → vault_add_asset asset v = (Ok r, v') →
  wf_vault v' ∧ stepped (add_change asset) v v' ∧ (positive_vault v → positive_asset asset → positive_vault v').
Proof.
  intros Hv Ha. destruct asset as [f|a]; cbn [vault_add_asset add_change positive_asset]; unfold mbind, mut_bind.
  - rewrite add_fungible_asset_eq by done. destruct f as [id n], Ha as (Hid & Hty & Hn). cbn [fa_faucet_id fa_amount] in *. cbv zeta.
    destruct (wf_slot_balance id _ (Hv (fkey id))) as [_ Hb].
    destruct (word_balance (slot v (fkey id))) as [y|] eqn:Ey;
      [destruct (Hb y eq_refl) as (_ & _ & Hy); cbn [fa_amount] in Hy; destruct (Z.leb_spec (y + n) MAX_AMOUNT); [|discriminate]|];
      intros [= _ <-].
    + destruct (vault_set_balance id n v (Some (y + n))) as (W & St & P); [done|intros x [= <-]; split_and!; (done || (cbn; lia))| |].
      { unfold vault_balance. by rewrite Ey. }
      split_and!; [done..|]. intros Hp Hpos. apply P; [done|]. intros x [= <-]. lia.
    + destruct (vault_set_balance id n v (Some n)) as (W & St & P); [done|intros x [= <-]; split_and!; (done || (cbn; lia))| |].
      { unfold vault_balance. by rewrite Ey. }
      split_and!; [done..|]. intros Hp Hpos. apply P; [done|]. by intros x [= <-].
  - rewrite add_non_fungible_asset_eq. destruct (word_owned (slot v (nf_word a))) eqn:Eo; [discriminate|]. intros [= _ <-].
    destruct (vault_set_owned a Add v true) as (W & St & P); [done|done|by rewrite Eo|]. split_and!; [done..|]. auto.
Qed.

Lemma remove_asset_steps asset v r v' :
  wf_vault v → valid_asset asset → vault_remove_asset asset v = (Ok r, v') →
  wf_vault v' ∧ stepped (remove_change asset) v v' ∧ (positive_vault v → positive_vault v').
Proof.
  intros Hv Ha. destruct asset as [f|a]; cbn [vault_remove_asset remove_change]; unfold mbind, mut_bind.
  - rewrite remove_fungible_asset_eq by done. destruct f as [id n], Ha as (Hid & Hty & Hn). cbn [fa_faucet_id fa_amount] in *. cbv zeta.
    destruct (wf_slot_balance id _ (Hv (fkey id))) as [_ Hb].
    destruct (word_balance (slot v (fkey id))) as [y|] eqn:Ey; [|discriminate].
    destruct (Hb y eq_refl) as (_ & _ & Hy). cbn [fa_amount] in Hy. destruct (Z.leb_spec n y); [|discriminate]. intros [= _ <-].
    destruct (vault_set_balance id (- n) v (if y - n =? 0 then None else Some (y - n))) as (W & St & P); [done|..].
    + intros x. destruct (y - n =? 0); intros [= <-]. split_and!; (done || (cbn; lia)).
    + unfold vault_balance. rewrite Ey. destruct (Z.eqb_spec (y - n) 0); cbn; lia.
    + split_and!; [done..|]. intros Hp. apply P; [done|]. intros x. destruct (Z.eqb_spec (y - n) 0); intros [= <-]. lia.
  - rewrite remove_non_fungible_asset_eq. destruct (word_owned (slot v (nf_word a))) eqn:Eo; [|discriminate]. intros [= _ <-].
    destruct (vault_set_owned a Remove v false) as (W & St & P); [done|done|by rewrite Eo|]. split_and!; done.
Qed.

(** The calls of the host are these changes of the delta. *)
Lemma delta_add_asset_change asset d :
  valid_asset asset → vault_delta_add_asset asset d = track_change (add_change asset) d.
Proof.
  intros Ha. destruct asset as [f|x]; cbn [vault_delta_add_asset add_change track_change]; [|done].
  unfold on_field. by rewrite fungible_delta_add_eq.
Qed.
Lemma delta_remove_asset_change asset d :
  valid_asset asset → vault_delta_remove_asset asset d = track_change (remove_change asset) d.
Proof.
  intros Ha. destruct asset as [f|x]; cbn [vault_delta_remove_asset remove_change track_change]; [|done].
  unfold on_field. by rewrite fungible_delta_remove_eq.
Qed.

(** ** The storage *)

#[export] Instance slot_equiv_trans : Transitive slot_equiv.
Proof.
  intros x y z [w|m m' Hm]; inversion 1; subst; constructor. intros k. by rewrite (Hm k).
Qed.

#[export] Instance storage_equiv_trans : Transitive storage_equiv.
Proof. intros s1 s2 s3. unfold storage_equiv. apply transitivity. Qed.

#[export] Instance storage_equiv_refl : Reflexive storage_equiv.
Proof. intros s. unfold storage_equiv. reflexivity. Qed.

Lemma storage_equiv_insert s s' i x y :
  storage_equiv s s' → slot_equiv x y → storage_equiv (set_slot i x s) (set_slot i y s').
Proof. intros Hs Hxy. unfold storage_equiv, set_slot. cbn. by apply Forall2_insert. Qed.

Definition storage_tracks (s0 : AccountStorage) (d : AccountStorageDelta) (s : AccountStorage) : Prop :=
  valid_storage_delta d ∧ ∃ s1, storage_apply_delta d s0 = (Ok tt, s1) ∧ storage_equiv s1 s.

Lemma storage_tracks_init s0 : storage_tracks s0 storage_delta_default s0.
Proof.
  split.
  - split; [apply map_Forall_empty|]. split; [apply map_Forall_empty|]. intros i. by left.
  - exists s0. split; [|done]. unfold storage_apply_delta, storage_delta_default.
    cbn [sd_maps sd_values]. by rewrite !btree_iter_empty.
Qed.

Lemma storage_tracks_merge s0 d s o s' :
  storage_tracks s0 d s → valid_storage_delta o →
  (∀ u, storage_equiv u s → ∃ u', storage_apply_delta o u = (Ok tt, u') ∧ storage_equiv u' s') →
  storage_tracks s0 (merged_storage o d) s'.
Proof.
  intros (Hd & s1 & Hrun & E) Ho Happ. destruct (Happ s1 E) as (u' & Hu & Eu).
  destruct (storage_apply_compose d o s0 Hd Ho) as [Hcomp _].
  destruct (Hcomp s1 u' Hrun Hu) as (m & s'' & Hm & Hrun' & E' & _).
  rewrite storage_delta_merge_eq in Hm. injection Hm as Hval <-.
  destruct (merged_storage_bounds o d Ho Hd). split.
  - split; [done|]. split; [done|]. by apply storage_delta_validate_Ok.
  - exists s''. split; [done|]. by etransitivity.
Qed.

Lemma merged_set_item i w d :
  merged_storage (mkStorageDelta {[ i := w ]} ∅) d = storage_delta_set_item i w d.
Proof.
  unfold merged_storage, storage_delta_set_item. cbn [sd_values sd_maps].
  by rewrite btree_iter_empty, <-insert_union_singleton_l.
Qed.

Lemma merged_set_map_item i k w d :
  merged_storage (mkStorageDelta ∅ {[ i := mkMapDelta {[ k := w ]} ]}) d = storage_delta_set_map_item i k w d.
Proof.
  unfold merged_storage, storage_delta_set_map_item, map_delta_insert. cbn [sd_values sd_maps].
  rewrite btree_iter_singleton, (left_id_L ∅ (∪)). cbn [foldl]. unfold merge_map_entry, map_delta_merge. cbn [fst snd].
  destruct (sd_maps d !! i) as [mine|]; cbn [default from_option leaves]; do 3 f_equal.
  by rewrite <-insert_union_singleton_l.
Qed.

Lemma set_item_tracks s0 d s i w old s' :
  storage_tracks s0 d s → 0 ≤ i < 2 ^ 8 → set_item i w s = (Ok old, s') →
  get_item s i = Ok old ∧
  storage_tracks s0 (if decide (old = w) then d else storage_delta_set_item i w d) s'.
Proof.
  intros Ht Hi Hset. unfold set_item in Hset.
  destruct (Z.leb_spec (Z.of_nat (length (slots s))) i); [discriminate|].
  destruct (slots s !! Z.to_nat i) as [[v|m]|] eqn:Es; [|discriminate..].
  injection Hset as <- <-. split.
  { unfold get_item. by rewrite Es. }
  case_decide as E.
  - subst. replace (set_slot i (Value w) s) with s; [done|].
    unfold set_slot. rewrite list_insert_id by done. by destruct s.
  - rewrite <-merged_set_item. apply (storage_tracks_merge _ _ s); [done| |].
    + split; [by apply map_Forall_singleton|]. split; [apply map_Forall_empty|]. intros j. by right.
    + intros u Hu. pose proof (Forall2_length _ _ _ Hu) as Hl.
      destruct (Forall2_lookup_r _ _ _ _ _ Hu Es) as (x & Ex & Hx). inversion Hx; subst.
      exists (set_slot i (Value w) u). split; [|apply storage_equiv_insert; [done|constructor]].
      unfold storage_apply_delta. cbn [sd_maps sd_values]. rewrite btree_iter_empty, btree_iter_singleton.
      unfold mbind, mut_bind. cbn [for_each]. unfold mret, mut_ret, apply_value_update, set_item, mbind, mut_bind.
      cbn [fst snd]. destruct (Z.leb_spec (Z.of_nat (length (slots u))) i); [lia|]. by rewrite Ex.
Qed.

Lemma set_map_item_tracks s0 d s i k w r s' :
  storage_tracks s0 d s → 0 ≤ i < 2 ^ 8 → set_map_item i k w s = (Ok r, s') →
  storage_tracks s0 (storage_delta_set_map_item i k w d) s'.
Proof.
  intros Ht Hi Hset. unfold set_map_item in Hset.
  destruct (Z.leb_spec (Z.of_nat (length (slots s))) i); [discriminate|].
  destruct (slots s !! Z.to_nat i) as [[v|m]|] eqn:Es; [discriminate| |discriminate].
  destruct (storage_map_insert k w m) as [old m'] eqn:Ei. injection Hset as <- <-.
  rewrite <-merged_set_map_item. apply (storage_tracks_merge _ _ s); [done| |].
  - split; [apply map_Forall_empty|]. split; [by apply map_Forall_singleton|]. intros j. by left.
  - intros u Hu. destruct (Forall2_lookup_r _ _ _ _ _ Hu Es) as (x & Ex & Hx). inversion Hx as [|m1 ? Hm]; subst.
    exists (set_slot i (Map (insert_entry m1 (k, w))) u). split.
    + unfold storage_apply_delta. cbn [sd_maps sd_values]. rewrite btree_iter_empty, btree_iter_singleton.
      unfold mbind, mut_bind. cbn [for_each]. unfold mret, mut_ret, apply_map_update, mbind, mut_bind.
      cbn [fst snd]. rewrite Ex. unfold storage_map_apply_delta. cbn [leaves]. by rewrite btree_iter_singleton.
    + apply storage_equiv_insert; [done|]. constructor.
      replace m' with (insert_entry m (k, w)) by exact (f_equal snd Ei).
      intros k'. pose proof (insert_entry_get m (k, w) k') as G. pose proof (insert_entry_get m1 (k, w) k') as G1.
      unfold storage_map_get_value in G, G1. rewrite G, G1. clear G G1.
      cbn [fst snd]. case_decide; [done|apply (Hm k')].
Qed.

(** ** The nonce *)

Lemma as_int_felt_add x y : as_int (felt_add x y) = (as_int x + as_int y) mod MODULUS.
Proof. apply as_int_small. apply Z.mod_pos_bound. unfold MODULUS. lia. Qed.

Lemma felt_add_ZERO x : felt_add x ZERO = x.
Proof.
  apply as_int_inj. rewrite as_int_felt_add, as_int_ZERO, Z.add_0_r.
  apply Z.mod_small, as_int_range.
Qed.

Lemma felt_add_assoc x y z : felt_add (felt_add x y) z = felt_add x (felt_add y z).
Proof.
  apply as_int_inj. rewrite !as_int_felt_add, Z.add_mod_idemp_l, Z.add_mod_idemp_r by (unfold MODULUS; lia). by rewrite Z.add_assoc.
Qed.
Lemma felt_add_fixed x y : felt_add x y = x ↔ y = ZERO.
Proof.
  split; [|intros ->; apply felt_add_ZERO]. intros E. apply (f_equal as_int) in E. rewrite as_int_felt_add in E.
  pose proof (as_int_range x). pose proof (as_int_range y). apply as_int_inj. rewrite as_int_ZERO.
  destruct (Z.lt_ge_cases (as_int x + as_int y) MODULUS) as [|Hge].
  - rewrite Z.mod_small in E by lia. lia.
  - rewrite <-(Z_mod_plus_full _ (-1) MODULUS), Z.mod_small in E by lia. lia.
Qed.

(** ** Simulation *)

Record tracks (a0 : Account) (t : AccountDeltaTracker) (a : Account) : Prop := {
  tk_id : acct_id a = acct_id a0;
  tk_vault : vault_tracks (acct_vault a0) (tr_vault t) (acct_vault a);
  tk_storage : storage_tracks (acct_storage a0) (tr_storage t) (acct_storage a);
  tk_init : tr_init_nonce t = acct_nonce a0;
  tk_nonce : acct_nonce a = felt_add (acct_nonce a0) (tr_nonce_delta t)
}.

(** Neither the delta nor the vault has an entry of amount zero. *)
Definition tracks_positive (t : AccountDeltaTracker) (a : Account) : Prop :=
  no_zero_delta (vd_fungible (tr_vault t)) ∧ positive_vault (acct_vault a).

Lemma tracks_init a0 : wf_vault (acct_vault a0) → tracks a0 (tracker_new (account_header_from a0)) a0.
Proof.
  intros Hv. split; [done|by apply vault_tracks_init|apply storage_tracks_init|done|]. cbn. by rewrite felt_add_ZERO.
Qed.

(** Every successful operation of the kernel is recorded without an error. *)
Lemma tracks_step a0 t a op a' current :
  wf_vault (acct_vault a0) → tracks a0 t a → valid_op op → run_op op a = (Ok tt, a') →
  (∀ i w, op = OpSetItem i w → get_item (acct_storage a) i = Ok current) →
  ∃ t', track_op current op t = (Ok tt, t') ∧ tracks a0 t' a' ∧
    (positive_op op → tracks_positive t a → tracks_positive t' a').
Proof.
  intros H0 [Tid Tv Ts Ti Tn] Hop Hrun Hcur. pose proof (proj1 Tv) as Hv.
  destruct op as [asset|asset|i w|i k w|v]; cbn [run_op track_op valid_op positive_op] in *;
    unfold mbind, mut_bind, on_field, mut_map_err in Hrun.
  - destruct (vault_add_asset asset (acct_vault a)) as [[r|e|] v'] eqn:E; [|discriminate..].
    injection Hrun as <-. destruct (add_asset_steps _ _ _ _ Hv Hop E) as (Hv' & Hst & Hpos).
    destruct (vault_tracks_step _ _ _ _ _ H0 Tv (proj1 (asset_change_valid _ Hop)) Hv' Hst) as (d' & Hd & Tv' & Hz).
    unfold on_field. rewrite delta_add_asset_change, Hd by done. eexists. split; [done|]. split; [by split|].
    intros Hp [Z P]. split; [by apply Hz, positive_asset_change|by apply Hpos].
  - destruct (vault_remove_asset asset (acct_vault a)) as [[r|e|] v'] eqn:E; [|discriminate..].
    injection Hrun as <-. destruct (remove_asset_steps _ _ _ _ Hv Hop E) as (Hv' & Hst & Hpos).
    destruct (vault_tracks_step _ _ _ _ _ H0 Tv (proj2 (asset_change_valid _ Hop)) Hv' Hst) as (d' & Hd & Tv' & Hz).
    unfold on_field. rewrite delta_remove_asset_change, Hd by done. eexists. split; [done|]. split; [by split|].
    intros Hp [Z P]. split; [by apply Hz, positive_asset_change|by apply Hpos].
  - destruct (set_item i w (acct_storage a)) as [[old|e|] s'] eqn:E; [|discriminate..].
    injection Hrun as <-. destruct (set_item_tracks _ _ _ _ _ _ _ Ts Hop E) as [Hold Ts'].
    rewrite (Hcur i w eq_refl) in Hold. injection Hold as ->.
    case_decide; (eexists; split; [done|]; split; [by split|done]).
  - destruct (set_map_item i k w (acct_storage a)) as [[old|e|] s'] eqn:E; [|discriminate..].
    injection Hrun as <-. pose proof (set_map_item_tracks _ _ _ _ _ _ _ _ Ts Hop E).
    eexists. split; [done|]. split; [by split|done].
  - injection Hrun as <-. eexists. split; [done|]. split; [|done]. split; try done. cbn. by rewrite Tn, felt_add_assoc.
Qed.

(** Something besides the nonce is recorded. *)
Definition recorded (t : AccountDeltaTracker) : Prop :=
  ¬ (tr_storage t = storage_delta_default ∧ tr_vault t = vault_delta_default).

(** [into_delta] panics exactly when changes are recorded and the nonce is as it
    was; otherwise it gives the delta with the final nonce, if that changed. The
    kernel makes sure that the nonce does not decrease. *)
Lemma tracks_into_delta {E} a0 t a :
  tracks a0 t a → as_int (acct_nonce a0) ≤ as_int (acct_nonce a) →
  let nonce := if decide (acct_nonce a = acct_nonce a0) then None else Some (acct_nonce a) in
  (into_delta (E:=E) t = Ok (mkAccountDelta (tr_storage t) (tr_vault t) nonce) ∧
   validate_nonce nonce (tr_storage t) (tr_vault t) = Ok tt) ∨
  (into_delta (E:=E) t = Panic ∧ acct_nonce a = acct_nonce a0 ∧ recorded t).
Proof.
  intros [Tid Tv Ts Ti Tn] Hle nonce. unfold into_delta, account_delta_new. rewrite Ti, <-Tn.
  assert (tr_nonce_delta t = ZERO ↔ acct_nonce a = acct_nonce a0) as Hz by (rewrite Tn; symmetry; apply felt_add_fixed).
  assert ((if decide (tr_nonce_delta t ≠ ZERO) then Some (acct_nonce a) else None) = nonce) as ->.
  { unfold nonce. case_decide; case_decide; naive_solver. }
  destruct (validate_nonce nonce (tr_storage t) (tr_vault t)) as [[]|e|] eqn:Ev; [by left|right..]; (split; [done|]).
  - destruct (decide (acct_nonce a = acct_nonce a0)) as [Eq|Hne].
    + split; [done|]. intros Hnone. assert (validate_nonce nonce (tr_storage t) (tr_vault t) = Ok tt) as Ev'; [|congruence].
      apply validate_nonce_Ok. by left.
    + exfalso. assert (validate_nonce nonce (tr_storage t) (tr_vault t) = Ok tt) as Ev'; [|congruence].
      apply validate_nonce_Ok. right. exists (acct_nonce a). unfold nonce. split; [done|]. intros E0.
      apply Hne. apply as_int_inj. rewrite E0, as_int_ZERO in *. pose proof (as_int_range (acct_nonce a0)). lia.
  - exfalso. revert Ev. unfold validate_nonce. repeat case_match; done.
Qed.

(** The recorded delta, applied to the initial account. *)
Lemma tracks_apply a0 t a :
  wf_vault (acct_vault a0) → tracks a0 t a → as_int (acct_nonce a0) ≤ as_int (acct_nonce a) →
  let nonce := if decide (acct_nonce a = acct_nonce a0) then None else Some (acct_nonce a) in
  ∃ a', account_apply_delta (mkAccountDelta (tr_storage t) (tr_vault t) nonce) a0 = (Ok tt, a') ∧
    account_agree a' a ∧ acct_code a' = acct_code a0 ∧
    (positive_vault (acct_vault a0) → tracks_positive t a → acct_code a = acct_code a0 → account_equiv a' a).
Proof.
  intros Hv0 [Tid (Hv & Vd & v1 & Vrun & Ve) (Sd & s1 & Srun & Se) Ti Tn] Hle nonce.
  exists (mkAccount (acct_id a0) v1 s1 (acct_code a0) (acct_nonce a)).
  assert (account_agree (mkAccount (acct_id a0) v1 s1 (acct_code a0) (acct_nonce a)) a) as Hag by done.
  split; [|split; [done|split; [done|]]].
  - apply account_apply_Ok. exists v1, s1, (acct_nonce a). split_and!; [done..| |done]. cbn [ad_nonce]. unfold nonce, nonce_after.
    case_decide as En; [by rewrite En|]. destruct (Z.leb_spec (as_int (acct_nonce a)) (as_int (acct_nonce a0))); [|done].
    exfalso. apply En, as_int_inj. lia.
  - intros Hp [Z P] Ec. apply account_agree_equiv; [exact (vault_apply_wf _ _ _ Hv0 Vd Vrun)|done| |done|done|done].
    exact (vault_apply_positive _ _ _ Hv0 Hp Vd Z Vrun).
Qed.
End Tracker.
