(* ===== verification/TxHost.v ===== *)
(** * The transaction host

    Models miden-tx/src/host/ (mod.rs, note_builder.rs, account_procs.rs,
    tx_progress.rs) and miden-lib/src/transaction/events.rs: the host answers
    the events that the transaction kernel emits while it runs in the VM. The
    VM gives the host access to its stack, memory and clock ([ProcessState]) and
    to an advice provider; both are parameters, as is the authenticator. *)

From S2P Require Import Prelude Felt Crypto Serde Types AccountId Assets VaultDelta Vault.
From S2P Require Import StorageDelta Storage Code Account NoteMeta NoteContents Notes TxOutputs Merkle TxArgs Memory TxTracker.
Open Scope Z_scope.

(** The part of the VM's [ProcessState] trait that the host calls. *)
Record ProcessState {F : FeltApi} : Type := mkProcess {
  get_stack_item : nat → felt;
  get_stack_word : nat → Word;
  get_stack_state : list felt;
  get_mem_value : Z → option Word;
  ctx_is_root : bool;
  clk : Z
}.

Class AdviceApi {F : FeltApi} := {
  AdviceProvider : Type;
  get_mapped_values : AdviceProvider → Digest → option (list felt);
  push_stack : felt → AdviceProvider → option AdviceProvider
}.

(** ** Events *)

Definition EVENT_ID_PREFIX : Z := 2.

Inductive TransactionEvent : Type :=
  | AccountVaultBeforeAddAsset | AccountVaultAfterAddAsset
  | AccountVaultBeforeRemoveAsset | AccountVaultAfterRemoveAsset
  | AccountStorageBeforeSetItem | AccountStorageAfterSetItem
  | AccountStorageBeforeSetMapItem | AccountStorageAfterSetMapItem
  | AccountBeforeIncrementNonce | AccountAfterIncrementNonce
  | AccountPushProcedureIndex
  | NoteBeforeCreated | NoteAfterCreated
  | NoteBeforeAddAsset | NoteAfterAddAsset.
#[export] Instance TransactionEvent_eq_dec : EqDecision TransactionEvent.
Proof. solve_decision. Defined.

(** [event as u32] *)
Definition event_id (e : TransactionEvent) : Z :=
  match e with
  | AccountVaultBeforeAddAsset => 131072 | AccountVaultAfterAddAsset => 131073
  | AccountVaultBeforeRemoveAsset => 131074 | AccountVaultAfterRemoveAsset => 131075
  | AccountStorageBeforeSetItem => 131076 | AccountStorageAfterSetItem => 131077
  | AccountStorageBeforeSetMapItem => 131078 | AccountStorageAfterSetMapItem => 131079
  | AccountBeforeIncrementNonce => 131080 | AccountAfterIncrementNonce => 131081
  | AccountPushProcedureIndex => 131082
  | NoteBeforeCreated => 131083 | NoteAfterCreated => 131084
  | NoteBeforeAddAsset => 131085 | NoteAfterAddAsset => 131086
  end.

Inductive EventParsingError : Type := NotTransactionEvent (v : Z) | InvalidTransactionEvent (v : Z).

(** [TryFrom<u32> for TransactionEvent] *)
Definition event_try_from (value : Z) : res EventParsingError TransactionEvent :=
  if negb (Z.shiftr value 16 =? EVENT_ID_PREFIX) then Err (NotTransactionEvent value)
  else match value with
       | 131072 => Ok AccountVaultBeforeAddAsset | 131073 => Ok AccountVaultAfterAddAsset
       | 131074 => Ok AccountVaultBeforeRemoveAsset | 131075 => Ok AccountVaultAfterRemoveAsset
       | 131076 => Ok AccountStorageBeforeSetItem | 131077 => Ok AccountStorageAfterSetItem
       | 131078 => Ok AccountStorageBeforeSetMapItem | 131079 => Ok AccountStorageAfterSetMapItem
       | 131080 => Ok AccountBeforeIncrementNonce | 131081 => Ok AccountAfterIncrementNonce
       | 131082 => Ok AccountPushProcedureIndex
       | 131083 => Ok NoteBeforeCreated | 131084 => Ok NoteAfterCreated
       | 131085 => Ok NoteBeforeAddAsset | 131086 => Ok NoteAfterAddAsset
       | _ => Err (InvalidTransactionEvent value)
       end.

Inductive TransactionTrace : Type :=
  | PrologueStart | PrologueEnd | NotesProcessingStart | NotesProcessingEnd
  | NoteExecutionStart | NoteExecutionEnd | TxScriptProcessingStart | TxScriptProcessingEnd
  | EpilogueStart | EpilogueEnd.

(** [TryFrom<u32> for TransactionTrace] *)
Definition trace_try_from (value : Z) : res EventParsingError TransactionTrace :=
  if negb (Z.shiftr value 16 =? EVENT_ID_PREFIX) then Err (NotTransactionEvent value)
  else match value with
       | 131072 => Ok PrologueStart | 131073 => Ok PrologueEnd
       | 131074 => Ok NotesProcessingStart | 131075 => Ok NotesProcessingEnd
       | 131076 => Ok NoteExecutionStart | 131077 => Ok NoteExecutionEnd
       | 131078 => Ok TxScriptProcessingStart | 131079 => Ok TxScriptProcessingEnd
       | 131080 => Ok EpilogueStart | 131081 => Ok EpilogueEnd
       | _ => Err (InvalidTransactionEvent value)
       end.

(** ** Progress *)

Record CycleInterval : Type := mkInterval { start_cycle : option Z; end_cycle : option Z }.
Definition interval_default : CycleInterval := mkInterval None None.
Definition interval_new (s : Z) : CycleInterval := mkInterval (Some s) None.
Definition set_start (s : Z) (i : CycleInterval) : CycleInterval := mkInterval (Some s) (end_cycle i).
Definition set_end (e : Z) (i : CycleInterval) : CycleInterval := mkInterval (start_cycle i) (Some e).
Definition interval_len (i : CycleInterval) : Z :=
  match start_cycle i, end_cycle i with
  | Some s, Some e => if s <=? e then e - s else 0
  | _, _ => 0
  end.

Section Host.
  Context {F : FeltApi} {H : HasherApi} {S : SmtApi} {D : DigestOrd} {A : AsmApi} {P : ProgramApi}.
  Context {B : ByteIO} {M : MastIO} {V : AdviceApi}.
  (** Whether arithmetic overflow is checked. *)
  Context (overflow_checks : bool).

Record TransactionProgress : Type := mkProgress {
  prologue : CycleInterval;
  notes_processing : CycleInterval;
  note_execution : list (Digest * CycleInterval);
  tx_script_processing : CycleInterval;
  epilogue : CycleInterval
}.
Definition progress_default : TransactionProgress :=
  mkProgress interval_default interval_default [] interval_default interval_default.

Definition start_prologue c p := mkProgress (set_start c (prologue p)) (notes_processing p)
  (note_execution p) (tx_script_processing p) (epilogue p).
Definition end_prologue c p := mkProgress (set_end c (prologue p)) (notes_processing p)
  (note_execution p) (tx_script_processing p) (epilogue p).
Definition start_notes_processing c p := mkProgress (prologue p) (set_start c (notes_processing p))
  (note_execution p) (tx_script_processing p) (epilogue p).
Definition end_notes_processing c p := mkProgress (prologue p) (set_end c (notes_processing p))
  (note_execution p) (tx_script_processing p) (epilogue p).
Definition start_note_execution c (note_id : Digest) p := mkProgress (prologue p) (notes_processing p)
  (note_execution p ++ [(note_id, interval_new c)]) (tx_script_processing p) (epilogue p).
(** [note_execution.last_mut()] *)
Fixpoint end_last (c : Z) (l : list (Digest * CycleInterval)) : list (Digest * CycleInterval) :=
  match l with
  | [] => []
  | [(id, i)] => [(id, set_end c i)]
  | x :: l' => x :: end_last c l'
  end.
Definition end_note_execution c p := mkProgress (prologue p) (notes_processing p)
  (end_last c (note_execution p)) (tx_script_processing p) (epilogue p).
Definition start_tx_script_processing c p := mkProgress (prologue p) (notes_processing p)
  (note_execution p) (set_start c (tx_script_processing p)) (epilogue p).
Definition end_tx_script_processing c p := mkProgress (prologue p) (notes_processing p)
  (note_execution p) (set_end c (tx_script_processing p)) (epilogue p).
Definition start_epilogue c p := mkProgress (prologue p) (notes_processing p)
  (note_execution p) (tx_script_processing p) (set_start c (epilogue p)).
Definition end_epilogue c p := mkProgress (prologue p) (notes_processing p)
  (note_execution p) (tx_script_processing p) (set_end c (epilogue p)).

(** ** Errors *)

Inductive TransactionKernelError : Type :=
  | KernelAccountDeltaError (e : AccountDeltaError)
  | FailedToAddAssetToNote (e : NoteError)
  | InvalidNoteInputs (expected got : Digest) (data : option (list felt))
  | InvalidStorageSlotIndex (max actual : Z)
  | MalformedAccountId (e : AccountError)
  | MalformedAsset (e : AssetError)
  | MalformedAssetOnAccountVaultUpdate (e : AssetError)
  | MalformedNoteInputs (e : NoteError)
  | MalformedNoteMetadata (e : NoteError)
  | MalformedNoteScript (data : list felt)
  | MalformedNoteType (e : NoteError)
  | MalformedRecipientData (data : list felt)
  | MalformedTag (tag : felt)
  | MissingNote
  | MissingNoteDetails (m : NoteMetadata) (recipient : Digest)
  | MissingNoteInputs
  | MissingStorageSlotValue (slot : Z)
  | TooFewElementsForNoteInputs
  | UnknownAccountProcedure (root : Digest)
  | UnknownCodeCommitment (code : Digest)
  | MissingMemoryValue (address : Z).

(** ** Output notes *)

Record OutputNoteBuilder : Type := mkNoteBuilder {
  nb_metadata : NoteMetadata;
  nb_assets : NoteAssets;
  nb_recipient_digest : Digest;
  nb_recipient : option NoteRecipient
}.
Definition set_nb_assets a (b : OutputNoteBuilder) : OutputNoteBuilder :=
  mkNoteBuilder (nb_metadata b) a (nb_recipient_digest b) (nb_recipient b).

(** Indexing a vector panics out of range. *)
Definition idx {E} (l : list felt) (i : nat) : res E felt := expect_some (l !! i).
Definition idx_word {E} (l : list felt) (a b c d : nat) : res E Word :=
  w0 ← idx l a; w1 ← idx l b; w2 ← idx l c; w3 ← idx l d; Ok (mkWord w0 w1 w2 w3).

(** The inputs of the note from the advice map. *)
Definition read_note_inputs (inputs_data : option (list felt)) : res TransactionKernelError NoteInputs :=
  match inputs_data with
  | None => Ok note_inputs_default
  | Some [] => Err MissingNoteInputs
  | Some (n :: inputs) =>
      let num_inputs := as_int n in
      if num_inputs >? Z.of_nat (length inputs) then Err TooFewElementsForNoteInputs
      else map_err MalformedNoteInputs (note_inputs_new (take (Z.to_nat num_inputs) inputs))
  end.

Definition read_recipient (adv : AdviceProvider) (data : list felt) : res TransactionKernelError NoteRecipient :=
  if negb (length data =? 12)%nat then Err (MalformedRecipientData data)
  else
    inputs_hash ← idx_word data 0 1 2 3;
    script_hash ← idx_word data 4 5 6 7;
    serial_num ← idx_word data 8 9 10 11;
    let script_data := default [] (get_mapped_values adv script_hash) in
    let inputs_data := get_mapped_values adv inputs_hash in
    inputs ← read_note_inputs inputs_data;
    if decide (ni_hash inputs ≠ inputs_hash)
    then Err (InvalidNoteInputs inputs_hash (ni_hash inputs) inputs_data)
    else
      script ← map_err (λ _, MalformedNoteScript script_data) (script_try_from_elements script_data);
      recipient_new serial_num script inputs.

(** [OutputNoteBuilder::new] *)
Definition note_builder_new (stack : list felt) (adv : AdviceProvider)
    : res TransactionKernelError OutputNoteBuilder :=
  metadata_word ← idx_word stack 3 2 1 0;
  metadata ← map_err MalformedNoteMetadata (metadata_try_from_word metadata_word);
  recipient_digest ← idx_word stack 8 7 6 5;
  recipient ← match get_mapped_values adv recipient_digest with
              | Some data => r ← read_recipient adv data; Ok (Some r)
              | None => if metadata_is_private metadata then Ok None
                        else Err (MissingNoteDetails metadata recipient_digest)
              end;
  Ok (mkNoteBuilder metadata note_assets_default recipient_digest recipient).

Definition builder_add_asset (asset : Asset) : mut OutputNoteBuilder TransactionKernelError unit :=
  on_field nb_assets set_nb_assets (mut_map_err FailedToAddAssetToNote (note_add_asset asset)).

Definition builder_build {E} (b : OutputNoteBuilder) : res E OutputNote :=
  match nb_recipient b with
  | Some recipient => note ← note_new (nb_assets b) (nb_metadata b) recipient; Ok (Full note)
  | None => Ok (Partial (mkPartialNote (nb_metadata b) (nb_recipient_digest b) (nb_assets b)))
  end.

(** ** Procedure indices *)

Definition AccountProcedureIndexMap : Type := gmap Digest (gmap Digest Z).

(** [TransactionHostError::AccountProcedureIndexMapError], without its text. *)
Inductive TransactionHostError : Type := AccountProcedureIndexMapError.

(** [proc_data.chunks_exact(8).enumerate()] and the body of the loop. *)
Fixpoint index_procedures (proc_idx : Z) (chunks : list (list felt)) (account_procs_map : gmap Digest Z)
    : res TransactionHostError (gmap Digest Z) :=
  match chunks with
  | [] => Ok account_procs_map
  | proc_info :: chunks' =>
      procedure ← map_err (λ _, AccountProcedureIndexMapError) (procedure_info_from_elements proc_info);
      idx ← expect_some (try_into_u8 proc_idx);
      index_procedures (proc_idx + 1) chunks' (<[mast_root procedure := idx]> account_procs_map)
  end.
Fixpoint chunks_exact_8 (l : list felt) : list (list felt) :=
  match l with
  | a :: b :: c :: d :: e :: f :: g :: h :: l' => [a; b; c; d; e; f; g; h] :: chunks_exact_8 l'
  | _ => []
  end.

Definition build_account_procedure_map (code_commitment : Digest) (adv : AdviceProvider)
    : res TransactionHostError (gmap Digest Z) :=
  proc_data ← ok_or AccountProcedureIndexMapError (get_mapped_values adv code_commitment);
  if (length proc_data =? 0)%nat then Err AccountProcedureIndexMapError
  else if negb (length proc_data mod 8 =? 0)%nat then Err AccountProcedureIndexMapError
  else
    let num_procs := Z.of_nat (length proc_data / 8) in
    if num_procs >? MAX_NUM_PROCEDURES then Err AccountProcedureIndexMapError
    else index_procedures 0 (chunks_exact_8 proc_data) ∅.

Fixpoint proc_index_map_from (commitments : list Digest) (adv : AdviceProvider) (result : AccountProcedureIndexMap)
    : res TransactionHostError AccountProcedureIndexMap :=
  match commitments with
  | [] => Ok result
  | code_commitment :: commitments' =>
      account_procs_map ← build_account_procedure_map code_commitment adv;
      proc_index_map_from commitments' adv (<[code_commitment := account_procs_map]> result)
  end.

Definition get_proc_index (m : AccountProcedureIndexMap) (process : ProcessState)
    : res TransactionKernelError Z :=
  curr_data ← expect_some (get_mem_value process CURRENT_ACCOUNT_DATA_PTR);
  let curr_data_ptr := as_int (w0 curr_data) in
  address ← u32_add overflow_checks (as_u32 curr_data_ptr) ACCT_CODE_COMMITMENT_OFFSET;
  code_commitment ← expect_some (get_mem_value process address);
  let proc_root := get_stack_word process 0 in
  procs ← ok_or (UnknownCodeCommitment code_commitment) (m !! code_commitment);
  ok_or (UnknownAccountProcedure proc_root) (procs !! proc_root).

(** ** The host *)

(** [TransactionAuthenticator::get_signature] *)
Definition Authenticator : Type := Word → Word → AccountDelta → option (list felt).

Record TransactionHost : Type := mkHost {
  adv_provider : AdviceProvider;
  account_delta : AccountDeltaTracker;
  acct_procedure_index_map : AccountProcedureIndexMap;
  output_notes : gmap Z OutputNoteBuilder;
  authenticator : option Authenticator;
  generated_signatures : gmap Digest (list felt);
  tx_progress : TransactionProgress
}.
Definition set_adv x h := mkHost x (account_delta h) (acct_procedure_index_map h) (output_notes h)
  (authenticator h) (generated_signatures h) (tx_progress h).
Definition set_account_delta x h := mkHost (adv_provider h) x (acct_procedure_index_map h) (output_notes h)
  (authenticator h) (generated_signatures h) (tx_progress h).
Definition set_output_notes x h := mkHost (adv_provider h) (account_delta h) (acct_procedure_index_map h) x
  (authenticator h) (generated_signatures h) (tx_progress h).
Definition set_signatures x h := mkHost (adv_provider h) (account_delta h) (acct_procedure_index_map h)
  (output_notes h) (authenticator h) x (tx_progress h).
Definition set_progress x h := mkHost (adv_provider h) (account_delta h) (acct_procedure_index_map h)
  (output_notes h) (authenticator h) (generated_signatures h) x.

(** [TransactionHost::new]; the commitments are a sorted set. *)
Definition host_new (account : AccountHeader) (adv : AdviceProvider) (auth : option Authenticator)
    (account_code_commitments : gset Digest) : res TransactionHostError TransactionHost :=
  let commitments := {[ ah_code_commitment account ]} ∪ account_code_commitments in
  proc_index_map ← proc_index_map_from (btree_iter digest_leb (gset_to_gmap tt commitments)).*1 adv ∅;
  Ok (mkHost adv (tracker_new account) proc_index_map ∅ auth ∅ progress_default).

Fixpoint build_all {E} (l : list (Z * OutputNoteBuilder)) : res E (list OutputNote) :=
  match l with
  | [] => Ok []
  | (_, b) :: l' => n ← builder_build b; ns ← build_all l'; Ok (n :: ns)
  end.
(** [TransactionHost::into_parts], without the provider. *)
Definition host_into_parts {E} (h : TransactionHost)
    : res E (AccountDelta * list OutputNote * gmap Digest (list felt) * TransactionProgress) :=
  output_notes ← build_all (btree_iter Z.leb (output_notes h));
  delta ← into_delta (account_delta h);
  Ok (delta, output_notes, generated_signatures h, tx_progress h).

(** ** Event handlers *)

Definition on_note_after_created (process : ProcessState) : mut TransactionHost TransactionKernelError unit := λ h,
  let stack := get_stack_state process in
  match (n ← idx (E:=TransactionKernelError) stack 9; Ok (as_int n)) with
  | Ok note_idx =>
      if negb (note_idx =? Z.of_nat (size (output_notes h))) then (Panic, h)
      else match note_builder_new stack (adv_provider h) with
           | Ok note_builder => (Ok tt, set_output_notes (<[note_idx := note_builder]> (output_notes h)) h)
           | Err e => (Err e, h)
           | Panic => (Panic, h)
           end
  | Err e => (Err e, h)
  | Panic => (Panic, h)
  end.

Definition on_note_before_add_asset (process : ProcessState) : mut TransactionHost TransactionKernelError unit := λ h,
  match idx (E:=TransactionKernelError) (get_stack_state process) 6 with
  | Ok n =>
      let note_idx := as_int n in
      if negb (note_idx <? Z.of_nat (size (output_notes h))) then (Panic, h)
      else match map_err MalformedAsset (asset_try_from_word (get_stack_word process 0)) with
           | Ok asset =>
               match output_notes h !! note_idx with
               | None => (Err MissingNote, h)
               | Some note_builder =>
                   let '(r, b) := builder_add_asset asset note_builder in
                   (r, set_output_notes (<[note_idx := b]> (output_notes h)) h)
               end
           | Err e => (Err e, h)
           | Panic => (Panic, h)
           end
  | Err e => (Err e, h)
  | Panic => (Panic, h)
  end.

Definition on_account_push_procedure_index (process : ProcessState)
    : mut TransactionHost TransactionKernelError unit :=
  h ← get_self;
  proc_idx ← lift (get_proc_index (acct_procedure_index_map h) process);
  adv ← lift (expect_some (push_stack (felt_new proc_idx) (adv_provider h)));
  put_self (set_adv adv h).

Definition on_account_before_increment_nonce (process : ProcessState)
    : mut TransactionHost TransactionKernelError unit :=
  h ← get_self;
  put_self (set_account_delta (increment_nonce (get_stack_item process 0) (account_delta h)) h).

Definition get_num_storage_slots (process : ProcessState) : res TransactionKernelError Z :=
  w ← ok_or (MissingMemoryValue NATIVE_NUM_ACCT_STORAGE_SLOTS_PTR)
    (get_mem_value process NATIVE_NUM_ACCT_STORAGE_SLOTS_PTR);
  Ok (as_int (w0 w)).

(** Four stack items from [first] (the top one) as a word. *)
Definition stack_word (process : ProcessState) (first : nat) : Word :=
  mkWord (get_stack_item process (first + 3)) (get_stack_item process (first + 2))
    (get_stack_item process (first + 1)) (get_stack_item process first).

Definition check_slot_index (process : ProcessState) : res TransactionKernelError Z :=
  let slot_index := as_int (get_stack_item process 0) in
  num_storage_slot ← get_num_storage_slots process;
  if num_storage_slot <=? slot_index then Err (InvalidStorageSlotIndex num_storage_slot slot_index)
  else Ok slot_index.

Definition on_account_storage_after_set_item (process : ProcessState)
    : mut TransactionHost TransactionKernelError unit :=
  slot_index ← lift (check_slot_index process);
  let new_slot_value := stack_word process 1 in
  let current_slot_value := stack_word process 5 in
  h ← get_self;
  if decide (current_slot_value = new_slot_value) then mret tt
  else
    let t := account_delta h in
    put_self (set_account_delta
      (set_tr_storage (storage_delta_set_item (as_u8 slot_index) new_slot_value (tr_storage t)) t) h).

Definition on_account_storage_after_set_map_item (process : ProcessState)
    : mut TransactionHost TransactionKernelError unit :=
  slot_index ← lift (check_slot_index process);
  let new_map_key := stack_word process 1 in
  let new_map_value := stack_word process 5 in
  h ← get_self;
  let t := account_delta h in
  put_self (set_account_delta
    (set_tr_storage (storage_delta_set_map_item (as_u8 slot_index) new_map_key new_map_value (tr_storage t)) t) h).

Definition on_account_vault_after_add_asset (process : ProcessState)
    : mut TransactionHost TransactionKernelError unit :=
  asset ← lift (map_err MalformedAssetOnAccountVaultUpdate (asset_try_from_word (get_stack_word process 0)));
  on_field account_delta set_account_delta
    (on_field tr_vault set_tr_vault (mut_map_err KernelAccountDeltaError (vault_delta_add_asset asset))).

Definition on_account_vault_after_remove_asset (process : ProcessState)
    : mut TransactionHost TransactionKernelError unit :=
  asset ← lift (map_err MalformedAssetOnAccountVaultUpdate (asset_try_from_word (get_stack_word process 0)));
  on_field account_delta set_account_delta
    (on_field tr_vault set_tr_vault (mut_map_err KernelAccountDeltaError (vault_delta_remove_asset asset))).

(** [ExecutionError], as far as the host builds it. *)
Inductive ExecutionError : Type :=
  | UnknownEvent (e : EventParsingError)
  | NotRootContext (e : TransactionEvent)
  | EventError (e : TransactionKernelError)
  | MemoryAddressOutOfBounds (address : Z)
  | FailedSignatureGeneration
  | AdviceStackError.

Definition handle_event (event : TransactionEvent) (process : ProcessState)
    : mut TransactionHost TransactionKernelError unit :=
  match event with
  | AccountVaultBeforeAddAsset => mret tt
  | AccountVaultAfterAddAsset => on_account_vault_after_add_asset process
  | AccountVaultBeforeRemoveAsset => mret tt
  | AccountVaultAfterRemoveAsset => on_account_vault_after_remove_asset process
  | AccountStorageBeforeSetItem => mret tt
  | AccountStorageAfterSetItem => on_account_storage_after_set_item process
  | AccountStorageBeforeSetMapItem => mret tt
  | AccountStorageAfterSetMapItem => on_account_storage_after_set_map_item process
  | AccountBeforeIncrementNonce => on_account_before_increment_nonce process
  | AccountAfterIncrementNonce => mret tt
  | AccountPushProcedureIndex => on_account_push_procedure_index process
  | NoteBeforeCreated => mret tt
  | NoteAfterCreated => on_note_after_created process
  | NoteBeforeAddAsset => on_note_before_add_asset process
  | NoteAfterAddAsset => mret tt
  end.

(** [Host::on_event] *)
Definition on_event (process : ProcessState) (event_id : Z) : mut TransactionHost ExecutionError unit :=
  event ← lift (map_err UnknownEvent (event_try_from event_id));
  lift (if negb (ctx_is_root process) then Err (NotRootContext event) else Ok tt) ;;
  mut_map_err EventError (handle_event event process).

(** [get_current_note_id] *)
Definition get_current_note_id (process : ProcessState) : res ExecutionError (option Digest) :=
  match get_mem_value process CURRENT_INPUT_NOTE_PTR with
  | None => Ok None
  | Some w =>
      note_address ← ok_or (MemoryAddressOutOfBounds (as_int (w0 w))) (try_into_u32 (as_int (w0 w)));
      if note_address =? 0 then Ok None else Ok (get_mem_value process note_address)
  end.

(** [Host::on_trace] *)
Definition on_trace (process : ProcessState) (trace_id : Z) : mut TransactionHost ExecutionError unit :=
  event ← lift (map_err UnknownEvent (trace_try_from trace_id));
  h ← get_self;
  let c := clk process in
  let update f := put_self (set_progress (f (tx_progress h)) h) in
  match event with
  | PrologueStart => update (start_prologue c)
  | PrologueEnd => update (end_prologue c)
  | NotesProcessingStart => update (start_notes_processing c)
  | NotesProcessingEnd => update (end_notes_processing c)
  | NoteExecutionStart =>
      id ← lift (get_current_note_id process);
      note_id ← lift (expect_some id);
      update (start_note_execution c note_id)
  | NoteExecutionEnd => update (end_note_execution c)
  | TxScriptProcessingStart => update (start_tx_script_processing c)
  | TxScriptProcessingEnd => update (end_tx_script_processing c)
  | EpilogueStart => update (start_epilogue c)
  | EpilogueEnd => update (end_epilogue c)
  end.

(** [on_signature_requested] *)
Definition push_item (r : felt) : mut TransactionHost ExecutionError unit :=
  h ← get_self;
  adv ← lift (ok_or AdviceStackError (push_stack r (adv_provider h)));
  put_self (set_adv adv h).
Definition on_signature_requested (process : ProcessState) : mut TransactionHost ExecutionError unit :=
  let pub_key := get_stack_word process 0 in
  let msg := get_stack_word process 1 in
  let signature_key := hash_merge pub_key msg in
  h ← get_self;
  signature ←
    match get_mapped_values (adv_provider h) signature_key with
    | Some signature => mret signature
    | None =>
        delta ← lift (into_delta (account_delta h));
        match authenticator h with
        | None => lift (Err FailedSignatureGeneration)
        | Some authenticator =>
            signature ← lift (ok_or FailedSignatureGeneration (authenticator pub_key msg delta));
            put_self (set_signatures (<[signature_key := signature]> (generated_signatures h)) h) ;;
            mret signature
        end
    end;
  for_each signature push_item.

(** ** Runs of the kernel

    The kernel is not part of the development. [emits] states the documented
    stack contents of the event that it emits for an operation on the account
    [a], and [kernel_run] the sequences of events of a transaction: operations
    that succeed on the account, with other events in between, and changes of the
    code, for which there is no event. *)

Inductive emits (a : Account) : account_op → TransactionEvent → ProcessState → Prop :=
  | emit_add_asset asset ps :
      get_stack_word ps 0 = asset_to_word asset →
      emits a (OpAddAsset asset) AccountVaultAfterAddAsset ps
  | emit_remove_asset asset ps :
      get_stack_word ps 0 = asset_to_word asset →
      emits a (OpRemoveAsset asset) AccountVaultAfterRemoveAsset ps
  | emit_set_item i w ps n :
      get_stack_item ps 0 = felt_new i → stack_word ps 1 = w →
      get_item (acct_storage a) i = Ok (stack_word ps 5) →
      get_mem_value ps NATIVE_NUM_ACCT_STORAGE_SLOTS_PTR = Some n →
      as_int (w0 n) = Z.of_nat (length (slots (acct_storage a))) →
      emits a (OpSetItem i w) AccountStorageAfterSetItem ps
  | emit_set_map_item i k w ps n :
      get_stack_item ps 0 = felt_new i → stack_word ps 1 = k → stack_word ps 5 = w →
      get_mem_value ps NATIVE_NUM_ACCT_STORAGE_SLOTS_PTR = Some n →
      as_int (w0 n) = Z.of_nat (length (slots (acct_storage a))) →
      emits a (OpSetMapItem i k w) AccountStorageAfterSetMapItem ps
  | emit_incr_nonce v ps :
      get_stack_item ps 0 = v →
      emits a (OpIncrNonce v) AccountBeforeIncrementNonce ps.

(** Events that do not concern the account, and those among them that the host
    only acknowledges. *)
Definition other_event (e : TransactionEvent) : bool :=
  match e with
  | AccountVaultAfterAddAsset | AccountVaultAfterRemoveAsset | AccountStorageAfterSetItem
  | AccountStorageAfterSetMapItem | AccountBeforeIncrementNonce => false
  | _ => true
  end.
Definition silent_event (e : TransactionEvent) : bool :=
  match e with
  | AccountPushProcedureIndex | NoteAfterCreated | NoteBeforeAddAsset => false
  | e => other_event e
  end.

Definition set_acct_code c (a : Account) : Account := mkAccount (acct_id a) (acct_vault a) (acct_storage a) c (acct_nonce a).

Inductive kernel_run : Account → list (TransactionEvent * ProcessState) → Account → Prop :=
  | run_end a : kernel_run a [] a
  | run_account a op a1 e ps l a' :
      valid_op op → run_op op a = (Ok tt, a1) → emits a op e ps → ctx_is_root ps = true →
      kernel_run a1 l a' → kernel_run a ((e, ps) :: l) a'
  | run_other a e ps l a' :
      other_event e = true → ctx_is_root ps = true →
      kernel_run a l a' → kernel_run a ((e, ps) :: l) a'
  | run_set_code a code l a' :
      account_type (acct_id a) = RegularAccountUpdatableCode →
      kernel_run (set_acct_code code a) l a' → kernel_run a l a'.

(** Some event concerns the account. *)
Definition touches_account (l : list (TransactionEvent * ProcessState)) : Prop := Exists (λ x, other_event x.1 = false) l.

(** The host can describe a run exactly when the code stays and no asset of amount
    zero is stored or passed to the vault. *)
Definition positive_event (x : TransactionEvent * ProcessState) : Prop :=
  match x.1 with
  | AccountVaultAfterAddAsset | AccountVaultAfterRemoveAsset =>
      ∀ f, valid_fungible f → get_stack_word x.2 0 = fungible_to_word f → 0 < fa_amount f
  | _ => True
  end.
Definition exact_run (a : Account) (l : list (TransactionEvent * ProcessState)) (a' : Account) : Prop :=
  positive_vault (acct_vault a) ∧ Forall positive_event l ∧ acct_code a' = acct_code a.

(** The delta [d] describes a run from [a] to [a']: it applies to [a], and the
    result [a''] has the id, the storage, the nonce, the balances and the
    non-fungible assets of [a'] and the code of [a]; after an exact run it has the
    same contents and the same hash as [a']. *)
Record describes_run (a : Account) (l : list (TransactionEvent * ProcessState)) (a' : Account) (d : AccountDelta)
    (a'' : Account) : Prop := {
  dr_valid : valid_account_delta d;
  dr_apply : account_apply_delta d a = (Ok tt, a'');
  dr_agree : account_agree a'' a';
  dr_code : acct_code a'' = acct_code a;
  dr_exact : exact_run a l a' → account_equiv a'' a' ∧ account_hash a'' = account_hash a'
}.
(** The run changed the account, or wrote to it what it already had, and left the
    nonce as it was. *)
Definition stale_run (a : Account) (l : list (TransactionEvent * ProcessState)) (a' : Account) : Prop :=
  acct_nonce a' = acct_nonce a ∧ touches_account l.

Definition host_run (l : list (TransactionEvent * ProcessState)) : mut TransactionHost ExecutionError unit :=
  for_each l (λ x, on_event x.2 (event_id x.1)).

Lemma event_roundtrip e : event_try_from (event_id e) = Ok e.
Proof. by destruct e. Qed.

Lemma on_event_root ps e h :
  ctx_is_root ps = true → on_event ps (event_id e) h = mut_map_err EventError (handle_event e ps) h.
Proof. intros Hr. unfold on_event, mbind, mut_bind, lift. by rewrite event_roundtrip, Hr. Qed.

Lemma set_account_delta_eta h : set_account_delta (account_delta h) h = h.
Proof. by destruct h. Qed.

Lemma check_slot_index_Ok a i ps n old x s' :
  0 ≤ i < 2 ^ 8 → get_stack_item ps 0 = felt_new i →
  get_mem_value ps NATIVE_NUM_ACCT_STORAGE_SLOTS_PTR = Some n →
  as_int (w0 n) = Z.of_nat (length (slots (acct_storage a))) →
  (∃ w, set_item i w (acct_storage a) = (Ok old, s')) ∨
  (∃ k w, set_map_item i k w (acct_storage a) = (Ok x, s')) →
  check_slot_index ps = Ok i.
Proof.
  intros Hi Es Em En Hset. unfold check_slot_index, get_num_storage_slots. rewrite Es, Em. cbn.
  rewrite as_int_small, En by (unfold MODULUS; lia).
  destruct (Z.leb_spec (Z.of_nat (length (slots (acct_storage a)))) i) as [Hle|]; [|done].
  exfalso. destruct Hset as [(w & E)|(k & w & E)]; unfold set_item, set_map_item in E;
    by rewrite (proj2 (Z.leb_le _ _) Hle) in E.
Qed.

(** The host records what the tracker does for the operation. *)
Lemma handle_account_event a op a1 e ps :
  valid_op op → run_op op a = (Ok tt, a1) → emits a op e ps →
  ∃ current, (∀ i w, op = OpSetItem i w → get_item (acct_storage a) i = Ok current) ∧
    ∀ h t', track_op current op (account_delta h) = (Ok tt, t') →
      handle_event e ps h = (Ok tt, set_account_delta t' h).
Proof.
  intros Hop Hrun Hem.
  destruct Hem as [asset ps Hw|asset ps Hw|i w ps n Hi Hw Hc Hm Hn|i k w ps n Hi Hk Hw Hm Hn|v ps Hv];
    cbn [handle_event valid_op run_op track_op] in *.
  - exists EMPTY_WORD. split; [done|]. intros h t' Htr.
    unfold on_account_vault_after_add_asset, mbind, mut_bind, lift. rewrite Hw, asset_word_roundtrip by done.
    cbn [map_err]. unfold on_field, mut_map_err in *.
    destruct (vault_delta_add_asset asset (tr_vault (account_delta h))) as [[[]|er|] d]; [|discriminate..].
    injection Htr as <-. done.
  - exists EMPTY_WORD. split; [done|]. intros h t' Htr.
    unfold on_account_vault_after_remove_asset, mbind, mut_bind, lift. rewrite Hw, asset_word_roundtrip by done.
    cbn [map_err]. unfold on_field, mut_map_err in *.
    destruct (vault_delta_remove_asset asset (tr_vault (account_delta h))) as [[[]|er|] d]; [|discriminate..].
    injection Htr as <-. done.
  - exists (stack_word ps 5). split; [by intros ?? [= <- <-]|]. intros h t' Htr.
    unfold on_account_storage_after_set_item, mbind, mut_bind, lift, get_self, put_self.
    unfold mbind, mut_bind, on_field in Hrun.
    destruct (set_item i w (acct_storage a)) as [[old|er|] s'] eqn:E; [|discriminate..].
    rewrite (check_slot_index_Ok a i ps n old (w, w) s') by (done || left; by exists w).
    unfold as_u8. rewrite Z.mod_small, Hw by lia. cbn [map_err].
    case_decide; injection Htr as <-; [by rewrite set_account_delta_eta|done].
  - exists EMPTY_WORD. split; [done|]. intros h t' Htr. injection Htr as <-.
    unfold on_account_storage_after_set_map_item, mbind, mut_bind, lift, get_self, put_self.
    unfold mbind, mut_bind, on_field in Hrun.
    destruct (set_map_item i k w (acct_storage a)) as [[old|er|] s'] eqn:E; [|discriminate..].
    rewrite (check_slot_index_Ok a i ps n w old s') by (done || right; by exists k, w).
    unfold as_u8. by rewrite Z.mod_small, Hw, Hk by lia.
  - exists EMPTY_WORD. split; [done|]. intros h t' Htr. injection Htr as <-.
    unfold on_account_before_increment_nonce, mbind, mut_bind, get_self, put_self. by rewrite Hv.
Qed.

(** Events that do not concern the account leave the tracker alone. *)
Lemma handle_other_event e ps h r h' :
  other_event e = true → handle_event e ps h = (r, h') →
  account_delta h' = account_delta h ∧ (silent_event e = true → r = Ok tt).
Proof.
  intros Ho. destruct e; cbn [other_event silent_event handle_event] in *; try discriminate Ho;
    try (intros [= <- <-]; done).
  - unfold on_account_push_procedure_index, mbind, mut_bind, lift, get_self, put_self.
    destruct (get_proc_index _ _) as [x|er|]; [|intros [= <- <-]; done..].
    destruct (push_stack _ _) as [adv|]; cbn [expect_some]; intros [= <- <-]; done.
  - unfold on_note_after_created. repeat case_match; intros [= <- <-]; done.
  - unfold on_note_before_add_asset. repeat case_match; intros E; inversion E; subst; done.
Qed.

Lemma emits_positive a op e ps : valid_op op → emits a op e ps → positive_event (e, ps) → positive_op op.
Proof.
  intros Hop Hem. destruct Hem as [[f|x] ps Hw|[f|x] ps Hw|? ? ? ? ? ? ? ? ?|? ? ? ? ? ? ? ? ? ?|? ? ?]; cbn; try done;
    intros Hp; by apply (Hp f Hop).
Qed.
Lemma emits_touches a op e ps : emits a op e ps → other_event e = false.
Proof. by destruct 1. Qed.

Lemma host_run_tracks a0 a l a' h r h' :
  wf_vault (acct_vault a0) → kernel_run a l a' → tracks a0 (account_delta h) a → host_run l h = (r, h') →
  (Forall (λ x, other_event x.1 = true → silent_event x.1 = true) l → r = Ok tt) ∧
  (r = Ok tt → tracks a0 (account_delta h') a' ∧
     (Forall positive_event l → tracks_positive (account_delta h) a → tracks_positive (account_delta h') a') ∧
     (Forall (λ x, other_event x.1 = true) l → account_delta h' = account_delta h)).
Proof.
  intros H0 Hrun. revert h r h'.
  induction Hrun as [a|a op a1 e ps l a' Hop Hrun Hem Hroot _ IH|a e ps l a' He Hroot _ IH|a code l a' _ _ IH];
    intros h r h' Ht.
  - cbn [host_run for_each]. intros [= <- <-]. done.
  - cbn [host_run for_each]. unfold mbind, mut_bind. cbn [fst snd].
    destruct (handle_account_event a op a1 e ps Hop Hrun Hem) as (current & Hcur & Hhandle).
    destruct (tracks_step a0 _ a op a1 current H0 Ht Hop Hrun Hcur) as (t' & Htr & Ht' & Hpos).
    rewrite on_event_root by done. unfold mut_map_err. rewrite (Hhandle h t' Htr). cbn [map_err].
    intros Hl. destruct (IH (set_account_delta t' h) r h' Ht' Hl) as [H1 H2].
    split; [intros [_ Hf]%Forall_cons; by apply H1|]. intros Hr. destruct (H2 Hr) as (T1 & T2 & T3). split_and!; [done|..].
    + intros [Hp Hf]%Forall_cons Hpo. apply T2; [done|]. apply Hpos; [by eapply emits_positive|done].
    + intros [Ho _]%Forall_cons. apply emits_touches in Hem. cbn in Ho. congruence.
  - cbn [host_run for_each]. unfold mbind, mut_bind. cbn [fst snd]. rewrite on_event_root by done. unfold mut_map_err.
    destruct (handle_event e ps h) as [r1 h1] eqn:E.
    destruct (handle_other_event e ps h r1 h1 He E) as [Hd Hs].
    assert (tracks a0 (account_delta h1) a) as Ht1 by (by rewrite Hd).
    destruct r1 as [[]|er|]; cbn [map_err].
    + intros Hl. destruct (IH h1 r h' Ht1 Hl) as [H1 H2]. rewrite Hd in H2.
      split; [intros [_ Hf]%Forall_cons; by apply H1|]. intros Hr. destruct (H2 Hr) as (T1 & T2 & T3). split_and!; [done|..].
      * intros [_ Hf]%Forall_cons. by apply T2.
      * intros [_ Hf]%Forall_cons. by apply T3.
    + intros [= <- <-]. split; [|discriminate]. intros [Hf _]%Forall_cons. by specialize (Hs (Hf He)).
    + intros [= <- <-]. split; [|discriminate]. intros [Hf _]%Forall_cons. by specialize (Hs (Hf He)).
  - apply IH. destruct Ht. by split.
Qed.

(** What the host's delta says after a run. *)
Lemma tracked_delta {E} a l a' t :
  wf_vault (acct_vault a) → tracks a t a' → as_int (acct_nonce a) ≤ as_int (acct_nonce a') →
  (exact_run a l a' → tracks_positive t a') →
  (Forall (λ x, other_event x.1 = true) l → t = tracker_new (account_header_from a)) →
  (∃ d a'', into_delta (E:=E) t = Ok d ∧ describes_run a l a' d a'' ∧
     ad_nonce d = (if decide (acct_nonce a' = acct_nonce a) then None else Some (acct_nonce a'))) ∨
  (into_delta (E:=E) t = Panic ∧ stale_run a l a').
Proof.
  intros Hv Ht Hle Hpos Hno. destruct (tracks_into_delta (E:=E) a t a' Ht Hle) as [[Hd Hval]|(Hd & Hn & Hrec)]; [left|right].
  - destruct (tracks_apply a t a' Hv Ht Hle) as (a'' & Happ & Hag & Hc & Heq).
    eexists _, a''. split; [exact Hd|]. split; [|done].
    constructor; [split_and!; [apply Ht|apply Ht|exact Hval]|done..|].
    intros Hex. pose proof Hex as (Hp & _ & Ec). assert (account_equiv a'' a') as Heq' by (by apply Heq; [|apply Hpos|]).
    split; [done|by apply account_hash_proper].
  - split; [done|]. split; [done|]. destruct (decide (Forall (λ x, other_event x.1 = true) l)) as [Hf|Hf].
    + exfalso. apply Hrec. by rewrite (Hno Hf).
    + apply not_Forall_Exists in Hf; [|apply _]. eapply Exists_impl; [exact Hf|]. intros x Hx. destruct (other_event x.1) eqn:Ex; [exfalso; by apply Hx|done].
Qed.

(** ** Reading a recipient from the advice map *)

(** The advice provider holds the recipient [r]. *)
Definition advice_has_recipient (adv : AdviceProvider) (r : NoteRecipient) (root : Digest) : Prop :=
  map_has_recipient (get_mapped_values adv) r root.

Lemma read_note_inputs_Ok i data :
  wf_inputs i → inputs_format_for_advice (E:=Empty_set) false i = Ok data →
  read_note_inputs (Some data) = Ok i.
Proof.
  intros [Hn Hi] Hf. unfold inputs_format_for_advice, num_values, as_u8, MAX_INPUTS_PER_NOTE in *.
  cbn [andb mbind res_bind] in Hf. rewrite Z.mod_small in Hf by lia. injection Hf as <-.
  cbn [read_note_inputs]. rewrite as_int_small by (unfold MODULUS; lia).
  rewrite pad_inputs_eq, length_app, Z.gtb_ltb.
  destruct (Z.ltb_spec (Z.of_nat (length (ni_values i) + length (replicate (padding (length (ni_values i))) ZERO)))
    (Z.of_nat (length (ni_values i)))); [lia|].
  rewrite Nat2Z.id, take_app_length. assert (note_inputs_new (ni_values i) = Ok i) as ->; [|done].
  by apply note_inputs_new_Ok.
Qed.

Lemma read_recipient_Ok adv r root :
  wf_recipient r → Forall (λ x, 0 ≤ x < 2 ^ 8) (write_mast (ns_mast (nr_script r))) →
  advice_has_recipient adv r root →
  ∃ data, get_mapped_values adv (nr_digest r) = Some data ∧ read_recipient adv data = Ok r.
Proof.
  intros [Hs Hi Hd] Hb [Hroot Hdata (idata & Hin & Hidata) Hscr].
  eexists. split; [exact Hdata|]. unfold read_recipient. cbn [app word_elements length Nat.eqb negb].
  unfold idx_word, idx, word_elements. cbn [lookup list_lookup expect_some mbind res_bind].
  replace (mkWord (w0 (ni_hash (nr_inputs r))) (w1 (ni_hash (nr_inputs r))) (w2 (ni_hash (nr_inputs r)))
    (w3 (ni_hash (nr_inputs r)))) with (ni_hash (nr_inputs r)) by (by destruct (ni_hash (nr_inputs r))).
  replace (mkWord (w0 root) (w1 root) (w2 root) (w3 root)) with root by (by destruct root).
  replace (mkWord (w0 (nr_serial_num r)) (w1 (nr_serial_num r)) (w2 (nr_serial_num r)) (w3 (nr_serial_num r)))
    with (nr_serial_num r) by (by destruct (nr_serial_num r)).
  rewrite Hidata, Hscr. rewrite (read_note_inputs_Ok _ _ Hi Hin). cbn [mbind res_bind].
  rewrite decide_False by (by intros []). unfold default, from_option, id.
  rewrite script_elements_reads_back by done. cbn [map_err mbind res_bind]. apply Hd.
Qed.

Lemma note_builder_new_Ok stack adv m r data :
  valid_metadata m →
  idx_word (E:=TransactionKernelError) stack 3 2 1 0 = Ok (metadata_to_word m) →
  idx_word (E:=TransactionKernelError) stack 8 7 6 5 = Ok (nr_digest r) →
  get_mapped_values adv (nr_digest r) = Some data → read_recipient adv data = Ok r →
  note_builder_new stack adv = Ok (mkNoteBuilder m note_assets_default (nr_digest r) (Some r)).
Proof.
  intros Hm Hst Hst' Hdata Hread.
  assert (map_err MalformedNoteMetadata (metadata_try_from_word (metadata_to_word m)) = Ok m) as Em
    by (by rewrite metadata_word_roundtrip).
  unfold note_builder_new. rewrite (res_bind_Ok _ _ _ Hst), (res_bind_Ok _ _ _ Em), (res_bind_Ok _ _ _ Hst'), Hdata.
  rewrite (res_bind_Ok _ _ _ Hread), (res_bind_Ok (Ok (Some r)) _ _ eq_refl). reflexivity.
Qed.

Lemma builder_build_full {E} m assets a0 digest r n :
  note_new (E:=E) assets m r = Ok n →
  builder_build (E:=E) (set_nb_assets assets (mkNoteBuilder m a0 digest (Some r))) = Ok (Full n).
Proof.
  intros Hn. unfold builder_build. cbn [set_nb_assets nb_recipient nb_assets nb_metadata].
  rewrite Hn. reflexivity.
Qed.

(** ** Theorems *)

(** C3. The delta that the host records describes the change of the account. Take a
    well-formed vault, a host for the account, and the events that the kernel
    emits for operations that succeed on the account, mixed with any other events
    and with changes of the code, in a run after which the nonce is not smaller
    than before. The host records each event without an error, unless one of the
    events that do not concern the account fails; and when the run completes, one
    of two things happens. Either the host gives a valid delta, which applies to
    the account before the transaction, and the result has the id, the storage,
    the nonce, the balances and the non-fungible assets of the account after it
    and the code of before; if in addition the code did not change and no asset of
    amount zero was in the vault or passed to it, it has the same contents and the
    same hash. Or changes were recorded although the nonce is as it was, and
    giving up the delta panics. *)
Theorem host_delta_sound a l a' h r h' :
  wf_vault (acct_vault a) → kernel_run a l a' → as_int (acct_nonce a) ≤ as_int (acct_nonce a') →
  account_delta h = tracker_new (account_header_from a) → host_run l h = (r, h') →
  (Forall (λ x, other_event x.1 = true → silent_event x.1 = true) l → r = Ok tt) ∧
  (r = Ok tt →
   (∃ d a'', into_delta (E:=ExecutionError) (account_delta h') = Ok d ∧ describes_run a l a' d a'') ∨
   (into_delta (E:=ExecutionError) (account_delta h') = Panic ∧ stale_run a l a')).
Proof.
  intros Hv Hrun Hle Hh Hhost.
  destruct (host_run_tracks a a l a' h r h' Hv Hrun) as [H1 H2]; [rewrite Hh; by apply tracks_init|done|].
  split; [done|]. intros Hr. destruct (H2 Hr) as (T1 & T2 & T3). rewrite Hh in T2, T3.
  destruct (tracked_delta (E:=ExecutionError) a l a' (account_delta h') Hv T1 Hle) as [(d & a'' & Hd & Hdr & _)|Hp].
  - intros (Hp & Hl & _). apply T2; [done|]. split; [apply map_Forall_empty|done].
  - exact T3.
  - left. by exists d, a''.
  - by right.
Qed.

(** A change of the code is not recorded: a transaction that sets new code and
    increments the nonce, as the kernel allows for updatable accounts, gives a
    delta that applies and leaves the old code. *)
Theorem code_update_untracked a code ps a1 h :
  wf_vault (acct_vault a) → account_type (acct_id a) = RegularAccountUpdatableCode → code ≠ acct_code a →
  ctx_is_root ps = true → run_op (OpIncrNonce (get_stack_item ps 0)) (set_acct_code code a) = (Ok tt, a1) →
  as_int (acct_nonce a) < as_int (acct_nonce a1) → account_delta h = tracker_new (account_header_from a) →
  let l := [(AccountBeforeIncrementNonce, ps)] in
  kernel_run a l a1 ∧
  ∃ h' d a'', host_run l h = (Ok tt, h') ∧ into_delta (E:=ExecutionError) (account_delta h') = Ok d ∧
    account_apply_delta d a = (Ok tt, a'') ∧ acct_code a1 = code ∧ acct_code a'' = acct_code a.
Proof.
  intros Hv Hty Hne Hroot Hop Hlt Hh l.
  assert (kernel_run a l a1) as Hrun.
  { apply run_set_code with code; [done|]. apply (run_account _ (OpIncrNonce (get_stack_item ps 0)) a1); [exact I|done|by constructor|done|apply run_end]. }
  split; [done|]. destruct (host_run l h) as [r h'] eqn:Hhost.
  destruct (host_run_tracks a a l a1 h r h' Hv Hrun) as [H1 H2]; [rewrite Hh; by apply tracks_init|done|].
  assert (r = Ok tt) as -> by (apply H1; by repeat constructor). destruct (H2 eq_refl) as (T1 & T2 & T3). rewrite Hh in T2, T3.
  destruct (tracked_delta (E:=ExecutionError) a l a1 (account_delta h') Hv T1) as [(d & a'' & Hd & [_ Happ _ Hc _] & _)|(_ & Hn & _)].
  - lia.
  - intros (Hp & Hl & _). apply T2; [done|]. split; [apply map_Forall_empty|done].
  - exact T3.
  - exists h', d, a''. split_and!; try done. cbn in Hop. by injection Hop as <-.
  - rewrite Hn in Hlt. lia.
Qed.

(** The host panics on a signature request that comes too early: when
    changes have been recorded, the nonce has not been incremented and the
    signature is not in the advice map, the recorded delta is not valid and
    unwrapping it fails, with or without an authenticator. *)
Theorem early_signature_panics ps h :
  tr_storage (account_delta h) ≠ storage_delta_default ∨ tr_vault (account_delta h) ≠ vault_delta_default →
  tr_nonce_delta (account_delta h) = ZERO →
  get_mapped_values (adv_provider h) (hash_merge (get_stack_word ps 0) (get_stack_word ps 1)) = None →
  (on_signature_requested ps h).1 = Panic.
Proof.
  intros Hne Hz Hadv. unfold on_signature_requested, mbind, mut_bind, get_self, lift. rewrite Hadv.
  assert (into_delta (E:=ExecutionError) (account_delta h) = Panic) as ->; [|done].
  unfold into_delta, account_delta_new. rewrite decide_False by (by intros []).
  destruct (validate_nonce _ _ _) as [[]|e|] eqn:E; [|done..].
  apply validate_nonce_Ok in E as [[Es Ev]|(n & [=] & _)]. by destruct Hne.
Qed.

(** C23. Output notes are reconstructed: when the advice map holds a recipient
    in the form in which it is prepared for the kernel and the stack holds the
    words of valid metadata and the recipient's digest, the builder is created
    with exactly that metadata and recipient, and after assets were added it
    builds the full note of them, without a panic. *)
Theorem output_note_reconstructed adv r root m stack :
  wf_recipient r → Forall (λ x, 0 ≤ x < 2 ^ 8) (write_mast (ns_mast (nr_script r))) →
  advice_has_recipient adv r root → valid_metadata m →
  idx_word (E:=TransactionKernelError) stack 3 2 1 0 = Ok (metadata_to_word m) →
  idx_word (E:=TransactionKernelError) stack 8 7 6 5 = Ok (nr_digest r) →
  ∃ b, note_builder_new stack adv = Ok b ∧
    ∀ assets, wf_note_assets assets →
    ∃ n, builder_build (E:=ExecutionError) (set_nb_assets assets b) = Ok (Full n) ∧ wf_note n ∧
      nd_recipient (note_details n) = r ∧ nd_assets (note_details n) = assets ∧
      nh_metadata (note_header n) = m.
Proof.
  intros Hr Hb Hadv Hm Hst Hst'. destruct (read_recipient_Ok adv r root Hr Hb Hadv) as (data & Hdata & Hread).
  exists (mkNoteBuilder m note_assets_default (nr_digest r) (Some r)). split.
  - by apply (note_builder_new_Ok _ _ _ _ data).
  - intros assets Ha. destruct (note_new_wf (E:=ExecutionError) assets m r Ha Hm Hr) as (n & En & Hn & Ed & Em).
    exists n. split; [by apply builder_build_full|]. split; [done|]. by rewrite Ed.
Qed.

(** ** Procedure indices *)

Lemma chunks_of_procedures l :
  chunks_exact_8 (procedures_as_elements l) = procedure_info_to_elements <$> l.
Proof.
  induction l as [|p l IH]; [done|]. unfold procedures_as_elements. cbn [fmap list_fmap mjoin list_join].
  destruct p as [[a b c d] o n]. cbn [procedure_info_to_elements word_elements app mast_root w0 w1 w2 w3
    storage_offset storage_size chunks_exact_8]. f_equal. exact IH.
Qed.

Lemma length_procedures_as_elements l : length (procedures_as_elements l) = (length l * 8)%nat.
Proof.
  unfold procedures_as_elements. induction l as [|p l IH]; [done|].
  change (length (procedure_info_to_elements p ++ mjoin (procedure_info_to_elements <$> l)) = (8 + length l * 8)%nat).
  by rewrite length_app, IH.
Qed.

Lemma index_procedures_Ok k l m :
  0 ≤ k → k + Z.of_nat (length l) ≤ 256 → Forall valid_procedure l → NoDup (mast_root <$> l) →
  ∃ m', index_procedures k (procedure_info_to_elements <$> l) m = Ok m' ∧
    (∀ i p, l !! i = Some p → m' !! mast_root p = Some (k + Z.of_nat i)) ∧
    (∀ d, d ∉ mast_root <$> l → m' !! d = m !! d).
Proof.
  intros Hk Hn Hl. revert k m Hk Hn. induction Hl as [|p l Hp Hl IH]; intros k m Hk Hn ND.
  { exists m. done. }
  rewrite fmap_cons, NoDup_cons in ND. destruct ND as [Hni ND]. cbn [length] in Hn.
  cbn [fmap list_fmap index_procedures]. rewrite procedure_elements_roundtrip by done.
  cbn [map_err mbind res_bind]. rewrite try_into_u8_small by lia. cbn [expect_some mbind res_bind].
  destruct (IH (k + 1) (<[mast_root p := k]> m)) as (m' & Hm' & Hin & Hout); [lia|lia|done|].
  exists m'. split; [done|]. split.
  - intros [|i] q Hq.
    + injection Hq as <-. rewrite Hout, lookup_insert_eq by done. f_equal. lia.
    + rewrite (Hin i q Hq). f_equal. lia.
  - intros d Hd. apply not_elem_of_cons in Hd as [Hd Hd']. rewrite Hout by done.
    by rewrite lookup_insert_ne.
Qed.

Lemma build_map_Ok code adv m :
  wf_code code → get_mapped_values adv (code_commitment code) = Some (procedures_as_elements (procedures code)) →
  index_procedures 0 (procedure_info_to_elements <$> procedures code) ∅ = Ok m →
  build_account_procedure_map (code_commitment code) adv = Ok m.
Proof.
  intros (Hn & Hall & _) Hadv Hm. unfold MAX_NUM_PROCEDURES in Hn.
  unfold build_account_procedure_map. rewrite Hadv. cbn [ok_or mbind res_bind].
  rewrite length_procedures_as_elements, chunks_of_procedures.
  destruct (Nat.eqb_spec (length (procedures code) * 8) 0); [lia|].
  rewrite Nat.Div0.mod_mul, Nat.div_mul by done. cbn [Nat.eqb negb].
  unfold MAX_NUM_PROCEDURES. destruct (Z.gtb_spec (Z.of_nat (length (procedures code))) 256); [lia|done].
Qed.

(** The index map of an account's procedures: when the advice map holds the
    elements of well-formed code whose procedures have different roots, the map
    is built, and it sends every procedure root to the position of the
    procedure and knows no other root. *)
Theorem procedure_index_map_spec code adv :
  wf_code code → NoDup (mast_root <$> procedures code) →
  get_mapped_values adv (code_commitment code) = Some (procedures_as_elements (procedures code)) →
  ∃ m, build_account_procedure_map (code_commitment code) adv = Ok m ∧
    (∀ i p, procedures code !! i = Some p → m !! mast_root p = Some (Z.of_nat i)) ∧
    (∀ d, is_Some (m !! d) → d ∈ mast_root <$> procedures code).
Proof.
  intros Hw ND Hadv. pose proof Hw as (Hn & Hall & _). unfold MAX_NUM_PROCEDURES in Hn.
  destruct (index_procedures_Ok 0 (procedures code) ∅) as (m & Hm & Hin & Hout); [lia|lia|done|done|].
  exists m. split; [by apply build_map_Ok|].
  split; [intros i p Hp; by rewrite (Hin i p Hp)|]. intros d [x Hd].
  destruct (decide (d ∈ mast_root <$> procedures code)) as [|Hni]; [done|].
  rewrite Hout, lookup_empty in Hd by done. discriminate.
Qed.

(** ** The calls of the VM *)

(** [get_advice] and the advice injectors other than the request for a signature
    are left to the advice provider, which can change in any way. *)
Inductive host_call : Type :=
  | CallEvent (ps : ProcessState) (event_id : Z)
  | CallTrace (ps : ProcessState) (trace_id : Z)
  | CallSignature (ps : ProcessState)
  | CallAdvice (adv : AdviceProvider).
Definition run_call (c : host_call) : mut TransactionHost ExecutionError unit :=
  match c with
  | CallEvent ps id => on_event ps id
  | CallTrace ps id => on_trace ps id
  | CallSignature ps => on_signature_requested ps
  | CallAdvice adv => λ h, (Ok tt, set_adv adv h)
  end.

(** The output notes are numbered from zero without gaps. *)
Definition dense (m : gmap Z OutputNoteBuilder) : Prop := ∀ i, is_Some (m !! i) ↔ 0 ≤ i < Z.of_nat (size m).
Definition dense_notes (h : TransactionHost) : Prop := dense (output_notes h).

(** The indices at which notes are added are taken from the stack. *)
Lemma dense_insert_new (m : gmap Z OutputNoteBuilder) b :
  dense m → dense (<[Z.of_nat (size m) := b]> m).
Proof.
  unfold dense. intros Hm. set (m' := <[Z.of_nat (size m) := b]> m). assert (m !! Z.of_nat (size m) = None) as Hnone.
  { apply eq_None_not_Some. rewrite Hm. lia. }
  assert (size m' = Datatypes.S (size m)) as Hs by (by apply map_size_insert_None). 
  intros i. rewrite Hs. unfold m'. destruct (decide (i = Z.of_nat (size m))) as [->|Hne].
  - rewrite lookup_insert_eq. split; [lia|done].
  - rewrite lookup_insert_ne by done. rewrite Hm. lia.
Qed.

Lemma dense_insert_old (m : gmap Z OutputNoteBuilder) k b b0 :
  m !! k = Some b0 → dense m → dense (<[k := b]> m).
Proof.
  unfold dense. intros Hk Hm i. rewrite map_size_insert_Some by (by rewrite Hk). rewrite <-Hm.
  destruct (decide (i = k)) as [->|Hne].
  - rewrite lookup_insert_eq, Hk. by split.
  - by rewrite lookup_insert_ne.
Qed.

Lemma map_err_neq {E E' X} (f : E → E') (r : res E X) e : (∀ x, f x ≠ e) → map_err f r ≠ Err e.
Proof. intros Hf. destruct r; cbn; [discriminate| |discriminate]. intros [= Hx]. by apply (Hf e0). Qed.

Lemma res_bind_neq {E X Y} (m : res E X) (f : X → res E Y) e :
  m ≠ Err e → (∀ x, f x ≠ Err e) → m ≫= f ≠ Err e.
Proof. intros Hm Hf. destruct m as [x|e0|]; [apply Hf| |discriminate]. intros [= ->]. by apply Hm. Qed.

Lemma idx_word_errors {E} l a b c d (e : E) : idx_word l a b c d ≠ Err e.
Proof. unfold idx_word, idx. repeat (apply res_bind_neq; [by destruct (_ !! _)|intros ?]). discriminate. Qed.

Lemma read_note_inputs_errors data : read_note_inputs data ≠ Err MissingNote.
Proof.
  destruct data as [[|n l]|]; cbn [read_note_inputs]; try discriminate. destruct (_ >? _); [discriminate|].
  by apply map_err_neq.
Qed.

Lemma recipient_new_errors {E} serial script inputs (e : E) : recipient_new serial script inputs ≠ Err e.
Proof.
  unfold recipient_new, compute_recipient_digest, script_hash.
  repeat (apply res_bind_neq; [|discriminate]). by destruct (node_digest _ _).
Qed.

Lemma note_builder_new_errors stack adv : note_builder_new stack adv ≠ Err MissingNote.
Proof.
  unfold note_builder_new. apply res_bind_neq; [apply idx_word_errors|intros w].
  apply res_bind_neq; [by apply map_err_neq|intros m]. apply res_bind_neq; [apply idx_word_errors|intros d].
  apply res_bind_neq; [|discriminate]. destruct (get_mapped_values adv d) as [data|]; [|by destruct (metadata_is_private m)].
  apply res_bind_neq; [|discriminate]. unfold read_recipient. destruct (negb _); [discriminate|].
  do 3 (apply res_bind_neq; [apply idx_word_errors|intros ?]). cbv zeta.
  apply res_bind_neq; [apply read_note_inputs_errors|intros i]. case_decide; [discriminate|].
  apply res_bind_neq; [by apply map_err_neq|intros sc]. apply recipient_new_errors.
Qed.

(** ** Parts of the host that calls leave alone *)

Section Keeps.
  Context {Part : Type} (part : TransactionHost → Part).
  Context (part_adv : ∀ x h, part (set_adv x h) = part h).
  Context (part_sig : ∀ x h, part (set_signatures x h) = part h).
  Context (part_prog : ∀ x h, part (set_progress x h) = part h).

Definition keeps {E} (m : mut TransactionHost E unit) : Prop := ∀ h, part (m h).2 = part h.

Lemma keeps_bind {E X} (m : mut TransactionHost E X) (f : X → mut TransactionHost E unit) h :
  part (m h).2 = part h → (∀ x, keeps (f x)) → part ((m ≫= f) h).2 = part h.
Proof.
  intros Hm Hf. unfold mbind, mut_bind. destruct (m h) as [[x|e|] h1]; cbn [snd] in *; [|done..].
  by rewrite Hf.
Qed.

Lemma push_item_keeps x : keeps (push_item x).
Proof using part_adv.
  intros h. unfold push_item, mbind, mut_bind, get_self, lift.
  destruct (push_stack x (adv_provider h)); [apply part_adv|done].
Qed.

Lemma for_each_keeps {X} (body : X → mut TransactionHost ExecutionError unit) l :
  (∀ x, keeps (body x)) → keeps (for_each l body).
Proof. intros Hb. induction l as [|x l IH]; [done|]. intros h. cbn [for_each]. apply keeps_bind; [apply Hb|done]. Qed.

Lemma on_signature_requested_keeps ps : keeps (on_signature_requested ps).
Proof using part_adv part_sig.
  intros h. unfold on_signature_requested. cbv zeta. unfold mbind at 1, mut_bind at 1, get_self at 1.
  apply keeps_bind; [|intros l; apply for_each_keeps, push_item_keeps].
  destruct (get_mapped_values _ _); [done|]. unfold mbind, mut_bind, lift, put_self.
  destruct (into_delta (account_delta h)) as [d|e|]; [|done..].
  destruct (authenticator h) as [auth|]; [|done]. destruct (auth _ _ d); [apply part_sig|done].
Qed.

Lemma on_trace_keeps ps id : keeps (on_trace ps id).
Proof using part_prog.
  intros h. unfold on_trace, mbind, mut_bind, lift, get_self, put_self.
  destruct (trace_try_from id) as [t|e|]; cbn [map_err]; [|done..].
  destruct t; try apply part_prog. destruct (get_current_note_id ps) as [[x|]|e|]; [apply part_prog|done..].
Qed.
End Keeps.

Lemma check_slot_index_errors ps : check_slot_index ps ≠ Err MissingNote.
Proof.
  unfold check_slot_index, get_num_storage_slots. destruct (get_mem_value _ _); cbn; [|discriminate].
  by destruct (_ <=? _).
Qed.

Lemma get_proc_index_errors m ps : get_proc_index m ps ≠ Err MissingNote.
Proof.
  unfold get_proc_index. apply res_bind_neq; [by destruct (get_mem_value ps _)|intros w].
  apply res_bind_neq; [unfold u32_add, u32_result; by repeat case_match|intros x].
  apply res_bind_neq; [by destruct (get_mem_value ps x)|intros c].
  apply res_bind_neq; [by destruct (m !! c)|intros p]. by destruct (p !! _).
Qed.

Definition note_event (e : TransactionEvent) : bool :=
  match e with NoteAfterCreated | NoteBeforeAddAsset => true | _ => false end.

Lemma handle_account_event_keeps e ps h :
  note_event e = false →
  output_notes (handle_event e ps h).2 = output_notes h ∧ (handle_event e ps h).1 ≠ Err MissingNote.
Proof.
  intros He. destruct e; try discriminate He; cbn [handle_event]; try by split.
  - unfold on_account_vault_after_add_asset, mbind, mut_bind, lift, on_field, mut_map_err.
    destruct (asset_try_from_word _) as [x|e|]; cbn [map_err]; [|by split..].
    by destruct (vault_delta_add_asset x _) as [[y|e|] t].
  - unfold on_account_vault_after_remove_asset, mbind, mut_bind, lift, on_field, mut_map_err.
    destruct (asset_try_from_word _) as [x|e|]; cbn [map_err]; [|by split..].
    by destruct (vault_delta_remove_asset x _) as [[y|e|] t].
  - unfold on_account_storage_after_set_item, mbind, mut_bind, lift, get_self, put_self.
    pose proof (check_slot_index_errors ps). destruct (check_slot_index ps) as [i|e|]; [|split; [done|by intros [= ->]]|by split].
    by case_decide.
  - unfold on_account_storage_after_set_map_item, mbind, mut_bind, lift, get_self, put_self.
    pose proof (check_slot_index_errors ps). destruct (check_slot_index ps) as [i|e|]; [by split|split; [done|by intros [= ->]]|by split].
  - unfold on_account_push_procedure_index, mbind, mut_bind, lift, get_self, put_self.
    pose proof (get_proc_index_errors (acct_procedure_index_map h) ps).
    destruct (get_proc_index _ _) as [x|e|]; [|split; [done|by intros [= ->]]|by split]. by destruct (push_stack _ _).
Qed.

Lemma on_note_after_created_dense ps h :
  dense_notes h →
  dense_notes (on_note_after_created ps h).2 ∧ (on_note_after_created ps h).1 ≠ Err MissingNote.
Proof.
  intros Hd. unfold on_note_after_created, idx.
  destruct (get_stack_state ps !! 9%nat) as [n|]; cbn [expect_some mbind res_bind]; [|by split].
  destruct (Z.eqb_spec (as_int n) (Z.of_nat (size (output_notes h)))) as [->|]; cbn [negb]; [|by split].
  destruct (note_builder_new _ _) as [b|e|] eqn:Eb; cbn [fst snd]; [|split; [done|]|by split].
  - split; [|discriminate]. apply dense_insert_new, Hd.
  - intros [= ->]. revert Eb. apply note_builder_new_errors.
Qed.

Lemma on_note_before_add_asset_dense ps h :
  dense_notes h →
  dense_notes (on_note_before_add_asset ps h).2 ∧ (on_note_before_add_asset ps h).1 ≠ Err MissingNote.
Proof.
  intros Hd. unfold on_note_before_add_asset, idx.
  destruct (get_stack_state ps !! 6%nat) as [n|]; cbn [expect_some]; [|by split].
  destruct (Z.ltb_spec (as_int n) (Z.of_nat (size (output_notes h)))) as [Hn|]; cbn [negb]; [|by split].
  destruct (asset_try_from_word _) as [x|e|]; cbn [map_err]; [|by split..].
  pose proof (as_int_range n). destruct (proj2 (Hd (as_int n))) as [b Hb]; [lia|]. rewrite Hb.
  unfold builder_add_asset, on_field, mut_map_err.
  destruct (note_add_asset x (nb_assets b)) as [[y|e|] a]; cbn [fst snd map_err]; (split; [|discriminate]);
    by apply (dense_insert_old (output_notes h) _ _ b).
Qed.

Lemma on_event_dense ps id h :
  dense_notes h →
  dense_notes (on_event ps id h).2 ∧ (on_event ps id h).1 ≠ Err (EventError MissingNote).
Proof.
  intros Hd. unfold on_event, mbind, mut_bind, lift, mut_map_err.
  destruct (event_try_from id) as [e|e|]; cbn [map_err]; [|by split..].
  destruct (ctx_is_root ps); cbn [negb]; [|by split].
  assert (dense_notes (handle_event e ps h).2 ∧ (handle_event e ps h).1 ≠ Err MissingNote) as [H1 H2].
  { destruct (note_event e) eqn:He.
    - destruct e; try discriminate He; [by apply on_note_after_created_dense|by apply on_note_before_add_asset_dense].
    - destruct (handle_account_event_keeps e ps h He) as [E1 E2]. split; [|done]. unfold dense_notes. rewrite E1. exact Hd. }
  destruct (handle_event e ps h) as [[x|e'|] h']; cbn in *; (split; [done|]); [discriminate|congruence|discriminate].
Qed.

Lemma on_signature_requested_errors ps h : (on_signature_requested ps h).1 ≠ Err (EventError MissingNote).
Proof.
  assert (∀ l h, (for_each l push_item h).1 ≠ Err (EventError MissingNote)) as Hpush.
  { intros l. induction l as [|x l IH]; intros h'; [done|]. cbn [for_each]. unfold mbind, mut_bind.
    unfold push_item at 1, mbind at 1, mut_bind, get_self, lift, put_self.
    destruct (push_stack x (adv_provider h')); cbn; [apply IH|done]. }
  unfold on_signature_requested, mbind, mut_bind, get_self, lift, put_self.
  destruct (get_mapped_values _ _); cbn; [apply Hpush|].
  unfold into_delta. destruct (expect_ok _) as [d|e|] eqn:E; [| |done].
  - destruct (authenticator h) as [auth|]; [|done]. destruct (auth _ _ d); cbn; [apply Hpush|done].
  - by destruct (account_delta_new _ _ _).
Qed.

Lemma run_call_dense c h :
  dense_notes h → dense_notes (run_call c h).2 ∧ (run_call c h).1 ≠ Err (EventError MissingNote).
Proof.
  intros Hd. destruct c as [ps id|ps id|ps|adv]; cbn [run_call]; [by apply on_event_dense|..|done].
  - split; [unfold dense_notes; rewrite (on_trace_keeps output_notes (λ _ _, eq_refl)); exact Hd|].
    unfold on_trace, mbind, mut_bind, lift, get_self, put_self.
    destruct (trace_try_from id) as [t|e|]; cbn [map_err]; [|done..].
    destruct t; try done. unfold get_current_note_id.
    destruct (get_mem_value ps _) as [w|]; cbn; [|done]. destruct (try_into_u32 _) as [a|]; cbn; [|done].
    destruct (a =? 0); [done|]. by destruct (get_mem_value ps a).
  - split; [unfold dense_notes; rewrite (on_signature_requested_keeps output_notes (λ _ _, eq_refl) (λ _ _, eq_refl)); exact Hd|].
    apply on_signature_requested_errors.
Qed.

Lemma host_calls_dense calls h r h' :
  dense_notes h → for_each calls run_call h = (r, h') →
  dense_notes h' ∧ r ≠ Err (EventError MissingNote).
Proof.
  revert h. induction calls as [|c calls IH]; intros h Hd; cbn [for_each]; unfold mbind, mut_bind.
  - intros [= <- <-]. by split.
  - destruct (run_call_dense c h Hd) as [H1 H2]. destruct (run_call c h) as [[x|e|] h1]; cbn [fst snd] in *.
    + by apply IH.
    + intros [= <- <-]. by split.
    + intros [= <- <-]. by split.
Qed.


(** ** More theorems *)

(** C32. Output notes are numbered in the order of their creation: after any
    sequence of calls of the VM on a new host, with whatever stacks and
    memories, the notes are numbered from zero without gaps, so that the list of
    output notes that the host returns has the note with number [i] at position
    [i]; and no call reports a missing note. *)
Theorem output_notes_in_order account adv auth cs h0 calls r h :
  host_new account adv auth cs = Ok h0 → for_each calls run_call h0 = (r, h) →
  r ≠ Err (EventError MissingNote) ∧
  (btree_iter Z.leb (output_notes h)).*1 = seqZ 0 (Z.of_nat (size (output_notes h))).
Proof.
  intros Hnew Hrun.
  assert (dense_notes h0) as Hd.
  { unfold host_new in Hnew. destruct (proc_index_map_from _ _ _); [|discriminate..]. injection Hnew as <-.
    intros i. cbn [output_notes]. rewrite lookup_empty, map_size_empty. split; [by intros [? ?]|lia]. }
  destruct (host_calls_dense calls h0 r h Hd Hrun) as [H1 H2]. split; [done|]. by apply btree_iter_seqZ.
Qed.

Lemma add_zero_delta id d :
  d !! id = None →
  fungible_delta_add (mkFungibleAsset id 0) d = (Ok tt, <[id := 0]> d) ∧
  fungible_delta_add (mkFungibleAsset id 0) (<[id := 0]> d) = (Ok tt, d).
Proof.
  intros Hd. unfold fungible_delta_add, mbind, mut_bind, lift. cbn. unfold add_delta.
  rewrite Hd, lookup_insert_eq. split; [done|]. cbn. by rewrite delete_insert_id.
Qed.

Lemma balance_stored v id n :
  wf_vault v → valid_fungible (mkFungibleAsset id n) →
  let v' := vault_set v (fkey id) (balance_word id (Some n)) in
  wf_vault v' ∧ word_balance (slot v' (fkey id)) = Some n.
Proof.
  intros Hv Hn v'. pose proof (vault_set_update v (fkey id) (balance_word id (Some n))) as Hu. split.
  - refine (slot_update_wf _ _ _ _ Hv _ Hu). apply balance_word_wf. by intros ? [= <-].
  - unfold v'. rewrite (proj1 Hu). apply word_balance_word. by intros ? [= <-].
Qed.

(** Adding an amount of zero to the vault. *)
Lemma add_zero_asset a id :
  let zero := mkFungibleAsset id 0 in
  wf_vault (acct_vault a) → valid_fungible zero →
  (∀ n, word_balance (slot (acct_vault a) (fkey id)) = Some n → n = 0) →
  let v := vault_set (acct_vault a) (fkey id) (balance_word id (Some 0)) in
  run_op (OpAddAsset (Fungible zero)) a = (Ok tt, set_acct_vault v a).
Proof.
  intros zero Hv Hz Hb v. unfold run_op, vault_add_asset, on_field, mut_map_err, mbind, mut_bind.
  rewrite add_fungible_asset_eq by done. cbn [fa_faucet_id zero].
  destruct (word_balance (slot (acct_vault a) (fkey id))) as [n|]; [|done].
  by rewrite (Hb n eq_refl).
Qed.

Lemma handle_add_asset asset ps h d :
  valid_asset asset → get_stack_word ps 0 = asset_to_word asset →
  vault_delta_add_asset asset (tr_vault (account_delta h)) = (Ok tt, d) →
  handle_event AccountVaultAfterAddAsset ps h = (Ok tt, set_account_delta (set_tr_vault d (account_delta h)) h).
Proof.
  intros Ha Hw Hd. cbn [handle_event]. unfold on_account_vault_after_add_asset, mbind, mut_bind, lift.
  rewrite Hw, asset_word_roundtrip by done. cbn [map_err]. unfold on_field, mut_map_err. by rewrite Hd.
Qed.

(** Amounts of zero escape the tracker: adding an asset of amount zero of a
    faucet that the vault does not hold succeeds twice and leaves an entry in
    the vault, while the host ends in the state it was in before the first of
    the two events, so that no delta that it returns contains the change. *)
Theorem zero_assets_untracked a id ps h :
  let zero := Fungible (mkFungibleAsset id 0) in
  wf_vault (acct_vault a) → valid_asset zero →
  word_balance (slot (acct_vault a) (fkey id)) = None →
  vd_fungible (tr_vault (account_delta h)) !! id = None →
  get_stack_word ps 0 = asset_to_word zero → ctx_is_root ps = true →
  (∃ a1 a2, run_op (OpAddAsset zero) a = (Ok tt, a1) ∧ run_op (OpAddAsset zero) a1 = (Ok tt, a2) ∧
     ¬ account_equiv a2 a) ∧
  host_run [(AccountVaultAfterAddAsset, ps); (AccountVaultAfterAddAsset, ps)] h = (Ok tt, h).
Proof.
  intros zero Hv Hz Hb Hd Hw Hr. split.
  - set (v1 := vault_set (acct_vault a) (fkey id) (balance_word id (Some 0))).
    set (v2 := vault_set v1 (fkey id) (balance_word id (Some 0))).
    destruct (balance_stored (acct_vault a) id 0 Hv Hz) as [Hv1 Hb1].
    fold v1 in Hv1, Hb1. destruct (balance_stored v1 id 0 Hv1 Hz) as [_ Hb2].
    exists (set_acct_vault v1 a), (set_acct_vault v2 (set_acct_vault v1 a)). split_and!.
    + apply add_zero_asset; [done..|]. rewrite Hb. discriminate.
    + apply add_zero_asset; [done..|]. intros n. cbn [acct_vault set_acct_vault]. rewrite Hb1. by intros [= <-].
    + intros (_ & Heq & _). specialize (Heq (fkey id)). unfold slot in Hb, Hb2.
      cbn [acct_vault set_acct_vault] in Heq. fold v2 in Hb2. rewrite Heq in Hb2. congruence.
  - destruct (add_zero_delta id _ Hd) as [E1 E2]. set (t := account_delta h) in *.
    set (t1 := set_tr_vault (set_vd_fungible (<[id := 0]> (vd_fungible (tr_vault t))) (tr_vault t)) t).
    unfold host_run. cbn [for_each fst snd]. unfold mbind, mut_bind. rewrite !on_event_root by done. unfold mut_map_err.
    rewrite (handle_add_asset zero ps h (tr_vault t1)); [|done|done|].
    + cbn [map_err]. rewrite on_event_root by done. unfold mut_map_err.
      rewrite (handle_add_asset zero ps _ (tr_vault t)); [|done|done|].
      * cbn [map_err mret mut_ret]. unfold mret, mut_ret. f_equal. unfold t. destruct h as [? [] ? ? ? ? ?]. done.
      * unfold zero, vault_delta_add_asset, on_field.
        change (vd_fungible _) with (<[id := 0]> (vd_fungible (tr_vault t))). rewrite E2. by destruct (tr_vault t).
    + unfold zero, vault_delta_add_asset, on_field. fold t. by rewrite E1.
Qed.

Lemma storage_equiv_of_slot i m m' s :
  slots s !! Z.to_nat i = Some (Map m) → (∀ k, storage_map_get_value m' k = storage_map_get_value m k) →
  storage_equiv (set_slot i (Map m') s) s.
Proof.
  intros Hm Hk. unfold storage_equiv, set_slot. cbn [slots].
  rewrite <-(list_insert_id (slots s) (Z.to_nat i) (Map m)) at 2 by done.
  apply Forall2_insert; [reflexivity|]. by constructor.
Qed.

(** The host panics after a transaction that the kernel accepts: writing the
    value that a storage map already has leaves the account and its hash as they
    are, so that the kernel does not ask for a new nonce; but the host records
    the write, and a delta with changes and without a nonce cannot be unwrapped
    when the host gives up its parts. *)
Theorem noop_map_write_panics {E} a ps i k m h :
  0 ≤ i < 2 ^ 8 → slots (acct_storage a) !! Z.to_nat i = Some (Map m) →
  emits a (OpSetMapItem i k (storage_map_get_value m k)) AccountStorageAfterSetMapItem ps → ctx_is_root ps = true →
  account_delta h = tracker_new (account_header_from a) → output_notes h = ∅ →
  ∃ a' h', kernel_run a [(AccountStorageAfterSetMapItem, ps)] a' ∧ account_equiv a' a ∧ account_hash a' = account_hash a ∧
    host_run [(AccountStorageAfterSetMapItem, ps)] h = (Ok tt, h') ∧ host_into_parts (E:=E) h' = Panic.
Proof.
  intros Hi Hm Hem Hroot Hh Hn. set (w := storage_map_get_value m k) in *.
  set (op := OpSetMapItem i k w). set (m' := insert_entry m (k, w)).
  set (a' := set_acct_storage (set_slot i (Map m') (acct_storage a)) a).
  assert (run_op op a = (Ok tt, a')) as Hrun.
  { subst op. cbn [run_op]. unfold mbind, mut_bind, on_field, set_map_item. rewrite Hm.
    apply lookup_lt_Some in Hm. destruct (Z.leb_spec (Z.of_nat (length (slots (acct_storage a)))) i); [lia|].
    unfold a', m', insert_entry. cbn [fst snd]. by destruct (storage_map_insert k w m). }
  assert (account_equiv a' a) as Heq.
  { split_and!; try done. apply (storage_equiv_of_slot i m m'); [done|]. intros k'.
    unfold m'. rewrite (insert_entry_get m (k, w) k'). cbn [fst snd]. case_decide; [by subst|done]. }
  destruct (handle_account_event a op a' AccountStorageAfterSetMapItem ps Hi Hrun Hem) as (current & _ & Hhandle).
  set (t' := set_tr_storage (storage_delta_set_map_item i k w (tr_storage (account_delta h))) (account_delta h)).
  exists a', (set_account_delta t' h). split_and!; [| | | |].
  - apply (run_account a op a'); [done..|apply run_end].
  - done.
  - by apply account_hash_proper.
  - unfold host_run. cbn [for_each fst snd]. unfold mbind, mut_bind. rewrite on_event_root by done. unfold mut_map_err.
    by rewrite (Hhandle h t' eq_refl).
  - unfold host_into_parts. change (output_notes (set_account_delta t' h)) with (output_notes h).
    rewrite Hn, btree_iter_empty. cbn [build_all]. rewrite (res_bind_Ok (Ok []) _ _ eq_refl).
    assert (into_delta (E:=E) t' = Panic) as Hd; [|cbn [account_delta set_account_delta]; by rewrite Hd].
    unfold t', into_delta, account_delta_new. rewrite Hh. cbn. rewrite decide_False by (by intros []).
    destruct (validate_nonce _ _ _) as [[]|er|] eqn:Ev; [|done..].
    apply validate_nonce_Ok in Ev as [[Es _]|(n & [=] & _)]. exfalso.
    apply (f_equal (λ d, sd_maps d !! i)) in Es. unfold storage_delta_set_map_item in Es. cbn in Es.
    by rewrite lookup_insert_eq, lookup_empty in Es.
Qed.
End Host.

(** ** Witnesses *)

#[local] Existing Instance Goldilocks.
#[local] Existing Instance ToyHasher.
#[local] Existing Instance MapTree.
#[local] Existing Instance CodeOrd.
#[local] Existing Instance PlainIO.
#[local] Existing Instance RootsAsm.
#[local] Existing Instance RootsIO.
#[local] Existing Instance RootsProgram.

(** An advice provider with a map and a stack. *)
Definition MapAdvice : AdviceApi := {|
  AdviceProvider := gmap Digest (list felt) * list felt;
  get_mapped_values adv k := adv.1 !! k;
  push_stack x adv := Some (adv.1, x :: adv.2)
|}.
#[local] Existing Instance MapAdvice.

(** Machine states with a stack (the top first) and one memory cell. *)
Definition stack_process (stack : list felt) (mem : gmap Z Word) : ProcessState := mkProcess _
  (λ i, default ZERO (stack !! i))
  (λ i, mkWord (default ZERO (stack !! (4 * i + 3)%nat)) (default ZERO (stack !! (4 * i + 2)%nat))
    (default ZERO (stack !! (4 * i + 1)%nat)) (default ZERO (stack !! (4 * i)%nat)))
  stack (λ a, mem !! a) true 7.
Definition word_stack (w : Word) : list felt := rev (word_elements w).
Definition slots_mem (n : Z) : gmap Z Word := {[ NATIVE_NUM_ACCT_STORAGE_SLOTS_PTR := mkWord (felt_new n) ZERO ZERO ZERO ]}.

Definition sample_host : TransactionHost :=
  mkHost (∅, []) (tracker_new (account_header_from sample_account)) ∅ ∅ None ∅ progress_default.

(** A run that adds an asset, writes a slot and a map entry, is asked for
    nothing else and increments the nonce. *)
Definition sample_op_asset : account_op := OpAddAsset (Fungible (sample_fungible 5)).
Definition sample_op_item : account_op := OpSetItem 1 (sample_word 7).
Definition sample_op_map : account_op := OpSetMapItem 2 (sample_word 3) (sample_word 4).
Definition sample_op_nonce : account_op := OpIncrNonce ONE.
Definition after (op : account_op) (a : Account) : Account := (run_op op a).2.
Definition sample_final : Account :=
  after sample_op_nonce (after sample_op_map (after sample_op_item (after sample_op_asset sample_account))).
Definition sample_events : list (TransactionEvent * ProcessState) :=
  [(AccountVaultBeforeAddAsset, stack_process [] ∅);
   (AccountVaultAfterAddAsset, stack_process (word_stack (asset_to_word (Fungible (sample_fungible 5))) ++ []) ∅);
   (AccountStorageAfterSetItem,
     stack_process (felt_new 1 :: word_stack (sample_word 7) ++ word_stack EMPTY_WORD) (slots_mem 3));
   (AccountStorageAfterSetMapItem,
     stack_process (felt_new 2 :: word_stack (sample_word 3) ++ word_stack (sample_word 4)) (slots_mem 3));
   (AccountBeforeIncrementNonce, stack_process [ONE] ∅)].

Lemma stack_top_word w rest mem : get_stack_word (stack_process (word_stack w ++ rest) mem) 0 = w.
Proof. by destruct w. Qed.
Lemma stack_words x w w' mem :
  stack_word (stack_process (x :: word_stack w ++ word_stack w') mem) 1 = w ∧
  stack_word (stack_process (x :: word_stack w ++ word_stack w') mem) 5 = w'.
Proof. by destruct w, w'. Qed.

Lemma step_ok op a : is_ok (run_op op a).1 = true → run_op op a = (Ok tt, after op a).
Proof. apply run_Ok. Qed.

Lemma sample_run : kernel_run sample_account sample_events sample_final.
Proof.
  apply run_other; [reflexivity|reflexivity|].
  apply (run_account _ sample_op_asset (after sample_op_asset sample_account)).
  { apply (sample_amount 5). lia. }
  { apply step_ok. vm_compute. reflexivity. }
  { apply emit_add_asset, stack_top_word. }
  { reflexivity. }
  apply (run_account _ sample_op_item (after sample_op_item (after sample_op_asset sample_account))).
  { cbn. lia. }
  { apply step_ok. vm_compute. reflexivity. }
  { apply (emit_set_item _ _ _ _ (mkWord (felt_new 3) ZERO ZERO ZERO)).
    - reflexivity.
    - apply stack_words.
    - etransitivity; [|symmetry; apply f_equal, stack_words]. reflexivity.
    - apply lookup_singleton_eq.
    - vm_compute. reflexivity. }
  { reflexivity. }
  apply (run_account _ sample_op_map (after sample_op_map (after sample_op_item (after sample_op_asset sample_account)))).
  { cbn. lia. }
  { apply step_ok. vm_compute. reflexivity. }
  { apply (emit_set_map_item _ _ _ _ _ (mkWord (felt_new 3) ZERO ZERO ZERO)).
    - reflexivity.
    - apply stack_words.
    - apply stack_words.
    - apply lookup_singleton_eq.
    - vm_compute. reflexivity. }
  { reflexivity. }
  apply (run_account _ sample_op_nonce sample_final).
  { exact I. }
  { apply step_ok. vm_compute. reflexivity. }
  { apply emit_incr_nonce. reflexivity. }
  { reflexivity. }
  apply run_end.
Qed.

Lemma after_code op a : acct_code (after op a) = acct_code a.
Proof.
  unfold after. destruct op; cbn [run_op]; unfold mbind, mut_bind, on_field, mut_map_err; [..|done];
    by repeat case_match; simplify_eq.
Qed.

Lemma sample_exact : exact_run sample_account sample_events sample_final.
Proof.
  split; [exact sample_vault_positive|]. split; [|unfold sample_final; by rewrite !after_code].
  repeat (constructor; [exact I || idtac|]); [|constructor]. intros f Hf E. cbn [snd] in E. rewrite stack_top_word in E.
  apply (f_equal (λ w, as_int (w0 w))) in E. pose proof (amount_as_int f Hf) as Ef.
  pose proof (amount_as_int _ (sample_amount 5 ltac:(lia))) as E5. cbn in E, Ef, E5. lia.
Qed.

Lemma host_delta_sound_witness :
  ∃ d a'', into_delta (E:=ExecutionError) (account_delta (host_run false sample_events sample_host).2) = Ok d ∧
    valid_account_delta d ∧ account_apply_delta d sample_account = (Ok tt, a'') ∧
    account_equiv a'' sample_final ∧ account_hash a'' = account_hash sample_final.
Proof.
  destruct (host_delta_sound false sample_account sample_events sample_final sample_host
    (host_run false sample_events sample_host).1 (host_run false sample_events sample_host).2
    sample_vault_wf sample_run) as [Hok Hdelta].
  - vm_compute. discriminate.
  - reflexivity.
  - apply surjective_pairing.
  - destruct Hdelta as [(d & a'' & H1 & [H2 H3 _ _ H4])|(_ & Hn & _)].
    + apply Hok. by repeat constructor.
    + exists d, a''. split; [exact H1|]. split; [exact H2|]. split; [exact H3|]. exact (H4 sample_exact).
    + exfalso. apply (f_equal as_int) in Hn. vm_compute in Hn. discriminate.
Defined.

Lemma early_signature_panics_witness :
  (on_signature_requested (stack_process [] ∅)
     (set_account_delta (set_tr_vault (sample_vault_delta 7) (account_delta sample_host)) sample_host)).1 = Panic.
Proof.
  apply early_signature_panics.
  - right. intros E. apply (f_equal (λ d, vd_fungible d !! sample_faucet)) in E.
    unfold sample_vault_delta, vault_delta_default, set_tr_vault, set_account_delta in E.
    cbn [account_delta tr_vault vd_fungible] in E. by rewrite lookup_singleton_eq, lookup_empty in E.
  - reflexivity.
  - reflexivity.
Defined.

Definition sample_root : Digest := mkWord (felt_new 3) (felt_new 1) ZERO ONE.
Definition sample_stack : list felt :=
  word_stack (metadata_to_word sample_metadata) ++ [ZERO] ++ word_stack (nr_digest sample_recipient) ++ [ZERO].

(** Any provider that knows the sample's recipient. *)
Definition sample_advice : AdviceProvider :=
  (<[nr_digest sample_recipient := word_elements (ni_hash sample_inputs) ++ word_elements sample_root ++
       word_elements sample_serial]>
   (<[ni_hash sample_inputs := felt_new 3 :: pad_inputs sample_values]>
    {[ sample_root := script_to_elements sample_script ]}), []).

Lemma sample_advice_keys :
  nr_digest sample_recipient ≠ ni_hash sample_inputs ∧ nr_digest sample_recipient ≠ sample_root ∧
  ni_hash sample_inputs ≠ sample_root.
Proof.
  split_and!; intros E; apply (f_equal (λ w, (as_int (w0 w), as_int (w1 w)))) in E; vm_compute in E; discriminate.
Qed.

Lemma sample_advice_ok : advice_has_recipient sample_advice sample_recipient sample_root.
Proof.
  destruct sample_advice_keys as (N1 & N2 & N3). unfold sample_advice.
  assert (∀ k, get_mapped_values sample_advice k = sample_advice.1 !! k) as Eget by done.
  constructor.
  - reflexivity.
  - rewrite Eget. unfold sample_advice. cbn [fst]. by rewrite lookup_insert_eq.
  - eexists. split; [reflexivity|]. rewrite Eget. unfold sample_advice. cbn [fst].
    rewrite lookup_insert_ne, lookup_insert_eq by done. reflexivity.
  - rewrite Eget. unfold sample_advice. cbn [fst].
    by rewrite !lookup_insert_ne, lookup_singleton_eq by done.
Qed.

Lemma stack_idx_words w x w' l :
  idx_word (E:=TransactionKernelError) (word_stack w ++ x :: word_stack w' ++ l) 3 2 1 0 = Ok w ∧
  idx_word (E:=TransactionKernelError) (word_stack w ++ x :: word_stack w' ++ l) 8 7 6 5 = Ok w'.
Proof. by destruct w, w'. Qed.

Lemma output_note_reconstructed_witness :
  ∃ b n, note_builder_new sample_stack sample_advice = Ok b ∧
    builder_build (E:=ExecutionError) (set_nb_assets sample_note_assets b) = Ok (Full n) ∧
    nd_recipient (note_details n) = sample_recipient ∧ nh_metadata (note_header n) = sample_metadata.
Proof.
  destruct (output_note_reconstructed sample_advice sample_recipient sample_root sample_metadata sample_stack)
    as (b & Hb & Hn).
  - apply sample_note_wf.
  - apply (bool_decide_unpack _). vm_compute. exact I.
  - exact sample_advice_ok.
  - exact sample_metadata_valid.
  - apply stack_idx_words.
  - apply stack_idx_words.
  - destruct (Hn sample_note_assets sample_note_assets_wf) as (n & Hbuild & _ & Hr & _ & Hm).
    exists b, n. split; [exact Hb|]. split; [exact Hbuild|]. split; [exact Hr|exact Hm].
Defined.

Definition code_advice : AdviceProvider :=
  ({[ code_commitment sample_code := procedures_as_elements sample_procedures ]}, []).

Lemma procedure_index_map_spec_witness :
  ∃ m, build_account_procedure_map (code_commitment sample_code) code_advice = Ok m ∧
    m !! sample_word 13 = Some 2.
Proof.
  destruct (procedure_index_map_spec sample_code code_advice) as (m & Hm & Hin & _).
  - exact sample_code_wf.
  - apply (bool_decide_unpack _). vm_compute. exact I.
  - apply lookup_singleton_eq.
  - exists m. split; [exact Hm|]. exact (Hin 2%nat (mkProcedureInfo (sample_word 13) 2 2) eq_refl).
Defined.

Lemma sample_host_new :
  is_ok (host_new (account_header_from sample_account) code_advice None ∅) = true.
Proof. vm_compute. reflexivity. Qed.

(** Two notes are created; an asset is added to the first one. *)
Definition sample_calls : list host_call :=
  let created i := CallEvent (stack_process (word_stack (metadata_to_word sample_metadata) ++
    ZERO :: word_stack (sample_word 9) ++ [felt_new i]) ∅) (event_id NoteAfterCreated) in
  [CallTrace (stack_process [] ∅) 131072; created 0; created 1;
   CallEvent (stack_process (word_stack (asset_to_word (Fungible (sample_fungible 5))) ++ [ZERO; ZERO; ZERO]) ∅)
     (event_id NoteBeforeAddAsset)].

Lemma output_notes_in_order_witness :
  ∃ h0 r h, host_new (account_header_from sample_account) code_advice None ∅ = Ok h0 ∧
    for_each sample_calls (run_call false) h0 = (r, h) ∧
    (btree_iter Z.leb (output_notes h)).*1 = seqZ 0 (Z.of_nat (size (output_notes h))).
Proof.
  pose proof sample_host_new as Hok.
  destruct (host_new (account_header_from sample_account) code_advice None ∅) as [h0|e|] eqn:E; [|discriminate..].
  destruct (for_each sample_calls (run_call false) h0) as [r h] eqn:Er.
  exists h0, r, h. split; [reflexivity|]. split; [exact Er|].
  apply (output_notes_in_order false _ _ _ _ h0 sample_calls r h E Er).
Defined.

Definition other_faucet : AccountId := sample_id FungibleFaucet Public 47.

Lemma zero_assets_untracked_witness :
  (∃ a1 a2, run_op (OpAddAsset (Fungible (mkFungibleAsset other_faucet 0))) sample_account = (Ok tt, a1) ∧
     run_op (OpAddAsset (Fungible (mkFungibleAsset other_faucet 0))) a1 = (Ok tt, a2) ∧
     ¬ account_equiv a2 sample_account).
Proof.
  apply (zero_assets_untracked false sample_account other_faucet
    (stack_process (word_stack (asset_to_word (Fungible (mkFungibleAsset other_faucet 0))) ++ []) ∅) sample_host).
  - exact sample_vault_wf.
  - split; [reflexivity|]. split; [reflexivity|]. cbn. unfold MAX_AMOUNT. lia.
  - vm_compute. reflexivity.
  - reflexivity.
  - apply stack_top_word.
  - reflexivity.
Defined.

(** The sample's map slot is empty, and the empty word is written to it. *)
Definition noop_process : ProcessState :=
  stack_process (felt_new 2 :: word_stack (sample_word 3) ++ word_stack EMPTY_WORD) (slots_mem 3).

Lemma noop_map_write_panics_witness :
  ∃ a' h', kernel_run sample_account [(AccountStorageAfterSetMapItem, noop_process)] a' ∧
    account_hash a' = account_hash sample_account ∧
    host_run false [(AccountStorageAfterSetMapItem, noop_process)] sample_host = (Ok tt, h') ∧
    host_into_parts (E:=Empty_set) h' = Panic.
Proof.
  destruct (slots sample_storage !! 2%nat) as [[w|m]|] eqn:Em; [discriminate| |discriminate].
  destruct (noop_map_write_panics (E:=Empty_set) false sample_account noop_process 2 (sample_word 3) m sample_host)
    as (a' & h' & H1 & _ & H2 & H3 & H4).
  - lia.
  - exact Em.
  - injection Em as <-. apply (emit_set_map_item _ _ _ _ _ (mkWord (felt_new 3) ZERO ZERO ZERO)).
    + reflexivity.
    + apply stack_words.
    + etransitivity; [apply stack_words|]. reflexivity.
    + apply lookup_singleton_eq.
    + vm_compute. reflexivity.
  - reflexivity.
  - reflexivity.
  - reflexivity.
  - exists a', h'. split; [exact H1|]. split; [exact H2|]. split; [exact H3|exact H4].
Defined.
