(* ===== verification/TxProven.v ===== *)
(** * Executed and proven transactions

    Models objects/src/transaction/transaction_id.rs, proven_tx.rs,
    executed_tx.rs and tx_witness.rs: what an executed transaction holds, the
    proven transaction that is built from it with its checks, the witness that
    is sent to a prover, and the id that both forms share. Proofs of execution
    are a parameter. *)

From S2P Require Import Prelude Felt Crypto Serde Types AccountId Assets VaultDelta Vault StorageDelta Storage.
From S2P Require Import Code Account NoteMeta NoteContents Notes TxOutputs Merkle Chain TxInputs TxArgs Blocks Memory.
From S2P Require Import Kernel TxTracker TxHost.
Open Scope Z_scope.

Definition ACCOUNT_UPDATE_MAX_SIZE : Z := 2 ^ 15.

Class ProofApi {F : FeltApi} {B : ByteIO} := {
  ExecutionProof : Type;
  write_proof : ExecutionProof → bytes;
  read_proof : reader ExecutionProof;
  proof_decodes : decodes (λ _, True) write_proof read_proof
}.

Section Proven.
  Context {F : FeltApi} {H : HasherApi} {S : SmtApi} {D : DigestOrd} {A : AsmApi} {P : ProgramApi}.
  Context {B : ByteIO} {SI : SmtIO} {M : MastIO} {N : NoteIO} {T : PathApi} {R : MmrApi} {V : AdviceInputsApi}.
  Context {W : ProofApi}.

(** ** Measurements *)

Record TransactionMeasurements : Type := mkMeasurements {
  tm_prologue : Z;
  tm_notes_processing : Z;
  tm_note_execution : list (Digest * Z);
  tm_tx_script_processing : Z;
  tm_epilogue : Z
}.

(** [From<TransactionProgress> for TransactionMeasurements] *)
Definition measurements_from (p : TransactionProgress) : TransactionMeasurements :=
  mkMeasurements (interval_len (prologue p)) (interval_len (notes_processing p))
    ((λ x, (x.1, interval_len x.2)) <$> note_execution p)
    (interval_len (tx_script_processing p)) (interval_len (epilogue p)).
Definition total_cycles (m : TransactionMeasurements) : Z :=
  tm_prologue m + tm_notes_processing m + tm_tx_script_processing m + tm_epilogue m.
(** [next_power_of_two]; the counts are differences of 32-bit row indices, so
    that nothing overflows. *)
Definition trace_length (m : TransactionMeasurements) : Z := 2 ^ Z.log2_up (total_cycles m).

(** ** Transaction ids *)

Definition tx_id_new (init_account_hash final_account_hash input_notes_hash output_notes_hash : Digest) : Digest :=
  hash_elements (word_elements init_account_hash ++ word_elements final_account_hash ++
    word_elements input_notes_hash ++ word_elements output_notes_hash).

(** ** Executed transactions *)

Record ExecutedTransaction : Type := mkExecuted {
  et_tx_inputs : TransactionInputs;
  et_tx_outputs : TransactionOutputs;
  et_account_codes : list AccountCode;
  et_account_delta : AccountDelta;
  et_tx_args : TransactionArgs;
  et_advice_witness : AdviceInputs;
  et_measurements : TransactionMeasurements
}.
Definition executed_new {E} (tx_inputs : TransactionInputs) (tx_outputs : TransactionOutputs)
    (account_codes : list AccountCode) (account_delta : AccountDelta) (tx_args : TransactionArgs)
    (advice_witness : AdviceInputs) (tx_measurements : TransactionMeasurements) : res E ExecutedTransaction :=
  if decide (acct_id (ti_account tx_inputs) = ah_id (to_account tx_outputs))
  then Ok (mkExecuted tx_inputs tx_outputs account_codes account_delta tx_args advice_witness tx_measurements)
  else Panic.
(** [From<&ExecutedTransaction> for TransactionId] *)
Definition executed_id (tx : ExecutedTransaction) : Digest :=
  tx_id_new (account_init_hash (ti_account (et_tx_inputs tx))) (account_header_hash (to_account (et_tx_outputs tx)))
    (in_commitment (ti_input_notes (et_tx_inputs tx))) (on_commitment (to_output_notes (et_tx_outputs tx))).

Record TransactionWitness : Type := mkTxWitness {
  tw_tx_inputs : TransactionInputs;
  tw_tx_args : TransactionArgs;
  tw_advice_witness : AdviceInputs;
  tw_account_codes : list AccountCode
}.
Definition executed_into_parts (tx : ExecutedTransaction)
    : AccountDelta * TransactionOutputs * TransactionWitness * TransactionMeasurements :=
  let tx_witness := mkTxWitness (et_tx_inputs tx) (et_tx_args tx) (et_advice_witness tx) (et_account_codes tx) in
  (et_account_delta tx, et_tx_outputs tx, tx_witness, et_measurements tx).
(** [From<ExecutedTransaction> for TransactionWitness] *)
Definition executed_to_witness (tx : ExecutedTransaction) : TransactionWitness :=
  let '(_, _, tx_witness, _) := executed_into_parts tx in tx_witness.

Definition tx_witness_write {E} (w : TransactionWitness) : res E bytes :=
  inputs ← tx_inputs_write (tw_tx_inputs w);
  codes ← write_vec (λ c, Ok (write_into (A:=AccountCode) c)) (tw_account_codes w);
  Ok (inputs ++ tx_args_write (tw_tx_args w) ++ write_advice (tw_advice_witness w) ++ codes).
Definition tx_witness_read : reader TransactionWitness :=
  tx_inputs ← tx_inputs_read;
  tx_args ← tx_args_read;
  advice_witness ← read_advice;
  account_codes ← read_vec (read_from (A:=AccountCode));
  mret (mkTxWitness tx_inputs tx_args advice_witness account_codes).

(** ** Account updates *)

Record TxAccountUpdate : Type := mkTxUpdate {
  tu_account_id : AccountId;
  tu_init_state_hash : Digest;
  tu_final_state_hash : Digest;
  tu_details : AccountUpdateDetails
}.

Inductive ProvenTransactionError : Type :=
  | AccountFinalHashMismatch (expected actual : Digest)
  | AccountIdMismatch (expected actual : AccountId)
  | InputNotesError (e : TransactionInputError)
  | NoteDetailsForUnknownNotes (ids : list Digest)
  | OffChainAccountWithDetails (id : AccountId)
  | OnChainAccountMissingDetails (id : AccountId)
  | NewOnChainAccountRequiresFullDetails (id : AccountId)
  | ExistingOnChainAccountRequiresDeltaDetails (id : AccountId)
  | OutputNotesError (e : TransactionOutputError)
  | AccountUpdateSizeLimitExceeded (id : AccountId) (size : Z).

Definition tx_update_validate (u : TxAccountUpdate) : res ProvenTransactionError unit :=
  let account_update_size := Z.of_nat (get_size_hint (tu_details u)) in
  if account_update_size >? ACCOUNT_UPDATE_MAX_SIZE
  then Err (AccountUpdateSizeLimitExceeded (tu_account_id u) account_update_size)
  else Ok tt.
Definition tx_update_write (u : TxAccountUpdate) : bytes :=
  write_into (tu_account_id u) ++ write_digest (tu_init_state_hash u) ++ write_digest (tu_final_state_hash u) ++
  write_into (tu_details u).
Definition tx_update_read : reader TxAccountUpdate :=
  account_id ← read_from (A:=AccountId);
  init_state_hash ← read_digest;
  final_state_hash ← read_digest;
  details ← read_from (A:=AccountUpdateDetails);
  mret (mkTxUpdate account_id init_state_hash final_state_hash details).

(** ** Commitments to input notes *)

Record InputNoteCommitment : Type := mkCommitment { ic_nullifier : Digest; ic_header : option NoteHeader }.

Definition commitment_is_authenticated (c : InputNoteCommitment) : bool :=
  match ic_header c with None => true | Some _ => false end.
(** [From<&InputNote> for InputNoteCommitment] *)
Definition commitment_of (n : InputNote) : InputNoteCommitment :=
  match n with
  | Authenticated note _ => mkCommitment (note_nullifier note) None
  | Unauthenticated note => mkCommitment (note_nullifier note) (Some (note_header note))
  end.
Definition commitment_from_nullifier (nullifier : Digest) : InputNoteCommitment := mkCommitment nullifier None.
#[export] Instance InputNoteCommitment_commitments : ToInputNoteCommitments InputNoteCommitment := {|
  to_nullifier := ic_nullifier;
  to_note_hash c := header_hash <$> ic_header c
|}.
Definition commitment_write {E} (c : InputNoteCommitment) : res E bytes :=
  Ok (write_digest (ic_nullifier c) ++ write_option header_write (ic_header c)).
Definition commitment_read : reader InputNoteCommitment :=
  nullifier ← read_digest;
  header ← read_option header_read;
  mret (mkCommitment nullifier header).

(** ** Proven transactions *)

Record ProvenTransaction : Type := mkProven {
  pt_id : Digest;
  pt_account_update : TxAccountUpdate;
  pt_input_notes : InputNotes InputNoteCommitment;
  pt_output_notes : OutputNotes;
  pt_block_ref : Digest;
  pt_expiration_block_num : Z;
  pt_proof : ExecutionProof
}.

Definition get_unauthenticated_notes (tx : ProvenTransaction) : list NoteHeader :=
  omap ic_header (in_notes (pt_input_notes tx)).
Definition get_nullifiers (tx : ProvenTransaction) : list Digest := ic_nullifier <$> in_notes (pt_input_notes tx).

Definition proven_validate (tx : ProvenTransaction) : res ProvenTransactionError ProvenTransaction :=
  let u := pt_account_update tx in
  let account_id := tu_account_id u in
  public ← is_public account_id;
  if (public : bool) then
    tx_update_validate u ;;
    let is_new_account := bool_decide (tu_init_state_hash u = EMPTY_WORD) in
    match tu_details u with
    | PrivateUpdate => Err (OnChainAccountMissingDetails account_id)
    | NewUpdate account =>
        if negb is_new_account then Err (ExistingOnChainAccountRequiresDeltaDetails account_id)
        else if decide (acct_id account ≠ account_id) then Err (AccountIdMismatch account_id (acct_id account))
        else if decide (account_hash account ≠ tu_final_state_hash u)
             then Err (AccountFinalHashMismatch (tu_final_state_hash u) (account_hash account))
        else Ok tx
    | DeltaUpdate _ =>
        if is_new_account then Err (NewOnChainAccountRequiresFullDetails account_id) else Ok tx
    end
  else if negb (update_is_private (tu_details u)) then Err (OffChainAccountWithDetails account_id)
  else Ok tx.

Record ProvenTransactionBuilder : Type := mkProvenBuilder {
  pb_account_id : AccountId;
  pb_initial_account_hash : Digest;
  pb_final_account_hash : Digest;
  pb_account_update_details : AccountUpdateDetails;
  pb_input_notes : list InputNoteCommitment;
  pb_output_notes : list OutputNote;
  pb_block_ref : Digest;
  pb_expiration_block_num : Z;
  pb_proof : ExecutionProof
}.
Definition proven_builder_new (account_id : AccountId) (initial_account_hash final_account_hash block_ref : Digest)
    (expiration_block_num : Z) (proof : ExecutionProof) : ProvenTransactionBuilder :=
  mkProvenBuilder account_id initial_account_hash final_account_hash PrivateUpdate [] [] block_ref
    expiration_block_num proof.
Definition account_update_details (details : AccountUpdateDetails) (b : ProvenTransactionBuilder) :=
  mkProvenBuilder (pb_account_id b) (pb_initial_account_hash b) (pb_final_account_hash b) details (pb_input_notes b)
    (pb_output_notes b) (pb_block_ref b) (pb_expiration_block_num b) (pb_proof b).
Definition add_input_notes (notes : list InputNote) (b : ProvenTransactionBuilder) :=
  mkProvenBuilder (pb_account_id b) (pb_initial_account_hash b) (pb_final_account_hash b) (pb_account_update_details b)
    (pb_input_notes b ++ (commitment_of <$> notes)) (pb_output_notes b) (pb_block_ref b) (pb_expiration_block_num b) (pb_proof b).
Definition add_output_notes (notes : list OutputNote) (b : ProvenTransactionBuilder) :=
  mkProvenBuilder (pb_account_id b) (pb_initial_account_hash b) (pb_final_account_hash b) (pb_account_update_details b)
    (pb_input_notes b) (pb_output_notes b ++ notes) (pb_block_ref b) (pb_expiration_block_num b) (pb_proof b).
Definition proven_build (b : ProvenTransactionBuilder) : res ProvenTransactionError ProvenTransaction :=
  input_notes ← map_err InputNotesError (input_notes_new (pb_input_notes b));
  output_notes ← map_err OutputNotesError (output_notes_new (pb_output_notes b));
  let id := tx_id_new (pb_initial_account_hash b) (pb_final_account_hash b) (in_commitment input_notes)
              (on_commitment output_notes) in
  let account_update := mkTxUpdate (pb_account_id b) (pb_initial_account_hash b) (pb_final_account_hash b)
                          (pb_account_update_details b) in
  proven_validate (mkProven id account_update input_notes output_notes (pb_block_ref b) (pb_expiration_block_num b)
                     (pb_proof b)).

Definition proven_write {E} (tx : ProvenTransaction) : res E bytes :=
  inputs ← input_notes_write commitment_write (pt_input_notes tx);
  outputs ← output_notes_write (pt_output_notes tx);
  Ok (tx_update_write (pt_account_update tx) ++ inputs ++ outputs ++ write_digest (pt_block_ref tx) ++
      write_u32 (pt_expiration_block_num tx) ++ write_proof (pt_proof tx)).
Definition proven_read : reader ProvenTransaction :=
  account_update ← tx_update_read;
  input_notes ← input_notes_read commitment_read;
  output_notes ← output_notes_read;
  block_ref ← read_digest;
  expiration_block_num ← read_u32;
  proof ← read_proof;
  let id := tx_id_new (tu_init_state_hash account_update) (tu_final_state_hash account_update)
              (in_commitment input_notes) (on_commitment output_notes) in
  reader_lift (proven_validate (mkProven id account_update input_notes output_notes block_ref expiration_block_num proof)).

(** ** Validation *)

(** What [ProvenTransaction::validate] asks of the account update: public
    accounts come with details of limited size that fit the state hashes, and
    private accounts with none. *)
Definition update_accepted (public : bool) (u : TxAccountUpdate) : Prop :=
  if public then
    Z.of_nat (get_size_hint (tu_details u)) ≤ ACCOUNT_UPDATE_MAX_SIZE ∧
    match tu_details u with
    | PrivateUpdate => False
    | NewUpdate account => tu_init_state_hash u = EMPTY_WORD ∧ acct_id account = tu_account_id u ∧
        account_hash account = tu_final_state_hash u
    | DeltaUpdate _ => tu_init_state_hash u ≠ EMPTY_WORD
    end
  else tu_details u = PrivateUpdate.

Lemma is_public_valid {E} id : valid_id id → ∃ b, is_public (E:=E) id = Ok b ∧ ∀ E', is_public (E:=E') id = Ok b.
Proof.
  intros Hid. destruct (storage_mode_valid (E:=Empty_set) id Hid) as (m & Hm & _).
  unfold is_public, storage_mode in *. destruct (_ =? AccountId.PUBLIC); [by exists true|].
  destruct (_ =? AccountId.PRIVATE); [by exists false|discriminate].
Qed.

Lemma proven_validate_Ok tx tx' public :
  is_public (E:=ProvenTransactionError) (tu_account_id (pt_account_update tx)) = Ok public →
  proven_validate tx = Ok tx' ↔ update_accepted public (pt_account_update tx) ∧ tx' = tx.
Proof.
  intros Hp. unfold proven_validate, update_accepted, tx_update_validate. cbv zeta. rewrite (res_bind_Ok _ _ _ Hp).
  destruct public; cbv iota.
  - destruct (Z.gtb_spec (Z.of_nat (get_size_hint (tu_details (pt_account_update tx)))) ACCOUNT_UPDATE_MAX_SIZE);
      cbn [mbind res_bind]; [split; [discriminate|intros [[? _] _]; lia]|].
    destruct (tu_details (pt_account_update tx)) as [|a|d].
    + split; [discriminate|]. by intros [[_ []] _].
    + destruct (bool_decide_reflect (tu_init_state_hash (pt_account_update tx) = EMPTY_WORD)); cbn [negb];
        [|split; [discriminate|by intros [(_ & ? & _) _]]].
      case_decide; [split; [discriminate|by intros [(_ & _ & ? & _) _]]|].
      case_decide; [split; [discriminate|by intros [(_ & _ & _ & ?) _]]|]. naive_solver congruence.
    + destruct (bool_decide_reflect (tu_init_state_hash (pt_account_update tx) = EMPTY_WORD));
        [split; [discriminate|by intros [(_ & ?) _]]|]. naive_solver congruence.
  - destruct (tu_details (pt_account_update tx)); cbn [update_is_private negb]; naive_solver congruence.
Qed.

Lemma proven_validate_total tx :
  valid_id (tu_account_id (pt_account_update tx)) → proven_validate tx ≠ Panic.
Proof.
  intros Hid. destruct (is_public_valid (E:=ProvenTransactionError) _ Hid) as (public & Hp & _).
  unfold proven_validate, tx_update_validate. cbv zeta. rewrite (res_bind_Ok _ _ _ Hp).
  destruct public; cbv iota; [|by destruct (negb _)].
  destruct (_ >? _); cbn [mbind res_bind]; [done|].
  destruct (tu_details (pt_account_update tx)); [done|destruct (negb _); [done|]; repeat (case_decide; [done|]); done|].
  by destruct (bool_decide _).
Qed.

(** What a builder accepts. *)
Definition built (b : ProvenTransactionBuilder) (inputs : InputNotes InputNoteCommitment) (outputs : OutputNotes)
    : ProvenTransaction :=
  mkProven (tx_id_new (pb_initial_account_hash b) (pb_final_account_hash b) (in_commitment inputs) (on_commitment outputs))
    (mkTxUpdate (pb_account_id b) (pb_initial_account_hash b) (pb_final_account_hash b) (pb_account_update_details b))
    inputs outputs (pb_block_ref b) (pb_expiration_block_num b) (pb_proof b).

Lemma proven_build_Ok b public tx :
  is_public (E:=ProvenTransactionError) (pb_account_id b) = Ok public →
  proven_build b = Ok tx ↔
  ∃ inputs outputs, input_notes_new (pb_input_notes b) = Ok inputs ∧ output_notes_new (pb_output_notes b) = Ok outputs ∧
    update_accepted public (mkTxUpdate (pb_account_id b) (pb_initial_account_hash b) (pb_final_account_hash b)
      (pb_account_update_details b)) ∧ tx = built b inputs outputs.
Proof.
  intros Hp. unfold proven_build. split.
  - intros (i & Hi%map_err_inv & Hb)%res_bind_inv. apply res_bind_inv in Hb as (o & Ho%map_err_inv & Hb).
    apply (proven_validate_Ok (built b i o) tx public Hp) in Hb as [Hu ->]. by exists i, o.
  - intros (i & o & Hi & Ho & Hu & ->). rewrite Hi. cbn [map_err]. rewrite (res_bind_Ok (Ok i) _ i eq_refl), Ho. cbn [map_err].
    rewrite (res_bind_Ok (Ok o) _ o eq_refl). by apply (proven_validate_Ok (built b i o) (built b i o) public Hp).
Qed.

Lemma proven_build_accepts b public inputs outputs :
  is_public (E:=ProvenTransactionError) (pb_account_id b) = Ok public →
  input_notes_new (pb_input_notes b) = Ok inputs → output_notes_new (pb_output_notes b) = Ok outputs →
  update_accepted public (mkTxUpdate (pb_account_id b) (pb_initial_account_hash b) (pb_final_account_hash b)
    (pb_account_update_details b)) →
  proven_build b = Ok (built b inputs outputs).
Proof. intros Hp Hi Ho Hu. apply (proven_build_Ok b public _ Hp). by exists inputs, outputs. Qed.

Lemma proven_build_oversize b inputs outputs :
  is_public (E:=ProvenTransactionError) (pb_account_id b) = Ok true →
  input_notes_new (pb_input_notes b) = Ok inputs → output_notes_new (pb_output_notes b) = Ok outputs →
  ACCOUNT_UPDATE_MAX_SIZE < Z.of_nat (get_size_hint (pb_account_update_details b)) →
  proven_build b = Err (AccountUpdateSizeLimitExceeded (pb_account_id b)
    (Z.of_nat (get_size_hint (pb_account_update_details b)))).
Proof.
  intros Hp Hi Ho Hs. unfold proven_build. rewrite Hi. cbn [map_err]. rewrite (res_bind_Ok (Ok inputs) _ _ eq_refl), Ho.
  cbn [map_err]. rewrite (res_bind_Ok (Ok outputs) _ _ eq_refl). unfold proven_validate, tx_update_validate. cbv zeta.
  cbn [pt_account_update tu_account_id tu_details]. rewrite (res_bind_Ok _ _ _ Hp). cbv iota.
  destruct (Z.gtb_spec (Z.of_nat (get_size_hint (pb_account_update_details b))) ACCOUNT_UPDATE_MAX_SIZE); [done|lia].
Qed.

Lemma proven_build_mismatch b account inputs outputs :
  is_public (E:=ProvenTransactionError) (pb_account_id b) = Ok true →
  input_notes_new (pb_input_notes b) = Ok inputs → output_notes_new (pb_output_notes b) = Ok outputs →
  pb_account_update_details b = NewUpdate account →
  Z.of_nat (get_size_hint (pb_account_update_details b)) ≤ ACCOUNT_UPDATE_MAX_SIZE →
  pb_initial_account_hash b = EMPTY_WORD → acct_id account = pb_account_id b →
  account_hash account ≠ pb_final_account_hash b →
  proven_build b = Err (AccountFinalHashMismatch (pb_final_account_hash b) (account_hash account)).
Proof.
  intros Hp Hi Ho Ed Hs Hinit Hid Hh. unfold proven_build. rewrite Hi. cbn [map_err].
  rewrite (res_bind_Ok (Ok inputs) _ _ eq_refl), Ho. cbn [map_err]. rewrite (res_bind_Ok (Ok outputs) _ _ eq_refl).
  unfold proven_validate, tx_update_validate. cbv zeta.
  cbn [pt_account_update tu_account_id tu_details tu_init_state_hash tu_final_state_hash].
  rewrite (res_bind_Ok _ _ _ Hp). cbv iota. rewrite Ed in Hs |- *.
  destruct (Z.gtb_spec (Z.of_nat (get_size_hint (NewUpdate account))) ACCOUNT_UPDATE_MAX_SIZE); [lia|]. cbn [mbind res_bind].
  rewrite bool_decide_true by done. cbn [negb]. rewrite decide_False by (by intros []). by rewrite decide_True.
Qed.

(** ** Commitments *)

Lemma commitment_of_view n : commitment_view (commitment_of n) = commitment_view n.
Proof. by destruct n. Qed.

Lemma commitments_preserved notes l :
  input_notes_new notes = Ok l →
  input_notes_new (commitment_of <$> notes) = Ok (mkInputNotes (commitment_of <$> notes) (in_commitment l)).
Proof.
  intros (Hn & ND & ->)%input_notes_new_Ok. apply input_notes_new_Ok. rewrite length_fmap. split; [done|].
  assert (to_nullifier <$> (commitment_of <$> notes) = to_nullifier <$> notes) as ->.
  { rewrite <-list_fmap_compose. apply list_fmap_ext. by intros i [note proof|note] _. }
  split; [done|]. cbn [in_commitment]. f_equal. symmetry. apply input_commitment_ext. rewrite <-list_fmap_compose.
  apply list_fmap_ext. intros i n _. apply commitment_of_view.
Qed.

(** What is hashed for the id of a transaction. *)
Definition tx_id_preimage (init final inputs outputs : Digest) : preimage :=
  Elements (word_elements init ++ word_elements final ++ word_elements inputs ++ word_elements outputs).
Definition tx_preimages (b : ProvenTransactionBuilder) : list preimage :=
  [tx_id_preimage (pb_initial_account_hash b) (pb_final_account_hash b)
     (build_input_note_commitment (pb_input_notes b)) (build_output_notes_commitment (pb_output_notes b));
   input_preimage (pb_input_notes b); output_preimage (pb_output_notes b)].

Lemma tx_id_binding a b c d a' b' c' d' :
  tx_id_new a b c d = tx_id_new a' b' c' d' →
  (a = a' ∧ b = b' ∧ c = c' ∧ d = d') ∨ collision (tx_id_preimage a b c d) (tx_id_preimage a' b' c' d').
Proof.
  intros [Ew%(inj Elements)|]%(image_binds (tx_id_preimage a b c d) (tx_id_preimage a' b' c' d')); [left|by right].
  apply app_inj_1 in Ew as [->%word_elements_inj Ew]; [|done]. apply app_inj_1 in Ew as [->%word_elements_inj Ew]; [|done].
  by apply app_inj_1 in Ew as [->%word_elements_inj ->%word_elements_inj].
Qed.

(** ** Formats *)

Definition wf_commitment (c : InputNoteCommitment) : Prop := ∀ h, ic_header c = Some h → valid_metadata (nh_metadata h).

Lemma commitment_reads_back c : wf_commitment c → reads_back (commitment_write c) commitment_read c.
Proof.
  intros Hc. eexists. split; [done|]. intros rest. unfold commitment_read.
  rewrite <-app_assoc, (decodes_bind _ _ _ _ _ _ digest_decodes) by done.
  rewrite (decodes_bind (λ o, ∀ h, o = Some h → valid_metadata (nh_metadata h)) _ _ _ _ _
    (option_decodes (λ h, valid_metadata (nh_metadata h)) _ _ (λ h rest' Hh, header_reads_back h rest' Hh))) by done.
  by destruct c.
Qed.

Definition tx_update_equiv (u u' : TxAccountUpdate) : Prop :=
  tu_account_id u = tu_account_id u' ∧ tu_init_state_hash u = tu_init_state_hash u' ∧
  tu_final_state_hash u = tu_final_state_hash u' ∧ update_equiv (tu_details u) (tu_details u').
Definition set_pt_update (u : TxAccountUpdate) (tx : ProvenTransaction) : ProvenTransaction :=
  mkProven (pt_id tx) u (pt_input_notes tx) (pt_output_notes tx) (pt_block_ref tx) (pt_expiration_block_num tx) (pt_proof tx).

Lemma tx_update_reads_back u rest :
  valid_id (tu_account_id u) → wf_update (tu_details u) →
  ∃ u', tx_update_read (tx_update_write u ++ rest) = Ok (u', rest) ∧ tx_update_equiv u' u ∧
    get_size_hint (tu_details u') = get_size_hint (tu_details u).
Proof.
  intros Hid Hu. destruct (update_reads_back (tu_details u) rest Hu) as [(d & Hr & He & Hz) _].
  exists (mkTxUpdate (tu_account_id u) (tu_init_state_hash u) (tu_final_state_hash u) d).
  split; [|by split_and!]. unfold tx_update_read, tx_update_write.
  rewrite <-!app_assoc, (serde_bind valid_id), !(decodes_bind _ _ _ _ _ _ digest_decodes) by done.
  unfold mbind, reader_bind. by rewrite Hr.
Qed.

Lemma update_accepted_equiv public u u' :
  tx_update_equiv u' u → get_size_hint (tu_details u') = get_size_hint (tu_details u) →
  update_accepted public u → update_accepted public u'.
Proof.
  destruct u as [id i f d], u' as [id' i' f' d']. intros (E1 & E2 & E3 & He) Hz. unfold update_accepted.
  cbn [tu_account_id tu_init_state_hash tu_final_state_hash tu_details] in *. subst id' i' f'. rewrite Hz.
  destruct public; [|by intros ->; destruct d'].
  destruct d as [|a|d], d' as [|a'|d']; cbn [update_equiv] in He; try done.
  - intros (Hs & Hi & Ha & Hh). destruct He as [(Eid & _) Eh]. split; [done|]. by rewrite Eid, Eh.
Qed.

Record wf_proven (tx : ProvenTransaction) : Prop := {
  wp_id : valid_id (tu_account_id (pt_account_update tx));
  wp_details : wf_update (tu_details (pt_account_update tx));
  wp_inputs : wf_input_list wf_commitment (pt_input_notes tx);
  wp_outputs : wf_outputs (pt_output_notes tx);
  wp_expiration : 0 ≤ pt_expiration_block_num tx < 2 ^ 32;
  wp_tx_id : pt_id tx = tx_id_new (tu_init_state_hash (pt_account_update tx)) (tu_final_state_hash (pt_account_update tx))
    (in_commitment (pt_input_notes tx)) (on_commitment (pt_output_notes tx));
  wp_valid : proven_validate tx = Ok tx
}.

Lemma proven_read_back tx :
  wf_proven tx →
  ∃ bs, proven_write (E:=Empty_set) tx = Ok bs ∧
    ∀ rest, ∃ u', tx_update_equiv u' (pt_account_update tx) ∧ proven_read (bs ++ rest) = Ok (set_pt_update u' tx, rest).
Proof.
  intros [Hid Hd Hin Hout He Eid Hv].
  destruct (input_notes_read_back wf_commitment commitment_write commitment_read _ commitment_reads_back Hin) as (bi & Ei & Hri).
  destruct (output_notes_read_back _ Hout) as (bo & Eo & Hro).
  unfold proven_write. rewrite (res_bind_Ok _ _ _ Ei), (res_bind_Ok _ _ _ Eo). eexists. split; [done|]. intros rest.
  destruct (tx_update_reads_back (pt_account_update tx) (bi ++ bo ++ write_digest (pt_block_ref tx) ++
    write_u32 (pt_expiration_block_num tx) ++ write_proof (pt_proof tx) ++ rest) Hid Hd) as (u' & Hru & Hq & Hz).
  exists u'. split; [done|]. destruct (is_public_valid (E:=ProvenTransactionError) _ Hid) as (public & Hp & _).
  apply (proven_validate_Ok _ _ public Hp) in Hv as [Hacc _].
  assert (proven_validate (set_pt_update u' tx) = Ok (set_pt_update u' tx)) as Hval.
  { apply (proven_validate_Ok _ _ public); cbn [set_pt_update pt_account_update]; [by destruct Hq as [-> _]|].
    split; [|done]. by apply (update_accepted_equiv _ _ _ Hq Hz). }
  unfold proven_read. rewrite <-!app_assoc. unfold mbind at 1, reader_bind at 1. rewrite Hru.
  unfold mbind at 1, reader_bind at 1. rewrite Hri. unfold mbind at 1, reader_bind at 1. rewrite Hro.
  rewrite (decodes_bind _ _ _ _ _ _ digest_decodes), (decodes_bind _ _ _ _ _ _ u32_decodes),
    (decodes_bind _ _ _ _ _ _ proof_decodes) by done.
  unfold reader_lift. destruct Hq as (_ & E2 & E3 & _). rewrite E2, E3, <-Eid.
  change (mkProven (pt_id tx) u' (pt_input_notes tx) (pt_output_notes tx) (pt_block_ref tx) (pt_expiration_block_num tx)
    (pt_proof tx)) with (set_pt_update u' tx). by rewrite Hval.
Qed.

(** ** Witnesses for provers *)

Record wf_tx_witness (w : TransactionWitness) : Prop := {
  ww_inputs : wf_tx_inputs (tw_tx_inputs w);
  ww_args : wf_tx_args (tw_tx_args w);
  ww_codes : Forall wf_code (tw_account_codes w);
  ww_num : fits_usize (length (tw_account_codes w))
}.
Definition set_tw_account (a : Account) (w : TransactionWitness) : TransactionWitness :=
  mkTxWitness (set_ti_account a (tw_tx_inputs w)) (tw_tx_args w) (tw_advice_witness w) (tw_account_codes w).

Lemma code_reads_back (c : AccountCode) : wf_code c → reads_back (Ok (write_into c)) (read_from (A:=AccountCode)) c.
Proof. intros Hc. eexists. split; [done|]. intros rest. by apply serde_decodes. Qed.

Lemma tx_witness_read_back w :
  wf_tx_witness w →
  ∃ bs, tx_witness_write (E:=Empty_set) w = Ok bs ∧
    ∀ rest, ∃ a', account_equiv a' (ti_account (tw_tx_inputs w)) ∧ tx_witness_read (bs ++ rest) = Ok (set_tw_account a' w, rest).
Proof.
  intros [Hi Ha Hc Hn]. destruct (tx_inputs_read_back _ Hi) as (bi & Ei & Hri).
  destruct (write_vec_reads_back _ _ _ (tw_account_codes w) code_reads_back Hc Hn) as (bc & Ec & Hrc).
  unfold tx_witness_write. rewrite (res_bind_Ok _ _ _ Ei), (res_bind_Ok _ _ _ Ec). eexists. split; [done|]. intros rest.
  destruct (Hri (tx_args_write (tw_tx_args w) ++ write_advice (tw_advice_witness w) ++ bc ++ rest)) as (a' & He & Hread).
  exists a'. split; [done|]. unfold tx_witness_read. rewrite <-!app_assoc. unfold mbind at 1, reader_bind at 1. rewrite Hread.
  rewrite (decodes_bind _ _ _ _ _ _ tx_args_decodes), (decodes_bind _ _ _ _ _ _ advice_decodes) by done.
  unfold mbind, reader_bind. by rewrite Hrc.
Qed.

(** ** Theorems *)

(** C15. Building a proven transaction for a valid account id does not panic and
    succeeds exactly when the input notes and the output notes are accepted and
    the account update fits: a public account needs details of at most 32 KiB,
    a full account with the claimed id and final hash if it is new and a delta
    otherwise, and a private account must not have details. *)
Theorem proven_build_spec b public :
  valid_id (pb_account_id b) → is_public (E:=ProvenTransactionError) (pb_account_id b) = Ok public →
  proven_build b ≠ Panic ∧
  ∀ tx, proven_build b = Ok tx ↔
    ∃ inputs outputs, input_notes_new (pb_input_notes b) = Ok inputs ∧ output_notes_new (pb_output_notes b) = Ok outputs ∧
      update_accepted public (mkTxUpdate (pb_account_id b) (pb_initial_account_hash b) (pb_final_account_hash b)
        (pb_account_update_details b)) ∧ tx = built b inputs outputs.
Proof.
  intros Hid Hp. split; [|intros tx; by apply proven_build_Ok]. unfold proven_build.
  assert (input_notes_new (pb_input_notes b) ≠ Panic) as Hin.
  { unfold input_notes_new. destruct (_ >? _); [done|]. by destruct (first_duplicate _ _). }
  assert (output_notes_new (pb_output_notes b) ≠ Panic) as Hout.
  { unfold output_notes_new. destruct (_ >? _); [done|]. by destruct (first_duplicate _ _). }
  destruct (input_notes_new (pb_input_notes b)) as [i|?|]; [|done|done]. cbn [map_err].
  rewrite (res_bind_Ok (Ok i) _ i eq_refl). destruct (output_notes_new (pb_output_notes b)) as [o|?|]; [|done|done].
  cbn [map_err]. rewrite (res_bind_Ok (Ok o) _ o eq_refl). exact (proven_validate_total (built b i o) Hid).
Qed.

(** C16. A transaction id binds the effects of a transaction: two proven
    transactions with the same id have the same account states before and after,
    consume the same nullifiers and unauthenticated notes and create the same
    notes, or the hash inputs that were computed for the two ids
    ([tx_preimages]) contain a collision: two different inputs, at the same
    place, with the same digest. The id does not bind the reference block and the
    expiration block: for any other values there is a proven transaction with
    the same id. *)
Theorem tx_id_binds b b' tx tx' :
  valid_id (pb_account_id b) → valid_id (pb_account_id b') →
  Forall wf_output (pb_output_notes b) → Forall wf_output (pb_output_notes b') →
  proven_build b = Ok tx → proven_build b' = Ok tx' →
  (pt_id tx = pt_id tx' →
   (pb_initial_account_hash b = pb_initial_account_hash b' ∧ pb_final_account_hash b = pb_final_account_hash b' ∧
    commitment_view <$> pb_input_notes b = commitment_view <$> pb_input_notes b' ∧
    output_to_header <$> pb_output_notes b = output_to_header <$> pb_output_notes b') ∨
   collides (tx_preimages b) (tx_preimages b')) ∧
  (∀ block_ref expiration, ∃ tx'',
     proven_build (mkProvenBuilder (pb_account_id b) (pb_initial_account_hash b) (pb_final_account_hash b)
       (pb_account_update_details b) (pb_input_notes b) (pb_output_notes b) block_ref expiration (pb_proof b)) = Ok tx'' ∧
     pt_id tx'' = pt_id tx ∧ pt_block_ref tx'' = block_ref ∧ pt_expiration_block_num tx'' = expiration).
Proof.
  intros Hid Hid' Ho Ho' Hb Hb'.
  destruct (is_public_valid (E:=ProvenTransactionError) _ Hid) as (p & Hp & _).
  destruct (is_public_valid (E:=ProvenTransactionError) _ Hid') as (p' & Hp' & _).
  apply (proven_build_Ok b p tx Hp) in Hb as (i & o & Hi & Hout & Hacc & ->).
  apply (proven_build_Ok b' p' tx' Hp') in Hb' as (i' & o' & Hi' & Hout' & _ & ->). split.
  - apply input_notes_new_Ok in Hi as (_ & _ & ->), Hi' as (_ & _ & ->).
    apply output_notes_new_Ok in Hout as (_ & _ & ->), Hout' as (_ & _ & ->).
    intros [(E1 & E2 & E3 & E4)|Hc]%tx_id_binding; [|right; by eapply (collides_at 0)].
    apply input_commitment_binding in E3 as [E3|?]; [|right; by eapply (collides_at 1)].
    apply output_commitment_binding in E4 as [E4|?]; [by left|right; by eapply (collides_at 2)|..];
      (eapply Forall_impl; [eassumption|apply wf_output_metadata]).
  - intros block_ref expiration.
    set (b0 := mkProvenBuilder (pb_account_id b) (pb_initial_account_hash b) (pb_final_account_hash b)
       (pb_account_update_details b) (pb_input_notes b) (pb_output_notes b) block_ref expiration (pb_proof b)).
    exists (built b0 i o). split; [|done]. apply (proven_build_Ok b0 p _ Hp). exists i, o. done.
Qed.

(** C39. A well-formed proven transaction reads back from its bytes: the writer
    does not panic, the reader recomputes the id and repeats the checks, and the
    result is the same transaction (a new public account up to the contents of
    its trees). *)
Theorem proven_roundtrip tx rest :
  wf_proven tx →
  ∃ bs u', proven_write (E:=Empty_set) tx = Ok bs ∧ tx_update_equiv u' (pt_account_update tx) ∧
    proven_read (bs ++ rest) = Ok (set_pt_update u' tx, rest).
Proof.
  intros Ht. destruct (proven_read_back tx Ht) as (bs & Hw & Hr). destruct (Hr rest) as (u' & He & Hread). by exists bs, u'.
Qed.

(** A transaction witness reads back from its bytes, so that a remote prover
    gets the inputs, arguments, advice and codes of the transaction that was
    executed (the account up to the contents of its trees). *)
Theorem tx_witness_roundtrip w rest :
  wf_tx_witness w →
  ∃ bs a', tx_witness_write (E:=Empty_set) w = Ok bs ∧ account_equiv a' (ti_account (tw_tx_inputs w)) ∧
    tx_witness_read (bs ++ rest) = Ok (set_tw_account a' w, rest).
Proof.
  intros Hw. destruct (tx_witness_read_back w Hw) as (bs & Hwr & Hr). destruct (Hr rest) as (a' & He & Hread). by exists bs, a'.
Qed.
End Proven.

(** ** Witnesses *)

#[local] Existing Instance Goldilocks.
#[local] Existing Instance ToyHasher.
#[local] Existing Instance MapTree.
#[local] Existing Instance CodeOrd.
#[local] Existing Instance PlainIO.
#[local] Existing Instance MapTreeIO.
#[local] Existing Instance RootsAsm.
#[local] Existing Instance RootsIO.
#[local] Existing Instance RootsProgram.
#[local] Existing Instance PlainNoteIO.
#[local] Existing Instance ListPath.
#[local] Existing Instance ListMmr.
#[local] Existing Instance ListAdvice.

(** A proof is a number here. *)
#[refine] Definition PlainProof : ProofApi := {|
  ExecutionProof := felt;
  write_proof := write_felt;
  read_proof := read_felt
|}.
Proof. exact felt_decodes. Defined.
#[local] Existing Instance PlainProof.

(** A transaction of an existing public account that changes its nonce, consumes
    the sample note and creates it again. *)
Definition public_id : AccountId := sample_id RegularAccountImmutableCode Public 63.
Definition nonce_delta : AccountDelta := mkAccountDelta storage_delta_default vault_delta_default (Some (felt_new 2)).
Definition sample_builder : ProvenTransactionBuilder :=
  account_update_details (DeltaUpdate nonce_delta)
    (add_output_notes [Full sample_note]
      (add_input_notes [sample_input]
        (proven_builder_new public_id (sample_word 1) (sample_word 2) (sample_word 3) 17 ONE))).

Lemma public_id_valid : valid_id public_id.
Proof. reflexivity. Qed.

Definition sample_commitments : InputNotes InputNoteCommitment :=
  mkInputNotes [commitment_of sample_input] (in_commitment sample_input_notes).
Definition sample_proven : ProvenTransaction := built sample_builder sample_commitments sample_outputs.

Lemma sample_commitments_new : input_notes_new [commitment_of sample_input] = Ok sample_commitments.
Proof. exact (commitments_preserved [sample_input] sample_input_notes sample_input_notes_new). Qed.

Lemma sample_update_accepted :
  update_accepted true (mkTxUpdate public_id (sample_word 1) (sample_word 2) (DeltaUpdate nonce_delta)).
Proof.
  split; [vm_compute; discriminate|]. intros E. apply (f_equal (λ w, as_int (w0 w))) in E. vm_compute in E. discriminate.
Qed.

Lemma sample_proven_build : proven_build sample_builder = Ok sample_proven.
Proof.
  apply (proven_build_Ok sample_builder true); [reflexivity|]. exists sample_commitments, sample_outputs.
  split; [exact sample_commitments_new|]. split; [reflexivity|]. split; [exact sample_update_accepted|reflexivity].
Qed.

Lemma proven_build_spec_witness : proven_build sample_builder = Ok sample_proven.
Proof.
  apply (proven_build_spec sample_builder true public_id_valid); [reflexivity|]. exists sample_commitments, sample_outputs.
  split; [exact sample_commitments_new|]. split; [reflexivity|]. split; [exact sample_update_accepted|reflexivity].
Defined.

Lemma sample_outputs_list : Forall wf_output (pb_output_notes sample_builder).
Proof. exact (proj1 sample_outputs_wf). Qed.

(** The hash of the witnesses has collisions: these initial hashes give two
    transactions with the same id. *)
Definition colliding_builder (init : Digest) : ProvenTransactionBuilder :=
  mkProvenBuilder public_id init (sample_word 2) (DeltaUpdate nonce_delta) [commitment_of sample_input] [Full sample_note]
    (sample_word 3) 17 ONE.
Definition init_1 : Digest := mkWord (felt_new 32) ZERO ZERO ZERO.
Definition init_2 : Digest := mkWord ONE ONE ZERO ZERO.

Lemma colliding_build init :
  init ≠ EMPTY_WORD →
  proven_build (colliding_builder init) = Ok (built (colliding_builder init) sample_commitments sample_outputs).
Proof.
  intros Hne. apply (proven_build_Ok (colliding_builder init) true); [reflexivity|]. exists sample_commitments, sample_outputs.
  split; [exact sample_commitments_new|]. split; [reflexivity|]. split; [|reflexivity]. split; [vm_compute; discriminate|exact Hne].
Qed.

Lemma tx_id_binds_witness :
  collides (tx_preimages (colliding_builder init_1)) (tx_preimages (colliding_builder init_2)) ∧
  ∃ tx'', proven_build (mkProvenBuilder public_id init_1 (sample_word 2) (DeltaUpdate nonce_delta)
      [commitment_of sample_input] [Full sample_note] (sample_word 9) 18 ONE) = Ok tx'' ∧
    pt_id tx'' = pt_id (built (colliding_builder init_1) sample_commitments sample_outputs) ∧
    pt_block_ref tx'' = sample_word 9 ∧ pt_expiration_block_num tx'' = 18.
Proof.
  assert (init_1 ≠ init_2) as Hne by (intros E; apply (f_equal (λ w, as_int (w0 w))) in E; vm_compute in E; discriminate).
  destruct (tx_id_binds (colliding_builder init_1) (colliding_builder init_2)
    (built (colliding_builder init_1) sample_commitments sample_outputs)
    (built (colliding_builder init_2) sample_commitments sample_outputs)) as [Hbind Hfree].
  - exact public_id_valid.
  - exact public_id_valid.
  - exact sample_outputs_list.
  - exact sample_outputs_list.
  - apply colliding_build. intros E. apply (f_equal (λ w, as_int (w0 w))) in E. vm_compute in E. discriminate.
  - apply colliding_build. intros E. apply (f_equal (λ w, as_int (w0 w))) in E. vm_compute in E. discriminate.
  - split; [|exact (Hfree (sample_word 9) 18)]. destruct Hbind as [[E _]|Hc].
    + apply (bool_decide_unpack _). vm_compute. exact I.
    + by destruct Hne.
    + exact Hc.
Defined.

Lemma nonce_delta_wf : wf_account_delta nonce_delta.
Proof.
  split; [|split; [|reflexivity]].
  - split; [|split; [vm_compute; lia|split; [vm_compute; lia|apply map_Forall_empty]]].
    split; [apply map_Forall_empty|]. split; [apply map_Forall_empty|]. intros i. left. apply lookup_empty.
  - split; [split; apply map_Forall_empty|]. split_and!; reflexivity.
Qed.

Lemma sample_proven_wf : wf_proven sample_proven.
Proof.
  constructor.
  - exact public_id_valid.
  - exact nonce_delta_wf.
  - split; [|exact sample_commitments_new]. constructor; [|constructor]. by intros h.
  - exact sample_outputs_wf.
  - cbn. lia.
  - reflexivity.
  - apply (proven_validate_Ok sample_proven sample_proven true); [reflexivity|]. split; [exact sample_update_accepted|reflexivity].
Qed.

Lemma proven_roundtrip_witness :
  ∃ bs u', proven_write (E:=Empty_set) sample_proven = Ok bs ∧ tx_update_equiv u' (pt_account_update sample_proven) ∧
    proven_read (bs ++ [7]) = Ok (set_pt_update u' sample_proven, [7]).
Proof. exact (proven_roundtrip sample_proven [7] sample_proven_wf). Defined.

Definition sample_tx_witness : TransactionWitness :=
  mkTxWitness sample_tx_inputs sample_script_args advice_default [sample_code].

Lemma sample_tx_witness_wf : wf_tx_witness sample_tx_witness.
Proof.
  constructor; [exact sample_tx_inputs_wf|exact sample_script_args_wf| |reflexivity].
  constructor; [exact (proj2 (proj2 (proj2 sample_account_wf)))|constructor].
Qed.

Lemma tx_witness_roundtrip_witness :
  ∃ bs a', tx_witness_write (E:=Empty_set) sample_tx_witness = Ok bs ∧ account_equiv a' sample_existing ∧
    tx_witness_read (bs ++ [7]) = Ok (set_tw_account a' sample_tx_witness, [7]).
Proof. exact (tx_witness_roundtrip sample_tx_witness [7] sample_tx_witness_wf). Defined.
