(* ===== verification/TxExec.v ===== *)
(** * Executing, proving and verifying transactions

    Models miden-tx/src/executor/ (mod.rs, mast_store.rs, data_store.rs),
    prover/mod.rs, verifier/mod.rs and auth/: the executor prepares the inputs
    of a transaction, runs the kernel in the VM with a host and builds the
    executed transaction; the prover repeats the run from a witness and builds
    the proven transaction; the verifier rebuilds the stacks from the proven
    transaction and checks the proof. The VM, the proof system, the kernel
    program and the signature scheme are parameters. *)

From S2P Require Import Prelude Felt Crypto Serde Types AccountId Assets VaultDelta Vault StorageDelta Storage.
From S2P Require Import Code Account NoteMeta NoteContents Notes TxOutputs Merkle Chain TxInputs TxArgs Blocks Memory.
From S2P Require Import Kernel TxTracker TxHost TxProven.
Open Scope Z_scope.

Definition MAX_TX_EXECUTION_CYCLES : Z := Z.shiftl 1 30.
Definition MIN_TX_EXECUTION_CYCLES : Z := Z.shiftl 1 12.

(** [MastForest::local_procedure_digests], and the forests of the libraries that
    every store starts with: the kernel, the VM's standard library, miden-lib. *)
Class ForestApi {F : FeltApi} {A : AsmApi} := {
  local_procedure_digests : MastForest → list Digest;
  kernel_forest : MastForest;
  stdlib_forest : MastForest;
  miden_lib_forest : MastForest
}.

(** An advice provider is made from advice inputs; its map is what it looks up. *)
Class ProviderApi {F : FeltApi} {B : ByteIO} {N : NoteIO} {T : PathApi} {V : AdviceInputsApi} {X : AdviceApi} := {
  provider_from : AdviceInputs → AdviceProvider;
  provider_map : AdviceProvider → Digest → option (list felt);
  provider_from_mapped a k : get_mapped_values (provider_from a) k = mapped_values a k;
  provider_map_spec p k : provider_map p k = get_mapped_values p k
}.

(** ** Authenticators

    Falcon signatures come from the crate miden-crypto: [sign_with_rng], the
    nonce of a signature as field elements, the coefficients of the polynomials of
    a signature and of a public key, and their product. *)
Class FalconApi {F : FeltApi} {B : ByteIO} {Q : KeyIO} := {
  Rng : Type;
  Signature : Type;
  sign_with_rng : SecretKey → Word → Rng → Signature * Rng;
  sig_nonce : Signature → list felt;
  sig_poly : Signature → list Z;
  pub_key_poly : SecretKey → list Z;
  mul_modulo_p : list Z → list Z → list Z
}.

Section Auth.
  Context {F : FeltApi} {B : ByteIO} {Q : KeyIO} {G : FalconApi}.

Inductive AuthenticationError : Type := AuthInternalError | RejectedSignature | UnknownKey (pub_key : Digest).

Definition get_falcon_signature (key : SecretKey) (message : Word) (rng : Rng)
    : res AuthenticationError (list felt) * Rng :=
  let '(sig, rng) := sign_with_rng key message rng in
  let s2 := sig_poly sig in
  let h := pub_key_poly key in
  let pi := mul_modulo_p h s2 in
  let result := sig_nonce sig ++ (felt_new <$> h) ++ (felt_new <$> s2) ++ (felt_new <$> pi) in
  (Ok (reverse result), rng).

Record BasicAuthenticator : Type := mkAuthenticator { ba_keys : gmap Digest AuthSecretKey; ba_rng : Rng }.
Definition basic_new_with_rng (keys : list (Word * AuthSecretKey)) (rng : Rng) : BasicAuthenticator :=
  mkAuthenticator (foldl (λ m p, <[p.1 := p.2]> m) ∅ keys) rng.

(** The generator is behind a lock; the delta is not looked at. *)
Definition basic_get_signature (pub_key message : Word) : mut BasicAuthenticator AuthenticationError (list felt) := λ a,
  match ba_keys a !! pub_key with
  | Some (RpoFalcon512 falcon_key) =>
      let '(r, rng) := get_falcon_signature falcon_key message (ba_rng a) in (r, mkAuthenticator (ba_keys a) rng)
  | None => (Err (UnknownKey pub_key), a)
  end.

(** [TransactionAuthenticator for ()] *)
Definition unit_get_signature (pub_key message : Word) : res AuthenticationError (list felt) := Err RejectedSignature.

Lemma keys_not_inserted (l : list (Word * AuthSecretKey)) (m : gmap Digest AuthSecretKey) pk :
  pk ∉ l.*1 → foldl (λ m p, <[p.1 := p.2]> m) m l !! pk = m !! pk.
Proof.
  revert m. induction l as [|p l IH]; intros m Hpk; [done|]. apply not_elem_of_cons in Hpk as [H1 H2]. cbn [foldl].
  rewrite IH by done. by apply lookup_insert_ne.
Qed.

(** The authenticator signs with the last key that was registered for a public
    key, and knows no other public keys. *)
Lemma basic_signature before after pk k message rng :
  pk ∉ after.*1 →
  let a := basic_new_with_rng (before ++ (pk, RpoFalcon512 k) :: after) rng in
  basic_get_signature pk message a =
    let '(r, rng') := get_falcon_signature k message rng in (r, mkAuthenticator (ba_keys a) rng').
Proof.
  intros Hpk. cbv zeta. unfold basic_get_signature, basic_new_with_rng. cbn [ba_keys ba_rng].
  rewrite foldl_app. cbn [foldl fst snd]. by rewrite keys_not_inserted, lookup_insert_eq.
Qed.
Lemma basic_unknown_key keys pk message rng :
  pk ∉ keys.*1 →
  basic_get_signature pk message (basic_new_with_rng keys rng) = (Err (UnknownKey pk), basic_new_with_rng keys rng).
Proof.
  intros Hpk. unfold basic_get_signature, basic_new_with_rng. cbn [ba_keys]. by rewrite keys_not_inserted, lookup_empty.
Qed.
End Auth.

Section Exec.
  Context {F : FeltApi} {H : HasherApi} {S : SmtApi} {D : DigestOrd} {A : AsmApi} {P : ProgramApi}.
  Context {B : ByteIO} {SI : SmtIO} {M : MastIO} {N : NoteIO} {T : PathApi} {R : MmrApi} {V : AdviceInputsApi}.
  Context {K : StackApi} {O : NodesApi} {W : ProofApi} {FO : ForestApi}.

(** ** The MAST store *)

Definition TransactionMastStore : Type := gmap Digest MastForest.

(** The store has interior mutability: operations on a shared reference change it. *)
Definition mast_insert (mast_forest : MastForest) (store : TransactionMastStore) : TransactionMastStore :=
  foldl (λ store proc_digest, <[proc_digest := mast_forest]> store) store (local_procedure_digests mast_forest).
Definition mast_store_new : TransactionMastStore :=
  mast_insert miden_lib_forest (mast_insert stdlib_forest (mast_insert kernel_forest ∅)).
Definition mast_get (store : TransactionMastStore) (procedure_hash : Digest) : option MastForest := store !! procedure_hash.
Definition mast_load_account_code (code : AccountCode) : TransactionMastStore → TransactionMastStore := mast_insert (mast code).
Definition load_transaction_code (ti : TransactionInputs) (ta : TransactionArgs) (store : TransactionMastStore)
    : TransactionMastStore :=
  let store := mast_load_account_code (acct_code (ti_account ti)) store in
  let store := foldl (λ store n, mast_insert (ns_mast (nr_script (nd_recipient (note_details (input_note n))))) store)
                 store (in_notes (ti_input_notes ti)) in
  match ta_tx_script ta with Some tx_script => mast_insert (ts_mast tx_script) store | None => store end.

(** ** The VM *)

Inductive DataStoreError : Type :=
  | AccountNotFound (id : AccountId)
  | BlockNotFound (num : Z)
  | InvalidTransactionInput (e : TransactionInputError)
  | InternalError
  | NoteAlreadyConsumed (id : Digest)
  | NoteNotFound (id : Digest).

(** [execute] and [prove] run a program with a host. The options of an execution
    are refused when fewer cycles are allowed than are expected; a proof that
    [prove] returns is accepted by [verify] for the same program and stacks, with
    the security level of the proving options. *)
Class VmApi {XR XM : AdviceApi} := {
  VmError : Type;
  VerificationError : Type;
  ExecutionOptions : Type;
  ProvingOptions : Type;
  ProgramInfo : Type;
  kernel_main : Program;
  kernel_program_info : ProgramInfo;
  proving_default : ProvingOptions;
  security_level : ProvingOptions → Z;
  options_new : option Z → Z → bool → bool → option ExecutionOptions;
  max_cycles : ExecutionOptions → Z;
  expected_cycles : ExecutionOptions → Z;
  enable_tracing : ExecutionOptions → bool;
  enable_debugging : ExecutionOptions → bool;
  options_with_tracing : ExecutionOptions → ExecutionOptions;
  (** [RecAdviceProvider::finalize], the recorded inputs *)
  rec_witness : AdviceProvider (AdviceApi:=XR) → AdviceInputs;
  execute : Program → StackInputs → TransactionMastStore → ExecutionOptions →
            mut (TransactionHost (V:=XR)) VmError StackOutputs;
  prove : Program → StackInputs → TransactionMastStore → ProvingOptions →
          mut (TransactionHost (V:=XM)) VmError (StackOutputs * ExecutionProof);
  verify : ProgramInfo → StackInputs → StackOutputs → ExecutionProof → res VerificationError Z;
  options_new_spec max expected tracing debug : 64 ≤ max → expected ≤ max →
    ∃ o, options_new (Some max) expected tracing debug = Some o ∧ max_cycles o = max ∧ expected_cycles o = expected ∧
      enable_tracing o = tracing ∧ enable_debugging o = debug;
  with_tracing_spec o : max_cycles (options_with_tracing o) = max_cycles o ∧
    expected_cycles (options_with_tracing o) = expected_cycles o ∧
    enable_tracing (options_with_tracing o) = true ∧ enable_debugging (options_with_tracing o) = enable_debugging o;
  prove_verifies si store o h so proof h' :
    prove kernel_main si store o h = (Ok (so, proof), h') →
    verify kernel_program_info si so proof = Ok (security_level o)
}.

  Context {XR XM : AdviceApi} {PR : ProviderApi (X:=XR)} {PM : ProviderApi (X:=XM)} {VM : VmApi (XR:=XR) (XM:=XM)}.

(** ** The executor *)

Definition DataStore : Type := AccountId → Z → list Digest → res DataStoreError TransactionInputs.

Record TransactionExecutor : Type := mkExecutor {
  te_data_store : DataStore;
  te_mast_store : TransactionMastStore;
  te_authenticator : option Authenticator;
  (** A set ordered by commitment: codes with the same commitment are the same element. *)
  te_account_codes : gmap Digest AccountCode;
  te_exec_options : ExecutionOptions
}.
Definition set_te_store x (t : TransactionExecutor) :=
  mkExecutor (te_data_store t) x (te_authenticator t) (te_account_codes t) (te_exec_options t).
Definition set_te_codes x (t : TransactionExecutor) :=
  mkExecutor (te_data_store t) (te_mast_store t) (te_authenticator t) x (te_exec_options t).
Definition set_te_options x (t : TransactionExecutor) :=
  mkExecutor (te_data_store t) (te_mast_store t) (te_authenticator t) (te_account_codes t) x.

Definition executor_new {E} (data_store : DataStore) (authenticator : option Authenticator) : res E TransactionExecutor :=
  exec_options ← expect_some (options_new (Some MAX_TX_EXECUTION_CYCLES) MIN_TX_EXECUTION_CYCLES false false);
  Ok (mkExecutor data_store mast_store_new authenticator ∅ exec_options).
Definition with_debug_mode {E} (in_debug_mode : bool) (t : TransactionExecutor) : res E TransactionExecutor :=
  let o := te_exec_options t in
  exec_options ← expect_some (options_new (Some (max_cycles o)) (expected_cycles o) (enable_tracing o) in_debug_mode);
  Ok (set_te_options exec_options t).
Definition with_tracing (t : TransactionExecutor) : TransactionExecutor :=
  set_te_options (options_with_tracing (te_exec_options t)) t.

(** [BTreeSet::insert] keeps an equal element that is already there. *)
Definition codes_insert (code : AccountCode) (codes : gmap Digest AccountCode) : gmap Digest AccountCode :=
  match codes !! code_commitment code with Some _ => codes | None => <[code_commitment code := code]> codes end.
Definition executor_load_account_code (code : AccountCode) (t : TransactionExecutor) : TransactionExecutor :=
  set_te_codes (codes_insert code (te_account_codes t))
    (set_te_store (mast_load_account_code code (te_mast_store t)) t).
Definition executor_load_library (library : Library) (t : TransactionExecutor) : TransactionExecutor :=
  set_te_store (mast_insert (mast_forest library) (te_mast_store t)) t.

Inductive TransactionExecutorError : Type :=
  | ExecuteTransactionProgramFailed (e : VmError)
  | FetchTransactionInputsFailed (e : DataStoreError)
  | InconsistentAccountId (input_id output_id : AccountId)
  | InconsistentAccountNonceDelta (expected actual : option felt)
  | InvalidTransactionOutput (e : TransactionOutputError)
  | TransactionHostCreationFailed (e : TransactionHostError).

(** Subtraction of field elements. *)
Definition felt_sub (x y : felt) : felt := felt_new ((as_int x - as_int y) mod MODULUS).

Definition check_nonce_delta (initial final : felt) (delta_nonce : option felt) : res TransactionExecutorError unit :=
  let nonce_delta := felt_sub final initial in
  if decide (nonce_delta = ZERO) then
    match delta_nonce with Some _ => Err (InconsistentAccountNonceDelta None delta_nonce) | None => Ok tt end
  else if decide (final ≠ default ZERO delta_nonce) then Err (InconsistentAccountNonceDelta (Some final) delta_nonce)
  else Ok tt.

Definition build_executed_transaction (ta : TransactionArgs) (ti : TransactionInputs) (stack_outputs : StackOutputs)
    (host : TransactionHost (V:=XR)) (account_codes : list AccountCode)
    : res TransactionExecutorError ExecutedTransaction :=
  parts ← host_into_parts host;
  let '(account_delta, output_notes, generated_signatures, tx_progress) := parts in
  let advice_witness := rec_witness (adv_provider host) in
  tx_outputs ← map_err InvalidTransactionOutput
    (from_transaction_parts stack_outputs (provider_map (adv_provider host)) output_notes);
  let final_account := to_account tx_outputs in
  let initial_account := ti_account ti in
  if decide (acct_id initial_account ≠ ah_id final_account)
  then Err (InconsistentAccountId (acct_id initial_account) (ah_id final_account))
  else
    _ ← check_nonce_delta (acct_nonce initial_account) (ah_nonce final_account) (ad_nonce account_delta);
    let advice_witness := extend_map (btree_iter digest_leb generated_signatures) advice_witness in
    executed_new ti tx_outputs account_codes account_delta ta advice_witness (measurements_from tx_progress).

(** [mapped_values(&code.commitment()).and(Some(code.clone()))] *)
Definition used_account_codes (ta : TransactionArgs) (codes : gmap Digest AccountCode) : list AccountCode :=
  omap (λ code, _ ← mapped_values (ta_advice_inputs ta) (code_commitment code); Some code) (btree_iter digest_leb codes).*2.

(** The executor is behind a shared reference; only its store changes. [debug] is
    whether the assertions of debug builds are checked. *)
Definition execute_transaction (debug : bool) (account_id : AccountId) (block_ref : Z) (notes : list Digest) (ta : TransactionArgs)
    : mut TransactionExecutor TransactionExecutorError ExecutedTransaction :=
  t ← get_self;
  ti ← lift (map_err FetchTransactionInputsFailed (te_data_store t account_id block_ref notes));
  inputs ← lift (prepare_inputs debug ti ta None);
  let '(stack_inputs, advice_inputs) := inputs in
  let advice_recorder := provider_from (X:=XR) advice_inputs in
  let store := load_transaction_code ti ta (te_mast_store t) in
  put_self (set_te_store store t) ;;
  host ← lift (map_err TransactionHostCreationFailed
    (host_new (account_header_from (ti_account ti)) advice_recorder (te_authenticator t)
      (list_to_set (code_commitment <$> (btree_iter digest_leb (te_account_codes t)).*2))));
  let '(result, host) := execute kernel_main stack_inputs store (te_exec_options t) host in
  stack_outputs ← lift (map_err ExecuteTransactionProgramFailed result);
  lift (build_executed_transaction ta ti stack_outputs host (used_account_codes ta (te_account_codes t))).

(** ** The prover *)

Record LocalTransactionProver : Type := mkProver {
  lp_mast_store : TransactionMastStore;
  lp_proof_options : ProvingOptions
}.
Definition set_lp_store x (p : LocalTransactionProver) := mkProver x (lp_proof_options p).
Definition prover_new (proof_options : ProvingOptions) : LocalTransactionProver := mkProver mast_store_new proof_options.
Definition prover_default : LocalTransactionProver := mkProver mast_store_new proving_default.
Definition prover_load_library (library : Library) (p : LocalTransactionProver) : LocalTransactionProver :=
  set_lp_store (mast_insert (mast_forest library) (lp_mast_store p)) p.

Inductive TransactionProverError : Type :=
  | ProverInternalError
  | InvalidAccountDelta (e : AccountError)
  | ProverInvalidTransactionOutput (e : TransactionOutputError)
  | ProvenTransactionFailed (e : ProvenTransactionError)
  | TransactionProgramExecutionFailed (e : VmError)
  | ProverHostCreationFailed (e : TransactionHostError).

(** The details of the update for a public account. *)
Definition prover_details (account : Account) (account_delta : AccountDelta)
    : res TransactionProverError AccountUpdateDetails :=
  if account_is_new account then
    match account_apply_delta account_delta account with
    | (Ok _, account) => Ok (NewUpdate account)
    | (Err e, _) => Err (InvalidAccountDelta e)
    | (Panic, _) => Panic
    end
  else Ok (DeltaUpdate account_delta).

(** From the stack that the VM returns, the proof and the host to the proven transaction. *)
Definition build_proven_transaction (ti : TransactionInputs) (stack_outputs : StackOutputs) (proof : ExecutionProof)
    (host : TransactionHost (V:=XM)) : res TransactionProverError ProvenTransaction :=
  let account := ti_account ti in
  parts ← host_into_parts host;
  let '(account_delta, output_notes, _, _) := parts in
  tx_outputs ← map_err ProverInvalidTransactionOutput
    (from_transaction_parts stack_outputs (provider_map (adv_provider host)) output_notes);
  let output_notes := output_shrink <$> on_notes (to_output_notes tx_outputs) in
  let builder := add_output_notes output_notes (add_input_notes (in_notes (ti_input_notes ti))
    (proven_builder_new (acct_id account) (account_init_hash account) (account_header_hash (to_account tx_outputs))
       (bh_hash (ti_block_header ti)) (to_expiration_block_num tx_outputs) proof)) in
  public ← is_public (acct_id account);
  builder ← (if public : bool
             then details ← prover_details account account_delta; Ok (account_update_details details builder)
             else Ok builder);
  map_err ProvenTransactionFailed (proven_build builder).

(** [LocalTransactionProver::prove] *)
Definition local_prove (debug : bool) (w : TransactionWitness)
    : mut LocalTransactionProver TransactionProverError ProvenTransaction :=
  p ← get_self;
  let ti := tw_tx_inputs w in
  let store := foldl (λ store code, mast_load_account_code code store) (lp_mast_store p) (tw_account_codes w) in
  put_self (set_lp_store store p) ;;
  inputs ← lift (prepare_inputs debug ti (tw_tx_args w) (Some (tw_advice_witness w)));
  let '(stack_inputs, advice_inputs) := inputs in
  let advice_provider := provider_from (X:=XM) advice_inputs in
  let store := load_transaction_code ti (tw_tx_args w) store in
  put_self (set_lp_store store p) ;;
  host ← lift (map_err ProverHostCreationFailed
    (host_new (account_header_from (ti_account ti)) advice_provider None
       (list_to_set (code_commitment <$> tw_account_codes w))));
  let '(result, host) := prove kernel_main stack_inputs store (lp_proof_options p) host in
  proved ← lift (map_err TransactionProgramExecutionFailed result);
  let '(stack_outputs, proof) := proved in
  lift (build_proven_transaction ti stack_outputs proof host).

(** ** The verifier *)

Inductive TransactionVerifierError : Type :=
  | TransactionVerificationFailed (e : VerificationError)
  | InsufficientProofSecurityLevel (level required : Z).

Record TransactionVerifier : Type := mkVerifier {
  tv_tx_program_info : ProgramInfo;
  tv_proof_security_level : Z
}.
Definition verifier_new (proof_security_level : Z) : TransactionVerifier :=
  mkVerifier kernel_program_info proof_security_level.

(** [TransactionVerifier::verify] *)
Definition verify_transaction (v : TransactionVerifier) (transaction : ProvenTransaction)
    : res TransactionVerifierError unit :=
  stack_inputs ← build_input_stack (tu_account_id (pt_account_update transaction))
    (tu_init_state_hash (pt_account_update transaction)) (in_commitment (pt_input_notes transaction))
    (pt_block_ref transaction);
  stack_outputs ← build_output_stack (tu_final_state_hash (pt_account_update transaction))
    (on_commitment (pt_output_notes transaction)) (pt_expiration_block_num transaction);
  proof_security_level ← map_err TransactionVerificationFailed
    (verify (tv_tx_program_info v) stack_inputs stack_outputs (pt_proof transaction));
  if proof_security_level <? tv_proof_security_level v
  then Err (InsufficientProofSecurityLevel proof_security_level (tv_proof_security_level v))
  else Ok tt.

(** ** Code in the store *)

(** Every digest leads to a forest that has the procedure. *)
Definition store_ok (store : TransactionMastStore) : Prop :=
  ∀ d f, mast_get store d = Some f → d ∈ local_procedure_digests f.
Definition has_code (store : TransactionMastStore) (f : MastForest) : Prop :=
  ∀ d, d ∈ local_procedure_digests f → is_Some (mast_get store d).

Lemma mast_insert_get f store d :
  mast_get (mast_insert f store) d =
  if decide (d ∈ local_procedure_digests f) then Some f else mast_get store d.
Proof.
  unfold mast_insert, mast_get, TransactionMastStore in *. generalize (local_procedure_digests f) as l. intros l. revert store.
  induction l as [|x l IH]; intros store; cbn [foldl].
  - by rewrite decide_False by apply not_elem_of_nil.
  - rewrite IH. destruct (decide (d ∈ l)) as [Hl|Hl].
    + by rewrite decide_True by (by apply list_elem_of_further).
    + destruct (decide (d = x)) as [->|Hx].
      * by rewrite lookup_insert_eq, decide_True by (by apply list_elem_of_here).
      * rewrite lookup_insert_ne by done. rewrite decide_False; [done|]. by intros [?|?]%elem_of_cons.
Qed.

(** What one insertion does. *)
Record extends (store store' : TransactionMastStore) : Prop := {
  ex_ok : store_ok store → store_ok store';
  ex_has : ∀ f, has_code store f → has_code store' f
}.
Lemma extends_refl store : extends store store.
Proof. by constructor. Qed.
Lemma extends_trans s1 s2 s3 : extends s1 s2 → extends s2 s3 → extends s1 s3.
Proof. intros [] []. constructor; auto. Qed.
Lemma mast_insert_extends f store : extends store (mast_insert f store) ∧ has_code (mast_insert f store) f.
Proof.
  split; [constructor|].
  - intros Hok d f'. rewrite mast_insert_get. case_decide; [by intros [= <-]|apply Hok].
  - intros g Hg d Hd. rewrite mast_insert_get. case_decide; [by eexists|by apply Hg].
  - intros d Hd. rewrite mast_insert_get, decide_True by done. by eexists.
Qed.
Lemma fold_insert_extends {X} (g : X → MastForest) l store :
  extends store (foldl (λ s x, mast_insert (g x) s) store l) ∧
  ∀ x, x ∈ l → has_code (foldl (λ s x, mast_insert (g x) s) store l) (g x).
Proof.
  revert store. induction l as [|y l IH]; intros store; cbn [foldl].
  - split; [apply extends_refl|]. by intros x ?%elem_of_nil.
  - destruct (IH (mast_insert (g y) store)) as [IH1 IH2]. destruct (mast_insert_extends (g y) store) as [E1 E2].
    split; [by eapply extends_trans|]. intros x [->|Hx]%elem_of_cons; [by apply (ex_has _ _ IH1)|by apply IH2].
Qed.

Lemma store_ok_new : store_ok mast_store_new.
Proof. do 3 apply (ex_ok _ _ (proj1 (mast_insert_extends _ _))). intros d f. unfold mast_get, TransactionMastStore. by rewrite lookup_empty. Qed.

Lemma load_transaction_code_spec ti ta store :
  let store' := load_transaction_code ti ta store in
  extends store store' ∧ has_code store' (mast (acct_code (ti_account ti))) ∧
  (∀ n, n ∈ in_notes (ti_input_notes ti) → has_code store' (ns_mast (nr_script (nd_recipient (note_details (input_note n)))))) ∧
  (∀ s, ta_tx_script ta = Some s → has_code store' (ts_mast s)).
Proof.
  cbv zeta. unfold load_transaction_code, mast_load_account_code.
  destruct (mast_insert_extends (mast (acct_code (ti_account ti))) store) as [E1 C1].
  destruct (fold_insert_extends (λ n, ns_mast (nr_script (nd_recipient (note_details (input_note n)))))
    (in_notes (ti_input_notes ti)) (mast_insert (mast (acct_code (ti_account ti))) store)) as [E2 C2].
  set (s2 := foldl _ _ _) in *. destruct (ta_tx_script ta) as [sc|].
  - destruct (mast_insert_extends (ts_mast sc) s2) as [E3 C3]. split_and!.
    + eapply extends_trans; [exact E1|]. by eapply extends_trans.
    + by apply (ex_has _ _ E3), (ex_has _ _ E2).
    + intros n Hn. by apply (ex_has _ _ E3), C2.
    + by intros s [= <-].
  - split_and!; [by eapply extends_trans|by apply (ex_has _ _ E2)|exact C2|done].
Qed.

(** ** Options *)

Definition options_ok (o : ExecutionOptions) : Prop := 64 ≤ max_cycles o ∧ expected_cycles o ≤ max_cycles o.

Lemma executor_new_Ok {E} ds auth :
  ∃ t, executor_new (E:=E) ds auth = Ok t ∧ options_ok (te_exec_options t) ∧ te_mast_store t = mast_store_new ∧
    te_account_codes t = ∅.
Proof.
  destruct (options_new_spec MAX_TX_EXECUTION_CYCLES MIN_TX_EXECUTION_CYCLES false false) as (o & Ho & Hm & He & _);
    [by vm_compute..|].
  exists (mkExecutor ds mast_store_new auth ∅ o). unfold executor_new. rewrite Ho. split; [done|]. split; [|done].
  unfold options_ok. cbn [te_exec_options]. rewrite Hm, He. by vm_compute.
Qed.
Lemma with_debug_mode_Ok {E} b t :
  options_ok (te_exec_options t) →
  ∃ t', with_debug_mode (E:=E) b t = Ok t' ∧ options_ok (te_exec_options t') ∧
    enable_debugging (te_exec_options t') = b ∧ te_mast_store t' = te_mast_store t.
Proof.
  intros [H1 H2]. destruct (options_new_spec _ _ (enable_tracing (te_exec_options t)) b H1 H2) as (o & Ho & Hm & He & _ & Hd).
  exists (set_te_options o t). unfold with_debug_mode. cbv zeta. rewrite Ho. split; [done|]. split; [|done].
  unfold options_ok. cbn [te_exec_options set_te_options]. by rewrite Hm, He.
Qed.

(** ** Creating the host *)

(** The map has the procedures of well-formed code under the commitment [c]. *)
Definition code_mapped (get : Digest → option (list felt)) (c : Digest) : Prop :=
  ∃ code, wf_code code ∧ NoDup (mast_root <$> procedures code) ∧ code_commitment code = c ∧
    get c = Some (procedures_as_elements (procedures code)).

Section HostNew.
  Context {X : AdviceApi}.

Lemma build_map_mapped (adv : AdviceProvider) c :
  code_mapped (get_mapped_values adv) c → ∃ m, build_account_procedure_map c adv = Ok m.
Proof.
  intros (code & Hw & ND & <- & Hget). pose proof Hw as (Hn & Hall & _). unfold MAX_NUM_PROCEDURES in Hn.
  destruct (index_procedures_Ok 0 (procedures code) ∅) as (m & Hm & _); [lia|lia|done|done|].
  exists m. by apply build_map_Ok.
Qed.

Lemma proc_index_map_mapped (adv : AdviceProvider) cs m :
  Forall (code_mapped (get_mapped_values adv)) cs → ∃ m', proc_index_map_from cs adv m = Ok m'.
Proof.
  intros Hc. revert m. induction Hc as [|c cs Hc _ IH]; intros m; [by eexists|]. cbn [proc_index_map_from].
  destruct (build_map_mapped adv c Hc) as (pm & Hpm). rewrite (res_bind_Ok _ _ _ Hpm). apply IH.
Qed.

Lemma host_commitments (cs : gset Digest) c :
  c ∈ (btree_iter digest_leb (gset_to_gmap tt cs)).*1 ↔ c ∈ cs.
Proof.
  rewrite btree_iter_perm, list_elem_of_fmap. split.
  - intros ([d []] & -> & Hd%elem_of_map_to_list). by apply lookup_gset_to_gmap_Some in Hd as [? _].
  - intros Hc. exists (c, tt). split; [done|]. apply elem_of_map_to_list. by apply lookup_gset_to_gmap_Some.
Qed.

Lemma host_new_Ok account (adv : AdviceProvider) auth cs :
  (∀ c, c ∈ ({[ ah_code_commitment account ]} ∪ cs : gset Digest) → code_mapped (get_mapped_values adv) c) →
  ∃ m, host_new account adv auth cs = Ok (mkHost adv (tracker_new account) m ∅ auth ∅ progress_default).
Proof.
  intros Hc. unfold host_new. cbv zeta.
  destruct (proc_index_map_mapped adv (btree_iter digest_leb (gset_to_gmap tt ({[ ah_code_commitment account ]} ∪ cs))).*1 ∅)
    as [m Hm]; [|exists m; by rewrite (res_bind_Ok _ _ _ Hm)].
  apply Forall_forall. intros c ?%host_commitments. by apply Hc.
Qed.

Lemma proc_index_map_missing (adv : AdviceProvider) cs m c :
  Forall (λ c, code_mapped (get_mapped_values adv) c ∨ get_mapped_values adv c = None) cs →
  c ∈ cs → get_mapped_values adv c = None →
  proc_index_map_from cs adv m = Err AccountProcedureIndexMapError.
Proof.
  intros Hcs. revert m. induction Hcs as [|c' cs Hc' _ IH]; intros m Hin Hnone; [by apply elem_of_nil in Hin|].
  cbn [proc_index_map_from]. destruct Hc' as [Hc'|Hc'].
  - destruct (build_map_mapped adv c' Hc') as (pm & Hpm). rewrite (res_bind_Ok _ _ _ Hpm).
    apply elem_of_cons in Hin as [->|Hin]; [|by apply IH]. destruct Hc' as (? & _ & _ & _ & Hget). congruence.
  - unfold build_account_procedure_map. by rewrite Hc'.
Qed.

Lemma host_new_missing account (adv : AdviceProvider) auth cs c :
  (∀ c, c ∈ ({[ ah_code_commitment account ]} ∪ cs : gset Digest) →
     code_mapped (get_mapped_values adv) c ∨ get_mapped_values adv c = None) →
  c ∈ cs → get_mapped_values adv c = None →
  host_new account adv auth cs = Err AccountProcedureIndexMapError.
Proof.
  intros Hc Hin Hnone. unfold host_new. cbv zeta. rewrite (proc_index_map_missing adv _ ∅ c); [done|..|done].
  - apply Forall_forall. intros c' ?%host_commitments. by apply Hc.
  - apply host_commitments. set_solver.
Qed.
End HostNew.

(** ** Runs of the VM

    While the VM runs the kernel it calls the host and changes the advice
    provider; nothing else touches the host. *)

Section Runs.
  Context {X : AdviceApi} (overflow_checks : bool).

Inductive vm_step : Type :=
  | StepEvent (event : TransactionEvent) (ps : ProcessState)
  | StepTrace (ps : ProcessState) (trace_id : Z)
  | StepSignature (ps : ProcessState)
  | StepAdvice (adv : AdviceProvider).
Definition run_step (s : vm_step) : mut TransactionHost ExecutionError unit :=
  match s with
  | StepEvent event ps => on_event overflow_checks ps (event_id event)
  | StepTrace ps trace_id => on_trace ps trace_id
  | StepSignature ps => on_signature_requested ps
  | StepAdvice adv => λ h, (Ok tt, set_adv adv h)
  end.
Definition step_event (s : vm_step) : option (TransactionEvent * ProcessState) :=
  match s with StepEvent event ps => Some (event, ps) | _ => None end.

(** The first event of a run, and the rest. *)
Lemma kernel_run_cons a x l a' :
  kernel_run a (x :: l) a' → ∃ a1, kernel_run a [x] a1 ∧ kernel_run a1 l a'.
Proof.
  intros Hr. remember (x :: l) as l0 eqn:El.
  induction Hr as [a|a op a1 e ps l0 a' Hop Hrun Hem Hroot Hl _|a e ps l0 a' He Hroot Hl _|a code l0 a' Hty _ IH].
  - discriminate El.
  - injection El as <- ->. exists a1. split; [|done]. eapply run_account; [done..|]. apply run_end.
  - injection El as <- ->. exists a. split; [|done]. apply run_other; [done..|]. apply run_end.
  - destruct (IH El) as (a1 & H1 & H2). exists a1. split; [|done]. by eapply run_set_code.
Qed.

Lemma steps_track a0 a steps a' h h' :
  wf_vault (acct_vault a0) → kernel_run a (omap step_event steps) a' → tracks a0 (account_delta h) a →
  for_each steps run_step h = (Ok tt, h') →
  tracks a0 (account_delta h') a' ∧
  (Forall positive_event (omap step_event steps) → tracks_positive (account_delta h) a → tracks_positive (account_delta h') a') ∧
  (Forall (λ x, other_event x.1 = true) (omap step_event steps) → account_delta h' = account_delta h).
Proof.
  intros H0. revert a h. induction steps as [|s steps IH]; intros a h Hrun Ht; cbn [for_each].
  - intros [= <-]. by apply (host_run_tracks overflow_checks a0 a [] a' h (Ok tt) h H0 Hrun Ht).
  - unfold mbind, mut_bind. destruct (run_step s h) as [[[]|e|] h1] eqn:Es; [|discriminate..]. intros Hrest.
    assert (step_event s = None → account_delta h1 = account_delta h) as Hkeep.
    { destruct s as [event ps|ps id|ps|adv]; intros Hs; [discriminate| | |by injection Es as <-]; cbn [run_step] in Es.
      - pose proof (on_trace_keeps account_delta (λ _ _, eq_refl) ps id h) as E. by rewrite Es in E.
      - pose proof (on_signature_requested_keeps account_delta (λ _ _, eq_refl) (λ _ _, eq_refl) ps h) as E. by rewrite Es in E. }
    cbn [omap list_omap] in *. destruct (step_event s) as [x|] eqn:Ex.
    + destruct s as [event ps| | |]; try discriminate. injection Ex as <-.
      apply kernel_run_cons in Hrun as (a1 & H1 & Hrun).
      assert (host_run overflow_checks [(event, ps)] h = (Ok tt, h1)) as Hh.
      { unfold host_run. cbn [for_each fst snd]. unfold mbind, mut_bind. cbn [run_step] in Es. by rewrite Es. }
      destruct (host_run_tracks overflow_checks a0 a [(event, ps)] a1 h _ h1 H0 H1 Ht Hh) as [_ Hstep].
      destruct (Hstep eq_refl) as (S1 & S2 & S3). destruct (IH a1 h1 Hrun S1 Hrest) as (T1 & T2 & T3). split_and!; [done|..].
      * intros [Hx Hl]%Forall_cons Hp. apply T2, S2; [done|by constructor|done].
      * intros [Hx Hl]%Forall_cons. rewrite T3 by done. by apply S3; constructor.
    + rewrite <-(Hkeep eq_refl) in *. by apply (IH a h1 Hrun Ht).
Qed.

(** What the kernel documents of a run that takes the account [a] to [a'] with the
    events [l], creates the notes [on] and leaves the expiration block [e]: the
    stack, the final account in the advice map, the events, and that the nonce does
    not become smaller. *)
Record kernel_outcome (a : Account) (l : list (TransactionEvent * ProcessState)) (h h' : TransactionHost)
    (so : StackOutputs) (a' : Account) (on : OutputNotes) (e : Z) : Prop := {
  ko_steps : ∃ steps, for_each steps run_step h = (Ok tt, h') ∧ omap step_event steps = l ∧ kernel_run a l a';
  ko_nonce : as_int (acct_nonce a) ≤ as_int (acct_nonce a');
  ko_stack : build_output_stack (E:=Empty_set) (account_hash a') (on_commitment on) e = Ok so;
  ko_expiration : 0 ≤ e < 2 ^ 32;
  ko_notes : ∃ notes, build_all (E:=Empty_set) (btree_iter Z.leb (output_notes h')) = Ok notes ∧ output_notes_new notes = Ok on;
  ko_account : get_mapped_values (adv_provider h') (account_hash a') =
    Some (mjoin (word_elements <$> header_words (account_header_from a') ZERO ZERO))
}.

Lemma build_all_error {E E'} l notes : build_all (E:=E) l = Ok notes → build_all (E:=E') l = Ok notes.
Proof.
  revert notes. induction l as [|[i b] l IH]; intros notes; [by intros [= <-]|]. cbn [build_all].
  intros (n & Hn & (ns & Hns & [= <-])%res_bind_inv)%res_bind_inv.
  assert (builder_build (E:=E') b = Ok n) as Hn'.
  { revert Hn. unfold builder_build, note_new, details_nullifier, script_hash. cbv zeta.
    destruct (nb_recipient b); [|by intros [= <-]]. cbn [nd_recipient].
    destruct (node_digest _ _) as [d|]; [|discriminate]. by intros [= <-]. }
  rewrite (res_bind_Ok _ _ _ Hn'), (res_bind_Ok _ _ _ (IH _ Hns)). done.
Qed.

(** The parts that the host returns after such a run. *)
Lemma outcome_parts {E} a l h h' so a' on e :
  wf_vault (acct_vault a) → account_delta h = tracker_new (account_header_from a) → kernel_outcome a l h h' so a' on e →
  acct_id a' = acct_id a ∧
  ((∃ d a'' notes, host_into_parts (E:=E) h' = Ok (d, notes, generated_signatures h', tx_progress h') ∧
      output_notes_new notes = Ok on ∧ describes_run a l a' d a'' ∧
      ad_nonce d = if decide (acct_nonce a' = acct_nonce a) then None else Some (acct_nonce a')) ∨
   (host_into_parts (E:=E) h' = Panic ∧ stale_run a l a')).
Proof.
  intros Hv Hh [(steps & Hsteps & <- & Hrun) Hn _ _ (notes & Hnotes & Hon) _].
  assert (tracks a (account_delta h) a) as Ht0 by (rewrite Hh; by apply tracks_init).
  destruct (steps_track a a steps a' h h' Hv Hrun Ht0 Hsteps) as (Ht & Hpos & Hno). rewrite Hh in Hpos, Hno.
  split; [apply Ht|]. unfold host_into_parts. rewrite (res_bind_Ok _ _ _ (build_all_error _ _ Hnotes)).
  destruct (tracked_delta (E:=E) a (omap step_event steps) a' (account_delta h') Hv Ht Hn)
    as [(d & a'' & Hd & Hdr & Hdn)|[Hd Hst]]; try done.
  - intros (Hp & Hl & _). apply Hpos; [done|]. split; [apply map_Forall_empty|done].
  - left. exists d, a'', notes. by rewrite (res_bind_Ok _ _ _ Hd).
  - right. by rewrite Hd.
Qed.

(** The outputs that are read back. *)
Lemma outcome_outputs (PX : ProviderApi (X:=X)) a l h h' so a' on e notes :
  valid_id (acct_id a') → kernel_outcome a l h h' so a' on e → output_notes_new notes = Ok on →
  from_transaction_parts so (provider_map (adv_provider h')) notes = Ok (mkTxOutputs (account_header_from a') on e).
Proof.
  intros Hid [_ _ Hstack He _ Hacc] Hon. apply from_transaction_parts_Ok.
  exists (account_hash a'), ZERO, ZERO. cbn [to_account to_output_notes to_expiration_block_num].
  split_and!; [by apply (build_parse_output_stack (E:=Empty_set))|done|by rewrite provider_map_spec|done|done].
Qed.
End Runs.

(** ** Preparing and running *)

Lemma prepared_lookup {E} debug ti ta script_root init :
  accepted_inputs ti → args_script_root ta = Some script_root → inputs_fit debug ti = true →
  ∃ si ai, prepare_inputs (E:=E) debug ti ta init = Ok (si, ai) ∧
    (∀ E', build_input_stack (E:=E') (acct_id (ti_account ti)) (account_init_hash (ti_account ti))
      (in_commitment (ti_input_notes ti)) (bh_hash (ti_block_header ti)) = Ok si) ∧
    ∀ k, mapped_values ai k = advice_lookup ti ta init k.
Proof.
  intros Ht Hs Hf. destruct (prepare_inputs_Ok (E:=E) debug ti ta script_root init Ht Hs Hf) as (si & a1 & Hprep & Hsi & [_ Gm _]).
  exists si, (advice_extend (ta_advice_inputs ta) a1). split; [done|]. split; [done|].
  intros k. by rewrite advice_extend_mapped, Gm.
Qed.

Lemma code_mapped_ext get get' c : get c = get' c → code_mapped get c → code_mapped get' c.
Proof. intros E (code & Hw & ND & Hc & Hget). exists code. by rewrite <-E. Qed.

Definition loaded_commitments (t : TransactionExecutor) : gset Digest :=
  list_to_set (code_commitment <$> (btree_iter digest_leb (te_account_codes t)).*2).

(** The VM runs the kernel for the prepared transaction to its end, with the
    events [l] and the documented outcome. *)
Definition executes (oc debug : bool) (t : TransactionExecutor) (ti : TransactionInputs) (ta : TransactionArgs)
    (l : list (TransactionEvent * ProcessState)) (a' : Account) (on : OutputNotes) (e : Z) : Prop :=
  ∀ si ai h, prepare_inputs (E:=TransactionExecutorError) debug ti ta None = Ok (si, ai) →
    adv_provider h = provider_from (X:=XR) ai → account_delta h = tracker_new (account_header_from (ti_account ti)) →
    output_notes h = ∅ →
    ∃ so h', execute kernel_main si (load_transaction_code ti ta (te_mast_store t)) (te_exec_options t) h = (Ok so, h') ∧
      kernel_outcome oc (ti_account ti) l h h' so a' on e.
Definition proves (oc debug : bool) (p : LocalTransactionProver) (w : TransactionWitness)
    (l : list (TransactionEvent * ProcessState)) (a' : Account) (on : OutputNotes) (e : Z) : Prop :=
  ∀ si ai h, prepare_inputs (E:=TransactionProverError) debug (tw_tx_inputs w) (tw_tx_args w) (Some (tw_advice_witness w)) = Ok (si, ai) →
    adv_provider h = provider_from (X:=XM) ai →
    account_delta h = tracker_new (account_header_from (ti_account (tw_tx_inputs w))) → output_notes h = ∅ →
    ∃ so proof h', prove kernel_main si (load_transaction_code (tw_tx_inputs w) (tw_tx_args w)
        (foldl (λ store code, mast_load_account_code code store) (lp_mast_store p) (tw_account_codes w)))
        (lp_proof_options p) h = (Ok (so, proof), h') ∧
      kernel_outcome oc (ti_account (tw_tx_inputs w)) l h h' so a' on e.

Lemma felt_sub_ZERO x y : felt_sub x y = ZERO ↔ x = y.
Proof.
  pose proof (as_int_range x). pose proof (as_int_range y). unfold felt_sub. split.
  - intros E. apply (f_equal as_int) in E.
    rewrite as_int_ZERO, as_int_small in E by (apply Z.mod_pos_bound; unfold MODULUS; lia).
    apply as_int_inj. unfold MODULUS in *. destruct (Z.le_gt_cases (as_int y) (as_int x)).
    + rewrite Z.mod_small in E by lia. lia.
    + rewrite <-(Z_mod_plus_full _ 1), Z.mod_small in E by lia. lia.
  - intros ->. apply as_int_inj. by rewrite Z.sub_diag, as_int_small, as_int_ZERO.
Qed.

Lemma check_nonce_delta_Ok init final n :
  check_nonce_delta init final n = Ok tt ↔
  if decide (final = init) then n = None else default ZERO n = final.
Proof.
  unfold check_nonce_delta. cbv zeta. destruct (decide (final = init)) as [->|Hne].
  - rewrite (decide_True (P:=felt_sub init init = ZERO)) by (by apply felt_sub_ZERO). by destruct n.
  - rewrite (decide_False (P:=felt_sub final init = ZERO)) by (intros E; by apply Hne, felt_sub_ZERO).
    case_decide as Hn; [|naive_solver]. split; [discriminate|]. intros E. by destruct Hn.
Qed.

(** The check on the nonce accepts a recorded delta. *)
Lemma check_nonce_delta_recorded init final :
  check_nonce_delta init final (if decide (final = init) then None else Some final) = Ok tt.
Proof. apply check_nonce_delta_Ok. by destruct (decide (final = init)). Qed.

Lemma build_executed_ends oc ta ti l so h h' codes a' on e :
  valid_id (acct_id (ti_account ti)) → wf_vault (acct_vault (ti_account ti)) →
  account_delta h = tracker_new (account_header_from (ti_account ti)) →
  kernel_outcome oc (ti_account ti) l h h' so a' on e →
  (∃ tx a'', build_executed_transaction ta ti so h' codes = Ok tx ∧ et_tx_inputs tx = ti ∧
     et_tx_outputs tx = mkTxOutputs (account_header_from a') on e ∧
     describes_run (ti_account ti) l a' (et_account_delta tx) a'') ∨
  (build_executed_transaction ta ti so h' codes = Panic ∧ stale_run (ti_account ti) l a').
Proof.
  intros Hid Hv Hh Ho. unfold build_executed_transaction.
  destruct (outcome_parts (E:=TransactionExecutorError) oc _ _ _ _ _ _ _ _ Hv Hh Ho)
    as (Eid & [(d & a'' & notes & Hparts & Hon & Hdr & Hnonce)|[Hparts Hst]]); [left|right; by rewrite Hparts].
  rewrite (res_bind_Ok _ _ _ Hparts). cbv iota beta zeta.
  rewrite (outcome_outputs oc PR _ _ _ _ _ a' on e notes) by (by rewrite ?Eid). cbn [map_err].
  rewrite (res_bind_Ok (Ok _) _ _ eq_refl). cbn [to_account account_header_from ah_id ah_nonce].
  rewrite decide_False by (rewrite Eid; by intros []).
  rewrite Hnonce, check_nonce_delta_recorded, (res_bind_Ok (Ok tt) _ _ eq_refl).
  unfold executed_new. cbn [to_account account_header_from ah_id]. rewrite decide_True by done.
  eexists _, a''. split; [reflexivity|]. done.
Qed.

(** A transaction whose VM run has the documented outcome is executed. *)
Lemma execute_transaction_ends oc debug t account_id block_ref notes ta ti script_root l a' on e :
  te_data_store t account_id block_ref notes = Ok ti →
  accepted_inputs ti → args_script_root ta = Some script_root → inputs_fit debug ti = true →
  valid_id (acct_id (ti_account ti)) → wf_vault (acct_vault (ti_account ti)) →
  (∀ c, c ∈ ({[ code_commitment (acct_code (ti_account ti)) ]} ∪ loaded_commitments t : gset Digest) →
     code_mapped (advice_lookup ti ta None) c) →
  executes oc debug t ti ta l a' on e →
  ∃ r, execute_transaction debug account_id block_ref notes ta t =
      (r, set_te_store (load_transaction_code ti ta (te_mast_store t)) t) ∧
    ((∃ tx a'', r = Ok tx ∧ et_tx_inputs tx = ti ∧ et_tx_outputs tx = mkTxOutputs (account_header_from a') on e ∧
        describes_run (ti_account ti) l a' (et_account_delta tx) a'') ∨
     (r = Panic ∧ stale_run (ti_account ti) l a')) ∧
    ∃ outputs, output_notes_new outputs = Ok on.
Proof.
  intros Hds Hti Hs Hf Hid Hv Hcodes Hvm.
  destruct (prepared_lookup (E:=TransactionExecutorError) debug ti ta script_root None Hti Hs Hf) as (si & ai & Hprep & _ & Hlook).
  destruct (host_new_Ok (account_header_from (ti_account ti)) (provider_from (X:=XR) ai) (te_authenticator t)
    (loaded_commitments t)) as (m & Hhost).
  { intros c Hc. apply (code_mapped_ext (advice_lookup ti ta None)); [by rewrite provider_from_mapped, Hlook|by apply Hcodes]. }
  set (h := mkHost _ _ m _ _ _ _) in Hhost.
  destruct (Hvm si ai h Hprep eq_refl eq_refl eq_refl) as (so & h' & Hexec & Hout).
  exists (build_executed_transaction ta ti so h' (used_account_codes ta (te_account_codes t))). split_and!.
  - unfold execute_transaction, mbind, mut_bind, get_self, lift, put_self. cbv beta zeta.
    rewrite Hds. cbn [map_err]. rewrite Hprep. fold (loaded_commitments t). rewrite Hhost. cbn [map_err].
    rewrite Hexec. cbn [map_err]. done.
  - by eapply (build_executed_ends oc ta ti l so h).
  - destruct (ko_notes _ _ _ _ _ _ _ _ _ Hout) as (outputs & _ & Ho). by exists outputs.
Qed.

(** ** Theorems *)


(** The details of the update that fit a run from [a] to [a']: none for a private
    account, the account that the delta gives if it is new, the delta otherwise. *)
Definition details_for (a : Account) (l : list (TransactionEvent * ProcessState)) (a' : Account)
    (details : AccountUpdateDetails) : Prop :=
  match details with
  | PrivateUpdate => is_public (E:=Empty_set) (acct_id a) = Ok false
  | NewUpdate account => is_public (E:=Empty_set) (acct_id a) = Ok true ∧ account_is_new a = true ∧
      ∃ d, describes_run a l a' d account
  | DeltaUpdate d => is_public (E:=Empty_set) (acct_id a) = Ok true ∧ account_is_new a = false ∧
      ∃ a'', describes_run a l a' d a''
  end.

(** The builder before the details are added. *)
Definition proof_builder (ti : TransactionInputs) (proof : ExecutionProof) (a' : Account) (on : OutputNotes) (e : Z)
    : ProvenTransactionBuilder :=
  add_output_notes (output_shrink <$> on_notes on) (add_input_notes (in_notes (ti_input_notes ti))
    (proven_builder_new (acct_id (ti_account ti)) (account_init_hash (ti_account ti)) (account_hash a')
       (bh_hash (ti_block_header ti)) e proof)).

Lemma prover_details_Ok a l a' d a'' :
  is_public (E:=Empty_set) (acct_id a) = Ok true → describes_run a l a' d a'' →
  ∃ details, prover_details a d = Ok details ∧ details_for a l a' details ∧ details ≠ PrivateUpdate.
Proof.
  intros Hpub Hdr. unfold prover_details. destruct (account_is_new a) eqn:En.
  - rewrite (dr_apply _ _ _ _ _ Hdr). exists (NewUpdate a''). split; [done|]. split; [|done]. split_and!; [done..|]. by exists d.
  - exists (DeltaUpdate d). split; [done|]. split; [|done]. split_and!; [done..|]. by exists a''.
Qed.

(** How the builder ends with details for a public account. *)
Inductive build_end (ti : TransactionInputs) (a' : Account) (details : AccountUpdateDetails) (tx : ProvenTransaction)
    : res TransactionProverError ProvenTransaction → Prop :=
  | end_built :
      (∀ account, details = NewUpdate account → account_hash account = account_hash a') →
      build_end ti a' details tx (Ok tx)
  | end_oversize :
      ACCOUNT_UPDATE_MAX_SIZE < Z.of_nat (get_size_hint details) →
      build_end ti a' details tx (Err (ProvenTransactionFailed
        (AccountUpdateSizeLimitExceeded (acct_id (ti_account ti)) (Z.of_nat (get_size_hint details)))))
  | end_mismatch account :
      details = NewUpdate account → account_hash account ≠ account_hash a' →
      build_end ti a' details tx (Err (ProvenTransactionFailed
        (AccountFinalHashMismatch (account_hash a') (account_hash account)))).

Definition proof_built (ti : TransactionInputs) (proof : ExecutionProof) (a' : Account) (on : OutputNotes) (e : Z)
    (details : AccountUpdateDetails) : ProvenTransaction :=
  built (account_update_details details (proof_builder ti proof a' on e))
    (mkInputNotes (commitment_of <$> in_notes (ti_input_notes ti)) (in_commitment (ti_input_notes ti)))
    (mkOutputNotes (output_shrink <$> on_notes on) (on_commitment on)).

Lemma public_build_ends ti l proof a' on e details :
  is_public (E:=ProvenTransactionError) (acct_id (ti_account ti)) = Ok true →
  (account_is_new (ti_account ti) = false → account_hash (ti_account ti) ≠ EMPTY_WORD) →
  input_notes_new (in_notes (ti_input_notes ti)) = Ok (ti_input_notes ti) →
  output_notes_new (on_notes on) = Ok on →
  acct_id a' = acct_id (ti_account ti) → details_for (ti_account ti) l a' details → details ≠ PrivateUpdate →
  build_end ti a' details (proof_built ti proof a' on e details) (map_err ProvenTransactionFailed
    (proven_build (account_update_details details (proof_builder ti proof a' on e)))).
Proof.
  intros Hpub Hex Hin Hon Eid Hdet Hne.
  pose proof (commitments_preserved _ _ Hin) as Hcom. pose proof (shrink_accepted _ _ Hon) as Hshr.
  set (b := account_update_details details (proof_builder ti proof a' on e)).
  destruct (Z.le_gt_cases (Z.of_nat (get_size_hint details)) ACCOUNT_UPDATE_MAX_SIZE) as [Hsz|Hsz].
  2:{ rewrite (proven_build_oversize b _ _ Hpub Hcom Hshr Hsz). by apply end_oversize. }
  destruct details as [|account|d]; [done| |].
  - destruct Hdet as (_ & Hnew & d & Hdr). pose proof (proj1 (dr_agree _ _ _ _ _ Hdr)) as Eid'.
    assert (account_init_hash (ti_account ti) = EMPTY_WORD) as Hinit by (unfold account_init_hash; by rewrite Hnew).
    assert (acct_id account = pb_account_id b) as Eb by (cbn; congruence).
    destruct (decide (account_hash account = account_hash a')) as [Hh|Hh].
    + rewrite (proven_build_accepts b true _ _ Hpub Hcom Hshr); [apply end_built; by intros ? [= <-]|].
      by split; [|split_and!].
    + rewrite (proven_build_mismatch b account _ _ Hpub Hcom Hshr); [by eapply end_mismatch|done..].
  - destruct Hdet as (_ & Hnew & a'' & Hdr). rewrite (proven_build_accepts b true _ _ Hpub Hcom Hshr); [by apply end_built|].
    split; [done|]. cbn. unfold account_init_hash. rewrite Hnew. by apply Hex.
Qed.

Lemma build_proven_ends oc ti l so proof h h' a' on e :
  valid_id (acct_id (ti_account ti)) → wf_vault (acct_vault (ti_account ti)) →
  (account_is_new (ti_account ti) = false → account_hash (ti_account ti) ≠ EMPTY_WORD) →
  input_notes_new (in_notes (ti_input_notes ti)) = Ok (ti_input_notes ti) →
  account_delta h = tracker_new (account_header_from (ti_account ti)) →
  kernel_outcome oc (ti_account ti) l h h' so a' on e →
  (∃ details, details_for (ti_account ti) l a' details ∧
     build_end ti a' details (proof_built ti proof a' on e details) (build_proven_transaction ti so proof h')) ∨
  (build_proven_transaction ti so proof h' = Panic ∧ stale_run (ti_account ti) l a').
Proof.
  intros Hid Hv Hex Hin Hh Ho. unfold build_proven_transaction. cbv zeta.
  destruct (outcome_parts (E:=TransactionProverError) oc _ _ _ _ _ _ _ _ Hv Hh Ho)
    as (Eid & [(d & a'' & notes & Hparts & Hon & Hdr & _)|[Hparts Hst]]); [left|right; by rewrite Hparts].
  assert (on_notes on = notes) as <- by (by apply output_notes_new_Ok in Hon as (_ & _ & ->)).
  rewrite (res_bind_Ok _ _ _ Hparts). cbv iota beta.
  rewrite (outcome_outputs oc PM _ _ _ _ _ a' on e (on_notes on)) by (by rewrite ?Eid). cbn [map_err].
  rewrite (res_bind_Ok (Ok _) _ _ eq_refl). cbn [to_output_notes to_account to_expiration_block_num].
  destruct (is_public_valid (E:=TransactionProverError) _ Hid) as (public & Hpub & Hpub'). rewrite (res_bind_Ok _ _ _ Hpub).
  change (add_output_notes _ _) with (proof_builder ti proof a' on e). destruct public.
  - destruct (prover_details_Ok (ti_account ti) l a' d a'' (Hpub' _) Hdr) as (details & Hdet & Hfor & Hne).
    exists details. split; [done|]. rewrite (res_bind_Ok _ _ _ Hdet), (res_bind_Ok (Ok _) _ _ eq_refl).
    by apply (public_build_ends ti l).
  - exists PrivateUpdate. split; [exact (Hpub' _)|]. rewrite (res_bind_Ok (Ok _) _ _ eq_refl).
    rewrite (proven_build_accepts (proof_builder ti proof a' on e) false _ _ (Hpub' _)
      (commitments_preserved _ _ Hin) (shrink_accepted _ _ Hon) eq_refl). by apply end_built.
Qed.

(** What the verifier checks is what was proved. *)
Lemma verify_built oc ti l so proof si store o h h' h0 a' on e details level :
  (∀ E, build_input_stack (E:=E) (acct_id (ti_account ti)) (account_init_hash (ti_account ti))
    (in_commitment (ti_input_notes ti)) (bh_hash (ti_block_header ti)) = Ok si) →
  prove kernel_main si store o h = (Ok (so, proof), h') → kernel_outcome oc (ti_account ti) l h0 h' so a' on e →
  level ≤ security_level o →
  verify_transaction (verifier_new level) (proof_built ti proof a' on e details) = Ok tt.
Proof.
  intros Hsi Hprove Ho Hl. unfold verify_transaction. rewrite (res_bind_Ok _ _ _ (Hsi _)).
  assert (build_output_stack (E:=TransactionVerifierError) (account_hash a') (on_commitment on) e = Ok so) as Hso.
  { pose proof (ko_stack _ _ _ _ _ _ _ _ _ Ho) as Hso. unfold build_output_stack in *. cbv zeta in *.
    apply expect_some_inv in Hso. by rewrite Hso. }
  rewrite (res_bind_Ok _ _ _ Hso). cbn [tv_tx_program_info verifier_new].
  assert (map_err TransactionVerificationFailed (verify kernel_program_info si so proof) = Ok (security_level o)) as Hver
    by (by rewrite (prove_verifies _ _ _ _ _ _ _ Hprove)).
  rewrite (res_bind_Ok _ _ _ Hver). cbn [tv_proof_security_level verifier_new].
  destruct (Z.ltb_spec (security_level o) level); [lia|done].
Qed.


(** C36. An executor that has loaded the code of a foreign account cannot execute
    transactions that do not use it: when the advice map has nothing under the
    code's commitment, creating the host fails, although the code would later be
    left out of the result for the same reason. *)
Theorem unused_code_blocks_execution t account_id block_ref notes ta ti script_root c :
  te_data_store t account_id block_ref notes = Ok ti →
  accepted_inputs ti → args_script_root ta = Some script_root →
  (∀ c, c ∈ ({[ code_commitment (acct_code (ti_account ti)) ]} ∪ loaded_commitments t : gset Digest) →
     code_mapped (advice_lookup ti ta None) c ∨ advice_lookup ti ta None c = None) →
  c ∈ loaded_commitments t → advice_lookup ti ta None c = None →
  (execute_transaction false account_id block_ref notes ta t).1 =
    Err (TransactionHostCreationFailed AccountProcedureIndexMapError) ∧
  Forall (λ code, code_commitment code ≠ c) (used_account_codes ta (te_account_codes t)).
Proof.
  intros Hds Hti Hs Hcodes Hc Hnone. split.
  - destruct (prepared_lookup (E:=TransactionExecutorError) false ti ta script_root None Hti Hs (inputs_fit_release ti))
      as (si & ai & Hprep & _ & Hlook).
    assert (∀ k, get_mapped_values (provider_from (X:=XR) ai) k = advice_lookup ti ta None k) as Eget
      by (intros k; by rewrite provider_from_mapped, Hlook).
    unfold execute_transaction, mbind, mut_bind, get_self, lift, put_self. cbv beta zeta.
    rewrite Hds. cbn [map_err]. rewrite Hprep. fold (loaded_commitments t).
    rewrite (host_new_missing _ _ _ _ c); [done| |done|by rewrite Eget].
    intros c' Hc'. rewrite Eget. destruct (Hcodes c' Hc') as [Hm|Hn]; [left|by right].
    by eapply code_mapped_ext; [|exact Hm].
  - apply Forall_forall. intros code (code' & _ & Hu)%list_elem_of_omap Ec.
    destruct (mapped_values (ta_advice_inputs ta) (code_commitment code')) as [v|] eqn:Em; [|discriminate].
    injection Hu as <-. rewrite Ec in Em. unfold advice_lookup in Hnone. by rewrite Em, union_Some_l in Hnone.
Qed.

(** C29. The executor's final checks: an executed transaction is built exactly
    when the host gives up its parts, the outputs can be read, the account id is
    the same and the nonce in the delta fits: none if the nonce did not change,
    the final nonce otherwise (where a missing nonce counts as zero). The
    assertion in [ExecutedTransaction::new] is
    never reached with different ids. *)
Theorem build_executed_spec ta ti so h codes tx :
  build_executed_transaction ta ti so h codes = Ok tx ↔
  ∃ d notes o, host_into_parts (E:=TransactionExecutorError) h = Ok (d, notes, generated_signatures h, tx_progress h) ∧
    from_transaction_parts so (provider_map (adv_provider h)) notes = Ok o ∧
    ah_id (to_account o) = acct_id (ti_account ti) ∧
    (if decide (ah_nonce (to_account o) = acct_nonce (ti_account ti)) then ad_nonce d = None
     else default ZERO (ad_nonce d) = ah_nonce (to_account o)) ∧
    tx = mkExecuted ti o codes d ta
      (extend_map (btree_iter digest_leb (generated_signatures h)) (rec_witness (adv_provider h)))
      (measurements_from (tx_progress h)).
Proof.
  unfold build_executed_transaction. split.
  - intros ([[[d notes] sigs] progress] & Hparts & Hb)%res_bind_inv.
    assert (sigs = generated_signatures h ∧ progress = tx_progress h) as [-> ->].
    { unfold host_into_parts in Hparts. apply res_bind_inv in Hparts as (ns & _ & Hparts).
      apply res_bind_inv in Hparts as (d' & _ & [= _ _ <- <-]). done. }
    apply res_bind_inv in Hb as (o & Ho%map_err_inv & Hb). cbv zeta in Hb. case_decide as Eid; [discriminate|].
    apply res_bind_inv in Hb as (u & Hn & Hb). unfold executed_new in Hb. case_decide as Eid'; [|discriminate].
    injection Hb as <-. exists d, notes, o. split_and!; [done|done|done|destruct u; by apply check_nonce_delta_Ok|done].
  - intros (d & notes & o & Hparts & Ho & Eid & Hn & ->). rewrite (res_bind_Ok _ _ _ Hparts). cbv iota beta zeta.
    rewrite Ho. cbn [map_err]. rewrite (res_bind_Ok (Ok _) _ _ eq_refl), decide_False by (by intros []).
    rewrite (res_bind_Ok _ _ tt) by (by apply check_nonce_delta_Ok). unfold executed_new. by rewrite decide_True.
Qed.

End Exec.

(** ** Witnesses *)

#[local] Existing Instance Goldilocks.
#[local] Existing Instance ToyHasher.
#[local] Existing Instance MapTree.
#[local] Existing Instance CodeOrd.
#[local] Existing Instance PlainIO.
#[local] Existing Instance MapTreeIO.
#[local] Existing Instance RootsAsm.
#[local] Existing Instance RootsIO.
#[local] Existing Instance RootsProgram.
#[local] Existing Instance PlainNoteIO.
#[local] Existing Instance ListPath.
#[local] Existing Instance ListMmr.
#[local] Existing Instance ListAdvice.
#[local] Existing Instance ListStack.
#[local] Existing Instance PlainNodes.
#[local] Existing Instance PlainProof.
#[local] Existing Instance MapAdvice.

(** A forest is the list of its roots. *)
Definition RootsForest : ForestApi := {|
  local_procedure_digests f := f;
  kernel_forest := KERNEL0_PROCEDURES;
  stdlib_forest := [sample_word 71];
  miden_lib_forest := [sample_word 72]
|}.
#[local] Existing Instance RootsForest.

#[refine] Definition MapProvider : ProviderApi (X:=MapAdvice) := {|
  provider_from a := (pa_map a, pa_stack a);
  provider_map p k := p.1 !! k
|}.
Proof. all: abstract done. Defined.
#[local] Existing Instance MapProvider.

(** A kernel that increments the nonce of the sample account, creates no notes
    and leaves the expiration block 17. *)
Definition next_account : Account := after sample_op_nonce sample_existing.
Definition no_notes : OutputNotes := mkOutputNotes [] (build_output_notes_commitment []).
Definition nonce_process : ProcessState := stack_process [ONE] ∅.
Definition final_advice : AdviceProvider (AdviceApi:=MapAdvice) :=
  ({[ account_hash next_account := mjoin (word_elements <$> header_words (account_header_from next_account) ZERO ZERO) ]}, []).
Definition nonce_steps : list vm_step :=
  [StepEvent AccountBeforeIncrementNonce nonce_process; StepAdvice final_advice].
Definition run_nonce (h : TransactionHost) : res unit StackOutputs * TransactionHost :=
  match for_each nonce_steps (run_step false) h with
  | (Ok _, h') => (build_output_stack (account_hash next_account) (on_commitment no_notes) 17, h')
  | (_, h') => (Err tt, h')
  end.

#[refine] Definition NonceVm : VmApi (XR:=MapAdvice) (XM:=MapAdvice) := {|
  VmError := unit;
  VerificationError := unit;
  ExecutionOptions := Z * Z * bool * bool;
  ProvingOptions := felt;
  ProgramInfo := unit;
  kernel_main := (sample_word 70, []);
  kernel_program_info := tt;
  proving_default := felt_new 96;
  security_level o := as_int o;
  options_new max expected tracing debug :=
    max ← max; if (64 <=? max) && (expected <=? max) then Some (max, expected, tracing, debug) else None;
  max_cycles o := o.1.1.1;
  expected_cycles o := o.1.1.2;
  enable_tracing o := o.1.2;
  enable_debugging o := o.2;
  options_with_tracing o := (o.1.1, true, o.2);
  rec_witness p := mkAdvice p.2 p.1 [];
  execute _ _ _ _ := run_nonce;
  prove _ _ _ o h := let '(r, h') := run_nonce h in (so ← r; Ok (so, o), h');
  verify _ _ _ proof := Ok (as_int proof)
|}.
Proof.
  - abstract (intros max expected tracing debug H1 H2; exists (max, expected, tracing, debug); cbn;
      by rewrite (proj2 (Z.leb_le _ _) H1), (proj2 (Z.leb_le _ _) H2)).
  - abstract done.
  - abstract (intros si store o h so proof h'; destruct (run_nonce h) as [[x|e|] h1]; cbn; by intros [= _ <- _]).
Defined.
#[local] Existing Instance NonceVm.

Definition nonce_events : list (TransactionEvent * ProcessState) := [(AccountBeforeIncrementNonce, nonce_process)].
Lemma next_account_run : kernel_run sample_existing nonce_events next_account.
Proof.
  apply (run_account _ sample_op_nonce next_account).
  { exact I. }
  { apply step_ok. vm_compute. reflexivity. }
  { apply emit_incr_nonce. reflexivity. }
  { reflexivity. }
  apply run_end.
Qed.

Lemma next_account_exact : exact_run sample_existing nonce_events next_account.
Proof. split; [exact sample_vault_positive|]. split; [by repeat constructor|reflexivity]. Qed.
Lemma next_account_fresh : ~ stale_run sample_existing nonce_events next_account.
Proof. intros [E _]. apply (f_equal as_int) in E. vm_compute in E. discriminate. Qed.

Lemma nonce_outcome oc (h : TransactionHost) :
  output_notes h = ∅ →
  ∃ so h', run_nonce h = (Ok so, h') ∧ kernel_outcome oc sample_existing nonce_events h h' so next_account no_notes 17.
Proof.
  intros Hn. destruct (build_output_stack_Ok (E:=unit) (account_hash next_account) (on_commitment no_notes) 17)
    as (so & Hso & _).
  set (h' := set_adv final_advice (set_account_delta (increment_nonce ONE (account_delta h)) h)).
  assert (∀ checks, for_each nonce_steps (run_step checks) h = (Ok tt, h')) as Hsteps by (intros checks; reflexivity).
  exists so, h'. split; [unfold run_nonce; by rewrite Hsteps, Hso|]. constructor.
  - exists nonce_steps. split; [apply Hsteps|]. split; [reflexivity|exact next_account_run].
  - vm_compute. discriminate.
  - unfold build_output_stack in *. apply expect_some_inv in Hso. by rewrite Hso.
  - lia.
  - exists []. change (output_notes h') with (output_notes h). rewrite Hn, btree_iter_empty. split; reflexivity.
  - apply lookup_singleton_eq.
Qed.

(** The arguments bring the code of the account along. *)
Definition code_args : TransactionArgs :=
  extend_advice_map [(code_commitment sample_code, procedures_as_elements (procedures sample_code))] sample_args.

Lemma code_args_mapped : mapped_values (ta_advice_inputs code_args) (code_commitment sample_code) =
  Some (procedures_as_elements (procedures sample_code)).
Proof.
  change (ta_advice_inputs code_args) with (extend_map
    [(code_commitment sample_code, procedures_as_elements (procedures sample_code))] (ta_advice_inputs sample_args)).
  rewrite extend_map_mapped.
  rewrite (collect_map_agree _ (code_commitment sample_code) (procedures_as_elements (procedures sample_code))).
  - apply union_Some_l.
  - by apply list_elem_of_singleton.
  - intros v' E%list_elem_of_singleton. by apply (f_equal snd) in E.
Qed.

Lemma sample_code_mapped init : code_mapped (advice_lookup sample_tx_inputs code_args init) (code_commitment sample_code).
Proof.
  exists sample_code. split; [exact sample_code_wf|]. split; [apply (bool_decide_unpack _); vm_compute; exact I|].
  split; [reflexivity|]. unfold advice_lookup. rewrite code_args_mapped. apply union_Some_l.
Qed.

Definition sample_executor (codes : gmap Digest AccountCode) : TransactionExecutor :=
  mkExecutor (λ _ _ _, Ok sample_tx_inputs) mast_store_new None codes
    (MAX_TX_EXECUTION_CYCLES, MIN_TX_EXECUTION_CYCLES, false, false).


Definition code_witness : TransactionWitness := mkTxWitness sample_tx_inputs code_args advice_default [].

Lemma sample_hash_nonempty : account_hash sample_existing ≠ EMPTY_WORD.
Proof. intros E. apply (f_equal (λ w, as_int (w0 w))) in E. vm_compute in E. discriminate. Qed.


(** A foreign account's code that the transaction does not use. *)
Definition foreign_code : AccountCode := mkCode [sample_word 60] [] (sample_word 60).

Lemma foreign_unused : advice_lookup sample_tx_inputs code_args None (sample_word 60) = None.
Proof.
  assert (∀ l : list Digest, (as_int (w0 (sample_word 60))) ∉ ((λ w, as_int (w0 w)) <$> l) → sample_word 60 ∉ l) as Hl.
  { intros l Hni Hin. apply Hni. apply list_elem_of_fmap. by exists (sample_word 60). }
  unfold advice_lookup. rewrite (collect_map_None (tx_entries sample_tx_inputs code_args)).
  - change (default advice_default None) with (@advice_default _ _ _ _ ListAdvice). rewrite default_mapped.
    change (ta_advice_inputs code_args) with (extend_map
      [(code_commitment sample_code, procedures_as_elements (procedures sample_code))] (ta_advice_inputs sample_args)).
    rewrite extend_map_mapped, collect_map_None; [reflexivity|]. apply Hl. apply (bool_decide_unpack _). vm_compute. exact I.
  - apply Hl. apply (bool_decide_unpack _). vm_compute. exact I.
Qed.

Lemma unused_code_blocks_execution_witness :
  (execute_transaction false sample_wallet 1 [note_id sample_note] code_args
     (executor_load_account_code foreign_code (sample_executor ∅))).1 =
  Err (TransactionHostCreationFailed AccountProcedureIndexMapError).
Proof.
  assert (loaded_commitments (executor_load_account_code foreign_code (sample_executor ∅)) = {[ sample_word 60 ]}) as El.
  { unfold loaded_commitments, executor_load_account_code, sample_executor, codes_insert. cbn [te_account_codes set_te_codes set_te_store].
    rewrite lookup_empty, insert_empty, btree_iter_singleton. cbn. by rewrite (right_id_L ∅ (∪)). }
  apply (unused_code_blocks_execution (executor_load_account_code foreign_code (sample_executor ∅)) sample_wallet 1
    [note_id sample_note] code_args sample_tx_inputs EMPTY_WORD (sample_word 60)).
  - reflexivity.
  - exact sample_inputs_accepted.
  - reflexivity.
  - rewrite El. intros c Hc. apply elem_of_union in Hc as [Hc|Hc]; apply elem_of_singleton in Hc as ->.
    + left. apply sample_code_mapped.
    + right. exact foreign_unused.
  - rewrite El. by apply elem_of_singleton.
  - exact foreign_unused.
Defined.
