(* ===== verification/KernelErrors.v ===== *)
(** * Kernel errors

    Models miden-tx/src/errors/tx_kernel_errors.rs, the table of the assertions of
    the transaction kernel, TransactionHost::on_assert_failed
    (miden-tx/src/host/mod.rs), which looks them up, and miden-tx/build.rs, which
    generates the table from constants in the assembly files. Walking the
    directory and matching the regular expression are third-party code: their
    results are parameters. *)

From S2P Require Import Prelude Felt Crypto TxHost.
From stdpp Require Import strings pretty.
Open Scope string_scope.
Open Scope Z_scope.

(** ** The table *)

(** [ERR_*]: the constants of the file, as they are written. *)
Definition kernel_error_constants : list (string * string) :=
  [("ACCOUNT_CODE_COMMITMENT_MISMATCH", "0002000F");
   ("ACCOUNT_CODE_IS_NOT_UPDATABLE", "00020006");
   ("ACCOUNT_INSUFFICIENT_NUMBER_OF_ONES", "00020005");
   ("ACCOUNT_INVALID_STORAGE_OFFSET_FOR_SIZE", "00020013");
   ("ACCOUNT_IS_NOT_NATIVE", "00020030");
   ("ACCOUNT_NONCE_DID_NOT_INCREASE_AFTER_STATE_CHANGE", "00020028");
   ("ACCOUNT_NONCE_INCREASE_MUST_BE_U32", "00020004");
   ("ACCOUNT_POW_IS_INSUFFICIENT", "00020008");
   ("ACCOUNT_PROC_INDEX_OUT_OF_BOUNDS", "0002000C");
   ("ACCOUNT_PROC_NOT_PART_OF_ACCOUNT_CODE", "0002000B");
   ("ACCOUNT_READING_MAP_VALUE_FROM_NON_MAP_SLOT", "00020002");
   ("ACCOUNT_SEED_DIGEST_MISMATCH", "00020007");
   ("ACCOUNT_SETTING_MAP_ITEM_ON_NON_MAP_SLOT", "0002000A");
   ("ACCOUNT_SETTING_VALUE_ITEM_ON_NON_VALUE_SLOT", "00020009");
   ("ACCOUNT_STORAGE_COMMITMENT_MISMATCH", "00020012");
   ("ACCOUNT_TOO_MANY_PROCEDURES", "00020010");
   ("ACCOUNT_TOO_MANY_STORAGE_SLOTS", "00020011");
   ("ACCOUNT_TOTAL_ISSUANCE_PROC_CAN_ONLY_BE_CALLED_ON_FUNGIBLE_FAUCET", "00020001");
   ("EPILOGUE_TOTAL_NUMBER_OF_ASSETS_MUST_STAY_THE_SAME", "00020029");
   ("FAUCET_BURN_CANNOT_EXCEED_EXISTING_TOTAL_SUPPLY", "0002002B");
   ("FAUCET_BURN_NON_FUNGIBLE_ASSET_CAN_ONLY_BE_CALLED_ON_NON_FUNGIBLE_FAUCET", "0002002D");
   ("FAUCET_INVALID_STORAGE_OFFSET", "0002000E");
   ("FAUCET_NEW_TOTAL_SUPPLY_WOULD_EXCEED_MAX_ASSET_AMOUNT", "0002002A");
   ("FAUCET_NON_FUNGIBLE_ASSET_ALREADY_ISSUED", "0002002C");
   ("FAUCET_NON_FUNGIBLE_ASSET_TO_BURN_NOT_FOUND", "0002002E");
   ("FAUCET_STORAGE_DATA_SLOT_IS_RESERVED", "00020000");
   ("FOREIGN_ACCOUNT_ID_EQUALS_NATIVE_ACCT_ID", "00020016");
   ("FOREIGN_ACCOUNT_ID_IS_ZERO", "00020014");
   ("FOREIGN_ACCOUNT_INVALID", "00020017");
   ("FOREIGN_ACCOUNT_MAX_NUMBER_EXCEEDED", "00020015");
   ("FUNGIBLE_ASSET_AMOUNT_EXCEEDS_MAX_ALLOWED_AMOUNT", "0002004C");
   ("FUNGIBLE_ASSET_DISTRIBUTE_WOULD_CAUSE_MAX_SUPPLY_TO_BE_EXCEEDED", "0002004A");
   ("FUNGIBLE_ASSET_FAUCET_IS_NOT_ORIGIN", "00020026");
   ("FUNGIBLE_ASSET_FORMAT_ELEMENT_ONE_MUST_BE_ZERO", "00020020");
   ("FUNGIBLE_ASSET_FORMAT_ELEMENT_THREE_MUST_BE_FUNGIBLE_FAUCET_ID", "00020022");
   ("FUNGIBLE_ASSET_FORMAT_ELEMENT_TWO_MUST_BE_ZERO", "00020021");
   ("FUNGIBLE_ASSET_FORMAT_ELEMENT_ZERO_MUST_BE_WITHIN_LIMITS", "00020023");
   ("FUNGIBLE_ASSET_PROVIDED_FAUCET_ID_IS_INVALID", "0002004B");
   ("KERNEL_PROCEDURE_OFFSET_OUT_OF_BOUNDS", "00020003");
   ("NON_FUNGIBLE_ASSET_ALREADY_EXISTS", "00020047");
   ("NON_FUNGIBLE_ASSET_FAUCET_IS_NOT_ORIGIN", "00020027");
   ("NON_FUNGIBLE_ASSET_FORMAT_ELEMENT_ONE_MUST_BE_FUNGIBLE_FAUCET_ID", "00020024");
   ("NON_FUNGIBLE_ASSET_FORMAT_MOST_SIGNIFICANT_BIT_MUST_BE_ZERO", "00020025");
   ("NON_FUNGIBLE_ASSET_PROVIDED_FAUCET_ID_IS_INVALID", "0002004D");
   ("NOTE_ATTEMPT_TO_ACCESS_NOTE_ASSETS_FROM_INCORRECT_CONTEXT", "00020032");
   ("NOTE_ATTEMPT_TO_ACCESS_NOTE_INPUTS_FROM_INCORRECT_CONTEXT", "00020033");
   ("NOTE_ATTEMPT_TO_ACCESS_NOTE_SENDER_FROM_INCORRECT_CONTEXT", "00020031");
   ("NOTE_DATA_DOES_NOT_MATCH_COMMITMENT", "0002004E");
   ("NOTE_FUNGIBLE_MAX_AMOUNT_EXCEEDED", "00020046");
   ("NOTE_INVALID_INDEX", "00020048");
   ("NOTE_INVALID_NOTE_TYPE_FOR_NOTE_TAG_PREFIX", "00020044");
   ("NOTE_INVALID_TYPE", "00020043");
   ("NOTE_NUM_OF_ASSETS_EXCEED_LIMIT", "0002002F");
   ("NOTE_TAG_MUST_BE_U32", "00020045");
   ("P2IDR_RECLAIM_ACCT_IS_NOT_SENDER", "00020053");
   ("P2IDR_RECLAIM_HEIGHT_NOT_REACHED", "00020054");
   ("P2IDR_WRONG_NUMBER_OF_INPUTS", "00020052");
   ("P2ID_TARGET_ACCT_MISMATCH", "00020051");
   ("P2ID_WRONG_NUMBER_OF_INPUTS", "00020050");
   ("PROLOGUE_EXISTING_ACCOUNT_MUST_HAVE_NON_ZERO_NONCE", "0002003B");
   ("PROLOGUE_GLOBAL_INPUTS_PROVIDED_DO_NOT_MATCH_BLOCK_HASH_COMMITMENT", "00020034");
   ("PROLOGUE_INPUT_NOTES_COMMITMENT_MISMATCH", "00020041");
   ("PROLOGUE_MISMATCH_OF_ACCOUNT_IDS_FROM_GLOBAL_INPUTS_AND_ADVICE_PROVIDER", "0002003C");
   ("PROLOGUE_MISMATCH_OF_REFERENCE_BLOCK_MMR_AND_NOTE_AUTHENTICATION_MMR", "0002003D");
   ("PROLOGUE_NEW_ACCOUNT_VAULT_MUST_BE_EMPTY", "00020035");
   ("PROLOGUE_NEW_FUNGIBLE_FAUCET_RESERVED_SLOT_INVALID_TYPE", "00020037");
   ("PROLOGUE_NEW_FUNGIBLE_FAUCET_RESERVED_SLOT_MUST_BE_EMPTY", "00020036");
   ("PROLOGUE_NEW_NON_FUNGIBLE_FAUCET_RESERVED_SLOT_INVALID_TYPE", "00020039");
   ("PROLOGUE_NEW_NON_FUNGIBLE_FAUCET_RESERVED_SLOT_MUST_BE_VALID_EMPY_SMT", "00020038");
   ("PROLOGUE_NUMBER_OF_INPUT_NOTES_EXCEEDS_LIMIT", "00020040");
   ("PROLOGUE_NUMBER_OF_NOTE_ASSETS_EXCEEDS_LIMIT", "0002003E");
   ("PROLOGUE_NUMBER_OF_NOTE_INPUTS_EXCEEDED_LIMIT", "0002004F");
   ("PROLOGUE_PROVIDED_ACCOUNT_DATA_DOES_NOT_MATCH_ON_CHAIN_COMMITMENT", "0002003A");
   ("PROLOGUE_PROVIDED_INPUT_ASSETS_INFO_DOES_NOT_MATCH_ITS_COMMITMENT", "0002003F");
   ("STORAGE_SLOT_INDEX_OUT_OF_BOUNDS", "0002000D");
   ("SWAP_WRONG_NUMBER_OF_ASSETS", "00020056");
   ("SWAP_WRONG_NUMBER_OF_INPUTS", "00020055");
   ("TX_INVALID_EXPIRATION_DELTA", "00020049");
   ("TX_NUMBER_OF_OUTPUT_NOTES_EXCEEDS_LIMIT", "00020042");
   ("VAULT_ADD_FUNGIBLE_ASSET_FAILED_INITIAL_VALUE_INVALID", "0002001B");
   ("VAULT_FUNGIBLE_ASSET_AMOUNT_LESS_THAN_AMOUNT_TO_WITHDRAW", "0002001D");
   ("VAULT_FUNGIBLE_MAX_AMOUNT_EXCEEDED", "0002001A");
   ("VAULT_GET_BALANCE_PROC_CAN_ONLY_BE_CALLED_ON_FUNGIBLE_FAUCET", "00020018");
   ("VAULT_HAS_NON_FUNGIBLE_ASSET_PROC_CAN_BE_CALLED_ONLY_WITH_NON_FUNGIBLE_ASSET", "00020019");
   ("VAULT_NON_FUNGIBLE_ASSET_ALREADY_EXISTS", "0002001C");
   ("VAULT_NON_FUNGIBLE_ASSET_TO_REMOVE_NOT_FOUND", "0002001F");
   ("VAULT_REMOVE_FUNGIBLE_ASSET_FAILED_INITIAL_VALUE_INVALID", "0002001E")].

(** The entries of [TX_KERNEL_ERRORS]: constant and message. *)
Definition kernel_error_entries : list (string * string) :=
  [("ACCOUNT_CODE_COMMITMENT_MISMATCH", "Computed account code commitment does not match recorded account code commitment");
   ("ACCOUNT_CODE_IS_NOT_UPDATABLE", "Account code must be updatable for it to be possible to set new code");
   ("ACCOUNT_INSUFFICIENT_NUMBER_OF_ONES", "Account ID must contain at least MIN_ACCOUNT_ONES number of ones");
   ("ACCOUNT_INVALID_STORAGE_OFFSET_FOR_SIZE", "Storage offset is invalid for 0 storage size (should be 0)");
   ("ACCOUNT_IS_NOT_NATIVE", "The current account is not native");
   ("ACCOUNT_NONCE_DID_NOT_INCREASE_AFTER_STATE_CHANGE", "Account nonce did not increase after a state changing transaction");
   ("ACCOUNT_NONCE_INCREASE_MUST_BE_U32", "Account nonce cannot be increased by a greater than u32 value");
   ("ACCOUNT_POW_IS_INSUFFICIENT", "Account proof of work is insufficient");
   ("ACCOUNT_PROC_INDEX_OUT_OF_BOUNDS", "Provided procedure index is out of bounds");
   ("ACCOUNT_PROC_NOT_PART_OF_ACCOUNT_CODE", "Account procedure is not part of the account code");
   ("ACCOUNT_READING_MAP_VALUE_FROM_NON_MAP_SLOT", "Failed to read an account map item from a non-map storage slot");
   ("ACCOUNT_SEED_DIGEST_MISMATCH", "ID of the new account does not match the ID computed from the seed");
   ("ACCOUNT_SETTING_MAP_ITEM_ON_NON_MAP_SLOT", "Failed to write an account map item to a non-map storage slot");
   ("ACCOUNT_SETTING_VALUE_ITEM_ON_NON_VALUE_SLOT", "Failed to write an account value item to a non-value storage slot");
   ("ACCOUNT_STORAGE_COMMITMENT_MISMATCH", "Computed account storage commitment does not match recorded account storage commitment");
   ("ACCOUNT_TOO_MANY_PROCEDURES", "Number of account procedures exceeds the maximum limit of 256");
   ("ACCOUNT_TOO_MANY_STORAGE_SLOTS", "Number of account storage slots exceeds the maximum limit of 255");
   ("ACCOUNT_TOTAL_ISSUANCE_PROC_CAN_ONLY_BE_CALLED_ON_FUNGIBLE_FAUCET", "The get_fungible_faucet_total_issuance procedure can only be called on a fungible faucet");
   ("EPILOGUE_TOTAL_NUMBER_OF_ASSETS_MUST_STAY_THE_SAME", "Total number of assets in the account and all involved notes must stay the same");
   ("FAUCET_BURN_CANNOT_EXCEED_EXISTING_TOTAL_SUPPLY", "Asset amount to burn can not exceed the existing total supply");
   ("FAUCET_BURN_NON_FUNGIBLE_ASSET_CAN_ONLY_BE_CALLED_ON_NON_FUNGIBLE_FAUCET", "The burn_non_fungible_asset procedure can only be called on a non-fungible faucet");
   ("FAUCET_INVALID_STORAGE_OFFSET", "Storage offset is invalid for a faucet account (0 is prohibited as it is the reserved data slot for faucets)");
   ("FAUCET_NEW_TOTAL_SUPPLY_WOULD_EXCEED_MAX_ASSET_AMOUNT", "Asset mint operation would cause the new total supply to exceed the maximum allowed asset amount");
   ("FAUCET_NON_FUNGIBLE_ASSET_ALREADY_ISSUED", "Failed to mint new non-fungible asset because it was already issued");
   ("FAUCET_NON_FUNGIBLE_ASSET_TO_BURN_NOT_FOUND", "Failed to burn non-existent non-fungible asset in the vault");
   ("FAUCET_STORAGE_DATA_SLOT_IS_RESERVED", "For faucets the FAUCET_STORAGE_DATA_SLOT storage slot is reserved and can not be used with set_account_item");
   ("FOREIGN_ACCOUNT_ID_EQUALS_NATIVE_ACCT_ID", "Provided foreign account ID is equal to the native account ID.");
   ("FOREIGN_ACCOUNT_ID_IS_ZERO", "ID of the provided foreign account equals zero.");
   ("FOREIGN_ACCOUNT_INVALID", "State of the current foreign account is invalid.");
   ("FOREIGN_ACCOUNT_MAX_NUMBER_EXCEEDED", "Maximum allowed number of foreign account to be loaded (64) was exceeded.");
   ("FUNGIBLE_ASSET_AMOUNT_EXCEEDS_MAX_ALLOWED_AMOUNT", "Fungible asset build operation called with amount that exceeds the maximum allowed asset amount");
   ("FUNGIBLE_ASSET_DISTRIBUTE_WOULD_CAUSE_MAX_SUPPLY_TO_BE_EXCEEDED", "Distribute would cause the maximum supply to be exceeded");
   ("FUNGIBLE_ASSET_FAUCET_IS_NOT_ORIGIN", "The origin of the fungible asset is not this faucet");
   ("FUNGIBLE_ASSET_FORMAT_ELEMENT_ONE_MUST_BE_ZERO", "Malformed fungible asset: ASSET[1] must be 0");
   ("FUNGIBLE_ASSET_FORMAT_ELEMENT_THREE_MUST_BE_FUNGIBLE_FAUCET_ID", "Malformed fungible asset: ASSET[3] must be a valide fungible faucet id");
   ("FUNGIBLE_ASSET_FORMAT_ELEMENT_TWO_MUST_BE_ZERO", "Malformed fungible asset: ASSET[2] must be 0");
   ("FUNGIBLE_ASSET_FORMAT_ELEMENT_ZERO_MUST_BE_WITHIN_LIMITS", "Malformed fungible asset: ASSET[0] exceeds the maximum allowed amount");
   ("FUNGIBLE_ASSET_PROVIDED_FAUCET_ID_IS_INVALID", "Failed to build the fungible asset because the provided faucet id is not from a fungible faucet");
   ("KERNEL_PROCEDURE_OFFSET_OUT_OF_BOUNDS", "Provided kernel procedure offset is out of bounds");
   ("NON_FUNGIBLE_ASSET_ALREADY_EXISTS", "Non-fungible asset that already exists in the note cannot be added again");
   ("NON_FUNGIBLE_ASSET_FAUCET_IS_NOT_ORIGIN", "The origin of the non-fungible asset is not this faucet");
   ("NON_FUNGIBLE_ASSET_FORMAT_ELEMENT_ONE_MUST_BE_FUNGIBLE_FAUCET_ID", "Malformed non-fungible asset: ASSET[1] is not a valid non-fungible faucet id");
   ("NON_FUNGIBLE_ASSET_FORMAT_MOST_SIGNIFICANT_BIT_MUST_BE_ZERO", "Malformed non-fungible asset: the most significant bit must be 0");
   ("NON_FUNGIBLE_ASSET_PROVIDED_FAUCET_ID_IS_INVALID", "Failed to build the non-fungible asset because the provided faucet id is not from a non-fungible faucet");
   ("NOTE_ATTEMPT_TO_ACCESS_NOTE_ASSETS_FROM_INCORRECT_CONTEXT", "Attempted to access note assets from incorrect context");
   ("NOTE_ATTEMPT_TO_ACCESS_NOTE_INPUTS_FROM_INCORRECT_CONTEXT", "Attempted to access note inputs from incorrect context");
   ("NOTE_ATTEMPT_TO_ACCESS_NOTE_SENDER_FROM_INCORRECT_CONTEXT", "Attempted to access note sender from incorrect context");
   ("NOTE_DATA_DOES_NOT_MATCH_COMMITMENT", "Note data does not match the commitment");
   ("NOTE_FUNGIBLE_MAX_AMOUNT_EXCEEDED", "Adding a fungible asset to a note cannot exceed the max_amount of 9223372036854775807");
   ("NOTE_INVALID_INDEX", "Failed to find note at the given index; index must be within [0, num_of_notes]");
   ("NOTE_INVALID_NOTE_TYPE_FOR_NOTE_TAG_PREFIX", "Invalid note type for the given note tag prefix");
   ("NOTE_INVALID_TYPE", "Invalid note type");
   ("NOTE_NUM_OF_ASSETS_EXCEED_LIMIT", "Number of assets in a note exceed 255");
   ("NOTE_TAG_MUST_BE_U32", "The note's tag must fit into a u32 so the 32 most significant bits must be zero.");
   ("P2IDR_RECLAIM_ACCT_IS_NOT_SENDER", "P2IDR's reclaimer is not the original sender");
   ("P2IDR_RECLAIM_HEIGHT_NOT_REACHED", "P2IDR can not be reclaimed as the transaction's reference block is lower than the reclaim height");
   ("P2IDR_WRONG_NUMBER_OF_INPUTS", "P2IDR scripts expect exactly 2 note inputs");
   ("P2ID_TARGET_ACCT_MISMATCH", "P2ID's target account address and transaction address do not match");
   ("P2ID_WRONG_NUMBER_OF_INPUTS", "P2ID script expects exactly 1 note input");
   ("PROLOGUE_EXISTING_ACCOUNT_MUST_HAVE_NON_ZERO_NONCE", "Existing accounts must have a non-zero nonce");
   ("PROLOGUE_GLOBAL_INPUTS_PROVIDED_DO_NOT_MATCH_BLOCK_HASH_COMMITMENT", "The provided global inputs do not match the block hash commitment");
   ("PROLOGUE_INPUT_NOTES_COMMITMENT_MISMATCH", "Note commitment computed from the input note data does not match given note commitment");
   ("PROLOGUE_MISMATCH_OF_ACCOUNT_IDS_FROM_GLOBAL_INPUTS_AND_ADVICE_PROVIDER", "Account IDs provided via global inputs and advice provider do not match");
   ("PROLOGUE_MISMATCH_OF_REFERENCE_BLOCK_MMR_AND_NOTE_AUTHENTICATION_MMR", "Reference block MMR and note's authentication MMR must match");
   ("PROLOGUE_NEW_ACCOUNT_VAULT_MUST_BE_EMPTY", "New account must have an empty vault");
   ("PROLOGUE_NEW_FUNGIBLE_FAUCET_RESERVED_SLOT_INVALID_TYPE", "Reserved slot for new fungible faucet has an invalid type");
   ("PROLOGUE_NEW_FUNGIBLE_FAUCET_RESERVED_SLOT_MUST_BE_EMPTY", "Reserved slot for new fungible faucet is not empty");
   ("PROLOGUE_NEW_NON_FUNGIBLE_FAUCET_RESERVED_SLOT_INVALID_TYPE", "Reserved slot for new non-fungible faucet has an invalid type");
   ("PROLOGUE_NEW_NON_FUNGIBLE_FAUCET_RESERVED_SLOT_MUST_BE_VALID_EMPY_SMT", "Reserved slot for non-fungible faucet is not a valid empty SMT");
   ("PROLOGUE_NUMBER_OF_INPUT_NOTES_EXCEEDS_LIMIT", "Number of input notes exceeds the kernel's maximum limit of 1024");
   ("PROLOGUE_NUMBER_OF_NOTE_ASSETS_EXCEEDS_LIMIT", "Number of note assets exceeds the maximum limit of 256");
   ("PROLOGUE_NUMBER_OF_NOTE_INPUTS_EXCEEDED_LIMIT", "Number of note inputs exceeded the maximum limit of 128");
   ("PROLOGUE_PROVIDED_ACCOUNT_DATA_DOES_NOT_MATCH_ON_CHAIN_COMMITMENT", "Account data provided does not match the commitment recorded on-chain");
   ("PROLOGUE_PROVIDED_INPUT_ASSETS_INFO_DOES_NOT_MATCH_ITS_COMMITMENT", "Provided info about assets of an input does not match its commitment");
   ("STORAGE_SLOT_INDEX_OUT_OF_BOUNDS", "Provided storage slot index is out of bounds");
   ("SWAP_WRONG_NUMBER_OF_ASSETS", "SWAP script requires exactly 1 note asset");
   ("SWAP_WRONG_NUMBER_OF_INPUTS", "SWAP script expects exactly 10 note inputs");
   ("TX_INVALID_EXPIRATION_DELTA", "Transaction expiration block delta must be within 0x1 and 0xFFFF.");
   ("TX_NUMBER_OF_OUTPUT_NOTES_EXCEEDS_LIMIT", "Number of output notes in the transaction exceeds the maximum limit of 1024");
   ("VAULT_ADD_FUNGIBLE_ASSET_FAILED_INITIAL_VALUE_INVALID", "Failed to add fungible asset to the asset vault due to the initial value being invalid");
   ("VAULT_FUNGIBLE_ASSET_AMOUNT_LESS_THAN_AMOUNT_TO_WITHDRAW", "Failed to remove the fungible asset from the vault since the amount of the asset in the vault is less than the amount to remove");
   ("VAULT_FUNGIBLE_MAX_AMOUNT_EXCEEDED", "Adding the fungible asset to the vault would exceed the max amount of 9223372036854775807");
   ("VAULT_GET_BALANCE_PROC_CAN_ONLY_BE_CALLED_ON_FUNGIBLE_FAUCET", "The get_balance procedure can only be called on a fungible faucet");
   ("VAULT_HAS_NON_FUNGIBLE_ASSET_PROC_CAN_BE_CALLED_ONLY_WITH_NON_FUNGIBLE_ASSET", "The has_non_fungible_asset procedure can only be called on a non-fungible faucet");
   ("VAULT_NON_FUNGIBLE_ASSET_ALREADY_EXISTS", "The non-fungible asset already exists in the asset vault");
   ("VAULT_NON_FUNGIBLE_ASSET_TO_REMOVE_NOT_FOUND", "Failed to remove non-existent non-fungible asset from the vault");
   ("VAULT_REMOVE_FUNGIBLE_ASSET_FAILED_INITIAL_VALUE_INVALID", "Failed to remove fungible asset from the asset vault due to the initial value being invalid")].

(** The value of a hexadecimal literal. *)
Definition hex_value (c : Ascii.ascii) : Z :=
  let n := Z.of_nat (Ascii.nat_of_ascii c) in
  if n <=? 57 then n - 48 else if n <=? 70 then n - 55 else n - 87.
Fixpoint hex_literal_from (acc : Z) (s : string) : Z :=
  match s with "" => acc | String c s => hex_literal_from (16 * acc + hex_value c) s end.
Definition hex_literal (s : string) : Z := hex_literal_from 0 s.

(** An array of pairs of constants and messages, as the compiler reads it. *)
Definition error_array (constants entries : list (string * string)) : list (Z * string) :=
  let value := list_to_map constants : gmap string string in
  omap (λ e, (λ code, (hex_literal code, e.2)) <$> value !! e.1) entries.
Definition TX_KERNEL_ERRORS : list (Z * string) := error_array kernel_error_constants kernel_error_entries.

(** [BTreeMap::from] on an array: the last of two entries with the same key stays. *)
Definition btree_from {A} (l : list (Z * A)) : gmap Z A := list_to_map (reverse l).

(** ** Reporting failed assertions *)

Inductive AssertionError : Type := FailedAssertion (clk err_code : Z) (err_msg : option string).

(** [on_assert_failed]; [error_messages] is a field of the host that
    [TransactionHost::new] fills from the table. *)
Definition error_messages : gmap Z string := btree_from TX_KERNEL_ERRORS.
Definition on_assert_failed {F : FeltApi} (messages : gmap Z string) (process : ProcessState) (err_code : Z) : AssertionError :=
  FailedAssertion (clk process) err_code (Some (default "Unknown error" (messages !! err_code))).

(** ** Generating the table *)

Record ExtractedError : Type := mkExtracted { ex_code : string; ex_message : string }.
#[export] Instance ExtractedError_eq_dec : EqDecision ExtractedError.
Proof. solve_decision. Defined.

(** The errors the script reports. *)
Inductive Report : Type :=
  | WalkFailed | ReadFailed | WriteFailed
  | MessageNotFound (name : string)
  | DifferentCode (name : string)
  | CodeUsedTwice (code existing name : string).

(** A match of the regular expression: the comment line above the constant, its
    name and its code. *)
Record Capture : Type := mkCapture { cap_message : option string; cap_name : string; cap_code : string }.

(** A file or directory found by the walk. *)
Record Entry : Type := mkEntry { en_is_file : bool; en_extension : option string; en_contents : option string }.

(** [str::trim]; the assembly files are ASCII. *)
Definition is_space (c : Ascii.ascii) : bool :=
  let n := Ascii.nat_of_ascii c in ((9 <=? n) && (n <=? 13) || (n =? 32))%nat.
Fixpoint trim_start (s : string) : string :=
  match s with "" => "" | String c s' => if is_space c then trim_start s' else s end.
Fixpoint trim_end (s : string) : string :=
  match s with
  | "" => ""
  | String c s' => match trim_end s' with "" => if is_space c then "" else String c "" | t => String c t end
  end.
Definition trim (s : string) : string := trim_end (trim_start s).

(** [is_masm_file] of miden-tx/build.rs *)
Definition is_masm_entry (e : Entry) : bool := en_is_file e && bool_decide (en_extension e = Some "masm").

(** One iteration of the loop of [extract_kernel_errors]. *)
Definition extract_capture (c : Capture) : mut (gmap string ExtractedError) Report unit :=
  let error_name := trim (cap_name c) in
  let error_code := trim (cap_code c) in
  error_message ← lift (ok_or (MessageNotFound error_name) (trim <$> cap_message c));
  errors ← get_self;
  lift match errors !! error_name with
       | Some e => if decide (ex_code e ≠ error_code) then Err (DifferentCode error_name) else Ok tt
       | None => Ok tt
       end ;;
  put_self (<[error_name := mkExtracted error_code error_message]> errors).

(** The loop that looks for codes with two names. *)
Fixpoint check_codes (errors : list (string * ExtractedError)) (error_codes : gmap string string) : res Report unit :=
  match errors with
  | [] => Ok tt
  | (error_name, error) :: errors' =>
      match error_codes !! ex_code error with
      | Some existing => Err (CodeUsedTwice (ex_code error) existing error_name)
      | None => check_codes errors' (<[ex_code error := error_name]> error_codes)
      end
  end.

(** [error.split("_").next()] *)
Fixpoint category (s : string) : string :=
  match s with
  | "" => ""
  | String c s' => if decide (c = Ascii.ascii_of_nat 95) then "" else String c (category s')
  end.
Definition is_new_error_category (last_error : option string) (current_error : string) : bool * option string :=
  (match last_error with
   | Some last_err => bool_decide (category last_err ≠ category current_error)
   | None => false
   end, Some current_error).

Definition quote : string := String (Ascii.ascii_of_nat 34) EmptyString.
(** A loop that writes a line for each error, with an empty line between categories. *)
Fixpoint grouped_lines (line : string * ExtractedError → string) (last_error : option string)
    (errors : list (string * ExtractedError)) : list string :=
  match errors with
  | [] => []
  | e :: errors' =>
      let '(is_new, last) := is_new_error_category last_error e.1 in
      (if is_new then [""] else []) ++ line e :: grouped_lines line last errors'
  end.
Definition constant_line (e : string * ExtractedError) : string :=
  "pub const ERR_" +:+ e.1 +:+ ": u32 = 0x" +:+ ex_code e.2 +:+ ";".
Definition entry_line (e : string * ExtractedError) : string :=
  "    (ERR_" +:+ e.1 +:+ ", " +:+ quote +:+ ex_message e.2 +:+ quote +:+ "),".
Definition file_header : list string :=
  ["// This file is generated by build.rs, do not modify manually.";
   "// It is generated by extracting errors from the masm files in the `miden-lib/asm` directory.";
   "//";
   "// To add a new error, define a constant in masm of the pattern `const.ERR_<CATEGORY>_...`.";
   "// Try to fit the error into a pre-existing category if possible (e.g. Account, Prologue,";
   "// Non-Fungible-Asset, ...).";
   "//";
   "// The comment directly above the constant will be interpreted as the error message for that error.";
   "";
   "// KERNEL ASSERTION ERROR";
   "// ================================================================================================";
   ""].

(** [generate_kernel_errors], line by line. *)
Definition generate_kernel_errors (errors : gmap string ExtractedError) : list string :=
  let l := btree_iter String.leb errors in
  file_header ++
  grouped_lines constant_line None l ++ [""] ++
  ["pub const TX_KERNEL_ERRORS: [(u32, &str); " +:+ pretty (size errors) +:+ "] = ["] ++
  grouped_lines entry_line None l ++ ["];"].

Section Generator.
  (** [regex.captures_iter] *)
  Context (captures_iter : string → list Capture).

Definition extract_kernel_errors (file_contents : string) : mut (gmap string ExtractedError) Report unit :=
  for_each (captures_iter file_contents) extract_capture.

(** One iteration of the walk over the directory. *)
Definition extract_entry (entry : option Entry) : mut (gmap string ExtractedError) Report unit :=
  entry ← lift (ok_or WalkFailed entry);
  if negb (is_masm_entry entry) then mret tt
  else file_contents ← lift (ok_or ReadFailed (en_contents entry)); extract_kernel_errors file_contents.

(** [generate_kernel_error_constants]; the state is the generated file, which can
    be written when [writable] is true. *)
Definition generate_kernel_error_constants (writable : bool) (walk : list (option Entry)) : mut (list string) Report unit :=
  errors ← lift (let '(r, errors) := for_each walk extract_entry ∅ in (λ _, errors) <$> r);
  lift (check_codes (btree_iter String.leb errors) ∅) ;;
  if writable then put_self (generate_kernel_errors errors) else lift (Err WriteFailed).

(** [main]; [env] is the value of [BUILD_KERNEL_ERRORS]. *)
Definition kernel_errors_main (env : option string) (writable : bool) (walk : list (option Entry)) : mut (list string) Report unit :=
  if decide (default "0" env = "0") then mret tt else generate_kernel_error_constants writable walk.
End Generator.

(** ** The constants of the assembly files *)

#[local] Arguments generate_kernel_errors : simpl never.
Section GeneratorSpec.
  Context (captures_iter : string → list Capture).

(** The matches in all assembly files, in the order of the walk. *)
Definition entry_captures (entry : option Entry) : list Capture :=
  match entry with
  | Some e => if is_masm_entry e then captures_iter (default "" (en_contents e)) else []
  | None => []
  end.
Definition captures (walk : list (option Entry)) : list Capture := walk ≫= entry_captures.
Definition const_name (c : Capture) : string := trim (cap_name c).
Definition const_code (c : Capture) : string := trim (cap_code c).
Definition const_error (c : Capture) : ExtractedError := mkExtracted (const_code c) (trim (default "" (cap_message c))).
(** The last message of a constant stays. *)
Definition collected (cs : list Capture) : gmap string ExtractedError :=
  list_to_map (reverse ((λ c, (const_name c, const_error c)) <$> cs)).
(** The walk meets no error and every assembly file can be read. *)
Definition readable (entry : option Entry) : Prop :=
  match entry with Some e => is_masm_entry e = true → is_Some (en_contents e) | None => False end.

(** What the loops require of the constants, given what they have seen before. *)
Definition fits (errors : gmap string ExtractedError) (c : Capture) : Prop :=
  is_Some (cap_message c) ∧ ∀ e, errors !! const_name c = Some e → ex_code e = const_code c.
Definition same_codes (cs : list Capture) : Prop :=
  ∀ c c', c ∈ cs → c' ∈ cs → const_name c = const_name c' → const_code c = const_code c'.

Lemma extract_capture_spec errors c :
  let r := extract_capture c errors in
  if is_ok r.1 then fits errors c ∧ r.2 = <[const_name c := const_error c]> errors else ¬ fits errors c.
Proof.
  unfold extract_capture, fits, const_error, mbind, mut_bind, lift, get_self, put_self, const_name, const_code.
  destruct (cap_message c) as [m|]; cbn [ok_or fmap option_fmap option_map]; [|by intros [[??] _]].
  destruct (errors !! trim (cap_name c)) as [e|] eqn:He.
  - destruct (decide (ex_code e ≠ trim (cap_code c))) as [Hc|Hc]; cbn.
    + intros [_ H]. by apply Hc, H.
    + split; [|done]. split; [done|]. intros e' [= <-]. by apply dec_stable.
  - cbn. split; [|done]. split; [done|]. intros e [=].
Qed.

Lemma fits_cons errors c cs :
  fits errors c →
  Forall (fits (<[const_name c := const_error c]> errors)) cs ∧ same_codes cs ↔
  Forall (fits errors) cs ∧ same_codes (c :: cs).
Proof.
  intros Hc. rewrite !Forall_forall. split.
  - intros [Hf Hs]. assert (∀ c', c' ∈ cs → const_name c = const_name c' → const_code c = const_code c') as Hcs.
    { intros c' [_ H]%Hf Hn. apply (H (const_error c)). by rewrite Hn, lookup_insert_eq. }
    split.
    + intros c' Hin. destruct (Hf _ Hin) as [Hm Ha]. split; [done|]. intros e He.
      destruct (decide (const_name c = const_name c')) as [Hn|Hn].
      * rewrite <- (Hcs c' Hin Hn). apply Hc. by rewrite Hn.
      * apply Ha. by rewrite lookup_insert_ne.
    + intros c1 c2 H1 H2 Hn. apply elem_of_cons in H1, H2.
      destruct H1 as [->|H1], H2 as [->|H2]; [done|by apply Hcs|symmetry; by apply Hcs|by apply Hs].
  - intros [Hf Hs]. split.
    + intros c' Hin. destruct (Hf _ Hin) as [Hm Ha]. split; [done|]. intros e He.
      destruct (decide (const_name c = const_name c')) as [Hn|Hn].
      * rewrite Hn, lookup_insert_eq in He. injection He as <-. cbn. apply Hs; [left|by right|done].
      * apply Ha. by rewrite lookup_insert_ne in He.
    + intros c1 c2 H1 H2. apply Hs; by right.
Qed.

Lemma extract_all_spec cs errors :
  let r := for_each cs extract_capture errors in
  if is_ok r.1 then (Forall (fits errors) cs ∧ same_codes cs) ∧ r.2 = collected cs ∪ errors
  else ¬ (Forall (fits errors) cs ∧ same_codes cs).
Proof.
  revert errors. induction cs as [|c cs IH]; intros errors; cbn [for_each].
  { cbn. split; [split; [constructor|intros ?? H%elem_of_nil; done]|]. unfold collected. cbn. by rewrite map_empty_union. }
  unfold mbind, mut_bind. pose proof (extract_capture_spec errors c) as Hx.
  destruct (extract_capture c errors) as [[[]| |] errors'] eqn:E; cbn [fst snd is_ok] in *.
  - destruct Hx as [Hfit ->]. specialize (IH (<[const_name c := const_error c]> errors)). cbv zeta in *.
    destruct (for_each cs _ _) as [r errors'] eqn:Er. cbn [fst snd] in *. pose proof (fits_cons errors c cs Hfit) as Hfc.
    destruct (is_ok r).
    + destruct IH as [H ->]. apply Hfc in H as [H1 H2]. split; [split; [by constructor|done]|].
      unfold collected. rewrite fmap_cons, reverse_cons, list_to_map_app. cbn [list_to_map foldr].
      apply map_eq. intros k. rewrite !lookup_union. cbn.
      destruct (decide (k = const_name c)) as [->|Hk].
      * rewrite !lookup_insert_eq. by destruct (_ !! const_name c), (errors !! const_name c).
      * rewrite !lookup_insert_ne, lookup_empty by done. by destruct (_ !! k), (errors !! k).
    + intros [H1 H2]. apply IH, Hfc. split; [by apply Forall_cons_1 in H1 as [_ H1]|done].
  - intros [H _]. apply Forall_cons_1 in H as [H _]; by apply Hx.
  - intros [H _]. apply Forall_cons_1 in H as [H _]; by apply Hx.
Qed.

(** The walk handles the matches of all files in order, unless a file is unreadable. *)
Lemma walk_readable walk errors : is_ok (for_each walk (extract_entry captures_iter) errors).1 = true → Forall readable walk.
Proof.
  revert errors. induction walk as [|entry walk IH]; intros errors; [by constructor|].
  cbn [for_each]. unfold mbind at 1, mut_bind at 1.
  destruct (extract_entry captures_iter entry errors) as [[[]| |] errors'] eqn:E; [|done..].
  intros H. constructor; [|by eapply IH]. destruct entry as [e|]; [|done]. intros He. revert E.
  unfold extract_entry, mbind, mut_bind, lift. cbn. rewrite He. cbn. by destruct (en_contents e).
Qed.

Lemma walk_captures walk errors : Forall readable walk →
  for_each walk (extract_entry captures_iter) errors = for_each (captures walk) extract_capture errors.
Proof.
  intros Hr. revert errors. induction Hr as [|entry walk He Hr IH]; intros errors; [done|].
  unfold captures. rewrite bind_cons, for_each_app. fold (captures walk). cbn [for_each].
  assert (extract_entry captures_iter entry errors = for_each (entry_captures entry) extract_capture errors) as Hx.
  { destruct entry as [e|]; [|done]. cbn in He |- *. unfold extract_entry, mbind, mut_bind, lift. cbn.
    destruct (is_masm_entry e); [|done]. destruct (He eq_refl) as [text ->]. done. }
  unfold mbind, mut_bind. rewrite Hx. destruct (for_each _ _ _) as [[[]| |] ?]; [apply IH|done..].
Qed.

Lemma check_codes_spec errors seen :
  is_ok (check_codes errors seen) = true ↔
  NoDup ((λ e, ex_code e.2) <$> errors) ∧ ∀ e, e ∈ errors → seen !! ex_code e.2 = None.
Proof.
  revert seen. induction errors as [|[n e] errors IH]; intros seen; cbn [check_codes].
  { split; [|done]. split; [constructor|]. by intros ? ?%elem_of_nil. }
  rewrite fmap_cons, NoDup_cons. cbn [snd]. destruct (seen !! ex_code e) eqn:Hs.
  - split; [done|]. intros [_ H]. specialize (H _ (list_elem_of_here _ _)). cbn in H. congruence.
  - rewrite IH. split.
    + intros [ND H]. split; [split; [|done]|].
      * intros ([n' e'] & Heq & Hin)%list_elem_of_fmap. apply H in Hin. cbn in *. by rewrite Heq, lookup_insert_eq in Hin.
      * intros e' [->|Hin]%elem_of_cons; [done|]. apply H in Hin. by apply lookup_insert_None in Hin as [? _].
    + intros [[Hn ND] H]. split; [done|]. intros e' Hin. apply lookup_insert_None.
      split; [apply H; by right|]. intros Heq. apply Hn. rewrite Heq. by apply (list_elem_of_fmap_2 (λ e, ex_code e.2)).
Qed.

Lemma collected_lookup cs n e : collected cs !! n = Some e → ∃ c, c ∈ cs ∧ const_name c = n ∧ const_error c = e.
Proof.
  intros H%elem_of_list_to_map_2. rewrite elem_of_reverse in H. by apply list_elem_of_fmap in H as (c & [= -> ->] & ?); exists c.
Qed.
Lemma collected_member cs c : c ∈ cs → is_Some (collected cs !! const_name c).
Proof.
  intros Hc. destruct (collected cs !! const_name c) eqn:E; [done|]. apply not_elem_of_list_to_map in E as [].
  rewrite fmap_reverse. apply elem_of_reverse, list_elem_of_fmap. exists (const_name c, const_error c).
  split; [done|]. by apply (list_elem_of_fmap_2 (λ c, (const_name c, const_error c))).
Qed.

(** Codes are distinct in the table when different constants have different codes. *)
Lemma check_collected cs : same_codes cs →
  is_ok (check_codes (btree_iter String.leb (collected cs)) ∅) = true ↔
  ∀ c c', c ∈ cs → c' ∈ cs → const_code c = const_code c' → const_name c = const_name c'.
Proof.
  intros Hs. rewrite check_codes_spec. trans (NoDup ((λ e, ex_code e.2) <$> btree_iter String.leb (collected cs))).
  { split; [by intros [? _]|]. intros ?. split; [done|]. intros. apply lookup_empty. }
  assert (∀ c, c ∈ cs → ∃ e, collected cs !! const_name c = Some e ∧ ex_code e = const_code c) as Hin.
  { intros c Hc. destruct (collected_member cs c Hc) as [e He]. exists e. split; [done|].
    destruct (collected_lookup _ _ _ He) as (c' & Hc' & Hn & <-). by apply Hs. }
  split.
  - intros ND c c' Hc Hc' Heq. destruct (Hin c Hc) as (e & He & Hce), (Hin c' Hc') as (e' & He' & Hce').
    apply (elem_of_btree_iter String.leb), list_elem_of_lookup in He as [i Hi].
    apply (elem_of_btree_iter String.leb), list_elem_of_lookup in He' as [j Hj].
    assert (i = j) as ->.
    { eapply NoDup_lookup; [exact ND|..]; rewrite list_lookup_fmap; [by rewrite Hi|]. rewrite Hj. cbn. congruence. }
    congruence.
  - intros H. apply NoDup_fmap_2_strong; [|eapply NoDup_fmap_1, btree_iter_keys_NoDup].
    intros [n e] [n' e'] He%elem_of_btree_iter He'%elem_of_btree_iter Hc. cbn in Hc.
    destruct (collected_lookup _ _ _ He) as (c & Hi & <- & <-), (collected_lookup _ _ _ He') as (c' & Hi' & <- & <-).
    assert (const_name c = const_name c') as Hn by by apply H. rewrite Hn in *. f_equal. congruence.
Qed.

(** What the script accepts. *)
Definition well_defined (cs : list Capture) : Prop :=
  Forall (λ c, is_Some (cap_message c)) cs ∧
  ∀ c c', c ∈ cs → c' ∈ cs → (const_name c = const_name c' ↔ const_code c = const_code c').

Lemma well_defined_spec cs :
  well_defined cs ↔
  (Forall (fits ∅) cs ∧ same_codes cs) ∧ is_ok (check_codes (btree_iter String.leb (collected cs)) ∅) = true.
Proof.
  assert (Forall (fits ∅) cs ↔ Forall (λ c, is_Some (cap_message c)) cs) as Hfit.
  { apply Forall_iff. intros c. unfold fits. by split; [intros []|]. }
  unfold well_defined. rewrite Hfit. split.
  - intros [Hm Hn]. assert (same_codes cs) as Hs by (intros c c' Hc Hc' ?; by apply Hn).
    split; [done|]. apply check_collected; [done|]. intros c c' Hc Hc' ?. by apply Hn.
  - intros [[Hm Hs] Hc]. split; [done|]. intros c c' H H'. split; [by apply Hs|].
    by apply (proj1 (check_collected cs Hs) Hc).
Qed.

Lemma generate_ok walk file : Forall readable walk → well_defined (captures walk) →
  generate_kernel_error_constants captures_iter true walk file = (Ok tt, generate_kernel_errors (collected (captures walk))).
Proof.
  intros Hr [Hf Hc]%well_defined_spec. pose proof (extract_all_spec (captures walk) ∅) as Hx. cbv zeta in Hx.
  unfold generate_kernel_error_constants, mbind, mut_bind, lift, put_self. rewrite walk_captures by done.
  destruct (for_each _ _ _) as [[[]| |] errors]; cbn in Hx; [|exfalso; by apply Hx..].
  destruct Hx as [_ ->]. rewrite map_union_empty. cbn. by destruct (check_codes _ _) as [[]| |].
Qed.

Lemma generate_accepted writable walk file :
  is_ok (generate_kernel_error_constants captures_iter writable walk file).1 = true →
  Forall readable walk ∧ well_defined (captures walk) ∧ writable = true.
Proof.
  unfold generate_kernel_error_constants, mbind, mut_bind, lift, put_self.
  pose proof (walk_readable walk ∅) as Hr. pose proof (extract_all_spec (captures walk) ∅) as Hx. cbv zeta in Hx.
  destruct (for_each walk _ ∅) as [[[]| |] errors] eqn:E; [|done..]. specialize (Hr eq_refl).
  rewrite <- (walk_captures walk ∅ Hr), E in Hx. cbn in Hx |- *. destruct Hx as [Hf ->]. rewrite !map_union_empty.
  pose proof (proj2 (well_defined_spec (captures walk))) as Hw.
  destruct (check_codes _ _) as [[]| |]; [|done..]. destruct writable; [|done]. intros _. auto.
Qed.

Lemma generate_keeps writable walk file :
  is_ok (generate_kernel_error_constants captures_iter writable walk file).1 = false →
  (generate_kernel_error_constants captures_iter writable walk file).2 = file.
Proof.
  unfold generate_kernel_error_constants, mbind, mut_bind, lift, put_self.
  destruct (for_each walk _ ∅) as [[[]| |] errors]; [|done..]. cbn.
  destruct (check_codes _ _) as [[]| |]; [|done..]. by destruct writable.
Qed.

(** The generator succeeds exactly when the walk succeeds, every constant has a
    message, two constants have the same name if and only if they have the same
    code, and the file can be written; it then writes the table of the constants.
    Otherwise the file stays as it is. *)
Theorem kernel_error_constants_spec writable walk file :
  let r := generate_kernel_error_constants captures_iter writable walk file in
  let cs := captures walk in
  let accepted :=
    Forall readable walk ∧ Forall (λ c, is_Some (cap_message c)) cs ∧
    (∀ c c', c ∈ cs → c' ∈ cs → (const_name c = const_name c' ↔ const_code c = const_code c')) ∧ writable = true in
  if is_ok r.1 then accepted ∧ r.2 = generate_kernel_errors (collected cs) else ¬ accepted ∧ r.2 = file.
Proof.
  cbv zeta. destruct (is_ok _) eqn:E.
  - destruct (generate_accepted _ _ _ E) as (Hr & Hw & ->). destruct Hw as [Hm Hn] eqn:HW.
    split; [done|]. by rewrite generate_ok.
  - split; [|by apply generate_keeps]. intros (Hr & Hm & Hn & ->).
    by rewrite generate_ok in E.
Qed.
End GeneratorSpec.

(** ** The generated file *)

(** Without the empty lines, a section of the file has one line for each error. *)
Lemma grouped_lines_spec line last errors : (∀ e, line e ≠ "") →
  filter (λ s, s ≠ "") (grouped_lines line last errors) = line <$> errors.
Proof.
  intros Hl. revert last. induction errors as [|e errors IH]; intros last; [done|].
  cbn [grouped_lines is_new_error_category]. rewrite filter_app.
  set (b := match last with Some _ => _ | None => _ end).
  assert (filter (λ s, s ≠ "") (if b then [""] else []) = []) as -> by by destruct b.
  cbn [app]. by rewrite filter_cons_True, IH.
Qed.

(** The file lists the constants and then the entries of the array, both in the
    order of the names. *)
Lemma generate_lists_all errors :
  let l := btree_iter String.leb errors in
  filter (λ s, s ≠ "") (generate_kernel_errors errors) =
  (filter (λ s, s ≠ "") file_header ++ (constant_line <$> l) ++
   ["pub const TX_KERNEL_ERRORS: [(u32, &str); " +:+ pretty (length l) +:+ "] = ["] ++ (entry_line <$> l) ++ ["];"])%list.
Proof.
  cbv zeta. unfold generate_kernel_errors. rewrite !filter_app, !grouped_lines_spec, length_btree_iter by done. done.
Qed.

(** The constants of the repository with their codes and messages. *)
Definition kernel_error_table : list (string * ExtractedError) :=
  zip_with (λ c e, (c.1, mkExtracted c.2 e.2)) kernel_error_constants kernel_error_entries.

Lemma kernel_table_iter : btree_iter String.leb (list_to_map kernel_error_table) = kernel_error_table.
Proof. vm_compute. reflexivity. Qed.
Lemma kernel_table_names : NoDup kernel_error_table.*1.
Proof. rewrite <- kernel_table_iter. apply btree_iter_keys_NoDup. Qed.
Lemma kernel_table_codes : NoDup ((λ e, ex_code e.2) <$> kernel_error_table).
Proof. apply (bool_decide_unpack _). vm_compute. done. Qed.

Lemma table_entry n e : (n, e) ∈ kernel_error_table ↔ (list_to_map kernel_error_table : gmap string ExtractedError) !! n = Some e.
Proof. apply elem_of_list_to_map, kernel_table_names. Qed.

Lemma table_code n e n' e' : (n, e) ∈ kernel_error_table → (n', e') ∈ kernel_error_table → ex_code e = ex_code e' → n = n'.
Proof.
  intros [i Hi]%list_elem_of_lookup [j Hj]%list_elem_of_lookup Hc.
  assert (i = j) as ->; [|congruence].
  eapply NoDup_lookup; [exact kernel_table_codes|..]; rewrite list_lookup_fmap; [by rewrite Hi|]. rewrite Hj. cbn. congruence.
Qed.

Definition const_entry (c : Capture) : string * ExtractedError := (const_name c, const_error c).

(** The constants of the table, found any number of times and in any order, are
    well defined and are collected to the table. *)
Lemma table_collected cs :
  Forall (λ c, is_Some (cap_message c)) cs → (∀ e, e ∈ const_entry <$> cs ↔ e ∈ kernel_error_table) →
  well_defined cs ∧ collected cs = list_to_map kernel_error_table.
Proof.
  intros Hm Hcs. assert (∀ c, c ∈ cs → const_entry c ∈ kernel_error_table) as Hin.
  { intros c Hc. by apply Hcs, list_elem_of_fmap_2. }
  split.
  - split; [done|]. intros c c' Hc%Hin Hc'%Hin. split.
    + intros Hn. unfold const_entry in *. rewrite Hn in Hc. apply table_entry in Hc, Hc'.
      change (ex_code (const_error c) = ex_code (const_error c')). congruence.
    + intros Hn. by eapply table_code.
  - apply map_eq. intros n. destruct (collected cs !! n) as [e|] eqn:E.
    + apply collected_lookup in E as (c & Hc & <- & <-). symmetry. by apply table_entry, Hin.
    + symmetry. apply eq_None_not_Some. intros [e He%table_entry]. apply Hcs in He as (c & [= -> ->] & Hc)%list_elem_of_fmap.
      apply collected_member in Hc as [??]. congruence.
Qed.

(** Whenever the assembly files define the constants of the table, in any order
    and any number of times, the script succeeds and generates the checked-in
    file: its constants and its array, line by line. *)
Theorem kernel_table_regenerated captures_iter walk file :
  Forall readable walk → Forall (λ c, is_Some (cap_message c)) (captures captures_iter walk) →
  (∀ e, e ∈ const_entry <$> captures captures_iter walk ↔ e ∈ kernel_error_table) →
  let r := generate_kernel_error_constants captures_iter true walk file in
  r.1 = Ok tt ∧
  filter (λ s, s ≠ "") r.2 =
  (filter (λ s, s ≠ "") file_header ++ (constant_line <$> kernel_error_table) ++
   ["pub const TX_KERNEL_ERRORS: [(u32, &str); 87] = ["] ++ (entry_line <$> kernel_error_table) ++ ["];"])%list.
Proof.
  intros Hr Hm Hcs. destruct (table_collected _ Hm Hcs) as [Hw Hc]. cbv zeta.
  rewrite generate_ok, Hc by done. split; [done|]. cbn [snd]. by rewrite generate_lists_all, kernel_table_iter.
Qed.

(** ** Lookups *)

Lemma btree_from_lookup {A} (l : list (Z * A)) k a : NoDup l.*1 → (k, a) ∈ l → btree_from l !! k = Some a.
Proof.
  intros ND Hin. apply elem_of_list_to_map_1; [|by apply elem_of_reverse].
  by rewrite fmap_reverse, reverse_Permutation.
Qed.
Lemma btree_from_None {A} (l : list (Z * A)) k : k ∉ l.*1 → btree_from l !! k = None.
Proof. intros Hk. apply not_elem_of_list_to_map_1. rewrite fmap_reverse. by rewrite elem_of_reverse. Qed.

Definition FIRST_ERROR : Z := 0x20000.
Lemma kernel_codes_range : TX_KERNEL_ERRORS.*1 ≡ₚ seqZ FIRST_ERROR 87.
Proof. apply (bool_decide_unpack _). vm_compute. done. Qed.

(** A failed assertion of the kernel is reported with the message of its own
    constant, every other code as unknown; the codes are the numbers from
    0x20000 to 0x20056 without a gap. *)
Theorem kernel_errors_report {F : FeltApi} (process : ProcessState) :
  (∀ n e, (n, e) ∈ kernel_error_table →
     on_assert_failed error_messages process (hex_literal (ex_code e)) =
     FailedAssertion (clk process) (hex_literal (ex_code e)) (Some (ex_message e))) ∧
  (∀ code, (∃ n e, (n, e) ∈ kernel_error_table ∧ code = hex_literal (ex_code e)) ↔ 0x20000 ≤ code ≤ 0x20056) ∧
  (∀ code, ¬ 0x20000 ≤ code ≤ 0x20056 →
     on_assert_failed error_messages process code = FailedAssertion (clk process) code (Some "Unknown error")).
Proof.
  assert (TX_KERNEL_ERRORS = (λ e, (hex_literal (ex_code e.2), ex_message e.2)) <$> kernel_error_table) as Htab.
  { vm_compute. reflexivity. }
  assert (∀ code, code ∈ TX_KERNEL_ERRORS.*1 ↔ 0x20000 ≤ code ≤ 0x20056) as Hrange.
  { intros code. rewrite kernel_codes_range, elem_of_seqZ. unfold FIRST_ERROR. lia. }
  assert (NoDup TX_KERNEL_ERRORS.*1) as ND by (rewrite kernel_codes_range; apply NoDup_seqZ).
  unfold on_assert_failed, error_messages. split; [|split].
  - intros n e Hin. rewrite (btree_from_lookup _ _ (ex_message e)); [reflexivity|exact ND|].
    rewrite Htab. apply list_elem_of_fmap. exists (n, e). split; [reflexivity|exact Hin].
  - intros code. rewrite <- Hrange, Htab, <- list_fmap_compose, list_elem_of_fmap. split.
    + intros (n & e & Hin & ->). exists (n, e). split; [reflexivity|exact Hin].
    + intros ([n e] & -> & Hin). exists n, e. split; [exact Hin|reflexivity].
  - intros code Hc. by rewrite btree_from_None by by rewrite Hrange.
Qed.

(** ** Codes that are compared as text *)

(** Two constants whose codes are the same number in different spelling. *)
Definition respelled : list Capture :=
  [mkCapture (Some "First") "A_FIRST" "0002000F"; mkCapture (Some "Second") "B_SECOND" "0002000f"].
Definition masm_file : option Entry := Some (mkEntry true (Some "masm") (Some "")).

(** The script accepts them, and the host reports the first assertion with the
    message of the second. *)
Example respelled_codes_accepted {F : FeltApi} (process : ProcessState) :
  (generate_kernel_error_constants (λ _, respelled) true [masm_file] []).1 = Ok tt ∧
  let table := btree_iter String.leb (collected respelled) in
  let array := error_array ((λ e, (e.1, ex_code e.2)) <$> table) ((λ e, (e.1, ex_message e.2)) <$> table) in
  on_assert_failed (btree_from array) process (hex_literal "0002000F") =
  FailedAssertion (clk process) (hex_literal "0002000F") (Some "Second").
Proof. split; vm_compute; reflexivity. Qed.

(** ** Witnesses *)

(** Assembly files that define the constants in reverse order, and one of them twice. *)
Definition table_captures (text : string) : list Capture :=
  let l := (λ e, mkCapture (Some (ex_message e.2 +:+ " ")) e.1 (ex_code e.2)) <$> kernel_error_table in
  if decide (text = "all") then reverse l else take 1 l.
Definition sample_walk : list (option Entry) :=
  [Some (mkEntry false None None); Some (mkEntry true (Some "masm") (Some "all"));
   Some (mkEntry true (Some "md") None); Some (mkEntry true (Some "masm") (Some "first"))].

Lemma kernel_table_regenerated_witness :
  (generate_kernel_error_constants table_captures true sample_walk []).1 = Ok tt.
Proof.
  apply (kernel_table_regenerated table_captures sample_walk []).
  - repeat constructor; discriminate || (intros _; eexists; reflexivity).
  - apply (bool_decide_unpack _). vm_compute. exact I.
  - assert (const_entry <$> captures table_captures sample_walk = reverse kernel_error_table ++ take 1 kernel_error_table)%list as ->
      by (vm_compute; reflexivity).
    intros e. rewrite elem_of_app, elem_of_reverse. split; [intros [H|H]; [exact H|]; apply elem_of_take in H as (i & H & _); by eapply list_elem_of_lookup_2|by left].
Defined.
