(* ===== verification/LibBuild.v ===== *)
(** * The build script of miden-lib

    Models miden-lib/build.rs: it copies the assembly sources to the output
    directory, compiles the kernel, the library, the note scripts and the account
    components, and generates the table of kernel procedures
    (transaction/procedures/kernel_v0.rs). The assembler and the regular
    expression are third-party code and parameters. Paths are absolute lists of
    components and the file system is a finite map; there are no symbolic links,
    so that [canonicalize] is the identity on existing paths. *)

From S2P Require Import Prelude AccountId Ids.
From stdpp Require Import strings pretty.
Open Scope string_scope.
Open Scope Z_scope.

(** ** The table of kernel procedures *)

(** [usize::from_str] on a non-empty string of digits *)
Fixpoint parse_digits (acc : Z) (s : string) : option Z :=
  match s with
  | "" => if acc <=? U64_MAX then Some acc else None
  | String c s' =>
      let d := Z.of_nat (Ascii.nat_of_ascii c) - 48 in
      if (0 <=? d) && (d <=? 9) then parse_digits (10 * acc + d) s' else None
  end.
Definition parse_usize (s : string) : option Z := if decide (s = "") then None else parse_digits 0 s.

Inductive BuildError : Type := IoError | ParseError | AssemblyError.

(** [parse_proc_offsets]; [captures] is the regular expression, which matches a
    line to a name and an offset. *)
Definition parse_offset_line (captures : string → option (string * string)) (line : string)
    : mut (gmap string Z) BuildError unit :=
  match captures line with
  | Some (name, offset) =>
      offset ← lift (ok_or ParseError (parse_usize offset));
      result ← get_self; put_self (<[to_lowercase name := offset]> result)
  | None => mret tt
  end.
Definition parse_proc_offsets (captures : string → option (string * string)) (contents : option (list string))
    : res BuildError (gmap string Z) :=
  lines ← ok_or IoError contents;
  let '(r, result) := for_each lines (parse_offset_line captures) ∅ in (λ _, result) <$> r.

(** The procedures of the kernel library: names and the elements of their digests. *)
Record ProcInfo : Type := mkProcInfo { pi_name : string; pi_digest : list Z }.

(** The format [{:#016x}]: at least 14 digits after the prefix. *)
Fixpoint hex_digits_from (fuel : nat) (v : Z) : nat :=
  match fuel with O => 1 | S fuel' => if v <? 16 then 1 else S (hex_digits_from fuel' (v / 16)) end.
Definition format_element (v : Z) : string := "0x" +:+ hex_fixed (Nat.max 14 (hex_digits_from 16 v)) v.
Definition proc_lines (p : ProcInfo) : list string :=
  ["    // " +:+ pi_name p; "    digest!(" +:+ String.concat ", " (format_element <$> pi_digest p) +:+ "),"].

Definition to_exclude : string := "exec_kernel_proc".
(** The closure that finds the offset of a procedure. *)
Fixpoint offset_procs {E} (offsets : gmap string Z) (procs : list ProcInfo) : res E (list (Z * ProcInfo)) :=
  match procs with
  | [] => Ok []
  | p :: procs' =>
      offset ← expect_some (offsets !! pi_name p);
      rest ← offset_procs offsets procs'; Ok ((offset, p) :: rest)
  end.
(** The closure that checks that offsets are contiguous. *)
Fixpoint check_offsets {E X} (index : Z) (l : list (Z * X)) : res E (list X) :=
  match l with
  | [] => Ok []
  | (offset, txt) :: l' =>
      if decide (index ≠ offset) then Panic
      else rest ← check_offsets (index + 1) l'; Ok (txt :: rest)
  end.

Definition kernel_file_header (proc_count : nat) : list string :=
  ["/// This file is generated by build.rs, do not modify"; "";
   "use miden_objects::{digest, Digest, Felt};"; "";
   "// KERNEL V0 PROCEDURES";
   "// ================================================================================================"; "";
   "/// Hashes of all dynamically executed procedures from the kernel 0.";
   "pub const KERNEL0_PROCEDURES: [Digest; " +:+ pretty proc_count +:+ "] = ["].

(** The table in the file, for the procedures at their offsets. *)
Definition collect_procs (l : list (Z * ProcInfo)) : gmap Z ProcInfo := list_to_map (reverse l).
Definition kernel_file (table : list ProcInfo) : list string :=
  (kernel_file_header (length table) ++
   match table with [] => [""] | _ => mjoin (proc_lines <$> table) end ++ ["];"])%list.

(** [generate_kernel_proc_hash_file]; [contents] is the file with the offsets, the
    state is the generated file. *)
Definition generate_kernel_proc_hash_file (captures : string → option (string * string)) (contents : option (list string))
    (writable : bool) (module_info : list ProcInfo) : mut (list string) BuildError unit :=
  offsets ← lift (parse_proc_offsets captures contents);
  procs ← lift (offset_procs offsets (filter (λ p, pi_name p ≠ to_exclude) module_info));
  let generated_procs := collect_procs procs in
  table ← lift (check_offsets 0 (btree_iter Z.leb generated_procs));
  if writable then put_self (kernel_file table) else lift (Err IoError).

(** ** Properties of the table *)

Lemma offset_procs_ok {E} offsets l : (∀ o p, (o, p) ∈ l → offsets !! pi_name p = Some o) →
  offset_procs (E:=E) offsets l.*2 = Ok l.
Proof.
  induction l as [|[o p] l IH]; intros Hl; [done|]. cbn. rewrite (Hl o p (list_elem_of_here _ _)). cbn.
  rewrite IH; [done|]. intros ???. apply Hl. by right.
Qed.
Lemma offset_procs_inv {E} offsets procs l : offset_procs (E:=E) offsets procs = Ok l →
  l.*2 = procs ∧ ∀ o p, (o, p) ∈ l → offsets !! pi_name p = Some o.
Proof.
  revert l. induction procs as [|p procs IH]; intros l; cbn [offset_procs].
  { intros [= <-]. split; [done|]. by intros ?? ?%elem_of_nil. }
  intros (o & Ho%expect_some_inv & (l' & Hl' & [= <-])%res_bind_inv)%res_bind_inv.
  destruct (IH _ Hl') as [<- H]. split; [done|]. intros o' p' [[= -> ->]|?]%elem_of_cons; [done|by apply H].
Qed.

Lemma seqZ_S i n : seqZ i (Z.of_nat (S n)) = i :: seqZ (i + 1) (Z.of_nat n).
Proof. rewrite seqZ_cons by lia. f_equal. f_equal; lia. Qed.
Lemma check_offsets_ok {E X} i (l : list (Z * X)) : l.*1 = seqZ i (Z.of_nat (length l)) → check_offsets (E:=E) i l = Ok l.*2.
Proof.
  revert i. induction l as [|[o x] l IH]; intros i; [done|]. cbn [length]. rewrite seqZ_S. intros [= -> Hl].
  cbn. rewrite decide_False by (intros H; by apply H). cbn. by rewrite IH.
Qed.
Lemma check_offsets_inv {E X} i (l : list (Z * X)) t : check_offsets (E:=E) i l = Ok t →
  t = l.*2 ∧ l.*1 = seqZ i (Z.of_nat (length l)).
Proof.
  revert i t. induction l as [|[o x] l IH]; intros i t; cbn [check_offsets]; [by intros [= <-]|].
  cbn [length]. rewrite seqZ_S. destruct (decide (i ≠ o)) as [Hio|Hio]; [done|]. apply dec_stable in Hio as ->.
  intros (t' & Ht & [= <-])%res_bind_inv. destruct (IH _ _ Ht) as [-> H]. cbn. by rewrite H.
Qed.

(** A map whose keys are the first [n] numbers is visited in their order. *)
Lemma offsets_iter {X} (m : gmap Z X) n : (∀ k, is_Some (m !! k) ↔ 0 ≤ k < Z.of_nat n) →
  (btree_iter Z.leb m).*1 = seqZ 0 (Z.of_nat (length (btree_iter Z.leb m))).
Proof.
  intros Hm%btree_iter_seqZ. rewrite Hm. f_equal.
  by rewrite <-(length_fmap fst), Hm, length_seqZ, Nat2Z.id.
Qed.

(** The procedures that get an entry: all but the one that calls the others. *)
Definition table_procs (module_info : list ProcInfo) : list ProcInfo := filter (λ p, pi_name p ≠ to_exclude) module_info.

Lemma collect_lookup l o p : collect_procs l !! o = Some p → (o, p) ∈ l.
Proof. intros H%elem_of_list_to_map_2. by rewrite elem_of_reverse in H. Qed.
Lemma collect_member l o p : (o, p) ∈ l → is_Some (collect_procs l !! o).
Proof.
  intros H. destruct (collect_procs l !! o) eqn:E; [done|]. apply not_elem_of_list_to_map in E as [].
  rewrite fmap_reverse, elem_of_reverse. apply list_elem_of_fmap. by exists (o, p).
Qed.

Lemma iter_lookup {X} (m : gmap Z X) i x : (btree_iter Z.leb m).*1 = seqZ 0 (Z.of_nat (length (btree_iter Z.leb m))) →
  (btree_iter Z.leb m).*2 !! i = Some x → m !! Z.of_nat i = Some x.
Proof.
  intros Hk Hx. rewrite list_lookup_fmap in Hx. apply fmap_Some in Hx as ([k y] & Hi & ->).
  assert ((btree_iter Z.leb m).*1 !! i = Some k) as H by by rewrite list_lookup_fmap, Hi.
  rewrite Hk in H. apply lookup_seqZ in H as [-> _]. rewrite Z.add_0_l in Hi.
  apply (elem_of_btree_iter Z.leb). by apply list_elem_of_lookup_2 in Hi.
Qed.

(** When the offsets number the procedures, visiting them by offset gives the numbering. *)
Lemma numbered_table l table :
  (∀ p, p ∈ l.*2 ↔ p ∈ table) → (∀ i p, table !! i = Some p → ∀ o, (o, p) ∈ l → o = Z.of_nat i) →
  check_offsets (E:=BuildError) 0 (btree_iter Z.leb (collect_procs l)) = Ok table.
Proof.
  intros Hin Hnum.
  assert (∀ i p, table !! i = Some p → collect_procs l !! Z.of_nat i = Some p) as Hto.
  { intros i p Hi. assert (p ∈ l.*2) as ([o p'] & -> & Hp)%list_elem_of_fmap by (apply Hin; by apply (list_elem_of_lookup_2 _ i)).
    cbn in *. assert (o = Z.of_nat i) as -> by by eapply Hnum. destruct (collect_member _ _ _ Hp) as [q Hq]. rewrite Hq. f_equal.
    apply collect_lookup in Hq. assert (q ∈ table) as [j Hj]%list_elem_of_lookup by (apply Hin, list_elem_of_fmap; by exists (Z.of_nat i, q)).
    assert (i = j) as <- by (apply Nat2Z.inj; by eapply Hnum). congruence. }
  assert (∀ o p, collect_procs l !! o = Some p → ∃ i, o = Z.of_nat i ∧ table !! i = Some p) as Hfrom.
  { intros o p Hp%collect_lookup. assert (p ∈ table) as [j Hj]%list_elem_of_lookup by (apply Hin, list_elem_of_fmap; by exists (o, p)).
    exists j. split; [by eapply Hnum|done]. }
  assert (∀ k, is_Some (collect_procs l !! k) ↔ 0 ≤ k < Z.of_nat (length table)) as Hkeys.
  { intros k. split.
    - intros [p (i & -> & Hi%lookup_lt_Some)%Hfrom]. lia.
    - intros Hk. destruct (lookup_lt_is_Some_2 table (Z.to_nat k)) as [p Hp%Hto]; [lia|]. rewrite Z2Nat.id in Hp by lia. by exists p. }
  pose proof (offsets_iter _ _ Hkeys) as Hs. rewrite check_offsets_ok by done. f_equal.
  apply list_eq. intros i. apply option_eq. intros p. split.
  - intros H%iter_lookup; [|done]. apply Hfrom in H as (j & ->%Nat2Z.inj & H). done.
  - intros H%Hto%(elem_of_btree_iter Z.leb). apply list_elem_of_lookup in H as [j Hj].
    assert ((btree_iter Z.leb (collect_procs l)).*1 !! j = Some (Z.of_nat i)) as Hk by by rewrite list_lookup_fmap, Hj.
    rewrite Hs in Hk. apply lookup_seqZ in Hk as [Hk _]. assert (i = j) as -> by lia. by rewrite list_lookup_fmap, Hj.
Qed.

(** C37. When the offset constants number the procedures of the kernel from zero, the
    generated table has each procedure at its offset. Conversely, every table that
    is generated has at each index a procedure with this offset, and an entry at
    the offset of each procedure. *)
Theorem kernel_procedures_table captures contents offsets module_info file :
  parse_proc_offsets captures contents = Ok offsets →
  let procs := table_procs module_info in
  let r := generate_kernel_proc_hash_file captures contents true module_info file in
  (∀ table, (∀ p, p ∈ procs ↔ p ∈ table) →
     (∀ i p, table !! i = Some p → offsets !! pi_name p = Some (Z.of_nat i)) → r = (Ok tt, kernel_file table)) ∧
  (is_ok r.1 = true → ∃ table, r.2 = kernel_file table ∧
     (∀ i p, table !! i = Some p → p ∈ procs ∧ offsets !! pi_name p = Some (Z.of_nat i)) ∧
     (∀ p, p ∈ procs → ∃ i, offsets !! pi_name p = Some (Z.of_nat i) ∧ (i < length table)%nat)).
Proof.
  intros Hoff. cbv zeta. unfold generate_kernel_proc_hash_file, mbind at 1 3, mut_bind at 1 3, lift at 1 4. rewrite Hoff.
  fold (table_procs module_info). set (procs := table_procs module_info). split.
  - intros table Hin Hnum. set (l := (λ p, (default 0 (offsets !! pi_name p), p)) <$> procs).
    assert (l.*2 = procs) as Hl by (subst l; rewrite <- list_fmap_compose; apply list_fmap_id).
    assert (∀ o p, (o, p) ∈ l → offsets !! pi_name p = Some o) as Ho.
    { intros o p (p' & [= -> ->] & Hp)%list_elem_of_fmap. apply Hin, list_elem_of_lookup in Hp as [i Hi]. by rewrite (Hnum _ _ Hi). }
    unfold mbind, mut_bind, lift. rewrite <- Hl, offset_procs_ok by done. rewrite numbered_table with (table := table); [done|by rewrite Hl|].
    intros i p Hi o Hp%Ho. pose proof (Hnum _ _ Hi). congruence.
  - unfold mbind, mut_bind, lift. destruct (offset_procs offsets procs) as [l| |] eqn:El; [|done..].
    destruct (check_offsets 0 _) as [table| |] eqn:Et; [|done..]. intros _. exists table. split; [done|].
    apply offset_procs_inv in El as [Hl Ho]. apply check_offsets_inv in Et as [-> Hk]. split.
    + intros i p Hi%iter_lookup%collect_lookup; [|done]. split; [|by apply Ho]. rewrite <- Hl. apply list_elem_of_fmap. by exists (Z.of_nat i, p).
    + intros p Hp. rewrite <- Hl in Hp. apply list_elem_of_fmap in Hp as ([o p'] & -> & Hp). cbn.
      destruct (collect_member _ _ _ Hp) as [q Hq%(elem_of_btree_iter Z.leb)]. apply list_elem_of_lookup in Hq as [i Hi].
      assert ((btree_iter Z.leb (collect_procs l)).*1 !! i = Some o) as Hki by by rewrite list_lookup_fmap, Hi.
      rewrite Hk in Hki. apply lookup_seqZ in Hki as [-> Hlt]. exists i. rewrite length_fmap. split; [|lia].
      by rewrite (Ho _ _ Hp).
Qed.

(** Two procedures with the same offset: the table that is generated misses one of them. *)
Example duplicate_offset_drops :
  let p n := mkProcInfo n [1; 2; 3; 4] in
  let captures line := if decide (line = "a") then Some ("A", "0") else Some ("B", "0") in
  generate_kernel_proc_hash_file captures (Some ["a"; "b"]) true [p "a"; p "b"] [] = (Ok tt, kernel_file [p "b"]).
Proof. vm_compute. reflexivity. Qed.

(** ** The file system *)

Abbreviation path := (list string).
Inductive node : Type := File (contents : string) | Dir.
#[export] Instance node_eq_dec : EqDecision node.
Proof. solve_decision. Defined.
Abbreviation FS := (gmap path node).

Definition is_dir (fs : FS) (p : path) : bool := bool_decide (fs !! p = Some Dir).
Definition exists_path (fs : FS) (p : path) : bool := bool_decide (is_Some (fs !! p)).
Definition parent (p : path) : path := take (length p - 1) p.
(** [Path::strip_prefix] *)
Definition strip_prefix (prefix p : path) : option path :=
  if decide (take (length prefix) p = prefix) then Some (drop (length prefix) p) else None.

(** The names in a directory. *)
Definition child_name (p k : path) : option string :=
  match strip_prefix p k with Some [n] => Some n | _ => None end.
Definition children (fs : FS) (p : path) : list string := omap (child_name p) (map_to_list fs).*1.

(** [fs::create_dir_all]: fails when a component is a file. *)
Fixpoint create_dirs (base rest : path) (fs : FS) : option FS :=
  match rest with
  | [] => Some fs
  | n :: rest' =>
      let q := (base ++ [n])%list in
      match fs !! q with
      | Some (File _) => None
      | _ => create_dirs q rest' (<[q := Dir]> fs)
      end
  end.
Definition create_dir_all (p : path) (fs : FS) : option FS := create_dirs [] p fs.

(** [fs::write] and [fs::copy] *)
Definition write_file (p : path) (contents : string) (fs : FS) : option FS :=
  if is_dir fs (parent p) && negb (is_dir fs p) then Some (<[p := File contents]> fs) else None.
Definition copy_file (p dst : path) (fs : FS) : option FS :=
  match fs !! p with Some (File c) => write_file dst c fs | _ => None end.

(** The order in which [fs::read_dir] returns entries is up to the system. *)
Class DirOrder := {
  dir_order : list string → list string;
  dir_order_perm : ∀ l, dir_order l ≡ₚ l
}.

Section Build.
  Context {DO : DirOrder}.

Definition read_dir (fs : FS) (p : path) : option (list string) :=
  if is_dir fs p then Some (dir_order (children fs p)) else None.

(** [expect]ing an operation on the file system. *)
Definition fs_unwrap {E : Type} (op : FS → option FS) : mut FS E unit := λ fs,
  match op fs with Some fs' => (Ok tt, fs') | None => (Panic, fs) end.
Definition fs_try (op : FS → option FS) : mut FS BuildError unit := λ fs,
  match op fs with Some fs' => (Ok tt, fs') | None => (Err IoError, fs) end.

(** *** Copying the sources *)

Definition ASM_DIR : string := "asm".

(** One entry of a directory: the directories that are still to do follow. *)
Definition copy_entry {E : Type} (prefix dst : path) (p : path) : mut FS E (option path) :=
  fs ← get_self;
  relative ← lift (expect_some (strip_prefix prefix p));
  let target := (dst ++ relative)%list in
  if is_dir fs p then
    (if exists_path fs target then mret tt else fs_unwrap (create_dir_all target)) ;; mret (Some p)
  else fs_unwrap (copy_file p target) ;; mret None.

Fixpoint copy_entries {E : Type} (prefix dst goal : path) (names : list string) (todo : list path) : mut FS E (list path) :=
  match names with
  | [] => mret todo
  | n :: names' =>
      next ← copy_entry prefix dst (goal ++ [n])%list;
      copy_entries prefix dst goal names' (option_list next ++ todo)%list
  end.

(** The body of the loop. *)
Definition copy_goal {E : Type} (prefix dst goal : path) (todo : list path) : mut FS E (list path) :=
  fs ← get_self;
  names ← lift (expect_some (read_dir fs goal));
  copy_entries prefix dst goal names todo.

(** The loop, with the last element of [todo] first. *)
Fixpoint copy_loop {E : Type} (fuel : nat) (prefix dst : path) (todo : list path) : mut FS E bool :=
  match fuel with
  | O => mret false
  | S fuel' =>
      match todo with
      | [] => mret true
      | goal :: todo' => todo' ← copy_goal prefix dst goal todo'; copy_loop fuel' prefix dst todo'
      end
  end.

(** [copy_directory] *)
Definition copy_directory {E : Type} (fuel : nat) (src dst : path) : mut FS E bool :=
  fs ← get_self;
  lift (if exists_path fs src then Ok tt else Panic) ;;
  let prefix := parent src in
  let target_dir := (dst ++ [ASM_DIR])%list in
  (if exists_path fs target_dir then mret tt else fs_unwrap (create_dir_all target_dir)) ;;
  copy_loop fuel prefix dst [src].

(** *** What copying does *)

Lemma strip_prefix_app p r : strip_prefix p (p ++ r)%list = Some r.
Proof. unfold strip_prefix. rewrite take_app_length, drop_app_length. by rewrite decide_True. Qed.
Lemma strip_prefix_inv p k r : strip_prefix p k = Some r → k = (p ++ r)%list.
Proof. unfold strip_prefix. destruct (decide _) as [H|]; [|done]. intros [= <-]. rewrite <- H at 1. by rewrite take_drop. Qed.

Lemma elem_of_children fs p n : n ∈ children fs p ↔ is_Some (fs !! (p ++ [n])%list).
Proof.
  unfold children. rewrite list_elem_of_omap. split.
  - intros (k & ([k' x] & -> & Hk%elem_of_map_to_list)%list_elem_of_fmap & Hn). cbn in Hn.
    unfold child_name in Hn. destruct (strip_prefix p k') as [[|n' []]|] eqn:E; [done|..|done|done].
    injection Hn as ->. apply strip_prefix_inv in E as ->. by exists x.
  - intros [x Hx]. exists (p ++ [n])%list. split.
    + apply list_elem_of_fmap. exists ((p ++ [n])%list, x). split; [done|]. by apply elem_of_map_to_list.
    + unfold child_name. by rewrite strip_prefix_app.
Qed.
Lemma children_NoDup fs p : NoDup (children fs p).
Proof.
  unfold children. pose proof (NoDup_fst_map_to_list fs) as ND. revert ND. generalize ((map_to_list fs).*1). intros l.
  induction l as [|k l IH]; intros ND; [constructor|].
  apply NoDup_cons in ND as [Hk ND]. cbn. destruct (child_name p k) as [n|] eqn:E; [|by apply IH].
  constructor; [|by apply IH]. intros (k' & Hk' & E')%list_elem_of_omap. apply Hk.
  assert (∀ k, child_name p k = Some n → k = (p ++ [n])%list) as H.
  { intros k0. unfold child_name. destruct (strip_prefix p k0) as [[|? []]|] eqn:E0; [done|..|done|done].
    intros [= ->]. by apply strip_prefix_inv. }
  apply H in E, E'. congruence.
Qed.

(** Every entry lies in a directory. *)
Definition wf_fs (fs : FS) : Prop :=
  fs !! ([] : path) = Some Dir ∧ ∀ p n, is_Some (fs !! (p ++ [n])%list) → fs !! p = Some Dir.

Lemma wf_prefix fs p r : wf_fs fs → r ≠ [] → is_Some (fs !! (p ++ r)%list) → fs !! p = Some Dir.
Proof.
  intros [_ Hwf]. induction r as [|n r IH] using rev_ind; [done|]. intros _ H. rewrite (assoc_L (++)) in H.
  apply Hwf in H. destruct r as [|m r]; [by rewrite app_nil_r in H|]. apply IH; [done|]. by rewrite H.
Qed.

(** Creating a directory in an existing one adds it and nothing else. *)
Lemma create_dirs_existing base rest n fs :
  (∀ k, (k ≤ length rest)%nat → fs !! (base ++ take k rest)%list = Some Dir) → fs !! (base ++ rest ++ [n])%list = None →
  create_dirs base (rest ++ [n])%list fs = Some (<[(base ++ rest ++ [n])%list := Dir]> fs).
Proof.
  revert base. induction rest as [|m rest IH]; intros base Hd Hn; cbn [app create_dirs].
  - cbn in Hn. by rewrite Hn.
  - pose proof (Hd 1%nat ltac:(cbn; lia)) as H1. change (take 1 (m :: rest)) with [m] in H1. rewrite H1, insert_id by done.
    rewrite IH.
    + by rewrite <- (assoc_L (++)).
    + intros k Hk. rewrite <- (assoc_L (++)). apply (Hd (S k)). cbn. lia.
    + by rewrite <- (assoc_L (++)).
Qed.
Lemma create_dir_existing fs p n : wf_fs fs → fs !! p = Some Dir → fs !! (p ++ [n])%list = None →
  create_dir_all (p ++ [n])%list fs = Some (<[(p ++ [n])%list := Dir]> fs).
Proof.
  intros Hwf Hp Hn. apply create_dirs_existing; [|done]. intros k Hk. cbn.
  destruct (decide (drop k p = [])) as [E|E].
  - rewrite <- (take_drop k p), E, app_nil_r in Hp. by rewrite <- Hp.
  - eapply wf_prefix; [done|exact E|]. by rewrite take_drop, Hp.
Qed.
End Build.

(** A directory [prefix/asm] that is copied to [dst/asm]. *)
Section Copy.
  Context {DO : DirOrder} (fs0 : FS) (prefix dst : path).
Definition src : path := (prefix ++ [ASM_DIR])%list.
Definition target : path := (dst ++ [ASM_DIR])%list.

(** Neither directory contains the other, and entries that exist in both are of
    the same kind. *)
Record copyable : Prop := {
  cp_wf : wf_fs fs0;
  cp_src : fs0 !! src = Some Dir;
  cp_dst : fs0 !! dst = Some Dir;
  cp_apart : ∀ r r', (src ++ r)%list ≠ (target ++ r')%list;
  cp_kinds : ∀ r x y, fs0 !! (src ++ r)%list = Some x → fs0 !! (target ++ r)%list = Some y → x = Dir ↔ y = Dir
}.
Context (Hc : copyable).

(** The state after the entries [copied] are there. *)
Definition overlay (copied : gset path) (cur : FS) : Prop :=
  (∀ r, cur !! (target ++ r)%list = if decide (r ∈ copied) then fs0 !! (src ++ r)%list else fs0 !! (target ++ r)%list) ∧
  ∀ p, (∀ r, p ≠ (target ++ r)%list) → cur !! p = fs0 !! p.

Lemma overlay_src copied cur r : overlay copied cur → cur !! (src ++ r)%list = fs0 !! (src ++ r)%list.
Proof. intros [_ H]. apply H. intros r'. apply Hc. Qed.
Lemma overlay_kind copied cur r x y : overlay copied cur →
  fs0 !! (src ++ r)%list = Some x → cur !! (target ++ r)%list = Some y → x = Dir ↔ y = Dir.
Proof.
  intros [H _] Hx Hy. rewrite H in Hy. destruct (decide _); [|by eapply cp_kinds]. by replace y with x by congruence.
Qed.
Lemma overlay_insert copied cur r : overlay copied cur → ∀ x, fs0 !! (src ++ r)%list = Some x →
  overlay (copied ∪ {[r]}) (<[(target ++ r)%list := x]> cur).
Proof.
  intros [Ht Ho] x Hx. split.
  - intros r'. destruct (decide (r' = r)) as [->|Hr].
    + by rewrite lookup_insert_eq, decide_True by set_solver.
    + rewrite lookup_insert_ne by (intros ?%app_inv_head; done). rewrite Ht.
      destruct (decide (r' ∈ copied)); [by rewrite decide_True by set_solver|by rewrite decide_False by set_solver].
  - intros p Hp. rewrite lookup_insert_ne by (symmetry; apply Hp). by apply Ho.
Qed.
Lemma overlay_same copied cur r x : overlay copied cur → fs0 !! (src ++ r)%list = Some x → cur !! (target ++ r)%list = Some x →
  overlay (copied ∪ {[r]}) cur.
Proof. intros Ho Hx Hr. rewrite <- (insert_id cur _ _ Hr). by apply overlay_insert. Qed.

Lemma wf_insert (fs : FS) p n x : wf_fs fs → fs !! p = Some Dir → (x = Dir ∨ fs !! (p ++ [n])%list ≠ Some Dir) →
  wf_fs (<[(p ++ [n])%list := x]> fs).
Proof.
  intros [Hr Hwf] Hp Hx. split; [by rewrite lookup_insert_ne by (by destruct p)|]. intros q m Hq.
  assert (fs !! q = Some Dir) as Hd.
  { destruct (decide ((p ++ [n])%list = (q ++ [m])%list)) as [E|E].
    - apply app_inj_tail in E as [-> _]. done.
    - rewrite lookup_insert_ne in Hq by done. by eapply Hwf. }
  destruct (decide ((p ++ [n])%list = q)) as [<-|E]; [|by rewrite lookup_insert_ne].
  rewrite lookup_insert_eq. destruct Hx as [->|Hx]; [done|]. by destruct Hx.
Qed.

Lemma parent_app p n : parent (p ++ [n])%list = p.
Proof. unfold parent. rewrite length_app. cbn. by rewrite Nat.add_sub, take_app_length. Qed.

(** One entry. *)
Lemma copy_entry_spec {E : Type} copied cur d n x :
  overlay copied cur → wf_fs cur → cur !! (target ++ d)%list = Some Dir → fs0 !! (src ++ d ++ [n])%list = Some x →
  ∃ cur', copy_entry (E:=E) prefix dst (src ++ d ++ [n])%list cur =
          (Ok (if decide (x = Dir) then Some (src ++ d ++ [n])%list else None), cur') ∧
    overlay (copied ∪ {[(d ++ [n])%list]}) cur' ∧ wf_fs cur'.
Proof.
  intros Ho Hwf Hd Hx. unfold copy_entry, mbind, mut_bind, get_self, lift.
  assert (strip_prefix prefix (src ++ d ++ [n])%list = Some (ASM_DIR :: d ++ [n])%list) as ->
    by (unfold src; rewrite <- (assoc_L (++)); apply strip_prefix_app).
  cbn [expect_some]. replace (dst ++ ASM_DIR :: d ++ [n])%list with (target ++ d ++ [n])%list
    by (unfold target; by rewrite <- !(assoc_L (++))).
  assert (is_dir cur (src ++ d ++ [n])%list = bool_decide (x = Dir)) as ->.
  { unfold is_dir. erewrite overlay_src, Hx by done. apply bool_decide_ext. split; [by intros [= ->]|by intros ->]. }
  assert (target ++ d ++ [n] = (target ++ d) ++ [n])%list as Ht by by rewrite (assoc_L (++)).
  destruct (decide (x = Dir)) as [->|Hf].
  - rewrite bool_decide_eq_true_2 by done. unfold exists_path.
    destruct (cur !! (target ++ d ++ [n])%list) as [y|] eqn:Hy.
    + rewrite bool_decide_eq_true_2 by done. assert (y = Dir) as -> by by eapply (overlay_kind copied cur (d ++ [n])%list Dir y).
      exists cur. split; [done|]. split; [by eapply overlay_same|done].
    + rewrite bool_decide_eq_false_2 by (by intros [? [=]]). unfold fs_unwrap. rewrite Ht in *. rewrite create_dir_existing by done.
      exists (<[((target ++ d) ++ [n])%list := Dir]> cur). split; [done|]. split; [|by apply wf_insert; [..|left]].
      rewrite <- Ht. by apply overlay_insert.
  - rewrite bool_decide_eq_false_2 by done. destruct x as [c|]; [|done]. unfold fs_unwrap, copy_file, write_file.
    erewrite overlay_src, Hx by done. rewrite Ht, parent_app. unfold is_dir.
    assert (cur !! ((target ++ d) ++ [n])%list ≠ Some Dir) as Hnd.
    { intros Hy. rewrite <- Ht in Hy. by pose proof (proj2 (overlay_kind _ _ _ _ _ Ho Hx Hy) eq_refl). }
    rewrite bool_decide_eq_true_2, bool_decide_eq_false_2 by done. cbn.
    exists (<[((target ++ d) ++ [n])%list := File c]> cur). split; [done|]. split; [|by apply wf_insert; [..|right]].
    rewrite <- Ht. by apply overlay_insert.
Qed.

(** All entries of a directory. *)
Lemma copy_entries_spec {E : Type} d names : ∀ copied cur todo,
  overlay copied cur → wf_fs cur → d ∈ copied → fs0 !! (src ++ d)%list = Some Dir →
  NoDup names → (∀ n, n ∈ names → is_Some (fs0 !! (src ++ d ++ [n])%list)) →
  ∃ new cur', copy_entries (E:=E) prefix dst (src ++ d)%list names todo cur = (Ok (new ++ todo)%list, cur') ∧
    overlay (copied ∪ list_to_set ((λ n, (d ++ [n])%list) <$> names)) cur' ∧ wf_fs cur' ∧ NoDup new ∧
    ∀ p, p ∈ new ↔ ∃ n, n ∈ names ∧ p = (src ++ d ++ [n])%list ∧ fs0 !! p = Some Dir.
Proof.
  induction names as [|n names IH]; intros copied cur todo Ho Hwf Hdc Hd ND Hn; cbn [copy_entries].
  { exists [], cur. rewrite fmap_nil, list_to_set_nil, union_empty_r_L. split; [done|]. split; [done|]. split; [done|]. split; [constructor|].
    intros p. split; [by intros ?%elem_of_nil|by intros (? & ?%elem_of_nil & _)]. }
  apply NoDup_cons in ND as [Hnn ND]. destruct (Hn n (list_elem_of_here _ _)) as [x Hx].
  assert (cur !! (target ++ d)%list = Some Dir) as Htd by (destruct Ho as [Ho _]; by rewrite Ho, decide_True).
  destruct (copy_entry_spec (E:=E) copied cur d n x Ho Hwf Htd Hx) as (cur1 & H1 & Ho1 & Hwf1).
  unfold mbind, mut_bind. rewrite <- (assoc_L (++)), H1.
  edestruct (IH (copied ∪ {[(d ++ [n])%list]}) cur1) as (new & cur2 & H2 & Ho2 & Hwf2 & NDn & Hnew);
    [done|done|set_solver|done|done|intros m Hm; apply Hn; by right|].
  rewrite H2. exists (new ++ option_list (if decide (x = Dir) then Some (src ++ d ++ [n])%list else None))%list, cur2.
  assert (list_to_set ((λ n, d ++ [n])%list <$> n :: names) =@{gset path} {[(d ++ [n])%list]} ∪ list_to_set ((λ n, d ++ [n])%list <$> names)) as -> by done.
  split; [by rewrite <- (assoc_L (++))|]. split; [by rewrite (assoc_L (∪))|]. split; [done|].
  assert ((src ++ d ++ [n])%list ∉ new) as Hnot.
  { intros (m & Hm & Heq & _)%Hnew. apply app_inv_head, app_inj_tail in Heq as [_ ->]. done. }
  split.
  - apply NoDup_app. split; [done|]. split; [|by destruct (decide _); cbn; [apply NoDup_singleton|constructor]].
    intros p Hp. destruct (decide (x = Dir)); cbn; [|by apply not_elem_of_nil]. rewrite list_elem_of_singleton. by intros ->.
  - intros p. rewrite elem_of_app, Hnew. split.
    + intros [(m & Hm & Hp)|Hp]; [exists m; split; [by right|done]|]. exists n.
      destruct (decide (x = Dir)) as [->|]; cbn in Hp; [|by apply elem_of_nil in Hp].
      apply list_elem_of_singleton in Hp as ->. split; [left|done].
    + intros (m & [->|Hm]%elem_of_cons & -> & Hp); [right|left; by exists m].
      rewrite Hx in Hp. injection Hp as ->. by apply list_elem_of_singleton.
Qed.

(** Directories none of which lies in another. *)
Fixpoint antichain (l : list path) : Prop :=
  match l with
  | [] => True
  | x :: l' => Forall (λ y, ¬ x `prefix_of` y ∧ ¬ y `prefix_of` x) l' ∧ antichain l'
  end.
Lemma antichain_app l1 l2 : antichain l1 → antichain l2 →
  (∀ x y, x ∈ l1 → y ∈ l2 → ¬ x `prefix_of` y ∧ ¬ y `prefix_of` x) → antichain (l1 ++ l2)%list.
Proof.
  intros H1 H2 H. induction l1 as [|x l1 IH]; [done|]. destruct H1 as [Hx H1]. cbn. split.
  - apply Forall_app. split; [done|]. apply Forall_forall. intros y Hy. apply H; [left|done].
  - apply IH; [done|]. intros y z Hy Hz. apply H; [by right|done].
Qed.
Lemma antichain_siblings p l : NoDup l → (∀ x, x ∈ l → ∃ n, x = (p ++ [n])%list) → antichain l.
Proof.
  induction l as [|x l IH]; intros ND Hl; [done|]. apply NoDup_cons in ND as [Hx ND]. cbn. split.
  - apply Forall_forall. intros y Hy. destruct (Hl x (list_elem_of_here _ _)) as [n ->].
    destruct (Hl y (list_elem_of_further _ _ _ Hy)) as [m ->].
    split; intros Hp%prefix_app_inv%prefix_cons_inv_1; by subst.
  - apply IH; [done|]. intros y Hy. apply Hl. by right.
Qed.

(** The directories that are still to be visited. *)
Definition below (todo : list path) : gset path :=
  filter (λ k, Exists (λ g, g `prefix_of` k) todo) (dom fs0).
Lemma elem_of_below todo k : k ∈ below todo ↔ is_Some (fs0 !! k) ∧ ∃ g, g ∈ todo ∧ g `prefix_of` k.
Proof. unfold below. rewrite elem_of_filter, Exists_exists, elem_of_dom. tauto. Qed.

Lemma below_step g new todo :
  is_Some (fs0 !! g) → antichain (g :: todo) → (∀ p, p ∈ new → ∃ n, p = (g ++ [n])%list) →
  (size (below (new ++ todo)%list) < size (below (g :: todo)))%nat.
Proof.
  intros Hg [Ha _] Hnew. rewrite Forall_forall in Ha. apply subset_size. split.
  - intros k. rewrite !elem_of_below. intros [Hk (p & [Hp|Hp]%elem_of_app & Hpk)]; (split; [done|]).
    + exists g. split; [left|]. destruct (Hnew p Hp) as [n ->]. by eapply prefix_app_l.
    + exists p. split; [by right|done].
  - intros Hsub. assert (g ∈ below (new ++ todo)%list) as Hin.
    { apply Hsub, elem_of_below. split; [done|]. exists g. split; [left|done]. }
    apply elem_of_below in Hin as [_ (p & [Hp|Hp]%elem_of_app & Hpg)].
    + destruct (Hnew p Hp) as [n ->]. apply prefix_length in Hpg. rewrite length_app in Hpg. cbn in Hpg. lia.
    + by apply (Ha p Hp).
Qed.

(** Children of a directory that is incomparable with [y] are incomparable with it. *)
Lemma child_apart (g y : path) n : ¬ g `prefix_of` y → ¬ y `prefix_of` g →
  ¬ (g ++ [n])%list `prefix_of` y ∧ ¬ y `prefix_of` (g ++ [n])%list.
Proof.
  intros H1 H2. split.
  - intros H. apply H1. by eapply prefix_app_l.
  - intros [s Hs]. destruct s as [|m s _] using rev_ind.
    + apply H1. rewrite app_nil_r in Hs. subst y. by apply prefix_app_r.
    + rewrite (assoc_L (++)) in Hs. apply app_inj_tail in Hs as [-> _]. apply H2. by apply prefix_app_r.
Qed.

(** What lies below a directory is the directory and what lies below its entries. *)
Lemma below_children d r : (src ++ d)%list `prefix_of` (src ++ r)%list → is_Some (fs0 !! (src ++ r)%list) →
  r = d ∨ ∃ n, is_Some (fs0 !! (src ++ d ++ [n])%list) ∧
    (r = (d ++ [n])%list ∨ (fs0 !! (src ++ d ++ [n])%list = Some Dir ∧ (src ++ d ++ [n])%list `prefix_of` (src ++ r)%list)).
Proof.
  intros [s Hs] Hr. rewrite <- (assoc_L (++)) in Hs. apply app_inv_head in Hs as ->. destruct s as [|n s]; [left; by rewrite app_nil_r|right]. exists n.
  destruct s as [|m s]; [by split; [|left]|].
  assert (fs0 !! (src ++ d ++ [n])%list = Some Dir) as Hd.
  { apply (wf_prefix _ _ (m :: s)); [by apply Hc|done|]. by rewrite <- !(assoc_L (++)). }
  split; [by rewrite Hd|]. right. split; [done|]. exists (m :: s). by rewrite <- !(assoc_L (++)).
Qed.

(** One directory: its entries are copied, and its directories come next. *)
Lemma copy_goal_spec {E : Type} copied cur d (ds : list path) :
  overlay copied cur → wf_fs cur → d ∈ copied → fs0 !! (src ++ d)%list = Some Dir →
  ∃ (names : list string) (nd : list path) cur', copy_goal (E:=E) prefix dst (src ++ d)%list ((λ d, src ++ d)%list <$> ds) cur = (Ok ((λ d, src ++ d)%list <$> (nd ++ ds)%list), cur') ∧
    overlay (copied ∪ list_to_set ((λ n, (d ++ [n])%list) <$> names)) cur' ∧ wf_fs cur' ∧ NoDup nd ∧
    (∀ n, n ∈ names ↔ is_Some (fs0 !! (src ++ d ++ [n])%list)) ∧
    ∀ x, x ∈ nd ↔ ∃ n, x = (d ++ [n])%list ∧ fs0 !! (src ++ d ++ [n])%list = Some Dir.
Proof.
  intros Ho Hwf Hdc Hd. unfold copy_goal, mbind, mut_bind, get_self, lift.
  assert (read_dir cur (src ++ d)%list = Some (dir_order (children cur (src ++ d)%list))) as ->.
  { unfold read_dir, is_dir. erewrite overlay_src, Hd by done. by rewrite bool_decide_eq_true_2. }
  cbn [expect_some]. set (names := dir_order _).
  assert (∀ n, n ∈ names ↔ is_Some (fs0 !! (src ++ d ++ [n])%list)) as Hnames.
  { intros n. subst names. rewrite dir_order_perm, elem_of_children, <- (assoc_L (++)). by erewrite overlay_src. }
  assert (NoDup names) as NDn by (subst names; rewrite dir_order_perm; apply children_NoDup).
  destruct (copy_entries_spec (E:=E) d names copied cur ((λ d, src ++ d)%list <$> ds)) as (new & cur1 & -> & Ho1 & Hwf1 & NDw & Hnew);
    [done..|by intros n ?%Hnames|].
  assert (new = (λ d, src ++ d)%list <$> (drop (length src) <$> new)) as Hback.
  { rewrite <- list_fmap_compose. rewrite <- (list_fmap_id new) at 1. apply list_fmap_ext. intros i p Hp.
    assert (p ∈ new) as (n & _ & -> & _)%Hnew by by eapply list_elem_of_lookup_2. cbn. by rewrite drop_app_length. }
  exists names, (drop (length src) <$> new), cur1. split; [by rewrite fmap_app, <- Hback|].
  split; [done|]. split; [done|]. split; [rewrite Hback in NDw; by apply NoDup_fmap_1 in NDw|]. split; [done|].
  intros x. rewrite list_elem_of_fmap. split.
  - intros (p & -> & (n & _ & -> & Hp)%Hnew). exists n. by rewrite drop_app_length.
  - intros (n & -> & Hp). exists (src ++ d ++ [n])%list. rewrite drop_app_length. split; [done|]. apply Hnew. exists n.
    split; [apply Hnames; by rewrite Hp|done].
Qed.

(** What has been copied once a directory and everything below its entries have. *)
Lemma copied_below (d : path) (ds : list path) (names : list string) (nd : list path) (copied : gset path) (r : path) :
  d ∈ copied → (∀ n, n ∈ names ↔ is_Some (fs0 !! (src ++ d ++ [n])%list)) →
  (∀ x, x ∈ nd ↔ ∃ n, x = (d ++ [n])%list ∧ fs0 !! (src ++ d ++ [n])%list = Some Dir) →
  (r ∈ copied ∪ list_to_set ((λ n, (d ++ [n])%list) <$> names) ∨
   is_Some (fs0 !! (src ++ r)%list) ∧ ∃ x, x ∈ (nd ++ ds)%list ∧ (src ++ x)%list `prefix_of` (src ++ r)%list) ↔
  (r ∈ copied ∨ is_Some (fs0 !! (src ++ r)%list) ∧ ∃ x, x ∈ d :: ds ∧ (src ++ x)%list `prefix_of` (src ++ r)%list).
Proof.
  intros Hdc Hnames Hnd. rewrite elem_of_union, elem_of_list_to_set, list_elem_of_fmap. split.
  - intros [[?|(n & -> & Hn%Hnames)]|[Hr (x & [(n & -> & Hx)%Hnd|Hx]%elem_of_app & Hp)]]; [by left|right..].
    + split; [done|]. exists d. split; [left|]. rewrite (assoc_L (++)). by apply prefix_app_r.
    + split; [done|]. exists d. split; [left|]. rewrite (assoc_L (++)) in Hp. by eapply prefix_app_l.
    + split; [done|]. exists x. split; [by right|done].
  - intros [?|[Hr (x & [->|Hx]%elem_of_cons & Hp)]]; [by left; left| |].
    + destruct (below_children _ _ Hp Hr) as [->|(n & Hn & [->|[Hnd' Hpn]])]; [by left; left|left; right|right].
      * exists n. split; [done|]. by apply Hnames.
      * split; [done|]. exists (d ++ [n])%list. split; [|done]. apply elem_of_app. left. apply Hnd. by exists n.
    + right. split; [done|]. exists x. split; [|done]. apply elem_of_app. by right.
Qed.

Lemma copy_loop_spec {E : Type} : ∀ fuel ds copied cur,
  let todo := (λ d, src ++ d)%list <$> ds in
  (size (below todo) < fuel)%nat → overlay copied cur → wf_fs cur → antichain todo →
  (∀ d, d ∈ ds → d ∈ copied ∧ fs0 !! (src ++ d)%list = Some Dir) →
  ∃ copied' cur', copy_loop (E:=E) fuel prefix dst todo cur = (Ok true, cur') ∧ overlay copied' cur' ∧
    ∀ r, r ∈ copied' ↔ r ∈ copied ∨ is_Some (fs0 !! (src ++ r)%list) ∧ ∃ d, d ∈ ds ∧ (src ++ d)%list `prefix_of` (src ++ r)%list.
Proof.
  induction fuel as [|fuel IH]; intros ds copied cur todo Hfuel Ho Hwf Ha Hds; [lia|].
  destruct ds as [|d ds]; cbn [fmap list_fmap copy_loop] in *; subst todo.
  { exists copied, cur. split; [done|]. split; [done|]. intros r. split; [by left|]. intros [?|[_ (? & ?%elem_of_nil & _)]]; done. }
  destruct (Hds d (list_elem_of_here _ _)) as [Hdc Hd]. unfold mbind at 1, mut_bind at 1.
  destruct (copy_goal_spec (E:=E) copied cur d ds) as (names & nd & cur1 & -> & Ho1 & Hwf1 & NDn & Hnames & Hnd); [done..|].
  assert (∀ p, p ∈ (λ d, src ++ d)%list <$> nd → ∃ n, p = ((src ++ d) ++ [n])%list) as Hchild.
  { intros p (x & -> & (n & -> & _)%Hnd)%list_elem_of_fmap. exists n. by rewrite (assoc_L (++)). }
  pose proof (below_step _ _ _ (mk_is_Some _ _ Hd) Ha Hchild) as Hsize. rewrite <- fmap_app in Hsize.
  destruct Ha as [Hda Ha]. rewrite Forall_forall in Hda.
  destruct (IH (nd ++ ds)%list (copied ∪ list_to_set ((λ n, (d ++ [n])%list) <$> names)) cur1)
    as (copied' & cur2 & H2 & Ho2 & Hin2); [lia|done|done|..].
  - rewrite fmap_app. apply antichain_app; [|done|].
    + eapply antichain_siblings; [|exact Hchild]. apply NoDup_fmap_2; [|done]. intros x y ?%app_inv_head. done.
    + intros x y Hx Hy. destruct (Hchild x Hx) as [n ->]. apply child_apart; by apply Hda.
  - intros x [(n & -> & Hx)%Hnd|Hx]%elem_of_app.
    + split; [|done]. apply elem_of_union_r, elem_of_list_to_set, list_elem_of_fmap. exists n. split; [done|]. apply Hnames. by rewrite Hx.
    + destruct (Hds x) as [? ?]; [by right|]. split; [set_solver|done].
  - exists copied', cur2. split; [done|]. split; [done|]. intros r. rewrite Hin2. by apply copied_below.
Qed.

(** The directory is copied in full, whatever the order of its entries and also
    over the result of an earlier copy; nothing else changes. *)
Theorem copy_directory_copies {E : Type} fuel :
  (size fs0 < fuel)%nat →
  ∃ fs', copy_directory (E:=E) fuel src dst fs0 = (Ok true, fs') ∧
    (∀ r, fs' !! (target ++ r)%list = fs0 !! (src ++ r)%list ∪ fs0 !! (target ++ r)%list) ∧
    ∀ p, (∀ r, p ≠ (target ++ r)%list) → fs' !! p = fs0 !! p.
Proof.
  intros Hfuel. unfold copy_directory, mbind, mut_bind, get_self, lift.
  pose proof (cp_src Hc) as Hs. unfold exists_path. rewrite Hs, bool_decide_eq_true_2 by done.
  assert (fs0 !! (src ++ [])%list = Some Dir) as Hs' by by rewrite app_nil_r.
  assert (overlay ∅ fs0) as H0 by (split; [|done]; intros r; by rewrite decide_False by set_solver).
  assert (∃ fs1, (if bool_decide (is_Some (fs0 !! (dst ++ [ASM_DIR])%list)) then mret tt else fs_unwrap (E:=E) (create_dir_all (dst ++ [ASM_DIR])%list)) fs0
     = (Ok tt, fs1) ∧ overlay (∅ ∪ {[[]]}) fs1 ∧ wf_fs fs1) as (fs1 & -> & Ho & Hwf).
  { fold target. destruct (fs0 !! target) as [y|] eqn:Hy.
    - rewrite bool_decide_eq_true_2 by done. exists fs0. split; [done|]. split; [|by apply Hc]. eapply overlay_same; [done..|].
      rewrite app_nil_r, Hy. f_equal. rewrite <- (app_nil_r target) in Hy. by apply (cp_kinds Hc [] Dir y).
    - rewrite bool_decide_eq_false_2 by (by intros [? [=]]). unfold fs_unwrap.
      unfold target in Hy |- *. rewrite create_dir_existing; [|by apply Hc..|done]. fold target. exists (<[target := Dir]> fs0). split; [done|].
      split; [|by apply wf_insert; [by apply Hc..|left]]. rewrite <- (app_nil_r target). by apply overlay_insert. }
  assert (parent src = prefix) as -> by apply parent_app.
  destruct (copy_loop_spec (E:=E) fuel [[]] (∅ ∪ {[[]]}) fs1) as (copied & fs' & Hrun & Ho' & Hin); [|done|done|by cbn|..].
  - eapply Nat.le_lt_trans; [|exact Hfuel]. rewrite <- size_dom. apply subseteq_size. unfold below. set_solver.
  - intros d ->%list_elem_of_singleton. split; [set_solver|done].
  - cbn [fmap list_fmap] in Hrun. rewrite app_nil_r in Hrun. rewrite Hrun. exists fs'. split; [done|]. destruct Ho' as [Ht Hout].
    split; [|done]. intros r. rewrite Ht. destruct (fs0 !! (src ++ r)%list) as [x|] eqn:Hr.
    + rewrite decide_True; [by destruct (fs0 !! (target ++ r)%list)|]. apply Hin. right. split; [done|]. exists []. split; [left|].
      rewrite app_nil_r. by apply prefix_app_r.
    + rewrite decide_False; [by destruct (fs0 !! (target ++ r)%list)|]. intros [H|[[? ?] _]]%Hin; [|congruence].
      assert (r = []) as -> by set_solver. congruence.
Qed.
End Copy.

(** ** Compiling *)

(** [Path::extension] of a file name, and its [set_extension]: what follows the
    last dot, unless the dot is the first character. *)
Fixpoint split_last_dot (s : string) : option (string * string) :=
  match s with
  | "" => None
  | String c s' =>
      match split_last_dot s' with
      | Some (stem, ext) => Some (String c stem, ext)
      | None => if decide (c = Ascii.ascii_of_nat 46) then Some ("", s') else None
      end
  end.
Definition extension (name : string) : option string :=
  match split_last_dot name with Some (String _ _, ext) => Some ext | _ => None end.
Definition set_extension (name ext : string) : string :=
  match split_last_dot name with Some (String c stem, _) => String c stem | _ => name end +:+ "." +:+ ext.

(** [is_masm_file] of miden-lib/build.rs *)
Definition is_masm_file (name : string) : bool :=
  match extension name with Some e => bool_decide (to_lowercase e = "masm") | None => false end.

(** [decrease_pow] *)
Definition REGULAR_MODULUS : string := "const.REGULAR_ACCOUNT_SEED_DIGEST_MODULUS".
Definition FAUCET_MODULUS : string := "const.FAUCET_ACCOUNT_SEED_DIGEST_MODULUS".
Definition decrease_pow (line : string) : string :=
  if String.prefix REGULAR_MODULUS line then REGULAR_MODULUS +:+ "=32 # reduced via build.rs"
  else if String.prefix FAUCET_MODULUS line then FAUCET_MODULUS +:+ "=64 # reduced via build.rs"
  else line.

(** [BufRead::lines] on files without carriage returns, and writing the lines back,
    each with its newline. *)
Definition newline : Ascii.ascii := Ascii.ascii_of_nat 10.
Fixpoint lines (s : string) : list string :=
  match s with
  | "" => []
  | String c s' =>
      if decide (c = newline) then "" :: lines s'
      else match lines s' with [] => [String c ""] | l :: ls => String c l :: ls end
  end.
Definition unlines (ls : list string) : string := String.concat "" ((λ l, l +:+ String newline "") <$> ls).

(** The assembler. [write_to_file] creates the directories above the file. *)
Class AssemblerApi := {
  Assembler : Type;
  KernelLibrary : Type;
  AsmLibrary : Type;
  AsmProgram : Type;
  assembler_default : Assembler;
  assembler_with_kernel : KernelLibrary → Assembler;
  with_debug_mode : bool → Assembler → Assembler;
  with_library : AsmLibrary → Assembler → option Assembler;
  std_library : AsmLibrary;
  kernel_from_dir : FS → path → path → Assembler → option KernelLibrary;
  add_modules_from_dir : FS → string → path → Assembler → option Assembler;
  library_from_dir : FS → path → string → Assembler → option AsmLibrary;
  assemble_program : string → Assembler → option AsmProgram;
  assemble_library : string → Assembler → option AsmLibrary;
  kernel_procedures : KernelLibrary → list ProcInfo;
  kernel_bytes : KernelLibrary → string;
  library_bytes : AsmLibrary → string;
  program_bytes : AsmProgram → string;
  write_to_file : path → string → FS → option FS
}.

Section Compile.
  Context {DO : DirOrder} {A : AssemblerApi} (captures : string → option (string * string)).

Definition join (p : path) (n : string) : path := (p ++ [n])%list.
Definition fs_ask {X} (f : FS → option X) : mut FS BuildError X := fs ← get_self; lift (ok_or AssemblyError (f fs)).
Definition read_source (fs : FS) (p : path) : option string :=
  match fs !! p with Some (File c) => Some c | _ => None end.

(** [build_assembler]; [debug] is the feature with-debug-info. *)
Definition build_assembler (debug : bool) (kernel : option KernelLibrary) : res BuildError Assembler :=
  ok_or AssemblyError (with_library std_library
    (with_debug_mode debug (from_option assembler_with_kernel assembler_default kernel))).

(** [get_masm_files]; a directory that cannot be read has no files. *)
Definition get_masm_files (fs : FS) (dir_path : path) : list string :=
  match read_dir fs dir_path with Some entries => filter (λ n, is_masm_file n = true) entries | None => [] end.

(** [compile_note_scripts]; when the directory cannot be created it goes on. *)
Definition compile_note_script (source_dir target_dir : path) (assembler : Assembler) (name : string) : mut FS BuildError unit :=
  code ← fs_ask (λ fs, c ← read_source fs (join source_dir name); assemble_program c assembler);
  fs_unwrap (write_file (join target_dir (set_extension name "masb")) (program_bytes code)).
Definition compile_note_scripts (source_dir target_dir : path) (assembler : Assembler) : mut FS BuildError unit := λ fs,
  let fs := default fs (create_dir_all target_dir fs) in
  for_each (get_masm_files fs source_dir) (compile_note_script source_dir target_dir assembler) fs.

(** [compile_miden_lib] *)
Definition compile_miden_lib (source_dir target_dir : path) (assembler : Assembler) : mut FS BuildError AsmLibrary :=
  miden_lib ← fs_ask (λ fs, library_from_dir fs (join source_dir "miden") "miden" assembler);
  fs_try (write_to_file (join target_dir "miden.masl") (library_bytes miden_lib)) ;;
  mret miden_lib.

(** [compile_account_components] *)
Definition BASIC_WALLET_CODE : string := unlines [""; "    export.::miden::contracts::wallets::basic::receive_asset";
  "    export.::miden::contracts::wallets::basic::create_note"; "    export.::miden::contracts::wallets::basic::move_asset_to_note"].
Definition RPO_FALCON_AUTH_CODE : string := unlines [""; "    export.::miden::contracts::auth::basic::auth_tx_rpo_falcon512"].
Definition BASIC_FUNGIBLE_FAUCET_CODE : string := unlines [""; "    export.::miden::contracts::faucets::basic_fungible::distribute";
  "    export.::miden::contracts::faucets::basic_fungible::burn"].
Definition account_components : list (string * string) :=
  [("basic_wallet", BASIC_WALLET_CODE); ("rpo_falcon_512", RPO_FALCON_AUTH_CODE);
   ("basic_fungible_faucet", BASIC_FUNGIBLE_FAUCET_CODE)].
Definition compile_account_components (target_dir : path) (assembler : Assembler) : mut FS BuildError unit :=
  for_each account_components (λ c,
    component_library ← lift (ok_or AssemblyError (assemble_library c.2 assembler));
    fs_try (write_to_file (join target_dir (c.1 +:+ ".masl")) (library_bytes component_library))).

(** The testing feature replaces lines of the constants of the kernel. *)
Definition patch_constants (source_dir : path) : mut FS BuildError unit :=
  let constants := (source_dir ++ ["lib"; "constants.masm"])%list in
  let patched := (source_dir ++ ["lib"; "constants.masm.patched"])%list in
  fs ← get_self;
  text ← lift (expect_some (read_source fs constants));
  fs_unwrap (write_file patched (unlines (decrease_pow <$> lines text))) ;;
  fs_unwrap (λ fs, Some (delete constants fs)) ;;
  fs_unwrap (λ fs, n ← fs !! patched; Some (<[constants := n]> (delete patched fs))).

(** [generate_kernel_proc_hash_file] on the files of the crate *)
Definition KERNEL_V0_RS_FILE : path := ["src"; "transaction"; "procedures"; "kernel_v0.rs"].
Definition offsets_filename : path := [ASM_DIR; "miden"; "kernel_proc_offsets.masm"].
Definition write_kernel_table (crate_dir : path) (kernel : KernelLibrary) : mut FS BuildError unit :=
  fs ← get_self;
  file ← lift (let '(r, file) := generate_kernel_proc_hash_file captures (lines <$> read_source fs (crate_dir ++ offsets_filename)%list)
                                  true (kernel_procedures kernel) [] in (λ _, file) <$> r);
  fs_try (write_file (crate_dir ++ KERNEL_V0_RS_FILE)%list (unlines file)).

(** [compile_tx_kernel] *)
Definition compile_tx_kernel (testing debug : bool) (crate_dir source_dir target_dir : path) : mut FS BuildError Assembler :=
  assembler ← lift (build_assembler debug None);
  (if testing then patch_constants source_dir else mret tt) ;;
  kernel_lib ← fs_ask (λ fs, kernel_from_dir fs (join source_dir "api.masm") (join source_dir "lib") assembler);
  write_kernel_table crate_dir kernel_lib ;;
  fs_try (write_to_file (join target_dir "tx_kernel.masl") (kernel_bytes kernel_lib)) ;;
  assembler ← lift (build_assembler debug (Some kernel_lib));
  main_assembler ← fs_ask (λ fs, add_modules_from_dir fs "kernel" (join source_dir "lib") assembler);
  kernel_main ← fs_ask (λ fs, c ← read_source fs (join source_dir "main.masm"); assemble_program c main_assembler);
  fs_try (write_to_file (join target_dir "tx_kernel.masb") (program_bytes kernel_main)) ;;
  (if testing
   then fs ← get_self;
        test_lib ← lift (expect_some (library_from_dir fs (join source_dir "lib") "kernel" assembler));
        fs_try (write_to_file (join target_dir "kernel_library.masl") (library_bytes test_lib))
   else mret tt) ;;
  mret assembler.

(** [main] of miden-lib/build.rs; false when copying ran out of fuel. *)
Definition build_main (fuel : nat) (testing debug : bool) (crate_dir build_dir : path) : mut FS BuildError bool :=
  copied ← copy_directory fuel (join crate_dir ASM_DIR) build_dir;
  if negb copied then mret false else
  let source_dir := join build_dir ASM_DIR in
  let target_dir := join build_dir "assets" in
  assembler ← compile_tx_kernel testing debug crate_dir (source_dir ++ ["kernels"; "transaction"])%list (join target_dir "kernels");
  miden_lib ← compile_miden_lib source_dir target_dir assembler;
  assembler ← lift (ok_or AssemblyError (with_library miden_lib assembler));
  compile_note_scripts (join source_dir "note_scripts") (join target_dir "note_scripts") assembler ;;
  compile_account_components (join target_dir "account_components") assembler ;;
  mret true.

(** *** What compiling note scripts does *)

Lemma create_dirs_spec base rest fs fs' : create_dirs base rest fs = Some fs' →
  (∀ q, is_Some (fs !! q) → fs' !! q = fs !! q) ∧
  (∀ q, fs' !! q = fs !! q ∨ (fs' !! q = Some Dir ∧ q `prefix_of` (base ++ rest)%list)) ∧
  (fs !! base = Some Dir → fs' !! (base ++ rest)%list = Some Dir).
Proof.
  revert base fs. induction rest as [|n rest IH]; intros base fs; cbn [create_dirs].
  { intros [= <-]. rewrite app_nil_r. auto. }
  destruct (fs !! (base ++ [n])%list) as [[c|]|] eqn:E; [done|..]; intros (H1 & H2 & H3)%IH;
    rewrite <- (assoc_L (++)) in H2, H3; (split; [|split; [|intros _; apply H3, lookup_insert_eq]]).
  - intros q Hq. rewrite insert_id in H1 by done. by apply H1.
  - intros q. rewrite insert_id in H2 by done. apply H2.
  - intros q Hq. assert (q ≠ (base ++ [n])%list) as Hne by (intros ->; rewrite E in Hq; by destruct Hq).
    rewrite H1; rewrite lookup_insert_ne; done.
  - intros q. destruct (decide (q = (base ++ [n])%list)) as [->|Hne].
    + right. split; [rewrite H1; rewrite lookup_insert_eq; done|]. apply prefix_app. by exists rest.
    + destruct (H2 q) as [Hq|Hq]; [|by right]. left. by rewrite Hq, lookup_insert_ne.
Qed.

Definition masb (name : string) : string := set_extension name "masb".

(** The loop writes one file after the other. *)
Lemma compile_loop source_dir target_dir assembler (code : string → AsmProgram) names : ∀ fs,
  source_dir ≠ target_dir → fs !! target_dir = Some Dir → NoDup (masb <$> names) →
  (∀ n, n ∈ names → fs !! join target_dir (masb n) ≠ Some Dir ∧
     ∃ c, fs !! join source_dir n = Some (File c) ∧ assemble_program c assembler = Some (code n)) →
  ∃ fs', for_each names (compile_note_script source_dir target_dir assembler) fs = (Ok tt, fs') ∧
    (∀ n, n ∈ names → fs' !! join target_dir (masb n) = Some (File (program_bytes (code n)))) ∧
    ∀ q, (∀ n, n ∈ names → q ≠ join target_dir (masb n)) → fs' !! q = fs !! q.
Proof.
  induction names as [|n names IH]; intros fs Hst Ht ND Hn.
  { exists fs. split; [done|]. split; [by intros ? ?%elem_of_nil|done]. }
  apply NoDup_cons in ND as [Hnn ND]. destruct (Hn n (list_elem_of_here _ _)) as (Hd & c & Hc & Hcode). cbn [for_each].
  set (out := join target_dir (masb n)) in *. set (fs1 := <[out := File (program_bytes (code n))]> fs).
  assert (compile_note_script source_dir target_dir assembler n fs = (Ok tt, fs1)) as H1.
  { unfold compile_note_script, fs_ask, read_source, mbind, mut_bind, get_self, lift. rewrite Hc. cbn. rewrite Hcode. cbn.
    unfold fs_unwrap, write_file, is_dir. fold (masb n) out.
    assert (parent out = target_dir) as -> by apply parent_app. rewrite Ht.
    by rewrite bool_decide_eq_true_2, bool_decide_eq_false_2. }
  unfold mbind, mut_bind. rewrite H1.
  assert (∀ p m, join p m = out → p = target_dir ∧ m = masb n) as Hjoin by (intros p m H; by apply app_inj_tail in H).
  destruct (IH fs1) as (fs' & Hrun & Hout & Hrest); [done|..].
  - unfold fs1. rewrite lookup_insert_ne; [done|]. intros H%(f_equal length). unfold out, join in H. rewrite length_app in H. cbn in H. lia.
  - done.
  - intros m Hm. destruct (Hn m) as (Hmd & c' & Hc' & Hcode'); [by right|]. unfold fs1.
    rewrite !lookup_insert_ne; [by split; [|exists c']|..]; intros Heq; symmetry in Heq; apply Hjoin in Heq as [Hs Heq]; [done|].
    apply Hnn. apply list_elem_of_fmap. by exists m.
  - rewrite Hrun. exists fs'. split; [done|]. split.
    + intros m [->|Hm]%elem_of_cons; [|by apply Hout]. rewrite Hrest; [apply lookup_insert_eq|].
      intros m Hm Heq. symmetry in Heq. apply Hjoin in Heq as [_ Heq]. apply Hnn, list_elem_of_fmap. by exists m.
    + intros q Hq. rewrite Hrest by (intros m Hm; apply Hq; by right). apply lookup_insert_ne.
      symmetry. apply Hq. left.
Qed.

(** When the target directory can be created outside the sources and every script
    assembles, each script of the directory gets its compiled file. *)
Theorem note_scripts_compiled fs source_dir target_dir assembler (code : string → AsmProgram) :
  let names := filter (λ n, is_masm_file n = true) (children fs source_dir) in
  wf_fs fs → fs !! source_dir = Some Dir → is_Some (create_dir_all target_dir fs) → ¬ source_dir `prefix_of` target_dir →
  (∀ n m, n ∈ names → m ∈ names → masb n = masb m → n = m) →
  (∀ n, n ∈ names → fs !! join target_dir (masb n) ≠ Some Dir ∧
     ∃ c, fs !! join source_dir n = Some (File c) ∧ assemble_program c assembler = Some (code n)) →
  ∃ fs', compile_note_scripts source_dir target_dir assembler fs = (Ok tt, fs') ∧
    (∀ n, n ∈ names → fs' !! join target_dir (masb n) = Some (File (program_bytes (code n)))) ∧
    ∀ q, is_Some (fs !! q) → (∀ n, n ∈ names → q ≠ join target_dir (masb n)) → fs' !! q = fs !! q.
Proof.
  intros names Hwf Hs [fs1 Hc] Hp Hinj Hn. destruct (create_dirs_spec _ _ _ _ Hc) as (H1 & H2 & H3). cbn [app] in *.
  unfold compile_note_scripts. rewrite Hc. cbn [default from_option id].
  assert (fs1 !! target_dir = Some Dir) as Ht by (apply H3, Hwf).
  assert (∀ n, n ∈ get_masm_files fs1 source_dir ↔ n ∈ names) as Hnames.
  { intros n. unfold get_masm_files, read_dir, is_dir. rewrite H1 by by rewrite Hs. rewrite Hs, bool_decide_eq_true_2 by done.
    subst names. rewrite !list_elem_of_filter, dir_order_perm, !elem_of_children.
    destruct (H2 (source_dir ++ [n])%list) as [->|[_ Hpre]]; [done|]. destruct Hp. by eapply prefix_app_l. }
  assert (∀ n, is_Some (fs1 !! join target_dir n) → fs1 !! join target_dir n = fs !! join target_dir n) as Hsame.
  { intros n _. destruct (H2 (join target_dir n)) as [H|[_ H]]; [done|]. by apply prefix_snoc_not in H. }
  destruct (compile_loop source_dir target_dir assembler code (get_masm_files fs1 source_dir) fs1) as (fs' & Hrun & Hout & Hrest).
  - intros ->. by apply Hp.
  - done.
  - apply NoDup_fmap_2_strong; [intros n m ?%Hnames ?%Hnames; by apply Hinj|]. unfold get_masm_files, read_dir.
    destruct (is_dir _ _); [|constructor]. apply NoDup_filter. rewrite dir_order_perm. apply children_NoDup.
  - intros n Hin%Hnames. destruct (Hn n Hin) as (Hd & c & Hfile & Hcode). split.
    + intros H. apply Hd. by rewrite <- Hsame by by rewrite H.
    + exists c. split; [|done]. rewrite H1; [done|]. by rewrite Hfile.
  - exists fs'. split; [done|]. split; [intros n ?%Hnames; by apply Hout|].
    intros q Hq Hne. rewrite Hrest; [by apply H1|]. intros n ?%Hnames. by apply Hne.
Qed.
End Compile.

(** The reduced moduli are the powers of two that the testing feature of
    AccountId requires: 5 and 6 trailing zeros. *)
Example decrease_pow_testing :
  decrease_pow "const.REGULAR_ACCOUNT_SEED_DIGEST_MODULUS=8388608" = REGULAR_MODULUS +:+ "=" +:+ pretty (2 ^ 5) +:+ " # reduced via build.rs" ∧
  decrease_pow "const.FAUCET_ACCOUNT_SEED_DIGEST_MODULUS=2147483648" = FAUCET_MODULUS +:+ "=" +:+ pretty (2 ^ 6) +:+ " # reduced via build.rs" ∧
  decrease_pow "const.MAX_ASSETS_PER_NOTE=256" = "const.MAX_ASSETS_PER_NOTE=256".
Proof. repeat split; vm_compute; reflexivity. Qed.

(** ** Witnesses *)

Definition ListingOrder : DirOrder := {| dir_order l := l; dir_order_perm l := reflexivity l |}.

Definition sample_fs : FS := list_to_map
  [([], Dir); (["crate"], Dir); (["crate"; "asm"], Dir); (["crate"; "asm"; "api.masm"], File "api");
   (["crate"; "asm"; "lib"], Dir); (["crate"; "asm"; "lib"; "memory.masm"], File "memory");
   (["crate"; "asm"; "note_scripts"], Dir); (["crate"; "asm"; "note_scripts"; "P2ID.masm"], File "p2id");
   (["out"], Dir); (["out"; "asm"], Dir); (["out"; "asm"; "api.masm"], File "old"); (["out"; "asm"; "stale.masm"], File "stale")].

Lemma wf_fs_check (fs : FS) :
  fs !! ([] : path) = Some Dir → map_Forall (λ k _, k = [] ∨ fs !! parent k = Some Dir) fs → wf_fs fs.
Proof.
  intros Hr H. split; [done|]. intros p n [x Hx]. destruct (H _ _ Hx) as [E|E]; [by destruct p|]. by rewrite parent_app in E.
Qed.
Definition same_kind (fs : FS) (s t k : path) (x : node) : bool :=
  match fs !! (t ++ drop (length s) k)%list with
  | Some y => negb (bool_decide (take (length s) k = s)) || Bool.eqb (bool_decide (x = Dir)) (bool_decide (y = Dir))
  | None => true
  end.
Lemma kinds_check (fs : FS) (s t : path) : map_Forall (λ k x, same_kind fs s t k x = true) fs →
  ∀ r x y, fs !! (s ++ r)%list = Some x → fs !! (t ++ r)%list = Some y → x = Dir ↔ y = Dir.
Proof.
  intros H r x y Hx Hy. specialize (H _ _ Hx). unfold same_kind in H.
  rewrite drop_app_length, Hy, take_app_length, bool_decide_eq_true_2 in H by done. cbn in H.
  apply Bool.eqb_prop in H. by rewrite <- (bool_decide_eq_true (x = Dir)), H, bool_decide_eq_true.
Qed.

Lemma sample_copyable : copyable sample_fs ["crate"] ["out"].
Proof.
  split.
  - apply wf_fs_check; [vm_compute; reflexivity|]. apply (bool_decide_unpack _). vm_compute. exact I.
  - vm_compute. reflexivity.
  - vm_compute. reflexivity.
  - discriminate.
  - apply kinds_check. apply (bool_decide_unpack _). vm_compute. exact I.
Qed.

Lemma copy_directory_copies_witness :
  ∃ fs', copy_directory (E:=BuildError) (DO:=ListingOrder) 13 ["crate"; "asm"] ["out"] sample_fs = (Ok true, fs') ∧
    fs' !! ["out"; "asm"; "api.masm"] = Some (File "api") ∧ fs' !! ["out"; "asm"; "stale.masm"] = Some (File "stale").
Proof.
  destruct (copy_directory_copies (DO:=ListingOrder) (E:=BuildError) sample_fs ["crate"] ["out"] sample_copyable 13) as (fs' & H1 & H2 & H3).
  - vm_compute. lia.
  - exists fs'. split; [exact H1|]. split; [exact (H2 ["api.masm"])|exact (H2 ["stale.masm"])].
Defined.

Definition sample_captures (line : string) : option (string * string) :=
  if decide (line = "const.BURN_ASSET_OFFSET=1") then Some ("BURN_ASSET", "1")
  else if decide (line = "const.MINT_ASSET_OFFSET=0") then Some ("MINT_ASSET", "0") else None.
Definition sample_offsets : list string := ["# faucet"; "const.BURN_ASSET_OFFSET=1"; "const.MINT_ASSET_OFFSET=0"].
Definition sample_proc (n : string) : ProcInfo := mkProcInfo n [1; 2 ^ 60; 3; 4].

Lemma kernel_procedures_table_witness :
  generate_kernel_proc_hash_file sample_captures (Some sample_offsets) true
    [sample_proc "burn_asset"; sample_proc "exec_kernel_proc"; sample_proc "mint_asset"] [] =
  (Ok tt, kernel_file [sample_proc "mint_asset"; sample_proc "burn_asset"]).
Proof.
  apply (kernel_procedures_table _ _ {["mint_asset" := 0; "burn_asset" := 1]}).
  - vm_compute. reflexivity.
  - intros p. change (table_procs _) with [sample_proc "burn_asset"; sample_proc "mint_asset"].
    rewrite !elem_of_cons, !elem_of_nil. tauto.
  - intros [|[|]] p [= <-]; vm_compute; reflexivity.
Defined.

(** An assembler that accepts every program. *)
Definition TextAssembler : AssemblerApi := {|
  Assembler := unit; KernelLibrary := unit; AsmLibrary := unit; AsmProgram := string;
  assembler_default := tt; assembler_with_kernel _ := tt; with_debug_mode _ _ := tt; with_library _ _ := Some tt;
  std_library := tt; kernel_from_dir _ _ _ _ := Some tt; add_modules_from_dir _ _ _ _ := Some tt;
  library_from_dir _ _ _ _ := Some tt; assemble_program c _ := Some c; assemble_library _ _ := Some tt;
  kernel_procedures _ := []; kernel_bytes _ := ""; library_bytes _ := ""; program_bytes c := c;
  write_to_file p c fs := fs' ← create_dir_all (parent p) fs; write_file p c fs'
|}.

Lemma note_scripts_compiled_witness :
  ∃ fs', compile_note_scripts (DO:=ListingOrder) (A:=TextAssembler) ["crate"; "asm"; "note_scripts"] ["out"; "assets"; "note_scripts"] tt sample_fs = (Ok tt, fs') ∧
    fs' !! ["out"; "assets"; "note_scripts"; "P2ID.masb"] = Some (File "p2id").
Proof.
  destruct (note_scripts_compiled (DO:=ListingOrder) (A:=TextAssembler) sample_fs ["crate"; "asm"; "note_scripts"] ["out"; "assets"; "note_scripts"] tt (λ _, "p2id"))
    as (fs' & H1 & H2 & _).
  - exact (cp_wf _ _ _ sample_copyable).
  - vm_compute. reflexivity.
  - vm_compute. eexists. reflexivity.
  - intros [? [=]].
  - change (filter _ (children _ _)) with ["P2ID.masm"]. intros n m ->%list_elem_of_singleton ->%list_elem_of_singleton. reflexivity.
  - change (filter _ (children _ _)) with ["P2ID.masm"]. intros n ->%list_elem_of_singleton.
    split; [vm_compute; discriminate|]. exists "p2id". split; vm_compute; reflexivity.
  - exists fs'. split; [exact H1|]. apply (H2 "P2ID.masm"). vm_compute. left.
Defined.
