(* ===== verification/Proxy.v ===== *)
(** * The proxy of the proving service

    Models bin/tx-prover/src/proxy/mod.rs and the configuration of
    commands/mod.rs: a load balancer that spreads requests over the queues of the
    workers and forwards a request once it is at the front of its queue. Handlers
    run concurrently and share the queues behind a lock, so that a world holds
    the shared state and the requests in flight, and a step runs one request up
    to its next await. The order of the handlers is the one that the
    documentation of the balancer gives. *)

From S2P Require Import Prelude.
From stdpp Require Import strings.
Open Scope Z_scope.

(** ** Configuration *)

Record WorkerConfig : Type := mkWorkerConfig { wc_host : string; wc_port : Z }.
Record ProxyConfig : Type := mkProxyConfig {
  pc_workers : list WorkerConfig;
  pc_host : string;
  pc_port : Z;
  pc_timeout_secs : Z;
  pc_connection_timeout_secs : Z;
  pc_max_queue_items : Z;
  pc_max_retries_per_request : Z;
  pc_max_req_per_sec : Z
}.
Definition proxy_config_default : ProxyConfig :=
  mkProxyConfig [mkWorkerConfig "0.0.0.0" 8083; mkWorkerConfig "0.0.0.0" 8084] "0.0.0.0" 8082 100 10 10 1 5.

(** The load balancer without its pool of workers, which is shared state. *)
Record LoadBalancer : Type := mkBalancer {
  timeout_secs : Z;
  connection_timeout_secs : Z;
  max_queue_items : Z;
  max_retries_per_request : Z;
  max_req_per_sec : Z
}.
Definition balancer_new (config : ProxyConfig) : LoadBalancer :=
  mkBalancer (pc_timeout_secs config) (pc_connection_timeout_secs config) (pc_max_queue_items config)
    (pc_max_retries_per_request config) (pc_max_req_per_sec config).

(** ** The framework *)

(** Ids are the decimal strings of random [u64] numbers, kept as the numbers. *)

Inductive ErrorType : Type := InternalError | WorkerNotFound | TooManyInQueue | WriteFailed | ConnectFailed | UpstreamFailed.
Record Error : Type := mkError { err_type : ErrorType; err_retry : bool }.
(** [Error::new] and [Error::new_str]: errors ask for a retry only after [set_retry]. *)
Definition error_new (t : ErrorType) : Error := mkError t false.

Inductive Alpn : Type := H1 | H2 | H2H1.
Record PeerOptions : Type := mkPeerOptions {
  total_connection_timeout : option Z;
  connection_timeout : option Z;
  read_timeout : option Z;
  write_timeout : option Z;
  idle_timeout : option Z;
  alpn : Alpn
}.

Class PingoraApi := {
  Backend : Type;
  backend_eq_dec :: EqDecision Backend;
  backend_countable :: Countable Backend;
  (** the pool of workers and [select(b"", 256)] of the round robin *)
  Pool : Type;
  select : Pool → option Backend * Pool;
  (** the rate limiter and [observe(&user_id, 1)] *)
  ClientAddr : Type;
  Rate : Type;
  observe : option ClientAddr → Rate → Z * Rate;
  (** the options of a new peer *)
  default_options : option PeerOptions;
  (** [HashMap::iter], in some order *)
  hash_iter : gmap Backend (list Z) → list (Backend * list Z);
  hash_iter_perm : ∀ m, hash_iter m ≡ₚ map_to_list m
}.

Section Proxy.
  Context {G : PingoraApi}.

Record HttpPeer : Type := mkPeer { peer_worker : Backend; peer_tls : bool; peer_sni : string; peer_options : option PeerOptions }.
Record ResponseHeader : Type := mkResponse { rs_status : Z; rs_headers : list (string * Z) }.
(** A session with the header [X-Request-ID], if any, and the response written. *)
Record Session : Type := mkSession {
  ss_client_addr : option ClientAddr;
  ss_request_id : option Z;
  ss_keepalive : option Z;
  ss_response : option ResponseHeader
}.
Definition set_ss_request_id x (s : Session) := mkSession (ss_client_addr s) x (ss_keepalive s) (ss_response s).
Definition set_ss_response x (s : Session) := mkSession (ss_client_addr s) (ss_request_id s) None x.

Abbreviation Queues := (gmap Backend (list Z)).
Record Shared : Type := mkShared { sh_queues : Queues; sh_pool : Pool; sh_rate : Rate }.
Definition set_queues x (s : Shared) := mkShared x (sh_pool s) (sh_rate s).
Definition set_pool x (s : Shared) := mkShared (sh_queues s) x (sh_rate s).
Definition set_rate x (s : Shared) := mkShared (sh_queues s) (sh_pool s) x.

Record TriesCounter : Type := mkTries { tries : Z }.
Definition new_ctx : TriesCounter := mkTries 0.

(** ** Handlers *)

Definition get_request_id (s : Session) : res Error Z := ok_or (error_new InternalError) (ss_request_id s).

(** The first element is removed, whichever id it is. *)
Definition remove_request_from_queue (request_id : Z) : mut Queues Error unit := λ queues,
  match List.find (λ p : Backend * list Z, bool_decide (request_id ∈ p.2)) (hash_iter queues) with
  | None => (Panic, queues)
  | Some (worker, _) =>
      match queues !! worker with
      | Some (_ :: rest) => (Ok tt, <[worker := rest]> queues)
      | _ => (Ok tt, queues)
      end
  end.

(** [written] says whether the response could be written. *)
Definition create_too_many_requests_response (written : bool) (max_request_per_second : Z) (s : Session) : res Error bool * Session :=
  let header := mkResponse 429 [("X-Rate-Limit-Limit"%string, max_request_per_second); ("X-Rate-Limit-Remaining"%string, 0);
    ("X-Rate-Limit-Reset"%string, 1)] in
  if written then (Ok true, set_ss_response (Some header) s)
  else (Err (error_new WriteFailed), set_ss_response None s).

Definition request_filter (lb : LoadBalancer) (random : Z) (written : bool) (s : Session) (rate : Rate)
    : res Error bool * Session * Rate :=
  let s := set_ss_request_id (Some random) s in
  let '(curr_window_requests, rate) := observe (ss_client_addr s) rate in
  if curr_window_requests >? max_req_per_sec lb
  then (create_too_many_requests_response written (max_req_per_sec lb) s, rate)
  else (Ok false, s, rate).

(** The locked section of [upstream_peer] that adds the request to the queue. *)
Definition enqueue (lb : LoadBalancer) (worker : Backend) (request_id : Z) : mut Queues Error unit := λ queues,
  let worker_queue := default [] (queues !! worker) in
  if Z.of_nat (length worker_queue) >=? max_queue_items lb
  then (Err (error_new TooManyInQueue), <[worker := worker_queue]> queues)
  else (Ok tt, <[worker := worker_queue ++ [request_id]]> queues).

(** One round of the loop that waits for the front of the queue. *)
Definition at_front (worker : Backend) (request_id : Z) (queues : Queues) : res Error bool :=
  match queues !! worker with
  | Some (first :: _) => Ok (bool_decide (first = request_id))
  | Some [] => Panic
  | None => Err (error_new WorkerNotFound)
  end.

Definition set_peer_options (lb : LoadBalancer) (o : PeerOptions) : PeerOptions :=
  mkPeerOptions (Some (timeout_secs lb)) (Some (connection_timeout_secs lb)) (Some (timeout_secs lb))
    (Some (timeout_secs lb)) (Some (timeout_secs lb)) H2.
Definition http_peer (lb : LoadBalancer) (worker : Backend) : res Error HttpPeer :=
  peer_opts ← ok_or (error_new InternalError) default_options;
  Ok (mkPeer worker false "" (Some (set_peer_options lb peer_opts))).

(** [upstream_peer] between its awaits. *)
Inductive peer_pc : Type := PStart | PSelect | PEnqueue (worker : Backend) | PWait (worker : Backend).
Definition upstream_peer (lb : LoadBalancer) (s : Session) (ctx : TriesCounter) (pc : peer_pc)
    : mut Shared Error (peer_pc + HttpPeer) :=
  match pc with
  | PStart =>
      if tries ctx >? 0 then
        request_id ← lift (get_request_id s);
        on_field sh_queues set_queues (remove_request_from_queue request_id) ;;
        mret (inl PSelect)
      else mret (inl PSelect)
  | PSelect => λ sh,
      let '(worker, pool) := select (sh_pool sh) in
      match worker with
      | Some worker => (Ok (inl (PEnqueue worker)), set_pool pool sh)
      | None => (Err (error_new WorkerNotFound), set_pool pool sh)
      end
  | PEnqueue worker =>
      request_id ← lift (get_request_id s);
      on_field sh_queues set_queues (enqueue lb worker request_id) ;;
      mret (inl (PWait worker))
  | PWait worker =>
      request_id ← lift (get_request_id s);
      sh ← get_self;
      front ← lift (at_front worker request_id (sh_queues sh));
      if front : bool then peer ← lift (http_peer lb worker); mret (inr peer)
      else mret (inl (PWait worker))
  end.

Definition upstream_request_filter (headers : gmap string string) : gmap string string :=
  match headers !! "content-type"%string with
  | Some content_type =>
      if decide (content_type = "application/grpc"%string)
      then <["content-type"%string := "application/grpc"%string]> headers else headers
  | None => headers
  end.

Definition fail_to_connect (lb : LoadBalancer) (ctx : TriesCounter) (e : Error) : Error * TriesCounter :=
  if tries ctx >? max_retries_per_request lb then (e, ctx)
  else (mkError (err_type e) true, mkTries (tries ctx + 1)).

Definition logging (s : Session) : mut Queues Error unit :=
  request_id ← lift (expect_ok (get_request_id s));
  remove_request_from_queue request_id.

(** ** Life of a request *)

Inductive phase : Type :=
  | Arrived
  | InPeer (pc : peer_pc)
  | Connecting (peer : HttpPeer)
  | Forwarded (peer : HttpPeer)
  | Finishing (e : option Error)
  | Done
  | Crashed.
Record Request : Type := mkRequest { rq_session : Session; rq_ctx : TriesCounter; rq_phase : phase }.
Definition set_phase x (r : Request) := mkRequest (rq_session r) (rq_ctx r) x.

(** What a step does not decide itself: the random number, whether the response
    can be written, whether the worker is reached, whether the framework still
    grants a retry, and the result of the worker. *)
Record Choice : Type := mkChoice {
  ch_random : Z;
  ch_written : bool;
  ch_connects : bool;
  ch_grants_retry : bool;
  ch_result : option Error
}.

(** A handler that panics ends the task of its request. *)
Definition phase_after {X} (f : X → phase) (m : res Error X) : phase :=
  match m with Ok x => f x | Err e => Finishing (Some e) | Panic => Crashed end.

Definition run_request (lb : LoadBalancer) (c : Choice) (r : Request) (sh : Shared) : Request * Shared :=
  match rq_phase r with
  | Arrived =>
      let '(result, session, rate) := request_filter lb (ch_random c) (ch_written c) (rq_session r) (sh_rate sh) in
      (mkRequest session (rq_ctx r) (phase_after (λ filtered : bool, if filtered then Finishing None else InPeer PStart) result),
       set_rate rate sh)
  | InPeer pc =>
      let '(result, sh) := upstream_peer lb (rq_session r) (rq_ctx r) pc sh in
      (set_phase (phase_after (λ x, match x with inl pc => InPeer pc | inr peer => Connecting peer end) result) r, sh)
  | Connecting peer =>
      if ch_connects c then (set_phase (Forwarded peer) r, sh)
      else
        let '(e, ctx) := fail_to_connect lb (rq_ctx r) (error_new ConnectFailed) in
        (mkRequest (rq_session r) ctx (if err_retry e && ch_grants_retry c then InPeer PStart else Finishing (Some e)), sh)
  | Forwarded peer => (set_phase (Finishing (ch_result c)) r, sh)
  | Finishing _ =>
      let '(result, queues) := logging (rq_session r) (sh_queues sh) in
      (set_phase (phase_after (λ _, Done) result) r, set_queues queues sh)
  | Done | Crashed => (r, sh)
  end.

Record World : Type := mkWorld { w_shared : Shared; w_requests : gmap nat Request }.
Abbreviation w_queues w := (sh_queues (w_shared w)).

(** Requests arrive with any headers, under a new number, and run one at a time. *)
Inductive label : Type := Arrive (i : nat) (session : Session) | Run (i : nat) (c : Choice).
Definition exec (lb : LoadBalancer) (l : label) (w : World) : World :=
  match l with
  | Arrive i session =>
      match w_requests w !! i with
      | None => mkWorld (w_shared w) (<[i := mkRequest session new_ctx Arrived]> (w_requests w))
      | Some _ => w
      end
  | Run i c =>
      match w_requests w !! i with
      | None => w
      | Some r => let '(r, sh) := run_request lb c r (w_shared w) in mkWorld sh (<[i := r]> (w_requests w))
      end
  end.

(** A request has its own id from the filter to the end. *)
Definition active (r : Request) : bool :=
  match rq_phase r with Arrived | Done | Crashed => false | _ => true end.
Definition request_id (r : Request) : option Z := if active r then ss_request_id (rq_session r) else None.

(** Random numbers do not repeat among the requests in flight. *)
Definition fresh (w : World) (l : label) : Prop :=
  match l with
  | Arrive _ _ => True
  | Run i c => ∀ r, w_requests w !! i = Some r → rq_phase r = Arrived →
      ∀ j r', w_requests w !! j = Some r' → request_id r' ≠ Some (ch_random c)
  end.

Inductive reachable (lb : LoadBalancer) : World → Prop :=
  | reach_start pool rate : reachable lb (mkWorld (mkShared ∅ pool rate) ∅)
  | reach_step w l : reachable lb w → fresh w l → reachable lb (exec lb l w).

(** ** The invariant *)

Definition content (queues : Queues) (worker : Backend) : list Z := default [] (queues !! worker).
Definition is_front (queues : Queues) (worker : Backend) (id : Z) : Prop := ∃ rest, content queues worker = id :: rest.
Definition absent (queues : Queues) (id : Z) : Prop := ∀ worker, id ∉ content queues worker.

(** Where the id of a request is, by what the request does. *)
Definition placed (queues : Queues) (r : Request) (id : Z) : Prop :=
  match rq_phase r with
  | InPeer PStart => if tries (rq_ctx r) >? 0 then ∃ worker, is_front queues worker id else absent queues id
  | InPeer PSelect | InPeer (PEnqueue _) => absent queues id
  | InPeer (PWait worker) => id ∈ content queues worker
  | Connecting peer | Forwarded peer => is_front queues (peer_worker peer) id
  | Finishing _ => absent queues id ∨ ∃ worker, is_front queues worker id
  | Arrived | Done | Crashed => True
  end.

Record wf_queues (lb : LoadBalancer) (queues : Queues) : Prop := {
  wq_nodup : ∀ worker, NoDup (content queues worker);
  wq_once : ∀ worker worker' id, id ∈ content queues worker → id ∈ content queues worker' → worker = worker';
  wq_bound : ∀ worker, Z.of_nat (length (content queues worker)) ≤ Z.max 0 (max_queue_items lb)
}.
Record proxy_inv (lb : LoadBalancer) (w : World) : Prop := {
  pi_queues : wf_queues lb (w_queues w);
  pi_owned : ∀ worker id, id ∈ content (w_queues w) worker → ∃ i r, w_requests w !! i = Some r ∧ request_id r = Some id;
  pi_unique : ∀ i j r r' id, w_requests w !! i = Some r → w_requests w !! j = Some r' →
    request_id r = Some id → request_id r' = Some id → i = j;
  pi_placed : ∀ i r, w_requests w !! i = Some r → active r = true → ∃ id, request_id r = Some id ∧ placed (w_queues w) r id;
  pi_new : ∀ i r, w_requests w !! i = Some r → rq_phase r = Arrived → rq_ctx r = new_ctx;
  pi_tries : ∀ i r, w_requests w !! i = Some r → 0 ≤ tries (rq_ctx r)
}.

Lemma content_insert queues worker q worker' :
  content (<[worker := q]> queues) worker' = if decide (worker' = worker) then q else content queues worker'.
Proof. unfold content. destruct (decide (worker' = worker)) as [->|]; [by rewrite lookup_insert_eq|by rewrite lookup_insert_ne]. Qed.

(** *** Removing a request *)

Lemma find_queue queues id :
  match List.find (λ p : Backend * list Z, bool_decide (id ∈ p.2)) (hash_iter queues) with
  | Some (worker, q) => queues !! worker = Some q ∧ id ∈ q
  | None => absent queues id
  end.
Proof.
  destruct (List.find _ _) as [[worker q]|] eqn:E.
  - apply List.find_some in E as [Hin Hid%bool_decide_eq_true]. split; [|done].
    apply elem_of_map_to_list. rewrite <-hash_iter_perm. by apply list_elem_of_In.
  - intros worker. unfold content. destruct (queues !! worker) as [q|] eqn:Eq; [|set_solver]. cbn. intros Hid.
    apply (List.find_none _ _) with (x:=(worker, q)) in E; [by apply bool_decide_eq_false in E|].
    apply list_elem_of_In. rewrite hash_iter_perm. by apply elem_of_map_to_list.
Qed.

Lemma remove_absent queues id : absent queues id → remove_request_from_queue id queues = (Panic, queues).
Proof.
  intros Ha. unfold remove_request_from_queue. pose proof (find_queue queues id) as Hf.
  destruct (List.find _ _) as [[worker q]|]; [|done]. destruct Hf as [Hq Hid]. destruct (Ha worker).
  unfold content. by rewrite Hq.
Qed.

Lemma remove_member lb queues worker id x rest :
  wf_queues lb queues → content queues worker = x :: rest → id ∈ x :: rest →
  remove_request_from_queue id queues = (Ok tt, <[worker := rest]> queues).
Proof.
  intros Hw Hc Hin. rewrite <-Hc in Hin. unfold remove_request_from_queue. pose proof (find_queue queues id) as Hf.
  destruct (List.find _ _) as [[worker' q]|]; [|by destruct (Hf worker)].
  destruct Hf as [Hq Hid]. assert (worker' = worker) as ->.
  { apply (wq_once _ _ Hw _ _ id); [|done]. unfold content. by rewrite Hq. }
  unfold content in Hc. rewrite Hq in Hc |- *. cbn in Hc. by rewrite Hc.
Qed.
Lemma remove_front lb queues worker id rest :
  wf_queues lb queues → content queues worker = id :: rest →
  remove_request_from_queue id queues = (Ok tt, <[worker := rest]> queues).
Proof. intros Hw Hc. apply (remove_member lb _ _ id id); [done|done|by left]. Qed.

(** *** Changes of the queues *)

(** A request with the id [o] leaves the queues as they are, adds itself to a
    queue, or leaves the front of one. *)
Inductive change (lb : LoadBalancer) (o : option Z) (queues queues' : Queues) : Prop :=
  | change_same : (∀ worker, content queues' worker = content queues worker) → change lb o queues queues'
  | change_push worker id : o = Some id → absent queues id →
      Z.of_nat (length (content queues worker)) < max_queue_items lb →
      (∀ worker', content queues' worker' =
         if decide (worker' = worker) then content queues worker ++ [id] else content queues worker') →
      change lb o queues queues'
  | change_pop worker id rest : o = Some id → content queues worker = id :: rest →
      (∀ worker', content queues' worker' = if decide (worker' = worker) then rest else content queues worker') →
      change lb o queues queues'.

Section Change.
  Context (lb : LoadBalancer) (o : option Z) (queues queues' : Queues).
  Hypothesis (Hw : wf_queues lb queues) (Hch : change lb o queues queues').

Lemma change_member id worker : o ≠ Some id → id ∈ content queues' worker ↔ id ∈ content queues worker.
Proof.
  intros Ho. destruct Hch as [Hs|wk x Ex Hx Hl Hp|wk x rest Ex Hc Hp].
  - by rewrite Hs.
  - rewrite Hp. destruct (decide (worker = wk)) as [->|]; [|done].
    rewrite elem_of_app, list_elem_of_singleton. naive_solver.
  - rewrite Hp. destruct (decide (worker = wk)) as [->|]; [|done]. rewrite Hc, elem_of_cons. naive_solver.
Qed.

Lemma change_front id worker : o ≠ Some id → is_front queues worker id → is_front queues' worker id.
Proof.
  intros Ho [l Hl]. unfold is_front. destruct Hch as [Hs|wk x Ex Hx Hlt Hp|wk x rest Ex Hc Hp].
  - rewrite Hs. by exists l.
  - rewrite Hp. destruct (decide (worker = wk)) as [->|]; [rewrite Hl; by eexists|by exists l].
  - rewrite Hp. destruct (decide (worker = wk)) as [->|]; [congruence|by exists l].
Qed.

Lemma change_placed r id : o ≠ Some id → placed queues r id → placed queues' r id.
Proof.
  intros Ho. assert (absent queues id → absent queues' id) as Ha.
  { intros Ha worker. rewrite change_member by done. apply Ha. }
  assert ((∃ worker, is_front queues worker id) → ∃ worker, is_front queues' worker id) as Hf.
  { intros [worker Hf]. exists worker. by apply change_front. }
  unfold placed. destruct (rq_phase r) as [|[| |wk|wk]|p|p|e| |]; try done.
  - destruct (tries (rq_ctx r) >? 0); [exact Hf|exact Ha].
  - by rewrite change_member.
  - by apply change_front.
  - by apply change_front.
  - intros [?|?]; [left; by apply Ha|right; by apply Hf].
Qed.

Lemma change_wf : wf_queues lb queues'.
Proof.
  destruct Hw as [H1 H2 H3]. destruct Hch as [Hs|wk x Ex Hx Hlt Hp|wk x rest Ex Hc Hp].
  - constructor; intros worker; rewrite ?Hs; [done| |done]. intros worker' id. rewrite Hs. apply H2.
  - assert (∀ worker id, id ∈ content queues' worker → id ∈ content queues worker ∨ id = x ∧ worker = wk) as Hin.
    { intros worker id. rewrite Hp. destruct (decide (worker = wk)) as [->|]; [|by left].
      rewrite elem_of_app, list_elem_of_singleton. intros [?| ->]; [by left|by right]. }
    constructor.
    + intros worker. rewrite Hp. destruct (decide (worker = wk)); [|done]. apply NoDup_app. split; [done|].
      split; [|apply NoDup_singleton]. intros y Hy ->%list_elem_of_singleton. by apply (Hx wk).
    + intros worker worker' id [?|[-> ->]]%Hin [?|[? ->]]%Hin; subst; [by apply (H2 _ _ id)| | |done]; by edestruct Hx.
    + intros worker. rewrite Hp. destruct (decide (worker = wk)) as [->|]; [|done]. rewrite length_app. cbn. lia.
  - assert (∀ worker id, id ∈ content queues' worker → id ∈ content queues worker) as Hin.
    { intros worker id. rewrite Hp. destruct (decide (worker = wk)) as [->|]; [|done]. rewrite Hc. by right. }
    constructor.
    + intros worker. rewrite Hp. destruct (decide (worker = wk)); [|done]. specialize (H1 wk). rewrite Hc in H1. by inversion H1.
    + intros worker worker' id ?%Hin ?%Hin. by apply (H2 _ _ id).
    + intros worker. rewrite Hp. destruct (decide (worker = wk)); [|done]. specialize (H3 wk). rewrite Hc in H3. cbn in H3. lia.
Qed.

End Change.

(** *** Steps *)

Lemma request_id_active r id : request_id r = Some id → active r = true ∧ ss_request_id (rq_session r) = Some id.
Proof. unfold request_id. by destruct (active r). Qed.

(** A round of the waiting loop: only the request at the front goes on. *)
Definition front_phase (lb : LoadBalancer) (worker : Backend) : phase := phase_after Connecting (http_peer lb worker).
Lemma run_wait lb c r sh worker id :
  rq_phase r = InPeer (PWait worker) → ss_request_id (rq_session r) = Some id → id ∈ content (sh_queues sh) worker →
  run_request lb c r sh =
    (set_phase (if decide (head (content (sh_queues sh) worker) = Some id) then front_phase lb worker else InPeer (PWait worker)) r, sh).
Proof.
  intros Ep Es Hin. unfold run_request. rewrite Ep. unfold upstream_peer, get_request_id, lift, get_self, mbind, mut_bind.
  rewrite Es. cbn [ok_or]. unfold at_front, content in *. destruct (sh_queues sh !! worker) as [[|x q]|]; cbn in Hin |- *; [set_solver| |set_solver].
  case_bool_decide as Hx; destruct (decide (Some x = Some id)) as [E|E]; try congruence; [|done].
  unfold front_phase. by destruct (http_peer lb worker).
Qed.

(** A request at the front that retries or finishes leaves its queue. *)
Definition leaves (r : Request) : option phase :=
  match rq_phase r with
  | InPeer PStart => if tries (rq_ctx r) >? 0 then Some (InPeer PSelect) else None
  | Finishing _ => Some Done
  | _ => None
  end.
Lemma run_leave lb c r sh worker id rest p :
  wf_queues lb (sh_queues sh) → leaves r = Some p → ss_request_id (rq_session r) = Some id →
  content (sh_queues sh) worker = id :: rest →
  run_request lb c r sh = (set_phase p r, set_queues (<[worker := rest]> (sh_queues sh)) sh).
Proof.
  intros Hw Hl Es Hc. unfold leaves in Hl. unfold run_request. destruct (rq_phase r) as [|[| | |]| | |e| |]; try done.
  - unfold upstream_peer, get_request_id, lift, on_field, mbind, mut_bind. destruct (tries (rq_ctx r) >? 0); [|done].
    rewrite Es. cbn [ok_or]. rewrite (remove_front lb _ worker id rest Hw Hc). cbn. by injection Hl as <-.
  - unfold logging, get_request_id, lift, mbind, mut_bind. rewrite Es. cbn [ok_or expect_ok].
    rewrite (remove_front lb _ worker id rest Hw Hc). cbn. by injection Hl as <-.
Qed.

(** A request that finishes without having been queued crashes. *)
Lemma run_reject lb c r sh e id :
  rq_phase r = Finishing e → ss_request_id (rq_session r) = Some id → absent (sh_queues sh) id →
  run_request lb c r sh = (set_phase Crashed r, set_queues (sh_queues sh) sh).
Proof.
  intros Ep Es Ha. unfold run_request. rewrite Ep. unfold logging, get_request_id, lift, mbind, mut_bind.
  rewrite Es. cbn [ok_or expect_ok]. by rewrite (remove_absent _ _ Ha).
Qed.

(** Adding a request to a queue, or refusing it. *)
Lemma run_enqueue lb c r sh worker id :
  rq_phase r = InPeer (PEnqueue worker) → ss_request_id (rq_session r) = Some id →
  let q := content (sh_queues sh) worker in
  run_request lb c r sh =
    if Z.of_nat (length q) >=? max_queue_items lb
    then (set_phase (Finishing (Some (error_new TooManyInQueue))) r, set_queues (<[worker := q]> (sh_queues sh)) sh)
    else (set_phase (InPeer (PWait worker)) r, set_queues (<[worker := q ++ [id]]> (sh_queues sh)) sh).
Proof.
  intros Ep Es q. unfold run_request. rewrite Ep. unfold upstream_peer, get_request_id, lift, on_field, mbind, mut_bind.
  rewrite Es. cbn [ok_or]. unfold enqueue. cbv zeta. fold (content (sh_queues sh) worker). fold q.
  by destruct (_ >=? _).
Qed.

(** What every step of a request does, as far as the invariant is concerned. *)
Record good_step (lb : LoadBalancer) (c : Choice) (queues : Queues) (r r' : Request) (queues' : Queues) : Prop := {
  gs_change : change lb (request_id r) queues queues';
  gs_id : ∀ id, request_id r' = Some id → request_id r = Some id ∨ rq_phase r = Arrived ∧ id = ch_random c;
  gs_placed : active r' = true → ∃ id, request_id r' = Some id ∧ placed queues' r' id;
  gs_ends : ∀ id, request_id r = Some id → request_id r' = Some id ∨ absent queues' id;
  gs_phase : rq_phase r' ≠ Arrived;
  gs_tries : 0 ≤ tries (rq_ctx r')
}.

(** A request that keeps its id and the contents of the queues. *)
Lemma good_same lb c queues r p ctx id queues' :
  request_id r = Some id → (∀ worker, content queues' worker = content queues worker) →
  active (mkRequest (rq_session r) ctx p) = true → placed queues (mkRequest (rq_session r) ctx p) id → 0 ≤ tries ctx →
  good_step lb c queues r (mkRequest (rq_session r) ctx p) queues'.
Proof.
  intros Hid Hs Hact Hpl Ht. pose proof (request_id_active _ _ Hid) as [_ Es].
  assert (request_id (mkRequest (rq_session r) ctx p) = Some id) as Hid'.
  { unfold request_id in *. rewrite Hact. exact Es. }
  assert (change lb None queues queues') as Hch by (by apply change_same).
  constructor.
  - by apply change_same.
  - rewrite Hid'. intros x [= <-]. by left.
  - intros _. exists id. split; [done|]. by apply (change_placed lb None queues).
  - intros x Hx. left. congruence.
  - intros Ep. cbn [rq_phase] in Ep. by rewrite Ep in Hact.
  - done.
Qed.

(** Leaving the front of a queue. *)
Lemma good_leave lb c queues r p worker id rest :
  wf_queues lb queues → request_id r = Some id → leaves r = Some p → content queues worker = id :: rest → 0 ≤ tries (rq_ctx r) →
  good_step lb c queues r (set_phase p r) (<[worker := rest]> queues).
Proof.
  intros Hw Hid Hl Hc Ht. pose proof (request_id_active _ _ Hid) as [_ Es].
  assert (absent (<[worker := rest]> queues) id) as Ha.
  { intros worker'. rewrite content_insert. pose proof (wq_nodup _ _ Hw worker) as Hn. rewrite Hc in Hn.
    apply NoDup_cons in Hn as [Hn _]. destruct (decide (worker' = worker)) as [->|Hne]; [done|].
    intros Hin. apply Hne, (wq_once _ _ Hw _ _ id); [done|]. rewrite Hc. by left. }
  assert (p = Done ∨ p = InPeer PSelect) as Hp.
  { unfold leaves in Hl. destruct (rq_phase r) as [|[| | |]| | | | |]; try done; [|left; congruence].
    destruct (_ >? _); [right; congruence|done]. }
  constructor.
  - apply (change_pop _ _ _ _ worker id rest Hid Hc). intros worker'. apply content_insert.
  - intros x Hx%request_id_active. left. destruct Hx as [_ Hx]. cbn [rq_session set_phase] in Hx. congruence.
  - destruct Hp as [-> | ->]; [done|]. intros _. exists id. split; [done|]. exact Ha.
  - intros x Hx. right. by replace x with id by congruence.
  - by destruct Hp as [-> | ->].
  - done.
Qed.

(** Joining a queue. *)
Lemma good_push lb c queues r worker id :
  request_id r = Some id → absent queues id → Z.of_nat (length (content queues worker)) < max_queue_items lb → 0 ≤ tries (rq_ctx r) →
  good_step lb c queues r (set_phase (InPeer (PWait worker)) r) (<[worker := content queues worker ++ [id]]> queues).
Proof.
  intros Hid Ha Hl Ht. pose proof (request_id_active _ _ Hid) as [_ Es]. constructor; [| | | |done|done].
  - apply (change_push _ _ _ _ worker id Hid Ha Hl). intros worker'. apply content_insert.
  - intros x Hx%request_id_active. left. destruct Hx as [_ Hx]. cbn [rq_session set_phase] in Hx. congruence.
  - intros _. exists id. split; [done|]. unfold placed. cbn [rq_phase set_phase]. rewrite content_insert, decide_True by done. set_solver.
  - intros x Hx. left. unfold request_id. cbn [active rq_phase set_phase rq_session]. congruence.
Qed.

Section Step.
  Context (lb : LoadBalancer) (c : Choice) (r r' : Request) (sh sh' : Shared) (id : Z).
  Hypothesis (Hw : wf_queues lb (sh_queues sh)) (Hid : request_id r = Some id) (Hpl : placed (sh_queues sh) r id).
  Hypothesis (Ht : 0 ≤ tries (rq_ctx r)) (Hrun : run_request lb c r sh = (r', sh')).

Lemma good_peer pc : rq_phase r = InPeer pc → good_step lb c (sh_queues sh) r r' (sh_queues sh').
Proof.
  intros Ep. pose proof (request_id_active _ _ Hid) as [_ Es]. unfold placed in Hpl. rewrite Ep in Hpl.
  destruct pc as [| |wk|wk].
  - destruct (tries (rq_ctx r) >? 0) eqn:Et.
    + destruct Hpl as (worker & rest & Hc). assert (leaves r = Some (InPeer PSelect)) as Hl by (unfold leaves; by rewrite Ep, Et).
      rewrite (run_leave lb c r _ worker id rest _ Hw Hl Es Hc) in Hrun. injection Hrun as <- <-. by apply (good_leave _ _ _ _ _ _ id).
    + unfold run_request in Hrun. rewrite Ep in Hrun. unfold upstream_peer in Hrun. rewrite Et in Hrun.
      injection Hrun as <- <-. by apply (good_same _ _ _ _ _ _ id).
  - unfold run_request in Hrun. rewrite Ep in Hrun. cbn [upstream_peer] in Hrun.
    destruct (select (sh_pool sh)) as [[worker|] pool]; injection Hrun as <- <-; apply (good_same _ _ _ _ _ _ id); try done.
    by left.
  - rewrite (run_enqueue lb c r _ wk id Ep Es) in Hrun. cbv zeta in Hrun. rewrite Z.geb_leb in Hrun.
    destruct (Z.leb_spec (max_queue_items lb) (Z.of_nat (length (content (sh_queues sh) wk)))) as [Hl|Hl]; injection Hrun as <- <-.
    + apply (good_same _ _ _ _ _ _ id); [done| |done|by left|done]. intros worker. cbn. rewrite content_insert.
      by destruct (decide (worker = wk)) as [->|].
    + by apply (good_push _ _ _ _ _ id).
  - rewrite (run_wait lb c r _ wk id Ep Es Hpl) in Hrun. injection Hrun as <- <-.
    destruct (decide _) as [Hh|]; [|by apply (good_same _ _ _ _ _ _ id)].
    apply head_Some in Hh as [rest Hc]. unfold front_phase, http_peer.
    destruct default_options; apply (good_same _ _ _ _ _ _ id); try done; [by exists rest|right; by exists wk, rest].
Qed.

Lemma good_connecting peer : rq_phase r = Connecting peer → good_step lb c (sh_queues sh) r r' (sh_queues sh').
Proof.
  intros Ep. unfold placed in Hpl. rewrite Ep in Hpl. unfold run_request in Hrun. rewrite Ep in Hrun.
  assert (∃ worker, is_front (sh_queues sh) worker id) as Hf by (by eexists).
  destruct (ch_connects c); [injection Hrun as <- <-; by apply (good_same _ _ _ _ _ _ id)|].
  unfold fail_to_connect in Hrun. destruct (tries (rq_ctx r) >? max_retries_per_request lb).
  - injection Hrun as <- <-. apply (good_same _ _ _ _ _ _ id); try done. by right.
  - destruct (err_retry _ && _); injection Hrun as <- <-; apply (good_same _ _ _ _ _ _ id); try done; cbn [tries]; try lia.
    + unfold placed. cbn [rq_phase rq_ctx tries]. destruct (Z.gtb_spec (tries (rq_ctx r) + 1) 0); [done|lia].
    + by right.
Qed.

Lemma good_finishing e : rq_phase r = Finishing e → good_step lb c (sh_queues sh) r r' (sh_queues sh').
Proof.
  intros Ep. pose proof (request_id_active _ _ Hid) as [_ Es]. unfold placed in Hpl. rewrite Ep in Hpl.
  destruct Hpl as [Ha|(worker & rest & Hc)].
  - rewrite (run_reject lb c r _ e id Ep Es Ha) in Hrun. injection Hrun as <- <-. constructor; try done.
    + by apply change_same.
    + intros x Hx. right. by replace x with id by congruence.
  - assert (leaves r = Some Done) as Hl by (unfold leaves; by rewrite Ep).
    rewrite (run_leave lb c r _ worker id rest _ Hw Hl Es Hc) in Hrun. injection Hrun as <- <-. by apply (good_leave _ _ _ _ _ _ id).
Qed.

Lemma good_active : good_step lb c (sh_queues sh) r r' (sh_queues sh').
Proof.
  pose proof (request_id_active _ _ Hid) as [Hact _]. unfold active in Hact.
  destruct (rq_phase r) as [|pc|p|p|e| |] eqn:Ep; try done.
  - by apply (good_peer pc).
  - by apply (good_connecting p).
  - unfold run_request in Hrun. rewrite Ep in Hrun. injection Hrun as <- <-. unfold placed in Hpl. rewrite Ep in Hpl.
    apply (good_same _ _ _ _ _ _ id); try done. right. by eexists.
  - by apply (good_finishing e).
Qed.
End Step.

Lemma good_arrived lb c r r' sh sh' :
  rq_phase r = Arrived → rq_ctx r = new_ctx → absent (sh_queues sh) (ch_random c) → run_request lb c r sh = (r', sh') →
  good_step lb c (sh_queues sh) r r' (sh_queues sh').
Proof.
  intros Ep Ec Ha Hrun. unfold run_request in Hrun. rewrite Ep in Hrun. unfold request_filter in Hrun. cbv zeta in Hrun.
  assert (request_id r = None) as Hid by (unfold request_id, active; by rewrite Ep).
  destruct (observe _ _) as [n rate]. destruct (n >? max_req_per_sec lb); [destruct (ch_written c)|]; injection Hrun as <- <-;
    (constructor; [by apply change_same| | |by rewrite Hid|done|by rewrite Ec]).
  1,3,5: by intros id [= <-]; right.
  1,2: by intros _; exists (ch_random c); split; [|left].
  intros _. exists (ch_random c). split; [done|]. unfold placed. cbn [rq_phase rq_ctx phase_after]. by rewrite Ec.
Qed.


(** *** Preservation *)

Definition ended (r : Request) : bool := match rq_phase r with Done | Crashed => true | _ => false end.
Lemma run_ended lb c r sh : ended r = true → run_request lb c r sh = (r, sh).
Proof. unfold ended, run_request. by destruct (rq_phase r). Qed.

Lemma inv_update lb c w i r r' sh' :
  proxy_inv lb w → w_requests w !! i = Some r → good_step lb c (w_queues w) r r' (sh_queues sh') →
  (rq_phase r = Arrived → ∀ j r2, w_requests w !! j = Some r2 → request_id r2 ≠ Some (ch_random c)) →
  proxy_inv lb (mkWorld sh' (<[i := r']> (w_requests w))).
Proof.
  intros [Hq Ho Hu Hp Hn Ht] Hi [Hch Hid' Hpl' He Hph Htr] Hfr.
  assert (∀ j r2 x, j ≠ i → w_requests w !! j = Some r2 → request_id r2 = Some x → request_id r ≠ Some x ∧ request_id r' ≠ Some x) as Hother.
  { intros j r2 x Hj Hr2 Hx. assert (request_id r ≠ Some x) as Hne by (intros E; by apply Hj, (Hu _ _ r2 r x)).
    split; [done|]. intros E. apply Hid' in E as [E|[E ->]]; [done|]. by destruct (Hfr E j r2 Hr2). }
  constructor; cbn [w_shared w_requests].
  - by apply (change_wf lb (request_id r) (w_queues w)).
  - intros worker x Hin. destruct (decide (request_id r = Some x)) as [Ex|Hne].
    + destruct (He x Ex) as [Ex'|Ha]; [|by destruct (Ha worker)]. exists i, r'. by rewrite lookup_insert_eq.
    + rewrite (change_member lb (request_id r) (w_queues w)) in Hin by done.
      destruct (Ho worker x Hin) as (j & r2 & Hj & Hx). exists j, r2. rewrite lookup_insert_ne; [done|congruence].
  - intros j k r1 r2 x [[<- <-]|[Hj Hr1]]%lookup_insert_Some [[<- <-]|[Hk Hr2]]%lookup_insert_Some Hx1 Hx2; [done| | |].
    + by destruct (Hother k r2 x (not_eq_sym Hk) Hr2 Hx2).
    + by destruct (Hother j r1 x (not_eq_sym Hj) Hr1 Hx1).
    + by apply (Hu _ _ r1 r2 x).
  - intros j r2 [[<- <-]|[Hj Hr2]]%lookup_insert_Some Hact; [by apply Hpl'|].
    destruct (Hp j r2 Hr2 Hact) as (x & Hx & Hpx). exists x. split; [done|].
    apply (change_placed lb (request_id r) (w_queues w)); [done|by apply (Hother j r2)|done].
  - intros j r2 [[<- <-]|[Hj Hr2]]%lookup_insert_Some; [done|by apply (Hn j)].
  - intros j r2 [[<- <-]|[Hj Hr2]]%lookup_insert_Some; [done|by apply (Ht j)].
Qed.

Lemma inv_run_good lb c w i r r' sh' :
  proxy_inv lb w → fresh w (Run i c) → w_requests w !! i = Some r → run_request lb c r (w_shared w) = (r', sh') →
  ended r = false → good_step lb c (w_queues w) r r' (sh_queues sh').
Proof.
  intros Hinv Hfr Hi Hrun He. destruct (active r) eqn:Hact.
  - destruct (pi_placed _ _ Hinv i r Hi Hact) as (id & Hid & Hpl).
    by apply (good_active lb c r r' (w_shared w) sh' id (pi_queues _ _ Hinv) Hid Hpl (pi_tries _ _ Hinv i r Hi)).
  - assert (rq_phase r = Arrived) as Ep by (unfold active, ended in *; by destruct (rq_phase r)).
    apply (good_arrived lb c r r' (w_shared w) sh' Ep); [by apply (pi_new _ _ Hinv i)| |done].
    intros worker Hin. destruct (pi_owned _ _ Hinv _ _ Hin) as (j & r2 & Hj & Hx). by apply (Hfr r Hi Ep j r2).
Qed.

Lemma exec_inv lb l w : proxy_inv lb w → fresh w l → proxy_inv lb (exec lb l w).
Proof.
  intros Hinv Hfr. destruct l as [i session|i c]; cbn [exec].
  - destruct (w_requests w !! i) eqn:Hi; [done|]. destruct Hinv as [Hq Ho Hu Hp Hn Ht]. constructor; cbn [w_shared w_requests].
    + done.
    + intros worker x Hin. destruct (Ho worker x Hin) as (j & r2 & Hj & Hx). exists j, r2. rewrite lookup_insert_ne; [done|congruence].
    + intros j k r1 r2 x [[<- <-]|[Hj Hr1]]%lookup_insert_Some [[<- <-]|[Hk Hr2]]%lookup_insert_Some Hx1 Hx2; try done.
      by apply (Hu _ _ r1 r2 x).
    + intros j r2 [[<- <-]|[Hj Hr2]]%lookup_insert_Some; [done|by apply (Hp j)].
    + intros j r2 [[<- <-]|[Hj Hr2]]%lookup_insert_Some; [done|by apply (Hn j)].
    + intros j r2 [[<- <-]|[Hj Hr2]]%lookup_insert_Some; [done|by apply (Ht j)].
  - destruct (w_requests w !! i) as [r|] eqn:Hi; [|done]. destruct (run_request lb c r (w_shared w)) as [r' sh'] eqn:Hrun.
    destruct (ended r) eqn:He.
    + rewrite run_ended in Hrun by done. injection Hrun as <- <-. rewrite insert_id by done. by destruct w.
    + apply (inv_update lb c w i r); [done|done| |intros Ep; exact (Hfr r Hi Ep)].
      by apply (inv_run_good lb c w i r r' sh').
Qed.

Lemma reachable_inv lb w : reachable lb w → proxy_inv lb w.
Proof.
  induction 1 as [pool rate|w l _ IH Hfr]; [|by apply exec_inv].
  assert (∀ worker, content (∅ : Queues) worker = []) as Hc by (intros worker; unfold content; by rewrite lookup_empty).
  constructor; cbn [w_shared w_requests sh_queues]; [constructor| | | | |].
  - intros worker. rewrite Hc. constructor.
  - intros worker worker' id. rewrite Hc. set_solver.
  - intros worker. rewrite Hc. cbn. lia.
  - intros worker id. rewrite Hc. set_solver.
  - intros i j r r' id Hi. by rewrite lookup_empty in Hi.
  - intros i r Hi. by rewrite lookup_empty in Hi.
  - intros i r Hi. by rewrite lookup_empty in Hi.
  - intros i r Hi. by rewrite lookup_empty in Hi.
Qed.

(** ** Progress *)

Lemma exec_run lb w i c r r' sh' :
  w_requests w !! i = Some r → run_request lb c r (w_shared w) = (r', sh') →
  exec lb (Run i c) w = mkWorld sh' (<[i := r']> (w_requests w)).
Proof. intros Hi Hrun. cbn [exec]. by rewrite Hi, Hrun. Qed.

(** The request [f] is at the front of a queue. *)
Definition front_of (w : World) (worker : Backend) (f : nat) (rf : Request) : Prop :=
  ∃ x, w_requests w !! f = Some rf ∧ request_id rf = Some x ∧ is_front (w_queues w) worker x.
(** The request [i] waits behind [k] others. *)
Definition waits_at (w : World) (i : nat) (r : Request) (worker : Backend) (k : nat) : Prop :=
  ∃ id, w_requests w !! i = Some r ∧ rq_phase r = InPeer (PWait worker) ∧ request_id r = Some id ∧
    content (w_queues w) worker !! k = Some id.
Definition is_run (l : label) (i : nat) : Prop := ∃ c, l = Run i c.

Lemma exec_other lb w l f : ¬ is_run l f → is_Some (w_requests w !! f) → w_requests (exec lb l w) !! f = w_requests w !! f.
Proof.
  intros Hl [rf Hf]. destruct l as [j s|j c]; cbn [exec].
  - destruct (w_requests w !! j) eqn:Hj; [done|]. cbn [w_requests]. rewrite lookup_insert_ne; [done|congruence].
  - assert (j ≠ f) by (intros ->; apply Hl; by eexists). destruct (w_requests w !! j) as [r|]; [|done].
    destruct (run_request lb c r (w_shared w)) as [r' sh']. cbn [w_requests]. by rewrite lookup_insert_ne.
Qed.

(** Steps of other requests only add to the back of a queue. *)
Lemma exec_queue lb w l worker f rf :
  proxy_inv lb w → fresh w l → front_of w worker f rf → ¬ is_run l f →
  front_of (exec lb l w) worker f rf ∧ content (w_queues w) worker `prefix_of` content (w_queues (exec lb l w)) worker.
Proof.
  intros Hinv Hfr (x & Hf & Hx & rest & Hc) Hl.
  assert (content (w_queues w) worker `prefix_of` content (w_queues (exec lb l w)) worker) as Hpre.
  { destruct l as [j s|j c]; cbn [exec]; [by destruct (w_requests w !! j)|].
    destruct (w_requests w !! j) as [r|] eqn:Hj; [|done]. destruct (run_request lb c r (w_shared w)) as [r' sh'] eqn:Hrun.
    cbn [w_shared]. destruct (ended r) eqn:He; [rewrite run_ended in Hrun by done; by injection Hrun as <- <-|].
    destruct (gs_change _ _ _ _ _ _ (inv_run_good lb c w j r r' sh' Hinv Hfr Hj Hrun He)) as [Hs|wk y Ey Hy Hlt Hp|wk y l Ey Hy Hp].
    - by rewrite Hs.
    - rewrite Hp. destruct (decide (worker = wk)) as [->|]; [by eexists|done].
    - rewrite Hp. destruct (decide (worker = wk)) as [->|]; [|done]. rewrite Hc in Hy. injection Hy as -> ->.
      destruct Hl. exists c. by rewrite (pi_unique _ _ Hinv j f r rf y). }
  split; [|done]. exists x. rewrite exec_other by done. split; [done|]. split; [done|].
  destruct Hpre as [l' Hl']. unfold is_front. rewrite Hl', Hc. by eexists.
Qed.

Lemma run_waiting lb c w r worker id :
  rq_phase r = InPeer (PWait worker) → request_id r = Some id → id ∈ content (w_queues w) worker →
  head (content (w_queues w) worker) ≠ Some id → run_request lb c r (w_shared w) = (r, w_shared w).
Proof.
  intros Ep Hid Hin Hh. pose proof (request_id_active _ _ Hid) as [_ Es].
  rewrite (run_wait lb c r _ worker id Ep Es Hin), decide_False by done. destruct r. unfold set_phase. cbn in *. by subst.
Qed.

(** A waiting request keeps its place while the front does not move. *)
Lemma keep_waiting lb w l worker f rf i r k :
  proxy_inv lb w → fresh w l → front_of w worker f rf → ¬ is_run l f → waits_at w i r worker k →
  front_of (exec lb l w) worker f rf ∧ waits_at (exec lb l w) i r worker k.
Proof.
  intros Hinv Hfr Hf Hl (id & Hi & Ep & Hid & Hk).
  destruct (exec_queue lb w l worker f rf Hinv Hfr Hf Hl) as [Hf' Hpre]. split; [done|]. exists id.
  split; [|split_and!; [done|done|by apply (prefix_lookup_Some _ _ _ _ Hk Hpre)]].
  destruct l as [j s|j c]; [rewrite exec_other; [done|by intros [? ?]|by eexists]|].
  destruct (decide (j = i)) as [->|Hne]; [|rewrite exec_other; [done|intros [? [=]]; congruence|by eexists]].
  destruct Hf as (x & Hfx & Hx & rest & Hc).
  assert (run_request lb c r (w_shared w) = (r, w_shared w)) as Hrun.
  { apply (run_waiting lb c w r worker id Ep Hid); [by apply list_elem_of_lookup; exists k|].
    rewrite Hc. cbn. intros [= ->]. apply Hl. exists c. by rewrite (pi_unique _ _ Hinv i f r rf id). }
  rewrite (exec_run lb w i c r r _ Hi Hrun). cbn [w_requests]. by rewrite lookup_insert_eq.
Qed.

(** How many steps of its own the front takes at most until it leaves. *)
Definition steps_left (r : Request) : nat :=
  match rq_phase r with
  | InPeer (PWait _) => 4
  | Connecting _ => 3
  | Forwarded _ => 2
  | Finishing _ | InPeer PStart => 1
  | _ => 0
  end.

(** A step of the front brings it closer to leaving, or it leaves. *)
Lemma front_step lb c w worker f rf x rest :
  proxy_inv lb w → w_requests w !! f = Some rf → request_id rf = Some x → content (w_queues w) worker = x :: rest →
  ∃ r' sh', run_request lb c rf (w_shared w) = (r', sh') ∧
    ((request_id r' = Some x ∧ sh' = w_shared w ∧ (steps_left r' < steps_left rf)%nat) ∨
     content (sh_queues sh') worker = rest).
Proof.
  intros Hinv Hf Hx Hc. pose proof (request_id_active _ _ Hx) as [Hact Es].
  destruct (pi_placed _ _ Hinv f rf Hf Hact) as (y & Hy & Hpl). assert (y = x) as -> by congruence.
  assert (x ∈ content (w_queues w) worker) as Hin by (rewrite Hc; by left).
  assert (∀ p, leaves rf = Some p → ∃ r' sh', run_request lb c rf (w_shared w) = (r', sh') ∧ content (sh_queues sh') worker = rest) as Hleave.
  { intros p Hp. do 2 eexists. split; [apply (run_leave lb c rf _ worker x rest p (pi_queues _ _ Hinv) Hp Es Hc)|].
    cbn. by rewrite content_insert, decide_True. }
  assert (∀ p ctx, active (mkRequest (rq_session rf) ctx p) = true → request_id (mkRequest (rq_session rf) ctx p) = Some x) as Hkeep.
  { intros p ctx Hp. unfold request_id. by rewrite Hp. }
  unfold placed in Hpl. unfold leaves in Hleave. unfold active in Hact.
  destruct (rq_phase rf) as [|[| |wk|wk]|p|p|e| |] eqn:Ep; try done; unfold steps_left; rewrite Ep.
  - destruct (tries (rq_ctx rf) >? 0); [|by destruct (Hpl worker)].
    destruct (Hleave _ eq_refl) as (r' & sh' & ? & ?). exists r', sh'. by split; [|right].
  - by destruct (Hpl worker).
  - by destruct (Hpl worker).
  - assert (wk = worker) as -> by (by apply (wq_once _ _ (pi_queues _ _ Hinv) _ _ x)).
    do 2 eexists. split; [by apply (run_wait lb c rf _ worker x)|]. left. rewrite decide_True by (by rewrite Hc).
    unfold front_phase, http_peer. destruct default_options; (split; [by apply Hkeep|split; [done|cbn; lia]]).
  - unfold run_request, fail_to_connect. rewrite Ep. destruct (ch_connects c); [|destruct (tries (rq_ctx rf) >? _); [|destruct (_ && _)]];
      do 2 eexists; (split; [reflexivity|left; split; [by apply Hkeep|split; [done|cbn; lia]]]).
  - unfold run_request. rewrite Ep. do 2 eexists. split; [reflexivity|]. left. split; [by apply Hkeep|split; [done|cbn; lia]].
  - destruct (Hleave _ eq_refl) as (r' & sh' & ? & ?). exists r', sh'. by split; [|right].
Qed.

(** A step of the front brings those behind closer to the front. *)
Lemma front_moves lb c w worker f rf i r k :
  proxy_inv lb w → fresh w (Run f c) → front_of w worker f rf → waits_at w i r worker (S k) →
  ∃ f' rf' k', front_of (exec lb (Run f c) w) worker f' rf' ∧ waits_at (exec lb (Run f c) w) i r worker k' ∧
    (5 * k' + steps_left rf' < 5 * S k + steps_left rf)%nat.
Proof.
  intros Hinv Hfr (x & Hfx & Hx & rest & Hcx) (id & Hi & Ep & Hid & Hlk).
  assert (f ≠ i) as Hne.
  { intros ->. assert (x = id) as -> by congruence. pose proof (wq_nodup _ _ (pi_queues _ _ Hinv) worker) as Hn.
    assert (0%nat = S k) as E; [|lia]. apply (NoDup_lookup _ _ _ id Hn); [by rewrite Hcx|done]. }
  destruct (front_step lb c w worker f rf x rest Hinv Hfx Hx Hcx) as (r' & sh' & Hrun & Hcase).
  pose proof (exec_inv lb _ w Hinv Hfr) as Hinv'. pose proof (exec_run lb w f c rf r' sh' Hfx Hrun) as ES.
  rewrite ES in Hinv' |- *. clear ES.
  assert (<[f := r']> (w_requests w) !! i = Some r) as Hi' by (by rewrite lookup_insert_ne).
  destruct Hcase as [(Hx' & -> & Hlt)|Hpop].
  - exists f, r', (S k). split_and!; [|by exists id|lia].
    exists x. cbn [w_requests w_shared]. rewrite lookup_insert_eq. split; [done|]. split; [done|]. by exists rest.
  - rewrite Hcx in Hlk. cbn in Hlk. destruct rest as [|y rest]; [done|].
    destruct (pi_owned _ _ Hinv' worker y) as (g & rg & Hg & Hyg); [cbn [w_shared]; rewrite Hpop; by left|].
    exists g, rg, k. split_and!.
    + exists y. split; [done|]. split; [done|]. by exists rest.
    + exists id. cbn [w_shared]. by rewrite Hpop.
    + assert (steps_left rg ≤ 4)%nat by (unfold steps_left; destruct (rq_phase rg) as [|[]| | | | |]; lia). lia.
Qed.

(** *** Fair runs *)

(** Every request is run again and again, and random numbers do not repeat. *)
Record fair_run (lb : LoadBalancer) (sched : nat → label) (w : World) : Prop := {
  fr_fair : ∀ i n, ∃ m, (n ≤ m)%nat ∧ is_run (sched m) i;
  fr_fresh : ∀ n, fresh (run (exec lb) sched w n) (sched n)
}.

Section Fair.
  Context (lb : LoadBalancer) (sched : nat → label) (w : World).
  Hypothesis (Hw : proxy_inv lb w) (Hfair : fair_run lb sched w).
  #[local] Abbreviation at_time n := (run (exec lb) sched w n).

Lemma run_inv n : proxy_inv lb (at_time n).
Proof. apply run_invariant; [done|]. intros m Hm. apply exec_inv; [done|]. apply (fr_fresh _ _ _ Hfair). Qed.

#[local] Instance is_run_dec l f : Decision (is_run l f).
Proof.
  destruct l as [j s|j c]; [right; by intros [? ?]|].
  destruct (decide (j = f)) as [->|Hne]; [left; by eexists|right; by intros [? [= ]]].
Defined.

(** What others cannot change stays until a request is run. *)
Lemma until_run (Q : World → Prop) f :
  (∀ n, Q (at_time n) → ¬ is_run (sched n) f → Q (at_time (S n))) →
  ∀ n, Q (at_time n) → ∃ m, (n ≤ m)%nat ∧ Q (at_time m) ∧ is_run (sched m) f.
Proof. apply (run_until (exec lb) sched w (λ l, is_run l f)). apply (fr_fair _ _ _ Hfair). Qed.

(** A waiting request gets to the front and is run there. *)
Lemma front_reached i r worker : ∀ M k n f rf,
  front_of (at_time n) worker f rf → waits_at (at_time n) i r worker k → (5 * k + steps_left rf ≤ M)%nat →
  ∃ m, (n ≤ m)%nat ∧ waits_at (at_time m) i r worker 0 ∧ is_run (sched m) i.
Proof.
  induction M as [M IH] using lt_wf_ind. intros k n f rf Hf Hk HM.
  destruct (until_run (λ w', front_of w' worker f rf ∧ waits_at w' i r worker k) f) with (n:=n) as (m & Hm & [Hfm Hkm] & c & Hc); [|done|].
  { intros n' [Hf' Hk'] Hr. apply keep_waiting; [apply run_inv|apply (fr_fresh _ _ _ Hfair)|done..]. }
  pose proof (fr_fresh _ _ _ Hfair m) as Hfr. rewrite Hc in Hfr.
  destruct k as [|k].
  - destruct Hfm as (x & Hfx & Hx & rest & Hcx). pose proof Hkm as (id & Hi & Ep & Hid & Hlk).
    rewrite Hcx in Hlk. injection Hlk as ->. assert (f = i) as -> by (by apply (pi_unique _ _ (run_inv m) f i rf r id)).
    exists m. split; [done|]. split; [done|]. by exists c.
  - destruct (front_moves lb c (at_time m) worker f rf i r k (run_inv m) Hfr Hfm Hkm) as (f' & rf' & k' & Hf' & Hk' & Hlt).
    destruct (IH (5 * k' + steps_left rf')%nat) with (k:=k') (n:=S m) (f:=f') (rf:=rf') as (m' & ? & ?);
      [lia|by cbn [run]; rewrite Hc|by cbn [run]; rewrite Hc|lia|]. exists m'. split; [lia|done].
Qed.

(** How far a request is from its end: the retries it has left and its phase. *)
Definition to_go (r : Request) : nat :=
  8 * Z.to_nat (max_retries_per_request lb + 1 - tries (rq_ctx r)) +
  match rq_phase r with
  | Arrived => 8
  | InPeer PStart => 7 | InPeer PSelect => 6 | InPeer (PEnqueue _) => 5 | InPeer (PWait _) => 4
  | Connecting _ => 3 | Forwarded _ => 2 | Finishing _ => 1
  | Done | Crashed => 0
  end.

Lemma logging_no_error s queues e : (logging s queues).1 ≠ Err e.
Proof.
  unfold logging, lift, mbind, mut_bind. destruct (get_request_id s); cbn; [|done..]. unfold remove_request_from_queue.
  destruct (List.find _ _) as [[worker q]|]; [|done]. by destruct (queues !! worker) as [[]|].
Qed.

(** Every step of a request that does not wait brings it closer to its end. *)
Lemma to_go_step c r sh r' sh' :
  run_request lb c r sh = (r', sh') → ended r = false →
  (∀ worker, rq_phase r = InPeer (PWait worker) → rq_phase r' ≠ InPeer (PWait worker)) →
  (to_go r' < to_go r)%nat.
Proof.
  intros Hrun He Hwait. unfold run_request, phase_after in Hrun. unfold ended in He.
  destruct (rq_phase r) as [|pc|p|p|e| |] eqn:Ep; try done.
  - destruct (request_filter _ _ _ _ _) as [[[[|]|e|] s] rate]; injection Hrun as <- <-; unfold to_go; rewrite Ep; cbn; lia.
  - destruct (upstream_peer lb (rq_session r) (rq_ctx r) pc sh) as [o sh2] eqn:Eu. injection Hrun as <- <-.
    unfold to_go. cbn [rq_ctx set_phase rq_phase]. rewrite Ep.
    destruct o as [[pc'|peer]|e|]; [|by destruct pc as [| | |]; lia..].
    unfold upstream_peer, mbind, mut_bind, mret, mut_ret, lift, on_field, get_self in Eu. destruct pc as [| |wk|wk].
    + destruct (tries (rq_ctx r) >? 0); [destruct (get_request_id _); [|done..]; destruct (remove_request_from_queue _ _) as [[]]; [|done..]|];
        simplify_eq; lia.
    + destruct (select _) as [[]]; simplify_eq; lia.
    + destruct (get_request_id _); [|done..]. destruct (enqueue _ _ _ _) as [[]]; simplify_eq; lia.
    + destruct (get_request_id _); [|done..]. destruct (at_front _ _ _) as [[]| |]; [| |done..].
      * by destruct (http_peer lb wk).
      * simplify_eq. by destruct (Hwait wk).
  - unfold fail_to_connect in Hrun. destruct (ch_connects c); [injection Hrun as <- <-; unfold to_go; rewrite Ep; cbn; lia|].
    destruct (Z.gtb_spec (tries (rq_ctx r)) (max_retries_per_request lb)); [injection Hrun as <- <-; unfold to_go; rewrite Ep; cbn; lia|].
    destruct (err_retry _ && _); injection Hrun as <- <-; unfold to_go; rewrite Ep; cbn [rq_ctx rq_phase tries]; lia.
  - injection Hrun as <- <-. unfold to_go. rewrite Ep. cbn [rq_ctx rq_phase set_phase]. lia.
  - pose proof (logging_no_error (rq_session r) (sh_queues sh)) as Hno.
    destruct (logging _ _) as [[|e'|] q]; [|by destruct (Hno e')|]; injection Hrun as <- <-; unfold to_go; rewrite Ep;
      cbn [rq_ctx rq_phase set_phase]; lia.
Qed.

(** After a request has been run at the front, it no longer waits. *)
Lemma front_leaves_wait w' i r worker c r' sh' :
  waits_at w' i r worker 0 → run_request lb c r (w_shared w') = (r', sh') → rq_phase r' ≠ InPeer (PWait worker).
Proof.
  intros (id & Hi & Ep & Hid & Hk) Hrun. pose proof (request_id_active _ _ Hid) as [_ Es].
  rewrite (run_wait lb c r _ worker id Ep Es) in Hrun by (apply list_elem_of_lookup; by exists 0%nat).
  injection Hrun as <- <-. rewrite decide_True by (by rewrite <-lookup_0_head || by destruct (content _ _)).
  unfold front_phase, http_peer. by destruct default_options.
Qed.

(** A request that has not ended is run when its next step brings it closer to its end. *)
Lemma next_step i n r :
  w_requests (at_time n) !! i = Some r → ended r = false →
  ∃ m r', (n ≤ m)%nat ∧ w_requests (at_time (S m)) !! i = Some r' ∧ (to_go r' < to_go r)%nat.
Proof.
  intros Hi He.
  assert (∃ m c, (n ≤ m)%nat ∧ w_requests (at_time m) !! i = Some r ∧ sched m = Run i c ∧
    ∀ r' sh' worker, rq_phase r = InPeer (PWait worker) → run_request lb c r (w_shared (at_time m)) = (r', sh') →
      rq_phase r' ≠ InPeer (PWait worker)) as (m & c & Hm & Hi' & Hs & Hwait).
  { assert ((∃ worker, rq_phase r = InPeer (PWait worker)) ∨ ¬ ∃ worker, rq_phase r = InPeer (PWait worker)) as [[worker Ep]|Hno].
    { destruct (rq_phase r) as [|[| |wk|wk]| | | | |]; first [left; by exists wk|right; by intros [? ?]]. }
    - destruct (pi_placed _ _ (run_inv n) i r Hi) as (id & Hid & Hpl); [unfold active; by rewrite Ep|].
      unfold placed in Hpl. rewrite Ep in Hpl. apply list_elem_of_lookup in Hpl as Hk. destruct Hk as [k Hk].
      destruct (content (w_queues (at_time n)) worker) as [|x rest] eqn:Hc; [done|].
      destruct (pi_owned _ _ (run_inv n) worker x) as (f & rf & Hf & Hx); [rewrite Hc; by left|].
      destruct (front_reached i r worker (5 * k + steps_left rf) k n f rf) as (m & Hm & Hw0 & c & Hs).
      + exists x. split; [done|]. split; [done|]. by exists rest.
      + exists id. by rewrite Hc.
      + lia.
      + exists m, c. split; [done|]. pose proof Hw0 as (id' & Hi' & _). split; [done|]. split; [done|].
        intros r' sh' worker' E. rewrite Ep in E. injection E as <-. by apply front_leaves_wait with (i:=i).
    - destruct (until_run (λ w', w_requests w' !! i = Some r) i) with (n:=n) as (m & Hm & Hi' & c & Hs); [|done|].
      + intros n' Hn' Hr. cbn [run]. by rewrite exec_other.
      + exists m, c. split; [done|]. split; [done|]. split; [done|]. intros r' sh' worker Ep. destruct Hno. by exists worker. }
  destruct (run_request lb c r (w_shared (at_time m))) as [r' sh'] eqn:Hrun. exists m, r'. split; [done|].
  cbn [run]. rewrite Hs, (exec_run lb _ i c r r' sh' Hi' Hrun). cbn [w_requests]. rewrite lookup_insert_eq. split; [done|].
  apply (to_go_step c r _ r' sh' Hrun He). intros worker Ep. by apply (Hwait r' sh').
Qed.

Lemma request_ends i : ∀ M n r,
  w_requests (at_time n) !! i = Some r → (to_go r ≤ M)%nat →
  ∃ m r', (n ≤ m)%nat ∧ w_requests (at_time m) !! i = Some r' ∧ ended r' = true.
Proof.
  induction M as [M IH] using lt_wf_ind. intros n r Hi HM. destruct (ended r) eqn:He; [by exists n, r|].
  destruct (next_step i n r Hi He) as (m & r' & Hm & Hi' & Hlt).
  destruct (IH (to_go r')%nat) with (n:=S m) (r:=r') as (m' & r2 & ? & ?); [lia|done|lia|]. exists m', r2. split; [lia|done].
Qed.

End Fair.

(** ** Theorems *)

(** The worker that a request is connected to. *)
Definition serving (r : Request) : option Backend :=
  match rq_phase r with Connecting peer | Forwarded peer => Some (peer_worker peer) | _ => None end.

(** C22. Workers get one request at a time. However requests arrive and are
    interleaved, at most one request is connected to a worker; it is the one at
    the front of the worker's queue; no id is queued twice; and no queue is
    longer than the configured maximum. *)
Theorem worker_serves_one lb w worker :
  reachable lb w →
  (∀ i j r r', w_requests w !! i = Some r → w_requests w !! j = Some r' →
     serving r = Some worker → serving r' = Some worker → i = j) ∧
  (∀ i r, w_requests w !! i = Some r → serving r = Some worker →
     ∃ id, ss_request_id (rq_session r) = Some id ∧ head (content (w_queues w) worker) = Some id) ∧
  NoDup (content (w_queues w) worker) ∧
  Z.of_nat (length (content (w_queues w) worker)) ≤ Z.max 0 (max_queue_items lb).
Proof.
  intros Hinv%reachable_inv. pose proof (pi_queues _ _ Hinv) as Hq.
  assert (∀ i r, w_requests w !! i = Some r → serving r = Some worker →
    ∃ id, request_id r = Some id ∧ head (content (w_queues w) worker) = Some id) as Hfront.
  { intros i r Hi Hs. destruct (pi_placed _ _ Hinv i r Hi) as (id & Hid & Hpl).
    - unfold serving in Hs. unfold active. by destruct (rq_phase r).
    - exists id. split; [done|]. unfold serving in Hs. unfold placed in Hpl.
      destruct (rq_phase r); try done; injection Hs as <-; destruct Hpl as [rest ->]; done. }
  split_and!.
  - intros i j r r' Hi Hj Hs Hs'. destruct (Hfront i r Hi Hs) as (id & Hid & Hh). destruct (Hfront j r' Hj Hs') as (id' & Hid' & Hh').
    apply (pi_unique _ _ Hinv i j r r' id); congruence.
  - intros i r Hi Hs. destruct (Hfront i r Hi Hs) as (id & Hid & Hh). exists id. split; [|done]. by apply request_id_active.
  - apply (wq_nodup _ _ Hq).
  - apply (wq_bound _ _ Hq).
Qed.

(** C12. Every request ends. In every run of the proxy that runs each request
    again and again, whatever the workers answer and however many requests
    arrive, each request that is in flight at some time has ended at a later
    time: requests that wait for a worker get to the front of the queue, and
    those that fail to connect stop retrying. *)
Theorem every_request_ends lb w sched i n r :
  reachable lb w → fair_run lb sched w → w_requests (run (exec lb) sched w n) !! i = Some r →
  ∃ m r', (n ≤ m)%nat ∧ w_requests (run (exec lb) sched w m) !! i = Some r' ∧ ended r' = true.
Proof. intros Hw%reachable_inv Hf Hi. by apply (request_ends lb sched w Hw Hf i (to_go lb r) n r). Qed.

(** Two steps of a request. *)
Lemma two_steps lb w i c c' r r1 r2 sh1 sh2 :
  w_requests w !! i = Some r → run_request lb c r (w_shared w) = (r1, sh1) → run_request lb c' r1 sh1 = (r2, sh2) →
  exec lb (Run i c') (exec lb (Run i c) w) = mkWorld sh2 (<[i := r2]> (w_requests w)).
Proof.
  intros Hi H1' H2'. rewrite (exec_run lb w i c r r1 sh1 Hi H1').
  rewrite (exec_run lb _ i c' r1 r2 sh2); [|by cbn [w_requests]; rewrite lookup_insert_eq|done].
  cbn [w_requests]. by rewrite insert_insert_eq.
Qed.

(** A request that the proxy is about to turn away. *)
Definition turned_away (lb : LoadBalancer) (w : World) (r : Request) : Prop :=
  rq_phase r = Arrived ∧ max_req_per_sec lb < (observe (ss_client_addr (rq_session r)) (sh_rate (w_shared w))).1 ∨
  rq_phase r = InPeer PSelect ∧ (select (sh_pool (w_shared w))).1 = None ∨
  (∃ worker, rq_phase r = InPeer (PEnqueue worker) ∧ max_queue_items lb ≤ Z.of_nat (length (content (w_queues w) worker))).

Lemma turned_away_step lb w i c r r1 sh1 :
  proxy_inv lb w → fresh w (Run i c) → w_requests w !! i = Some r → turned_away lb w r →
  run_request lb c r (w_shared w) = (r1, sh1) →
  ∃ e id, rq_phase r1 = Finishing e ∧ ss_request_id (rq_session r1) = Some id ∧ absent (w_queues w) id ∧
    ∀ worker, content (sh_queues sh1) worker = content (w_queues w) worker.
Proof.
  intros Hinv Hfr Hi Hcase Hrun.
  assert (rq_phase r ≠ Arrived → active r = true → ∃ id, request_id r = Some id ∧
    ss_request_id (rq_session r) = Some id ∧ placed (w_queues w) r id) as Hact.
  { intros _ Hact. destruct (pi_placed _ _ Hinv i r Hi Hact) as (id & Hid & Hpl). exists id.
    split; [done|]. split; [by apply request_id_active|done]. }
  unfold active, placed in Hact. destruct Hcase as [[Ep Hlim]|[[Ep Hsel]|(wk & Ep & Hlen)]]; rewrite Ep in Hact.
  - unfold run_request, request_filter in Hrun. rewrite Ep in Hrun. cbv zeta in Hrun. cbn [ss_client_addr set_ss_request_id] in Hrun.
    destruct (observe _ _) as [num rate]. cbn [fst] in Hlim. destruct (Z.gtb_spec num (max_req_per_sec lb)); [|lia].
    assert (absent (w_queues w) (ch_random c)) as Ha.
    { intros worker Hin. destruct (pi_owned _ _ Hinv _ _ Hin) as (j & r2 & Hj & Hx). by apply (Hfr r Hi Ep j r2). }
    destruct (ch_written c); injection Hrun as <- <-; by eexists _, (ch_random c).
  - destruct Hact as (id & _ & Es & Ha); [done..|]. unfold run_request in Hrun. rewrite Ep in Hrun. cbn [upstream_peer] in Hrun.
    destruct (select _) as [o pool]. cbn [fst] in Hsel. subst o. injection Hrun as <- <-. by eexists _, id.
  - destruct Hact as (id & _ & Es & Ha); [done..|].
    rewrite (run_enqueue lb c r _ wk id Ep Es) in Hrun. cbv zeta in Hrun. rewrite Z.geb_leb in Hrun.
    destruct (Z.leb_spec (max_queue_items lb) (Z.of_nat (length (content (w_queues w) wk)))); [|lia]. injection Hrun as <- <-.
    eexists _, id. split; [done|]. split; [done|]. split; [done|]. intros worker. cbn. rewrite content_insert.
    by destruct (decide (worker = wk)) as [->|].
Qed.

(** Requests that are turned away crash. A request over the rate limit,
    for which the answer is already written, a request for which there is no
    worker, and a request for a worker with a full queue end with a panic in
    their last handler, which looks for them in the queues; they leave the
    contents of the queues as they are. A request that was forwarded ends
    normally and hands the worker to the next one. *)
Theorem rejected_requests_panic lb w i c c' r :
  reachable lb w → fresh w (Run i c) → w_requests w !! i = Some r →
  let w' := exec lb (Run i c') (exec lb (Run i c) w) in
  (turned_away lb w r →
   (∃ r', w_requests w' !! i = Some r' ∧ rq_phase r' = Crashed) ∧
   ∀ worker, content (w_queues w') worker = content (w_queues w) worker) ∧
  (∀ peer, rq_phase r = Forwarded peer →
   (∃ r', w_requests w' !! i = Some r' ∧ rq_phase r' = Done) ∧
   ∀ worker, content (w_queues w') worker =
     if decide (worker = peer_worker peer) then tail (content (w_queues w) worker) else content (w_queues w) worker).
Proof.
  intros Hinv%reachable_inv Hfr Hi w'. destruct (run_request lb c r (w_shared w)) as [r1 sh1] eqn:Hrun. split.
  - intros Hcase. destruct (turned_away_step lb w i c r r1 sh1 Hinv Hfr Hi Hcase Hrun) as (e & id & Ep1 & Es1 & Ha & Hs).
    assert (absent (sh_queues sh1) id) as Ha' by (intros worker; rewrite Hs; apply Ha).
    pose proof (run_reject lb c' r1 sh1 e id Ep1 Es1 Ha') as Hrun'. unfold w'.
    rewrite (two_steps lb w i c c' r r1 _ sh1 _ Hi Hrun Hrun'). cbn [w_requests w_shared set_queues sh_queues]. rewrite lookup_insert_eq.
    split; [by eexists|exact Hs].
  - intros peer Ep. destruct (pi_placed _ _ Hinv i r Hi) as (id & Hid & Hpl); [unfold active; by rewrite Ep|].
    pose proof (request_id_active _ _ Hid) as [_ Es]. unfold placed in Hpl. rewrite Ep in Hpl. destruct Hpl as [rest Hc].
    unfold run_request in Hrun. rewrite Ep in Hrun. injection Hrun as <- <-.
    pose proof (run_leave lb c' (set_phase (Finishing (ch_result c)) r) (w_shared w) (peer_worker peer) id rest Done
      (pi_queues _ _ Hinv) eq_refl Es Hc) as Hrun'. unfold w'.
    assert (run_request lb c r (w_shared w) = (set_phase (Finishing (ch_result c)) r, w_shared w)) as Hrun
      by (unfold run_request; by rewrite Ep).
    rewrite (two_steps lb w i c c' r _ _ _ _ Hi Hrun Hrun').
    cbn [w_requests w_shared set_queues sh_queues]. rewrite lookup_insert_eq. split; [by eexists|]. intros worker.
    rewrite content_insert. destruct (decide (worker = peer_worker peer)) as [->|]; [by rewrite Hc|done].
Qed.

(** The counter after the connection of a request has failed [n] times. *)
Definition tries_after (lb : LoadBalancer) (n : nat) : TriesCounter :=
  Nat.iter n (λ ctx, (fail_to_connect lb ctx (error_new ConnectFailed)).2) new_ctx.

(** A failed connection is retried one time more than configured: the
    failures with the numbers 0 to [max_retries_per_request] ask for a retry,
    and the next one is final. *)
Theorem retries_one_more lb n :
  0 ≤ max_retries_per_request lb →
  err_retry (fail_to_connect lb (tries_after lb n) (error_new ConnectFailed)).1 = bool_decide (Z.of_nat n ≤ max_retries_per_request lb).
Proof.
  intros Hm. assert (tries (tries_after lb n) = Z.min (Z.of_nat n) (max_retries_per_request lb + 1)) as Ht.
  { unfold tries_after. induction n as [|n IH]; [cbn; lia|]. cbn [Nat.iter nat_rect]. revert IH.
    set (ctx := Nat.iter n _ _). intros IH. change (nat_rect _ _ _ n) with ctx. unfold fail_to_connect.
    destruct (Z.gtb_spec (tries ctx) (max_retries_per_request lb)); cbn [snd tries]; lia. }
  unfold fail_to_connect. rewrite Ht. destruct (Z.gtb_spec (Z.min (Z.of_nat n) (max_retries_per_request lb + 1)) (max_retries_per_request lb));
    cbn; case_bool_decide; lia.
Qed.

(** The id that is removed is the first of the queue in which the request is
    found, not that of the request. *)
Lemma remove_takes_first lb queues worker x rest id :
  wf_queues lb queues → content queues worker = x :: rest → id ∈ rest →
  remove_request_from_queue id queues = (Ok tt, <[worker := rest]> queues) ∧ id ∈ content (<[worker := rest]> queues) worker.
Proof.
  intros Hw Hc Hin. rewrite content_insert, decide_True by done. split; [|done].
  apply (remove_member lb _ _ id x); [done|done|by right].
Qed.

(** The header that the filter of upstream requests sets is the one it found. *)
Lemma upstream_request_filter_id headers : upstream_request_filter headers = headers.
Proof.
  unfold upstream_request_filter. destruct (headers !! _) as [ct|] eqn:E; [|done]. destruct (decide _) as [->|]; [|done]. by apply insert_id.
Qed.

End Proxy.

(** ** Witnesses *)

(** Workers are numbered, the pool is a round robin over two of them, and the rate
    limiter counts the requests of each client. *)
#[refine] Definition TwoWorkers : PingoraApi := {|
  Backend := nat;
  Pool := nat;
  select n := (Some (n mod 2)%nat, S n);
  ClientAddr := nat;
  Rate := gmap (option nat) Z;
  observe addr m := (default 0 (m !! addr) + 1, <[addr := default 0 (m !! addr) + 1]> m);
  default_options := Some (mkPeerOptions None None None None None H1);
  hash_iter m := map_to_list m
|}.
Proof. abstract done. Defined.
#[local] Existing Instance TwoWorkers.

Definition sample_balancer : LoadBalancer := balancer_new proxy_config_default.
Definition start : World := mkWorld (mkShared ∅ 0%nat ∅) ∅.
Definition choice (id : Z) : Choice := mkChoice id true true true None.
Definition plain_session : Session := mkSession (Some 7%nat) None None None.
Definition run_labels (l : list label) (w : World) : World := foldl (λ w l, exec sample_balancer l w) w l.

(** A decidable form of the freshness of labels. *)
Definition is_arrived (r : Request) : bool := match rq_phase r with Arrived => true | _ => false end.
Definition fresh_b (w : World) (l : label) : bool :=
  match l with
  | Arrive _ _ => true
  | Run i c => negb (from_option is_arrived false (w_requests w !! i)) ||
      bool_decide (map_Forall (λ _ r, request_id r ≠ Some (ch_random c)) (w_requests w))
  end.
Fixpoint labels_fresh (l : list label) (w : World) : bool :=
  match l with [] => true | x :: l => fresh_b w x && labels_fresh l (exec sample_balancer x w) end.
Lemma fresh_b_fresh w l : fresh_b w l = true → fresh w l.
Proof.
  destruct l as [i s|i c]; [done|]. intros Hf r Hi Ep j r' Hj. cbn [fresh_b] in Hf. rewrite Hi in Hf. cbn in Hf.
  unfold is_arrived in Hf. rewrite Ep in Hf. apply bool_decide_eq_true in Hf. exact (Hf j r' Hj).
Qed.
Lemma run_labels_reachable l w : reachable sample_balancer w → labels_fresh l w = true → reachable sample_balancer (run_labels l w).
Proof.
  revert w. induction l as [|x l IH]; intros w Hw Hl; [done|]. apply andb_true_iff in Hl as [Hx Hl].
  apply (IH (exec sample_balancer x w)); [|done]. by apply reach_step; [|apply fresh_b_fresh].
Qed.

(** Three requests in two queues: the first is connected to worker 0, the third
    waits behind it. *)
Definition queue_up (i : nat) : list label :=
  Arrive i plain_session :: replicate 5 (Run i (choice (100 + Z.of_nat i))).
Definition busy : World := run_labels (queue_up 0 ++ queue_up 1 ++ queue_up 2) start.
Lemma busy_reachable : reachable sample_balancer busy.
Proof. apply run_labels_reachable; [apply reach_start|]. vm_compute. reflexivity. Qed.

Definition busy_request (i : nat) : Request := default (mkRequest plain_session new_ctx Crashed) (w_requests busy !! i).
Lemma busy_lookup i : (i < 3)%nat → w_requests busy !! i = Some (busy_request i).
Proof. intros Hi. destruct i as [|[|[|i]]]; [vm_compute; reflexivity..|lia]. Qed.

Lemma worker_serves_one_witness :
  serving (busy_request 0) = Some 0%nat ∧ rq_phase (busy_request 2) = InPeer (PWait 0%nat) ∧
  content (sh_queues (w_shared busy)) 0%nat = [100; 102] ∧
  ∃ id, ss_request_id (rq_session (busy_request 0)) = Some id ∧ head (content (sh_queues (w_shared busy)) 0%nat) = Some id.
Proof.
  split; [vm_compute; reflexivity|]. split; [vm_compute; reflexivity|]. split; [vm_compute; reflexivity|].
  apply (proj1 (proj2 (worker_serves_one sample_balancer busy 0%nat busy_reachable)) 0%nat (busy_request 0));
    [apply busy_lookup; lia|vm_compute; reflexivity].
Defined.

(** A schedule that runs every request again and again. *)
Definition sample_sched (n : nat) : label := Run (zigzag n) (choice 0).

Lemma run_not_arrived lb c r sh : is_arrived (run_request lb c r sh).1 = false.
Proof.
  unfold run_request, is_arrived. destruct (rq_phase r) as [|pc|p|p|e| |] eqn:Ep; cbn [fst]; try done; try by rewrite Ep.
  - by destruct (request_filter _ _ _ _ _) as [[[[|]|e|] s] rate].
  - by destruct (upstream_peer _ _ _ _ _) as [[[|]|e|] sh'].
  - destruct (ch_connects c); [done|]. destruct (fail_to_connect _ _ _) as [e ctx]. by destruct (_ && _).
  - by destruct (logging _ _) as [[|e'|] q].
Qed.

Definition none_arrived (w : World) : Prop := map_Forall (λ _ r, is_arrived r = false) (w_requests w).
Lemma none_arrived_exec lb i c w : none_arrived w → none_arrived (exec lb (Run i c) w).
Proof.
  intros Hn. cbn [exec]. destruct (w_requests w !! i) as [r|]; [|done].
  pose proof (run_not_arrived lb c r (w_shared w)) as Hr. destruct (run_request lb c r (w_shared w)) as [r' sh'].
  by apply map_Forall_insert_2.
Qed.

Lemma sample_fair : fair_run sample_balancer sample_sched busy.
Proof.
  split.
  - intros i n. destruct (zigzag_fair i n) as (m & Hm & <-). exists m. split; [done|]. by eexists.
  - intros n. assert (none_arrived (run (exec sample_balancer) sample_sched busy n)) as Hn.
    + induction n as [|n IH]; [|by apply none_arrived_exec]. unfold none_arrived. apply (bool_decide_unpack _). vm_compute. exact I.
    + intros r Hi Ep. specialize (Hn _ r Hi). unfold is_arrived in Hn. by rewrite Ep in Hn.
Qed.

Lemma every_request_ends_witness :
  ∃ m r', (0 ≤ m)%nat ∧ w_requests (run (exec sample_balancer) sample_sched busy m) !! 2%nat = Some r' ∧ ended r' = true.
Proof.
  apply (every_request_ends sample_balancer busy sample_sched 2%nat 0%nat (busy_request 2) busy_reachable sample_fair).
  apply busy_lookup. lia.
Defined.

(** The sixth request of a client within a second. *)
Definition crowded : World :=
  run_labels (mjoin ((λ i, [Arrive i plain_session; Run i (choice (100 + Z.of_nat i))]) <$> seq 0 5) ++ [Arrive 5%nat plain_session]) start.
Lemma crowded_reachable : reachable sample_balancer crowded.
Proof. apply run_labels_reachable; [apply reach_start|]. vm_compute. reflexivity. Qed.

Lemma rejected_requests_panic_witness :
  ∃ r', w_requests (exec sample_balancer (Run 5%nat (choice 0)) (exec sample_balancer (Run 5%nat (choice 105)) crowded)) !! 5%nat = Some r' ∧
    rq_phase r' = Crashed.
Proof.
  refine (proj1 (proj1 (rejected_requests_panic sample_balancer crowded 5%nat (choice 105) (choice 0)
    (mkRequest plain_session new_ctx Arrived) crowded_reachable _ _) _)).
  - apply fresh_b_fresh. vm_compute. reflexivity.
  - vm_compute. reflexivity.
  - left. split; [reflexivity|]. vm_compute. reflexivity.
Defined.

Lemma retries_one_more_witness :
  err_retry (fail_to_connect sample_balancer (tries_after sample_balancer 1) (error_new ConnectFailed)).1 = true.
Proof. apply (retries_one_more sample_balancer 1). vm_compute. discriminate. Defined.
