(* ===== verification/Config.v ===== *)
(** * The command line of the proving service

    Models bin/tx-prover/src/commands/ (mod.rs, init.rs, proxy.rs, worker.rs) and
    utils.rs: the command that writes the configuration file, and the commands
    that start the proxy from it and a worker. The TOML library, the parser of
    socket addresses and the servers that run are third-party code: the first two
    are parameters, and a server is what it is started with. *)

From S2P Require Import Prelude Proxy.
From stdpp Require Import strings pretty.
Open Scope string_scope.
Open Scope Z_scope.

Definition PROVER_SERVICE_CONFIG_FILE_NAME : string := "miden-tx-prover.toml".

Class TomlApi := {
  toml_to_string : ProxyConfig → option string;
  toml_extract : string → option ProxyConfig;
  toml_roundtrip : ∀ c s, toml_to_string c = Some s → toml_extract s = Some c;
  (** Addresses that [try_from_iter] of the load balancer accepts. *)
  valid_address : string → bool
}.

Section Config.
  Context {T : TomlApi}.

Inductive CliError : Type := NoCurrentDir | AlreadyExists | FormatFailed | OpenFailed | WriteFailed | LoadFailed | BindFailed.

(** The files of the working directory; [None] when it cannot be found. *)
Abbreviation Files := (gmap string string).

(** [Init::execute]. The file is written with a single call of [write], which
    writes the first [written] bytes. *)
Definition init_execute (cwd : bool) (can_open : bool) (written : option nat) : mut Files CliError unit :=
  lift (fail_if (negb cwd) NoCurrentDir) ;;
  files ← get_self;
  lift (fail_if (bool_decide (is_Some (files !! PROVER_SERVICE_CONFIG_FILE_NAME))) AlreadyExists) ;;
  config_as_toml_string ← lift (ok_or FormatFailed (toml_to_string proxy_config_default));
  lift (fail_if (negb can_open) OpenFailed) ;;
  put_self (<[PROVER_SERVICE_CONFIG_FILE_NAME := ""]> files) ;;
  n ← lift (ok_or WriteFailed written);
  put_self (<[PROVER_SERVICE_CONFIG_FILE_NAME := String.substring 0 n config_as_toml_string]> files).

(** [load_config_from_file] *)
Definition load_config_from_file (cwd : bool) (files : Files) : res CliError ProxyConfig :=
  fail_if (negb cwd) NoCurrentDir ;;
  text ← ok_or LoadFailed (files !! PROVER_SERVICE_CONFIG_FILE_NAME);
  ok_or LoadFailed (toml_extract text).

Definition address (host : string) (port : Z) : string := host +:+ ":" +:+ pretty port.

(** What [StartProxy::execute] runs: the addresses of the workers, the balancer,
    and the address it listens on. *)
Record ProxyServer : Type := mkProxyServer { ps_workers : list string; ps_balancer : LoadBalancer; ps_address : string }.
Definition start_proxy (cwd : bool) (files : Files) : res CliError ProxyServer :=
  proxy_config ← load_config_from_file cwd files;
  let workers := (λ worker, address (wc_host worker) (wc_port worker)) <$> pc_workers proxy_config in
  if forallb valid_address workers
  then Ok (mkProxyServer workers (balancer_new proxy_config) (address (pc_host proxy_config) (pc_port proxy_config)))
  else Panic.

(** [StartWorker::execute]: the address that is bound. *)
Record StartWorker : Type := mkStartWorker { sw_host : string; sw_port : Z }.
Definition start_worker_default : StartWorker := mkStartWorker "0.0.0.0" 50051.
Definition start_worker (can_bind : string → bool) (w : StartWorker) : res CliError string :=
  let worker_addr := address (sw_host w) (sw_port w) in
  if can_bind worker_addr then Ok worker_addr else Err BindFailed.

(** [Cli::execute] *)
Inductive Command : Type := Init | StartWorkerCommand (w : StartWorker) | StartProxy.
Inductive Server : Type := NoServer | WorkerServer (address : string) | TheProxy (p : ProxyServer).
Definition cli_execute (cwd can_open : bool) (written : option nat) (can_bind : string → bool) (c : Command) : mut Files CliError Server :=
  match c with
  | StartWorkerCommand w => a ← lift (start_worker can_bind w); mret (WorkerServer a)
  | StartProxy => files ← get_self; p ← lift (start_proxy cwd files); mret (TheProxy p)
  | Init => init_execute cwd can_open written ;; mret NoServer
  end.

(** ** Properties *)

Lemma substring_full s n : (String.length s ≤ n)%nat → String.substring 0 n s = s.
Proof.
  revert n. induction s as [|c s IH]; intros n Hn; [by destruct n|]. destruct n as [|n]; [cbn in Hn; lia|]. cbn. f_equal. apply IH. cbn in Hn. lia.
Qed.

(** [init] creates the file only when there is none, and never changes an existing
    configuration. When all of the file is written, the proxy starts with the default
    configuration: the two workers on ports 8083 and 8084, listening on port 8082. *)
Theorem init_then_start cwd can_open written files text :
  toml_to_string proxy_config_default = Some text → files !! PROVER_SERVICE_CONFIG_FILE_NAME = None →
  (String.length text ≤ written)%nat →
  valid_address "0.0.0.0:8083" = true → valid_address "0.0.0.0:8084" = true →
  let r := init_execute cwd can_open (Some written) files in
  (is_ok r.1 = cwd && can_open) ∧
  (is_ok r.1 = true →
     start_proxy true r.2 = Ok (mkProxyServer ["0.0.0.0:8083"; "0.0.0.0:8084"] (balancer_new proxy_config_default) "0.0.0.0:8082") ∧
     ∀ cwd' can_open' written', (init_execute cwd' can_open' written' r.2).2 = r.2 ∧
       is_ok (init_execute cwd' can_open' written' r.2).1 = false) ∧
  (is_ok r.1 = false → r.2 = files).
Proof.
  intros Ht Hf Hn Ha Hb. cbv zeta. unfold init_execute, mbind, mut_bind, lift, get_self, put_self.
  destruct cwd; cbn [negb fail_if andb]; [|done]. rewrite Hf, bool_decide_eq_false_2 by (by intros [? [=]]). cbn [fail_if].
  rewrite Ht. cbn [ok_or]. destruct can_open; cbn [negb fail_if ok_or fst snd is_ok]; [|done].
  rewrite substring_full by done. split; [done|]. split; [|done]. intros _. split.
  - unfold start_proxy, load_config_from_file. rewrite lookup_insert_eq. cbn [negb fail_if mbind res_bind ok_or].
    rewrite (toml_roundtrip _ _ Ht). cbn [ok_or]. rewrite (res_bind_Ok _ _ proxy_config_default) by done.
    change ((λ worker, address (wc_host worker) (wc_port worker)) <$> pc_workers proxy_config_default) with ["0.0.0.0:8083"; "0.0.0.0:8084"].
    cbv zeta. cbn [forallb]. by rewrite Ha, Hb.
  - intros cwd' can_open' written'. destruct cwd'; cbn [negb fail_if]; [|done].
    rewrite lookup_insert_eq, bool_decide_eq_true_2 by done. done.
Qed.

(** A write of a part of the text is reported as success. *)
Lemma short_write_accepted n files text :
  toml_to_string proxy_config_default = Some text → files !! PROVER_SERVICE_CONFIG_FILE_NAME = None →
  init_execute true true (Some n) files = (Ok tt, <[PROVER_SERVICE_CONFIG_FILE_NAME := String.substring 0 n text]> files).
Proof.
  intros Ht Hf. unfold init_execute, mbind, mut_bind, lift, get_self, put_self. cbn [negb fail_if].
  by rewrite Hf, bool_decide_eq_false_2, Ht by (by intros [? [=]]).
Qed.
End Config.

(** ** Witness *)

(** A format with one text for the default configuration and none for others. *)
#[local] Instance WorkerConfig_eq_dec : EqDecision WorkerConfig.
Proof. solve_decision. Defined.
#[local] Instance ProxyConfig_eq_dec : EqDecision ProxyConfig.
Proof. solve_decision. Defined.
#[refine] Definition DefaultToml : TomlApi := {|
  toml_to_string c := if decide (c = proxy_config_default) then Some "default" else None;
  toml_extract s := if decide (s = "default") then Some proxy_config_default else None;
  valid_address _ := true
|}.
Proof. abstract (intros c s; destruct (decide (c = proxy_config_default)) as [->|]; [intros [= <-]; reflexivity|discriminate]). Defined.

Lemma init_then_start_witness :
  start_proxy (T:=DefaultToml) true (init_execute (T:=DefaultToml) true true (Some 7%nat) ∅).2 =
  Ok (mkProxyServer ["0.0.0.0:8083"; "0.0.0.0:8084"] (balancer_new proxy_config_default) "0.0.0.0:8082").
Proof.
  destruct (init_then_start (T:=DefaultToml) true true 7 ∅ "default") as (Hok & H & _);
    [vm_compute; reflexivity|reflexivity|vm_compute; lia|reflexivity|reflexivity|].
  exact (proj1 (H Hok)).
Defined.
