(* ===== verification/Remote.v ===== *)
(** * The proving service: workers and remote provers

    Models bin/tx-prover/src/api/mod.rs (the worker, which proves one transaction
    at a time), prover.rs (the client that lets a worker prove), the messages of
    generated/ and the errors of lib.rs. The transport between client and worker
    is a parameter. *)

From S2P Require Import Prelude Felt Crypto Serde Types AccountId Assets VaultDelta Vault StorageDelta Storage Code Account.
From S2P Require Import NoteMeta NoteContents Notes TxOutputs Merkle Chain TxInputs TxArgs Memory Kernel Blocks TxTracker TxHost TxProven TxExec.
From stdpp Require Import strings.
Open Scope Z_scope.

(** ** Messages *)

Record ProveTransactionRequest : Type := mkProveRequest { transaction_witness : bytes }.
Record ProveTransactionResponse : Type := mkProveResponse { proven_transaction : bytes }.

(** The codes of [tonic::Status] that the worker returns, and those of the transport. *)
Inductive Status : Type := ResourceExhausted | InvalidArgument | Internal | TransportStatus.

Inductive RemoteTransactionProverError : Type := InvalidEndpoint (endpoint : string) | ConnectionFailed (endpoint : string).

(** Connections to workers and calls over them; [Net] is the state of the
    network and of the workers behind it. *)
Class GrpcApi := {
  Net : Type;
  ApiClient : Type;
  client_connect : string → Net → option ApiClient;
  client_prove_transaction : ApiClient → ProveTransactionRequest → mut Net Status ProveTransactionResponse
}.

Section Remote.
  Context {F : FeltApi} {H : HasherApi} {S : SmtApi} {D : DigestOrd} {A : AsmApi} {P : ProgramApi}.
  Context {B : ByteIO} {SI : SmtIO} {M : MastIO} {N : NoteIO} {T : PathApi} {R : MmrApi} {V : AdviceInputsApi}.
  Context {K : StackApi} {O : NodesApi} {W : ProofApi} {FO : ForestApi}.
  Context {XR XM : AdviceApi} {PR : ProviderApi (X:=XR)} {PM : ProviderApi (X:=XM)} {VM : VmApi (XR:=XR) (XM:=XM)}.

(** [to_bytes] returns no error, but can panic. *)
Definition infallible {E X} (m : res Empty_set X) : res E X := map_err (λ e : Empty_set, match e with end) m.

(** ** The worker *)

(** The prover behind its mutex, and the calls that hold the mutex. *)
Record ProverRpcApi : Type := mkRpcApi { local_prover : LocalTransactionProver; lock_holders : list nat }.
Definition rpc_default : ProverRpcApi := mkRpcApi prover_default [].
Definition set_prover x (w : ProverRpcApi) := mkRpcApi x (lock_holders w).
Definition set_holders x (w : ProverRpcApi) := mkRpcApi (local_prover w) x.

(** [try_lock] by the call [i]; dropping the guard unlocks. *)
Definition rpc_try_lock (i : nat) : mut ProverRpcApi Status unit := λ w,
  match lock_holders w with
  | [] => (Ok tt, set_holders [i] w)
  | _ => (Err ResourceExhausted, w)
  end.
Definition rpc_unlock (i : nat) (w : ProverRpcApi) : ProverRpcApi := set_holders (filter (λ j, j ≠ i) (lock_holders w)) w.

(** What a call does while it holds the mutex. *)
Definition rpc_prove (debug : bool) (request : ProveTransactionRequest) : mut ProverRpcApi Status ProveTransactionResponse :=
  witness ← lift (map_err (λ _, InvalidArgument) (tx_witness_read (transaction_witness request)));
  proof ← on_field local_prover set_prover (mut_map_err (λ _, Internal) (local_prove debug witness.1));
  bytes ← lift (infallible (proven_write proof));
  mret (mkProveResponse bytes).

(** [ProverRpcApi::prove_transaction] from its start to its end. *)
Definition prove_transaction (debug : bool) (i : nat) (request : ProveTransactionRequest)
    : mut ProverRpcApi Status ProveTransactionResponse := λ w,
  match rpc_try_lock i w with
  | (Ok _, w) => let '(response, w) := rpc_prove debug request w in (response, rpc_unlock i w)
  | (Err e, w) => (Err e, w)
  | (Panic, w) => (Panic, w)
  end.

(** *** Concurrent calls

    Calls run on several threads: between the lock and the end of one call,
    others start and end. *)
Inductive call : Type := Waiting (request : ProveTransactionRequest) | Locked (request : ProveTransactionRequest)
  | Answered (request : ProveTransactionRequest) (response : res Status ProveTransactionResponse).
Record Service : Type := mkService { sv_worker : ProverRpcApi; sv_calls : gmap nat call }.

Definition call_step (debug : bool) (i : nat) (s : Service) : Service :=
  match sv_calls s !! i with
  | Some (Waiting request) =>
      match rpc_try_lock i (sv_worker s) with
      | (Ok _, w) => mkService w (<[i := Locked request]> (sv_calls s))
      | (Err e, w) => mkService w (<[i := Answered request (Err e)]> (sv_calls s))
      | (Panic, w) => mkService w (<[i := Answered request Panic]> (sv_calls s))
      end
  | Some (Locked request) =>
      let '(response, w) := rpc_prove debug request (sv_worker s) in
      mkService (rpc_unlock i w) (<[i := Answered request response]> (sv_calls s))
  | _ => s
  end.
Definition call_start (i : nat) (request : ProveTransactionRequest) (s : Service) : Service :=
  match sv_calls s !! i with
  | None => mkService (sv_worker s) (<[i := Waiting request]> (sv_calls s))
  | Some _ => s
  end.
Inductive service_step (debug : bool) (s : Service) : Service → Prop :=
  | service_call i : service_step debug s (call_step debug i s)
  | service_start i request : service_step debug s (call_start i request s).

(** ** The remote prover *)

(** [From<ProvenTransaction> for ProveTransactionResponse] and back. *)
Definition response_from_proven {E} (tx : ProvenTransaction) : res E ProveTransactionResponse :=
  bytes ← infallible (proven_write tx); Ok (mkProveResponse bytes).
Definition proven_try_from_response (response : ProveTransactionResponse) : res DeserializationError ProvenTransaction :=
  fst <$> proven_read (proven_transaction response).

  Context {G : GrpcApi}.

Record RemoteTransactionProver : Type := mkRemoteProver { rp_client : option ApiClient; rp_endpoint : string }.
Definition remote_new (endpoint : string) : RemoteTransactionProver := mkRemoteProver None endpoint.

(** The network is left as it is by connecting. *)
Definition remote_connect (net : Net) : mut RemoteTransactionProver RemoteTransactionProverError unit := λ rp,
  match rp_client rp with
  | Some _ => (Ok tt, rp)
  | None =>
      match client_connect (rp_endpoint rp) net with
      | Some new_client => (Ok tt, mkRemoteProver (Some new_client) (rp_endpoint rp))
      | None => (Err (ConnectionFailed (rp_endpoint rp)), rp)
      end
  end.

(** [RemoteTransactionProver::prove] *)
Definition remote_prove (tx_witness : TransactionWitness) : mut (RemoteTransactionProver * Net) TransactionProverError ProvenTransaction := λ '(rp, net),
  match remote_connect net rp with
  | (Ok _, rp) =>
      match (bytes ← infallible (tx_witness_write tx_witness); client ← expect_some (rp_client rp); Ok (bytes, client)) with
      | Ok (bytes, client) =>
          let '(response, net) := client_prove_transaction client (mkProveRequest bytes) net in
          ((response ← map_err (λ _, ProverInternalError) response;
            map_err (λ _, ProverInternalError) (proven_try_from_response response)), (rp, net))
      | Err e => (Err e, (rp, net))
      | Panic => (Panic, (rp, net))
      end
  | (Err _, rp) => (Err ProverInternalError, (rp, net))
  | (Panic, rp) => (Panic, (rp, net))
  end.

(** ** One call at a time *)

Inductive service_reachable (debug : bool) (p : LocalTransactionProver) : Service → Prop :=
  | service_begin : service_reachable debug p (mkService (mkRpcApi p []) ∅)
  | service_next s s' : service_reachable debug p s → service_step debug s s' → service_reachable debug p s'.

Definition is_locked (s : Service) (i : nat) : Prop := ∃ request, sv_calls s !! i = Some (Locked request).

(** The mutex is held by exactly the call that is proving. *)
Definition lock_inv (s : Service) : Prop :=
  (lock_holders (sv_worker s) = [] ∧ ∀ i, ¬ is_locked s i) ∨
  ∃ i, lock_holders (sv_worker s) = [i] ∧ is_locked s i ∧ ∀ j, is_locked s j → j = i.

Lemma rpc_prove_holders debug request w : lock_holders (rpc_prove debug request w).2 = lock_holders w.
Proof.
  unfold rpc_prove, mbind, mut_bind, lift, mret, mut_ret. destruct (tx_witness_read _) as [[witness rest]|e|]; cbn [map_err]; [|done..].
  unfold on_field, mut_map_err. destruct (local_prove debug _ _) as [[tx|e|] p']; cbn [map_err]; [|done..].
  by destruct (infallible (proven_write tx)).
Qed.

Lemma is_locked_insert s w i c j :
  is_locked (mkService w (<[i := c]> (sv_calls s))) j ↔ if decide (j = i) then ∃ request, c = Locked request else is_locked s j.
Proof.
  unfold is_locked. cbn [sv_calls]. destruct (decide (j = i)) as [->|Hne].
  - rewrite lookup_insert_eq. split; intros [r Hr]; exists r; congruence.
  - by rewrite lookup_insert_ne.
Qed.

(** The call that is proving answers and frees the mutex. *)
Lemma locked_answers debug s i request :
  lock_inv s → sv_calls s !! i = Some (Locked request) →
  sv_calls (call_step debug i s) !! i = Some (Answered request (rpc_prove debug request (sv_worker s)).1) ∧
  lock_holders (sv_worker (call_step debug i s)) = [] ∧ ∀ j, ¬ is_locked (call_step debug i s) j.
Proof.
  intros Hinv Hi. unfold call_step. rewrite Hi. assert (is_locked s i) as Hl' by (by exists request).
  destruct Hinv as [[_ Hn]|(k & Hk & Hl & Hu)]; [by destruct (Hn i)|]. pose proof (Hu i Hl') as <-.
  pose proof (rpc_prove_holders debug request (sv_worker s)) as Hh. destruct (rpc_prove debug request (sv_worker s)) as [response w].
  cbn [sv_calls sv_worker rpc_unlock lock_holders set_holders fst snd] in *. rewrite lookup_insert_eq, Hh, Hk. split_and!.
  - done.
  - by rewrite filter_cons_False by (by intros Hne).
  - intros j. rewrite is_locked_insert. destruct (decide (j = i)) as [->|Hne]; [by intros [? ?]|]. intros Hj. by apply Hne, Hu.
Qed.

Lemma lock_inv_step debug s i : lock_inv s → lock_inv (call_step debug i s).
Proof.
  intros Hinv. destruct (sv_calls s !! i) as [[request|request|request response]|] eqn:Hi.
  2: { left. by apply (locked_answers debug s i request). }
  2,3: unfold call_step; by rewrite Hi.
  unfold call_step, rpc_try_lock. rewrite Hi. assert (¬ is_locked s i) as Hno by (intros [r Hr]; congruence).
  destruct Hinv as [[-> Hn]|(k & Hk & Hl & Hu)].
  - right. exists i. cbn [sv_worker lock_holders set_holders]. split; [done|].
    rewrite is_locked_insert, decide_True by done. split; [by eexists|]. intros j.
    rewrite is_locked_insert. destruct (decide (j = i)); [done|]. intros Hj. by destruct (Hn j).
  - rewrite Hk. right. exists k. cbn [sv_worker]. assert (k ≠ i) by (intros ->; done).
    rewrite is_locked_insert, decide_False by done. split_and!; [done|done|]. intros j.
    rewrite is_locked_insert. destruct (decide (j = i)) as [->|]; [by intros [? ?]|apply Hu].
Qed.

Lemma service_reachable_inv debug p s : service_reachable debug p s → lock_inv s.
Proof.
  induction 1 as [|s s' _ IH Hs]; [left; split; [done|]; intros i [r Hr]; cbn [sv_calls] in Hr; by rewrite lookup_empty in Hr|].
  destruct Hs as [i|i request]; [by apply lock_inv_step|]. unfold call_start. destruct (sv_calls s !! i) eqn:Hi; [done|].
  assert (∀ j, is_locked (mkService (sv_worker s) (<[i := Waiting request]> (sv_calls s))) j ↔ is_locked s j) as Hsame.
  { intros j. rewrite is_locked_insert. destruct (decide (j = i)) as [->|]; [|done]. split; [by intros [? ?]|intros [r Hr]; congruence]. }
  destruct IH as [[Hh Hn]|(k & Hk & Hl & Hu)]; [left|right; exists k].
  - split; [done|]. intros j. rewrite Hsame. apply Hn.
  - split_and!; [done|by apply Hsame|]. intros j. rewrite Hsame. apply Hu.
Qed.

(** C34. A worker proves one transaction at a time. However calls are
    interleaved, at most one is proving. A call that starts while another is
    proving is answered with [ResourceExhausted] and changes nothing; a call that
    starts while none is proving gets to prove. The call that is proving answers
    in its next step with the result of the prover, and then none is proving. *)
Theorem worker_exclusive debug p s :
  service_reachable debug p s →
  (∀ i j, is_locked s i → is_locked s j → i = j) ∧
  (∀ i j request, sv_calls s !! i = Some (Waiting request) → is_locked s j →
     call_step debug i s = mkService (sv_worker s) (<[i := Answered request (Err ResourceExhausted)]> (sv_calls s))) ∧
  (∀ i request, sv_calls s !! i = Some (Waiting request) → (∀ j, ¬ is_locked s j) →
     sv_calls (call_step debug i s) !! i = Some (Locked request)) ∧
  (∀ i request, sv_calls s !! i = Some (Locked request) →
     sv_calls (call_step debug i s) !! i = Some (Answered request (rpc_prove debug request (sv_worker s)).1) ∧
     ∀ j, ¬ is_locked (call_step debug i s) j).
Proof.
  intros Hinv%service_reachable_inv. split_and!.
  - intros i j Hi Hj. destruct Hinv as [[_ Hn]|(k & _ & _ & Hu)]; [by destruct (Hn i)|]. by rewrite (Hu i Hi), (Hu j Hj).
  - intros i j request Hi Hj. unfold call_step, rpc_try_lock. rewrite Hi.
    destruct Hinv as [[_ Hn]|(k & Hk & _)]; [by destruct (Hn j)|]. by rewrite Hk.
  - intros i request Hi Hn. unfold call_step, rpc_try_lock. rewrite Hi.
    destruct Hinv as [[Hh _]|(k & _ & Hl & _)]; [|by destruct (Hn k)]. rewrite Hh. cbn [sv_calls]. by rewrite lookup_insert_eq.
  - intros i request Hi. by destruct (locked_answers debug s i request Hinv Hi) as (? & _ & ?).
Qed.

(** ** Remote proving *)

(** The client reaches a worker: a connection exists or can be made, and the
    answers of calls are those of the worker, unless its handler panics. *)
Definition reaches (rp : RemoteTransactionProver) (net : Net) (i : nat) (worker : ProverRpcApi) : Prop :=
  ∃ client, (rp_client rp = Some client ∨ rp_client rp = None ∧ client_connect (rp_endpoint rp) net = Some client) ∧
    ∀ request, (prove_transaction false i request worker).1 ≠ Panic →
      (client_prove_transaction client request net).1 = (prove_transaction false i request worker).1.

Lemma reaches_client rp net i worker :
  reaches rp net i worker →
  ∃ client, remote_connect net rp = (Ok tt, mkRemoteProver (Some client) (rp_endpoint rp)) ∧
    ∀ request, (prove_transaction false i request worker).1 ≠ Panic →
      (client_prove_transaction client request net).1 = (prove_transaction false i request worker).1.
Proof.
  intros (client & Hc & Hcall). exists client. split; [|done]. unfold remote_connect. destruct rp as [c endpoint]. cbn in *.
  destruct Hc as [-> |[-> ->]]; done.
Qed.

(** The result of a call, from what the worker answers to the bytes of the witness. *)
Lemma remote_prove_answer rp net i worker w bs :
  reaches rp net i worker → tx_witness_write (E:=Empty_set) w = Ok bs → (prove_transaction false i (mkProveRequest bs) worker).1 ≠ Panic →
  (remote_prove w (rp, net)).1 =
    (response ← map_err (λ _, ProverInternalError) (prove_transaction false i (mkProveRequest bs) worker).1;
     map_err (λ _, ProverInternalError) (proven_try_from_response response)).
Proof.
  intros (client & Hc & Hcall)%reaches_client Hw Hp. unfold remote_prove. rewrite Hc. cbn [rp_client].
  rewrite Hw. cbn [infallible map_err expect_some mbind res_bind].
  specialize (Hcall _ Hp). destruct (client_prove_transaction _ _ _) as [response net']. cbn [fst] in *. by rewrite Hcall.
Qed.

(** The verifier reads the ids, hashes, commitments and the proof, not the details. *)
Lemma verify_details v tx u :
  tx_update_equiv u (pt_account_update tx) → verify_transaction v (set_pt_update u tx) = verify_transaction v tx.
Proof. intros (E1 & E2 & E3 & _). unfold verify_transaction, set_pt_update. cbn. by rewrite E1, E2, E3. Qed.

(** C13. Remote proving is local proving. The witness that a client sends
    reaches a worker with an account that is the same up to the contents of its
    trees; a worker that is busy makes the client fail, and otherwise the client
    gets what the worker's prover returns for this witness: an error for an
    error, and for a well-formed proven transaction the same transaction, with
    the same id and the same answer from every verifier. *)
Theorem remote_prove_is_local rp net i worker w :
  wf_tx_witness w → reaches rp net i worker →
  ∃ bs w' rest, tx_witness_write (E:=Empty_set) w = Ok bs ∧ tx_witness_read bs = Ok (w', rest) ∧
    (∃ a, account_equiv a (ti_account (tw_tx_inputs w)) ∧ w' = set_tw_account a w) ∧
    match lock_holders worker with
    | [] =>
        match (local_prove false w' (local_prover worker)).1 with
        | Ok ptx => wf_proven ptx →
            ∃ u, tx_update_equiv u (pt_account_update ptx) ∧ (remote_prove w (rp, net)).1 = Ok (set_pt_update u ptx) ∧
              ∀ v, verify_transaction v (set_pt_update u ptx) = verify_transaction v ptx
        | Err _ => (remote_prove w (rp, net)).1 = Err ProverInternalError
        | Panic => True
        end
    | _ => (remote_prove w (rp, net)).1 = Err ProverInternalError
    end.
Proof.
  intros Hw Hr. destruct (tx_witness_read_back w Hw) as (bs & Hwr & Hread). destruct (Hread []) as (a & Ha & Hrd).
  rewrite app_nil_r in Hrd. exists bs, (set_tw_account a w), []. split; [done|]. split; [done|]. split; [by exists a|].
  pose proof (remote_prove_answer rp net i worker w bs Hr Hwr) as Hans. revert Hans. unfold prove_transaction, rpc_try_lock.
  destruct (lock_holders worker) as [|k ks]; [|intros ->; done].
  unfold rpc_prove, mbind, mut_bind, lift, mret, mut_ret, on_field, mut_map_err. cbn [transaction_witness local_prover set_holders].
  rewrite Hrd. cbn [map_err fst]. destruct (local_prove false (set_tw_account a w) (local_prover worker)) as [[ptx|e|] p'];
    cbn [map_err fst]; [|by intros ->|done].
  intros Hans Hwf. destruct (proven_read_back ptx Hwf) as (bs' & Hwr' & Hread'). destruct (Hread' []) as (u & Hu & Hrd').
  rewrite app_nil_r in Hrd'. rewrite Hwr' in Hans. cbn [infallible map_err fst] in Hans. exists u. split; [done|]. split.
  - rewrite Hans by done. cbn [map_err res_bind mbind]. unfold proven_try_from_response. cbn [proven_transaction]. by rewrite Hrd'.
  - intros v. by apply verify_details.
Qed.

End Remote.

(** ** Witnesses *)

#[local] Existing Instance Goldilocks.
#[local] Existing Instance ToyHasher.
#[local] Existing Instance MapTree.
#[local] Existing Instance CodeOrd.
#[local] Existing Instance PlainIO.
#[local] Existing Instance MapTreeIO.
#[local] Existing Instance RootsAsm.
#[local] Existing Instance RootsIO.
#[local] Existing Instance RootsProgram.
#[local] Existing Instance PlainNoteIO.
#[local] Existing Instance ListPath.
#[local] Existing Instance ListMmr.
#[local] Existing Instance ListAdvice.
#[local] Existing Instance ListStack.
#[local] Existing Instance PlainNodes.
#[local] Existing Instance PlainProof.
#[local] Existing Instance MapAdvice.
#[local] Existing Instance RootsForest.
#[local] Existing Instance MapProvider.
#[local] Existing Instance NonceVm.

(** Clients talk to one worker directly. *)
Definition DirectGrpc : GrpcApi := {|
  Net := ProverRpcApi;
  ApiClient := unit;
  client_connect _ _ := Some tt;
  client_prove_transaction _ request := prove_transaction false 0 request
|}.
#[local] Existing Instance DirectGrpc.

Lemma code_witness_wf : wf_tx_witness code_witness.
Proof. constructor; [exact sample_tx_inputs_wf| |constructor|reflexivity]. split; [done|reflexivity]. Qed.

Definition direct_prover : RemoteTransactionProver := remote_new "http://0.0.0.0:8082".
Lemma direct_reaches : reaches direct_prover rpc_default 0 rpc_default.
Proof. exists tt. split; [right; split; reflexivity|]. intros request _. reflexivity. Qed.

(** The witness as the worker reads it, and what its prover returns. *)
Definition received_witness : TransactionWitness :=
  match tx_witness_write (E:=Empty_set) code_witness with
  | Ok bs => match tx_witness_read bs with Ok (w, _) => w | _ => code_witness end
  | _ => code_witness
  end.
Definition received_proof : ProvenTransaction :=
  match (local_prove false received_witness prover_default).1 with Ok ptx => ptx | _ => sample_proven end.
Lemma received_proof_Ok : (local_prove false received_witness prover_default).1 = Ok received_proof.
Proof.
  unfold received_proof. assert (is_ok (local_prove false received_witness prover_default).1 = true) as Hok by (vm_compute; reflexivity).
  by destruct (local_prove false received_witness prover_default).1.
Qed.

(** The same as one test. *)
Definition check_proven (tx : ProvenTransaction) : bool :=
  let u := pt_account_update tx in
  bool_decide (valid_id (tu_account_id u)) &&
  match is_public (E:=ProvenTransactionError) (tu_account_id u) with Ok false => true | _ => false end &&
  match tu_details u with PrivateUpdate => true | _ => false end &&
  forallb (λ c, match ic_header c with None => true | _ => false end) (in_notes (pt_input_notes tx)) &&
  bool_decide (Z.of_nat (length (in_notes (pt_input_notes tx))) ≤ MAX_INPUT_NOTES_PER_TX) &&
  bool_decide (NoDup (to_nullifier <$> in_notes (pt_input_notes tx))) &&
  bool_decide (in_commitment (pt_input_notes tx) = build_input_note_commitment (in_notes (pt_input_notes tx))) &&
  match on_notes (pt_output_notes tx) with [] => true | _ => false end &&
  bool_decide (on_commitment (pt_output_notes tx) = build_output_notes_commitment []) &&
  bool_decide (0 ≤ pt_expiration_block_num tx < 2 ^ 32) &&
  bool_decide (pt_id tx = tx_id_new (tu_init_state_hash u) (tu_final_state_hash u) (in_commitment (pt_input_notes tx))
    (on_commitment (pt_output_notes tx))).

Lemma check_proven_wf tx : check_proven tx = true → wf_proven tx.
Proof.
  unfold check_proven. cbv zeta. rewrite !andb_true_iff, !bool_decide_eq_true. intros [[[[[[[[[[H1 H2] H3] H4] H5] H6] H7] H8] H9] H10] H11].
  assert (tu_details (pt_account_update tx) = PrivateUpdate) as Hd by (by destruct (tu_details _)).
  assert (is_public (E:=ProvenTransactionError) (tu_account_id (pt_account_update tx)) = Ok false) as Hp
    by (by destruct (is_public _) as [[]| |]).
  constructor; [done|by rewrite Hd| | |done|done|by apply (proven_validate_Ok tx tx false Hp)].
  - split; [|apply input_notes_new_Ok; split_and!; [done|done|by destruct (pt_input_notes tx); cbn in *; subst]].
    apply Forall_forall. intros c Hc h Hh. apply (proj1 (forallb_forall _ _)) with (x:=c) in H4; [by rewrite Hh in H4|by apply list_elem_of_In].
  - destruct (pt_output_notes tx) as [[|] commitment]; [|done]. cbn in H9. subst. split; [constructor|].
    apply output_notes_new_Ok. split_and!; [cbn; unfold MAX_OUTPUT_NOTES_PER_TX; lia|constructor|done].
Qed.
Lemma received_proof_wf : wf_proven received_proof.
Proof. apply check_proven_wf. vm_compute. reflexivity. Qed.

Lemma remote_prove_is_local_witness :
  ∃ u, (remote_prove code_witness (direct_prover, rpc_default)).1 = Ok (set_pt_update u received_proof) ∧
    is_ok (verify_transaction (verifier_new 96) (set_pt_update u received_proof)) = true.
Proof.
  destruct (remote_prove_is_local direct_prover rpc_default 0 rpc_default code_witness code_witness_wf direct_reaches)
    as (bs & w' & rest & Hw & Hr & _ & Hcase).
  assert (w' = received_witness) as -> by (unfold received_witness; rewrite Hw, Hr; reflexivity).
  cbn [lock_holders rpc_default local_prover] in Hcase. rewrite received_proof_Ok in Hcase.
  destruct (Hcase received_proof_wf) as (u & _ & Hp & Hv). exists u. split; [exact Hp|]. rewrite Hv. vm_compute. reflexivity.
Defined.

(** Two calls: the first is proving when the second starts. *)
Definition busy_service : Service :=
  call_step false 0 (call_start 1 (mkProveRequest [2]) (call_start 0 (mkProveRequest [1]) (mkService rpc_default ∅))).
Lemma busy_service_reachable : service_reachable false prover_default busy_service.
Proof.
  eapply service_next; [|apply service_call]. eapply service_next; [|apply service_start]. eapply service_next; [|apply service_start].
  apply service_begin.
Qed.

Lemma worker_exclusive_witness :
  sv_calls (call_step false 1 busy_service) !! 1%nat = Some (Answered (mkProveRequest [2]) (Err ResourceExhausted)).
Proof.
  rewrite (proj1 (proj2 (worker_exclusive false prover_default busy_service busy_service_reachable)) 1%nat 0%nat (mkProveRequest [2])).
  - reflexivity.
  - reflexivity.
  - exists (mkProveRequest [1]). reflexivity.
Defined.
