(* ===== verification/MockChain.v ===== *)
(** * The mock chain

    Models miden-tx/src/testing/mock_chain.rs, the chain that the testing feature
    provides in place of a node: it collects new accounts, notes and executed
    transactions, seals them into blocks, keeps the trees of the chain, and
    assembles the inputs of transactions. The Merkle mountain range of all blocks
    and the sparse tree of the accounts come from miden-crypto. *)

From S2P Require Import Prelude Felt Crypto Serde Types AccountId Assets VaultDelta Vault StorageDelta Storage.
From S2P Require Import Code Account NoteMeta NoteContents Notes TxOutputs Merkle Chain TxInputs TxArgs Blocks Memory.
From S2P Require Import Kernel TxTracker TxHost TxProven TxExec.
Open Scope Z_scope.

Definition TIMESTAMP_START : Z := 1693348223.
Definition TIMESTAMP_STEP : Z := 10.
Definition ACCOUNT_TREE_DEPTH : Z := 64.

(** [Mmr], the range of all leaves: [add] appends a leaf, [peaks_at] gives the
    peaks that the range had with fewer leaves, and [open_at] the path of a leaf
    in that range. A partial range made [from_peaks] can [track] the leaves whose
    paths it is given. All of them are functions of the leaves. [SimpleSmt::insert]
    replaces one leaf. *)
Class MmrFullApi {F : FeltApi} {B : ByteIO} {N : NoteIO} {T : PathApi} {Q : SimpleSmtApi} {R : MmrApi} := {
  Mmr : Type;
  MmrError : Type;
  full_new : Mmr;
  full_add : Digest → Mmr → Mmr;
  full_forest : Mmr → Z;
  full_peaks : Mmr → MmrPeaks;
  full_peaks_at : Mmr → Z → res MmrError MmrPeaks;
  full_get : Mmr → Z → res MmrError Digest;
  full_open_at : Mmr → Z → Z → res MmrError MerklePath;
  partial_from_peaks : MmrPeaks → PartialMmr;
  partial_track : Z → Digest → MerklePath → mut PartialMmr MmrError unit;
  ssmt_insert : ∀ {depth}, SimpleSmt depth → Z → Word → SimpleSmt depth;
  full_leaves : Mmr → list Digest;
  peaks_of : list Digest → MmrPeaks;
  leaf_path : list Digest → nat → MerklePath;
  full_new_leaves : full_leaves full_new = [];
  full_add_leaves : ∀ m d, full_leaves (full_add d m) = full_leaves m ++ [d];
  full_forest_spec : ∀ m, full_forest m = Z.of_nat (length (full_leaves m));
  full_peaks_spec : ∀ m, full_peaks m = peaks_of (full_leaves m);
  full_peaks_at_spec : ∀ m (f : nat), (f ≤ length (full_leaves m))%nat →
    full_peaks_at m (Z.of_nat f) = Ok (peaks_of (take f (full_leaves m)));
  full_peaks_at_too_big : ∀ m f, full_forest m < f → ∃ e, full_peaks_at m f = Err e;
  full_get_spec : ∀ m (i : nat) d, full_leaves m !! i = Some d → full_get m (Z.of_nat i) = Ok d;
  full_open_at_spec : ∀ m (i f : nat), (i < f ≤ length (full_leaves m))%nat →
    full_open_at m (Z.of_nat i) (Z.of_nat f) = Ok (leaf_path (take f (full_leaves m)) i);
  (** A partial range has the given peaks and their number of leaves. *)
  partial_from_peaks_spec : ∀ l, Z.of_nat (length l) < 2 ^ 64 →
    mmr_peaks (partial_from_peaks (peaks_of l)) = peaks_of l ∧
    mmr_forest (partial_from_peaks (peaks_of l)) = Z.of_nat (length l);
  (** Tracking a leaf with its path succeeds and changes nothing else. *)
  partial_track_spec : ∀ l (i : nat) d p, Z.of_nat (length l) < 2 ^ 64 →
    mmr_peaks p = peaks_of l → mmr_forest p = Z.of_nat (length l) → l !! i = Some d →
    ∃ p', partial_track (Z.of_nat i) d (leaf_path l i) p = (Ok tt, p') ∧
      mmr_peaks p' = peaks_of l ∧ mmr_forest p' = Z.of_nat (length l) ∧
      mmr_is_tracked p' (Z.of_nat i) = true ∧ ∀ j, mmr_is_tracked p j = true → mmr_is_tracked p' j = true;
  ssmt_insert_get : ∀ depth (t : SimpleSmt depth) i w j, 0 ≤ i < 2 ^ depth → 0 ≤ j < 2 ^ depth →
    ssmt_get_leaf (ssmt_insert t i w) j = if decide (i = j) then w else ssmt_get_leaf t j;
  ssmt_new_get : ∀ depth i, ssmt_get_leaf (ssmt_new depth) i = EMPTY_WORD
}.

Section MockChain.
  Context {F : FeltApi} {H : HasherApi} {S : SmtApi} {D : DigestOrd} {A : AsmApi} {P : ProgramApi}.
  Context {B : ByteIO} {N : NoteIO} {T : PathApi} {R : MmrApi} {V : AdviceInputsApi}.
  Context {KI : KeyIO} {G : FalconApi} {Q : SimpleSmtApi} {U : MmrFullApi}.
  (** Whether arithmetic overflow is checked. *)
  Context (overflow_checks : bool).

(** ** State *)

Record MockAccount : Type := mkMockAccount {
  ma_account : Account;
  ma_seed : option Word;
  ma_authenticator : option BasicAuthenticator
}.

#[local] Abbreviation NoteBatch := (list OutputNote).

Record PendingObjects : Type := mkPending {
  po_updated_accounts : list BlockAccountUpdate;
  po_output_note_batches : list NoteBatch;
  po_created_nullifiers : list Digest;
  po_included_transactions : list (Digest * AccountId)
}.
Definition pending_new : PendingObjects := mkPending [] [] [] [].

(** [PendingObjects::build_note_tree] *)
Definition pending_note_tree {E} (p : PendingObjects) : res E BlockNoteTree :=
  entries ← notes_from 0 (po_output_note_batches p);
  expect_ok (note_tree_with_entries ((λ x, (x.1, output_id x.2, output_metadata x.2)) <$> entries)).

Record MockChain : Type := mkMockChain {
  mc_chain : Mmr;
  mc_blocks : list Block;
  mc_nullifiers : Smt;
  mc_accounts : SimpleSmt ACCOUNT_TREE_DEPTH;
  mc_pending_objects : PendingObjects;
  mc_available_notes : gmap Digest InputNote;
  mc_available_accounts : gmap AccountId MockAccount;
  mc_removed_notes : list Digest
}.
Definition mock_chain_new : MockChain :=
  mkMockChain full_new [] smt_new (ssmt_new ACCOUNT_TREE_DEPTH) pending_new ∅ ∅ [].

Definition set_mc_pending x (c : MockChain) :=
  mkMockChain (mc_chain c) (mc_blocks c) (mc_nullifiers c) (mc_accounts c) x (mc_available_notes c)
    (mc_available_accounts c) (mc_removed_notes c).
Definition set_mc_nullifiers x (c : MockChain) :=
  mkMockChain (mc_chain c) (mc_blocks c) x (mc_accounts c) (mc_pending_objects c) (mc_available_notes c)
    (mc_available_accounts c) (mc_removed_notes c).
Definition set_mc_accounts x (c : MockChain) :=
  mkMockChain (mc_chain c) (mc_blocks c) (mc_nullifiers c) x (mc_pending_objects c) (mc_available_notes c)
    (mc_available_accounts c) (mc_removed_notes c).
Definition set_mc_notes x (c : MockChain) :=
  mkMockChain (mc_chain c) (mc_blocks c) (mc_nullifiers c) (mc_accounts c) (mc_pending_objects c) x
    (mc_available_accounts c) (mc_removed_notes c).
Definition set_mc_available x (c : MockChain) :=
  mkMockChain (mc_chain c) (mc_blocks c) (mc_nullifiers c) (mc_accounts c) (mc_pending_objects c)
    (mc_available_notes c) x (mc_removed_notes c).
Definition set_mc_removed x (c : MockChain) :=
  mkMockChain (mc_chain c) (mc_blocks c) (mc_nullifiers c) (mc_accounts c) (mc_pending_objects c)
    (mc_available_notes c) (mc_available_accounts c) x.

(** ** Pending objects *)

Definition push_update (u : BlockAccountUpdate) (c : MockChain) : MockChain :=
  let p := mc_pending_objects c in
  set_mc_pending (mkPending (po_updated_accounts p ++ [u]) (po_output_note_batches p) (po_created_nullifiers p)
    (po_included_transactions p)) c.
Definition push_batch (b : NoteBatch) (c : MockChain) : MockChain :=
  let p := mc_pending_objects c in
  set_mc_pending (mkPending (po_updated_accounts p) (po_output_note_batches p ++ [b]) (po_created_nullifiers p)
    (po_included_transactions p)) c.
Definition push_nullifier (n : Digest) (c : MockChain) : MockChain :=
  let p := mc_pending_objects c in
  set_mc_pending (mkPending (po_updated_accounts p) (po_output_note_batches p) (po_created_nullifiers p ++ [n])
    (po_included_transactions p)) c.
Definition push_transaction (t : Digest * AccountId) (c : MockChain) : MockChain :=
  let p := mc_pending_objects c in
  set_mc_pending (mkPending (po_updated_accounts p) (po_output_note_batches p) (po_created_nullifiers p)
    (po_included_transactions p ++ [t])) c.

Definition mock_add_executed_transaction {E} (transaction : ExecutedTransaction) : mut MockChain E unit := λ c,
  match account_apply_delta (et_account_delta transaction) (ti_account (et_tx_inputs transaction)) with
  | (Ok _, account) =>
      let id := executed_id transaction in
      let account_id := acct_id (ti_account (et_tx_inputs transaction)) in
      let c := push_update (mkAccountUpdate account_id (account_hash account) (NewUpdate account) [id]) c in
      let c := foldl (λ c note,
                 let c := push_nullifier (to_nullifier note) c in
                 set_mc_removed (mc_removed_notes c ++ [input_id note]) c)
                 c (in_notes (ti_input_notes (et_tx_inputs transaction))) in
      let c := push_batch (on_notes (to_output_notes (et_tx_outputs transaction))) c in
      (Ok tt, push_transaction (id, account_id) c)
  | _ => (Panic, c)
  end.

Definition mock_add_note (note : Note) : MockChain → MockChain := push_batch [Full note].
Definition mock_add_nullifier : Digest → MockChain → MockChain := push_nullifier.
Definition mock_add_account (account : Account) : MockChain → MockChain :=
  push_update (mkAccountUpdate (acct_id account) (account_hash account) (NewUpdate account) []).

(** ** Sealing a block *)

Definition last_header (c : MockChain) : option BlockHeader := blk_header <$> last (mc_blocks c).

Definition seal_block_num {E} (c : MockChain) (block_num : option Z) : res E Z :=
  next_block_num ← match last_header c with None => Ok 0 | Some h => u32_add overflow_checks (bh_block_num h) 1 end;
  match block_num with
  | Some input_block_num => if input_block_num <? next_block_num then Panic else Ok input_block_num
  | None => Ok next_block_num
  end.

(** The body of the loop over the account updates. *)
Definition seal_update {E} (update : BlockAccountUpdate) : mut MockChain E unit := λ c,
  let c := set_mc_accounts (ssmt_insert (mc_accounts c) (account_id_leaf_index (au_account_id update))
             (au_new_state_hash update)) c in
  match mc_available_accounts c !! au_account_id update with
  | None => (Ok tt, c)
  | Some mock_account =>
      match au_details update with
      | NewUpdate account =>
          (Ok tt, set_mc_available (<[au_account_id update :=
             mkMockAccount account (ma_seed mock_account) (ma_authenticator mock_account)]> (mc_available_accounts c)) c)
      | _ => (Panic, c)
      end
  end.
Definition seal_nullifier (block_num : Z) (c : MockChain) (nullifier : Digest) : MockChain :=
  set_mc_nullifiers (smt_insert (mc_nullifiers c) nullifier (mkWord (felt_new block_num) ZERO ZERO ZERO)).1 c.

Definition seal_header {E} (c : MockChain) (block_num : Z) (note_root : Digest) : res E BlockHeader :=
  let chain_root := hash_peaks (full_peaks (mc_chain c)) in
  let account_root := ssmt_root (mc_accounts c) in
  let prev_hash := match last_header c with None => EMPTY_WORD | Some h => bh_hash h end in
  let nullifier_root := smt_root (mc_nullifiers c) in
  timestamp ← match last_header c with
              | None => Ok TIMESTAMP_START
              | Some h => u32_add overflow_checks (bh_timestamp h) TIMESTAMP_STEP
              end;
  let tx_hash := compute_tx_hash (po_included_transactions (mc_pending_objects c)) in
  kernel_root ← kernel_root;
  Ok (block_header_new 0 prev_hash block_num chain_root account_root nullifier_root note_root tx_hash kernel_root
    EMPTY_WORD timestamp).

(** The body of the loops over the notes of a block, with the index that
    [BlockNoteIndex::new] is called with. *)
Definition seal_note {E} (block_num : Z) (notes_tree : BlockNoteTree) (batch_index note_index : Z) (note : OutputNote)
    : mut MockChain E unit := λ c,
  match note with
  | Full note =>
      match (index ← expect_ok (note_index_new batch_index note_index);
             note_path ← get_note_path notes_tree index;
             i ← leaf_index_value index;
             expect_ok (inclusion_proof_new block_num i note_path)) with
      | Ok proof => (Ok tt, set_mc_notes (<[note_id note := Authenticated note proof]> (mc_available_notes c)) c)
      | Err e => (Err e, c)
      | Panic => (Panic, c)
      end
  | _ => (Ok tt, c)
  end.
Fixpoint seal_batch {E} (block_num : Z) (notes_tree : BlockNoteTree) (batch_index note_index : Z) (batch : NoteBatch)
    : mut MockChain E unit :=
  match batch with
  | [] => mret tt
  | note :: batch' =>
      seal_note block_num notes_tree batch_index note_index note ;;
      seal_batch block_num notes_tree batch_index (note_index + 1) batch'
  end.
Fixpoint seal_batches {E} (block_num : Z) (notes_tree : BlockNoteTree) (batch_index : Z) (batches : list NoteBatch)
    : mut MockChain E unit :=
  match batches with
  | [] => mret tt
  | batch :: batches' =>
      seal_batch block_num notes_tree batch_index 0 batch ;;
      seal_batches block_num notes_tree (batch_index + 1) batches'
  end.

(** The last part of [seal_block], with [reset_pending]. *)
Definition reset_pending (c : MockChain) : MockChain := set_mc_removed [] (set_mc_pending pending_new c).
Definition seal_finish (block : Block) (c : MockChain) : MockChain :=
  let c := set_mc_notes (foldl (λ m id, delete id m) (mc_available_notes c) (mc_removed_notes c)) c in
  reset_pending (mkMockChain (full_add (block_hash block) (mc_chain c)) (mc_blocks c ++ [block]) (mc_nullifiers c)
    (mc_accounts c) (mc_pending_objects c) (mc_available_notes c) (mc_available_accounts c) (mc_removed_notes c)).

Definition seal_block {E} (block_num : option Z) : mut MockChain E Block :=
  c ← get_self;
  let p := mc_pending_objects c in
  block_num ← lift (seal_block_num c block_num);
  for_each (po_updated_accounts p) seal_update ;;
  c ← get_self;
  put_self (foldl (seal_nullifier block_num) c (po_created_nullifiers p)) ;;
  notes_tree ← lift (pending_note_tree p);
  c ← get_self;
  header ← lift (seal_header c block_num (note_tree_root notes_tree));
  block ← lift (expect_ok (block_new header (po_updated_accounts p) (po_output_note_batches p) (po_created_nullifiers p)));
  seal_batches (bh_block_num (blk_header block)) notes_tree 0 (po_output_note_batches p) ;;
  c ← get_self;
  put_self (seal_finish block c) ;;
  mret block.

(** ** Inputs of transactions *)

(** The loop of [mmr_to_chain_mmr]. *)
Fixpoint track_from (mmr : Mmr) (target_forest : Z) (i : Z) (n : nat) : mut PartialMmr MmrError unit :=
  match n with
  | O => mret tt
  | Datatypes.S n' =>
      node ← lift (full_get mmr i);
      path ← lift (full_open_at mmr i target_forest);
      partial_track i node path ;;
      track_from mmr target_forest (i + 1) n'
  end.
Definition mmr_to_chain_mmr (mmr : Mmr) (blocks : list BlockHeader) : res MmrError ChainMmr :=
  target_forest ← (if full_forest mmr =? 0 then if overflow_checks then Panic else Ok U64_MAX
                   else Ok (full_forest mmr - 1));
  peaks ← full_peaks_at mmr target_forest;
  let '(r, partial_mmr) := track_from mmr target_forest 0 (Z.to_nat target_forest) (partial_from_peaks peaks) in
  r ;; expect_ok (chain_mmr_new partial_mmr blocks).

(** The loop of [get_transaction_inputs] over the notes. *)
Fixpoint collect_notes {E} (c : MockChain) (notes : list Digest) (headers : gmap Z BlockHeader)
    : res E (list InputNote * gmap Z BlockHeader) :=
  match notes with
  | [] => Ok ([], headers)
  | note :: notes' =>
      input_note ← expect_some (mc_available_notes c !! note);
      location ← expect_some (input_location input_note);
      let note_block_num := block_num location in
      block ← expect_some (mc_blocks c !! Z.to_nat note_block_num);
      rest ← collect_notes c notes' (<[note_block_num := blk_header block]> headers);
      Ok (input_note :: rest.1, rest.2)
  end.
Definition mock_transaction_inputs {E} (c : MockChain) (account : Account) (account_seed : option Word) (notes : list Digest)
    : res E TransactionInputs :=
  block_header ← expect_some (last_header c);
  collected ← collect_notes c notes ∅;
  let '(input_notes, block_headers_map) := collected in
  mmr ← expect_ok (mmr_to_chain_mmr (mc_chain c) (btree_iter Z.leb block_headers_map).*2);
  input_notes ← expect_ok (input_notes_new input_notes);
  expect_ok (tx_inputs_new account account_seed block_header mmr input_notes).

(** [MockChain::chain], [block_header] and [available_notes] *)
Definition mock_chain_mmr {E} (c : MockChain) : res E ChainMmr :=
  expect_ok (mmr_to_chain_mmr (mc_chain c) (blk_header <$> mc_blocks c)).
Definition mock_block_header {E} (c : MockChain) (block_number : Z) : res E BlockHeader :=
  blk_header <$> expect_some (mc_blocks c !! Z.to_nat block_number).
Definition mock_available_notes (c : MockChain) : list InputNote := (btree_iter digest_leb (mc_available_notes c)).*2.

(** ** The builder *)

Record MockChainBuilder : Type := mkChainBuilder {
  cb_accounts : list Account;
  cb_notes : list Note;
  cb_starting_block_num : Z
}.
Definition chain_builder_default : MockChainBuilder := mkChainBuilder [] [] 0.
Definition cb_with_accounts (accounts : list Account) (b : MockChainBuilder) := mkChainBuilder accounts (cb_notes b) (cb_starting_block_num b).
Definition cb_with_notes (notes : list Note) (b : MockChainBuilder) := mkChainBuilder (cb_accounts b) notes (cb_starting_block_num b).
Definition cb_starting (num : Z) (b : MockChainBuilder) := mkChainBuilder (cb_accounts b) (cb_notes b) num.
Definition chain_builder_build {E} (b : MockChainBuilder) : res E MockChain :=
  let chain := foldl (λ c a, mock_add_account a c) mock_chain_new (cb_accounts b) in
  let chain := foldl (λ c n, mock_add_note n c) chain (cb_notes b) in
  let '(r, chain) := seal_block (Some (cb_starting_block_num b)) chain in
  r ;; Ok chain.

(** ** Sealing without panics

    The loops of [seal_block] as functions on the chain. *)

Definition sealed_update (c : MockChain) (u : BlockAccountUpdate) : MockChain := (seal_update (E:=Empty_set) u c).2.
Definition note_proof (num : Z) (t : BlockNoteTree) (index : BlockNoteIndex) : NoteInclusionProof :=
  mkProof (mkLocation num (leaf_of index)) (ssmt_open_path t (leaf_of index)).
Definition sealed_note (num : Z) (t : BlockNoteTree) (m : gmap Digest InputNote) (x : BlockNoteIndex * OutputNote)
    : gmap Digest InputNote :=
  match x.2 with Full note => <[note_id note := Authenticated note (note_proof num t x.1)]> m | _ => m end.

(** An update with the details of the whole account. *)
Definition full_update (u : BlockAccountUpdate) : Prop :=
  ∃ a, au_details u = NewUpdate a ∧ acct_id a = au_account_id u ∧ account_hash a = au_new_state_hash u.

Lemma seal_update_Ok {E} u c : full_update u → seal_update (E:=E) u c = (Ok tt, sealed_update c u).
Proof. intros (a & Ha & _). unfold sealed_update, seal_update. rewrite Ha. by destruct (_ !! _). Qed.

Lemma seal_updates_Ok {E} l c :
  Forall full_update l → for_each l (seal_update (E:=E)) c = (Ok tt, foldl sealed_update c l).
Proof. intros Hl. apply for_each_pure. intros u s Hu. apply seal_update_Ok. by eapply (Forall_forall full_update). Qed.

Lemma seal_note_Ok {E} num t i j note c :
  valid_index (mkNoteIndex i j) →
  seal_note (E:=E) num t i j note c =
  (Ok tt, set_mc_notes (sealed_note num t (mc_available_notes c) (mkNoteIndex i j, note)) c).
Proof.
  intros Hv. destruct (leaf_index_Ok (E:=E) _ Hv) as [H1 H2]. unfold seal_note, sealed_note. cbn [fst snd].
  destruct note as [n|n|n]; [|by destruct c..].
  unfold note_index_new. destruct Hv as [Hi Hj]. cbn [batch_idx note_idx_in_batch] in Hi, Hj.
  rewrite !Z.geb_leb, !(proj2 (Z.leb_gt _ _)) by lia. cbn [expect_ok mbind res_bind].
  unfold get_note_path. rewrite H1. cbn [mbind res_bind]. rewrite H2. cbn [mbind res_bind].
  rewrite inclusion_proof_leaf by done. done.
Qed.

Lemma set_mc_notes_twice x y c : set_mc_notes x (set_mc_notes y c) = set_mc_notes x c.
Proof. done. Qed.

Lemma seal_batch_Ok {E} num t i j batch c :
  0 ≤ i < MAX_BATCHES_PER_BLOCK → 0 ≤ j → j + Z.of_nat (length batch) ≤ MAX_OUTPUT_NOTES_PER_BATCH →
  seal_batch (E:=E) num t i j batch c =
  (Ok tt, set_mc_notes (foldl (sealed_note num t) (mc_available_notes c) (indexed_batch i j batch)) c).
Proof.
  intros Hi. revert j c. induction batch as [|note batch IH]; intros j c Hj Hl; [by destruct c|].
  cbn [length] in Hl. cbn [seal_batch]. unfold mbind, mut_bind.
  rewrite seal_note_Ok by (split; cbn; lia). rewrite IH by lia. by rewrite indexed_batch_cons.
Qed.

Lemma seal_batches_Ok {E} num t i batches c :
  0 ≤ i → i + Z.of_nat (length batches) ≤ MAX_BATCHES_PER_BLOCK →
  Forall (λ b, Z.of_nat (length b) ≤ MAX_OUTPUT_NOTES_PER_BATCH) batches →
  seal_batches (E:=E) num t i batches c =
  (Ok tt, set_mc_notes (foldl (sealed_note num t) (mc_available_notes c) (indexed_notes i batches)) c).
Proof.
  intros Hi Hn Hl. revert i c Hi Hn. induction Hl as [|batch batches Hb _ IH]; intros i c Hi Hn; [by destruct c|].
  cbn [length] in Hn. cbn [seal_batches]. unfold mbind, mut_bind. rewrite seal_batch_Ok by lia.
  rewrite IH by lia. rewrite indexed_notes_cons, foldl_app. done.
Qed.

(** The block of the pending objects, and the chain after it. *)
Definition pending_block (h : BlockHeader) (p : PendingObjects) : Block :=
  mkBlock h (po_updated_accounts p) (po_output_note_batches p) (po_created_nullifiers p).
Definition sealed_trees (num : Z) (c : MockChain) : MockChain :=
  foldl (seal_nullifier num) (foldl sealed_update c (po_updated_accounts (mc_pending_objects c)))
    (po_created_nullifiers (mc_pending_objects c)).
Definition sealed_notes (num : Z) (t : BlockNoteTree) (p : PendingObjects) (c : MockChain) : MockChain :=
  set_mc_notes (foldl (sealed_note num t) (mc_available_notes c) (indexed_notes 0 (po_output_note_batches p))) c.

Lemma seal_block_Ok {E} num c b c' :
  Forall full_update (po_updated_accounts (mc_pending_objects c)) →
  seal_block (E:=E) num c = (Ok b, c') ↔
  ∃ k t h, seal_block_num (E:=E) c num = Ok k ∧ pending_note_tree (E:=E) (mc_pending_objects c) = Ok t ∧
    seal_header (E:=E) (sealed_trees k c) k (note_tree_root t) = Ok h ∧ b = pending_block h (mc_pending_objects c) ∧
    valid_block b ∧ c' = seal_finish b (sealed_notes (bh_block_num h) t (mc_pending_objects c) (sealed_trees k c)).
Proof.
  intros Hu. unfold seal_block, mbind, mut_bind, get_self, put_self, lift. cbv beta iota zeta.
  destruct (seal_block_num c num) as [k|e|]; [|split; [discriminate|by intros (? & ? & ? & ? & _)]..].
  rewrite seal_updates_Ok by done. fold (sealed_trees k c).
  destruct (pending_note_tree (mc_pending_objects c)) as [t|e|] eqn:Et; [|split; [discriminate|by intros (? & ? & ? & _ & ? & _)]..].
  destruct (seal_header (sealed_trees k c) k (note_tree_root t)) as [h|e|] eqn:Eh;
    [|split; [discriminate|by intros (? & ? & ? & [= <-] & [= <-] & ? & _); congruence]..].
  set (p := mc_pending_objects c) in *.
  pose proof (block_new_Ok h (po_updated_accounts p) (po_output_note_batches p) (po_created_nullifiers p)) as Hb.
  destruct (block_new _ _ _ _) as [b'|e|]; cbn [expect_ok].
  - destruct (proj1 (Hb b') eq_refl) as [Hv ->]. pose proof Hv as (_ & Hn & _ & Hl & _).
    cbn [blk_header blk_output_note_batches] in *.
    rewrite seal_batches_Ok by (try done; lia). cbn [mret mut_ret]. split.
    + intros [= <- <-]. by exists k, t, h.
    + intros (k' & t' & h' & [= <-] & [= <-] & Eh' & -> & _ & ->). assert (h' = h) as -> by congruence. done.
  - split; [discriminate|]. intros (k' & t' & h' & [= <-] & [= <-] & Eh' & -> & Hv & _).
    assert (h' = h) as -> by congruence. enough (Err e = Ok (pending_block h p)) by discriminate. by apply Hb.
  - split; [discriminate|]. intros (k' & t' & h' & [= <-] & [= <-] & Eh' & -> & Hv & _).
    assert (h' = h) as -> by congruence.
    enough (Panic (E:=BlockError) = Ok (pending_block h p)) by discriminate. by apply Hb.
Qed.

(** ** The trees of the chain *)

Definition number_word (num : Z) : Word := mkWord (felt_new num) ZERO ZERO ZERO.

(** What a list of blocks says about a nullifier and about an account. *)
Definition nullifier_after (num : Z) (l : list Digest) (n : Digest) (w : Word) : Word :=
  if decide (n ∈ l) then number_word num else w.
Definition nullifier_value (blocks : list Block) (n : Digest) : Word :=
  foldl (λ w b, nullifier_after (bh_block_num (blk_header b)) (blk_nullifiers b) n w) EMPTY_WORD blocks.
Definition state_after (l : list BlockAccountUpdate) (id : AccountId) (w : Word) : Word :=
  foldl (λ w u, if decide (au_account_id u = id) then au_new_state_hash u else w) w l.
Definition account_value (blocks : list Block) (id : AccountId) : Word :=
  foldl (λ w b, state_after (blk_updated_accounts b) id w) EMPTY_WORD blocks.

(** What sealing the trees leaves alone. *)
Definition same_history (c c' : MockChain) : Prop :=
  mc_chain c' = mc_chain c ∧ mc_blocks c' = mc_blocks c ∧ mc_pending_objects c' = mc_pending_objects c ∧
  mc_available_notes c' = mc_available_notes c ∧ mc_removed_notes c' = mc_removed_notes c.
#[local] Instance same_history_preorder : PreOrder same_history.
Proof. split; [done|]. intros c1 c2 c3 (? & ? & ? & ? & ?) (? & ? & ? & ? & ?). unfold same_history. by split_and!; etrans. Qed.

Lemma foldl_preserves {X Y} (Rel : X → X → Prop) `{!PreOrder Rel} (f : X → Y → X) x l :
  (∀ x y, Rel x (f x y)) → Rel x (foldl f x l).
Proof. intros Hf. revert x. induction l as [|y l IH]; intros x; cbn [foldl]; [done|]. etrans; [apply Hf|apply IH]. Qed.

Lemma sealed_update_fields c u :
  same_history c (sealed_update c u) ∧ mc_nullifiers (sealed_update c u) = mc_nullifiers c ∧
  mc_accounts (sealed_update c u) =
    ssmt_insert (mc_accounts c) (account_id_leaf_index (au_account_id u)) (au_new_state_hash u).
Proof. unfold sealed_update, seal_update, same_history. by repeat case_match. Qed.

Lemma sealed_trees_history k c : same_history c (sealed_trees k c).
Proof.
  unfold sealed_trees. etrans; [|by apply (foldl_preserves same_history)].
  apply (foldl_preserves same_history). intros x u. apply sealed_update_fields.
Qed.

Lemma seal_nullifiers_get k l c n :
  smt_get_value (mc_nullifiers (foldl (seal_nullifier k) c l)) n = nullifier_after k l n (smt_get_value (mc_nullifiers c) n).
Proof.
  unfold nullifier_after. revert c. induction l as [|d l IH]; intros c; cbn [foldl].
  { by rewrite decide_False by apply not_elem_of_nil. }
  rewrite IH. cbn [seal_nullifier set_mc_nullifiers mc_nullifiers]. rewrite smt_insert_get.
  destruct (decide (n ∈ l)); [by rewrite decide_True by by right|].
  destruct (decide (d = n)) as [->|]; [by rewrite decide_True by by left|].
  rewrite decide_False; [done|]. rewrite not_elem_of_cons. by split; [intros ->|].
Qed.

Lemma sealed_updates_fields c l :
  mc_nullifiers (foldl sealed_update c l) = mc_nullifiers c ∧
  ∀ id, ssmt_get_leaf (mc_accounts (foldl sealed_update c l)) (account_id_leaf_index id) =
    state_after l id (ssmt_get_leaf (mc_accounts c) (account_id_leaf_index id)).
Proof.
  revert c. induction l as [|u l IH]; intros c; cbn [foldl]; [done|].
  destruct (IH (sealed_update c u)) as [-> IHa]. destruct (sealed_update_fields c u) as (_ & -> & Ha). split; [done|].
  intros id. rewrite IHa, Ha. unfold state_after. cbn [foldl]. f_equal. unfold account_id_leaf_index.
  pose proof (as_int_u64 (id_felt id)). pose proof (as_int_u64 (id_felt (au_account_id u))).
  rewrite ssmt_insert_get by done. destruct (decide (au_account_id u = id)) as [->|Hne].
  - by rewrite decide_True.
  - rewrite decide_False; [done|]. intros Hi%as_int_inj. apply Hne. destruct (au_account_id u), id. cbn in Hi. by subst.
Qed.

Lemma sealed_nullifiers_accounts k l c : mc_accounts (foldl (seal_nullifier k) c l) = mc_accounts c.
Proof. revert c. induction l as [|d l IH]; intros c; cbn [foldl]; [done|]. by rewrite IH. Qed.

Lemma sealed_trees_values k c :
  (∀ n, smt_get_value (mc_nullifiers (sealed_trees k c)) n =
    nullifier_after k (po_created_nullifiers (mc_pending_objects c)) n (smt_get_value (mc_nullifiers c) n)) ∧
  (∀ id, ssmt_get_leaf (mc_accounts (sealed_trees k c)) (account_id_leaf_index id) =
    state_after (po_updated_accounts (mc_pending_objects c)) id (ssmt_get_leaf (mc_accounts c) (account_id_leaf_index id))).
Proof.
  destruct (sealed_updates_fields c (po_updated_accounts (mc_pending_objects c))) as [Hn Ha]. unfold sealed_trees. split.
  - intros n. by rewrite seal_nullifiers_get, Hn.
  - intros id. by rewrite sealed_nullifiers_accounts, Ha.
Qed.

(** ** The notes of the chain *)

(** Where an available note comes from: an earlier one, or one of the block. *)
Lemma sealed_notes_inv num t m l id n :
  foldl (sealed_note num t) m l !! id = Some n →
  m !! id = Some n ∨ ∃ index note, (index, Full note) ∈ l ∧ note_id note = id ∧ n = Authenticated note (note_proof num t index).
Proof.
  revert m. induction l as [|[index note] l IH]; intros m; cbn [foldl]; [by left|].
  intros [Hm|(i & x & Hin & Hx)]%IH; [|right; exists i, x; split; [by right|done]].
  unfold sealed_note in Hm. cbn [fst snd] in Hm. destruct note as [x|x|x]; [|by left..].
  apply lookup_insert_Some in Hm as [[Hid Hn]|[_ Hm]]; [|by left]. right. exists index, x. split; [by left|done].
Qed.

Lemma sealed_notes_other num t m l id :
  (∀ index note, (index, Full note) ∈ l → note_id note ≠ id) → foldl (sealed_note num t) m l !! id = m !! id.
Proof.
  revert m. induction l as [|[index note] l IH]; intros m Hl; cbn [foldl]; [done|].
  rewrite IH by (intros i x Hx; apply (Hl i); by right). unfold sealed_note. cbn [fst snd]. destruct note as [x|x|x]; [|done..].
  apply lookup_insert_ne. apply (Hl index). by left.
Qed.

Lemma sealed_notes_get num t m l index note :
  NoDup (output_id <$> l.*2) → (index, Full note) ∈ l →
  foldl (sealed_note num t) m l !! note_id note = Some (Authenticated note (note_proof num t index)).
Proof.
  revert m. induction l as [|[i x] l IH]; intros m ND Hin; [by apply elem_of_nil in Hin|].
  rewrite !fmap_cons in ND. apply NoDup_cons in ND as [Hni ND]. cbn [foldl].
  apply elem_of_cons in Hin as [[= <- <-]|Hin]; [|by apply IH].
  rewrite sealed_notes_other; [by apply lookup_insert_eq|].
  intros i' x' Hx Hid. apply Hni. cbn [snd]. change (output_id (Full note)) with (note_id note). rewrite <-Hid.
  change (note_id x') with (output_id (Full x')). apply list_elem_of_fmap_2. by apply (list_elem_of_fmap_2 snd _ (i', Full x')).
Qed.

Lemma lookup_delete_all {X} (m : gmap Digest X) l id :
  foldl (λ m id, delete id m) m l !! id = if decide (id ∈ l) then None else m !! id.
Proof.
  revert m. induction l as [|d l IH]; intros m; cbn [foldl].
  { by rewrite decide_False by apply not_elem_of_nil. }
  rewrite IH. destruct (decide (id ∈ l)); [by rewrite decide_True by by right|].
  destruct (decide (id = d)) as [->|].
  - by rewrite lookup_delete_eq, decide_True by by left.
  - rewrite lookup_delete_ne, decide_False; [done| |done]. by rewrite not_elem_of_cons.
Qed.

(** ** Consistent chains *)

(** What block [i] of the chain says: its number and time, the blocks before it,
    and trees for its notes, and for all nullifiers and accounts up to it. *)
Record header_ok (blocks : list Block) (i : nat) (b : Block) : Prop := {
  ho_num : bh_block_num (blk_header b) = Z.of_nat i;
  ho_wf : wf_header (blk_header b);
  ho_time : bh_timestamp (blk_header b) = (TIMESTAMP_START + TIMESTAMP_STEP * Z.of_nat i) mod 2 ^ 32;
  ho_time_checked : overflow_checks = true → TIMESTAMP_START + TIMESTAMP_STEP * Z.of_nat i < 2 ^ 32;
  ho_prev : bh_prev_hash (blk_header b) = default EMPTY_WORD (block_hash <$> last (take i blocks));
  ho_chain : bh_chain_root (blk_header b) = hash_peaks (peaks_of (block_hash <$> take i blocks));
  ho_valid : valid_block b;
  ho_notes : ∃ t, build_note_tree (E:=Empty_set) b = Ok t ∧ bh_note_root (blk_header b) = note_tree_root t;
  ho_txs : bh_tx_hash (blk_header b) = compute_tx_hash (block_transactions b);
  ho_kernel : kernel_root (E:=Empty_set) = Ok (bh_kernel_root (blk_header b));
  ho_nullifiers : ∃ t, bh_nullifier_root (blk_header b) = smt_root t ∧
    ∀ n, smt_get_value t n = nullifier_value (take (Datatypes.S i) blocks) n;
  ho_accounts : ∃ t : SimpleSmt ACCOUNT_TREE_DEPTH, bh_account_root (blk_header b) = ssmt_root t ∧
    ∀ id, ssmt_get_leaf t (account_id_leaf_index id) = account_value (take (Datatypes.S i) blocks) id
}.

(** An available note has a proof that a block of the chain accepts. *)
Definition note_ok (blocks : list Block) (id : Digest) (n : InputNote) : Prop :=
  ∃ note proof i b, n = Authenticated note proof ∧ note_id note = id ∧
    block_num (np_location proof) = Z.of_nat i ∧ blocks !! i = Some b ∧
    path_verify (np_note_path proof) (node_index_in_block (np_location proof)) (note_hash note)
      (bh_note_root (blk_header b)) = true.

Record chain_ok (c : MockChain) : Prop := {
  ck_leaves : full_leaves (mc_chain c) = block_hash <$> mc_blocks c;
  ck_headers : ∀ i b, mc_blocks c !! i = Some b → header_ok (mc_blocks c) i b;
  ck_notes : map_Forall (note_ok (mc_blocks c)) (mc_available_notes c);
  ck_nullifiers : ∀ n, smt_get_value (mc_nullifiers c) n = nullifier_value (mc_blocks c) n;
  ck_accounts : ∀ id, ssmt_get_leaf (mc_accounts c) (account_id_leaf_index id) = account_value (mc_blocks c) id;
  ck_updates : Forall full_update (po_updated_accounts (mc_pending_objects c));
  ck_included : po_included_transactions (mc_pending_objects c) =
    mjoin ((λ u, (λ t, (t, au_account_id u)) <$> au_transactions u) <$> po_updated_accounts (mc_pending_objects c))
}.

Lemma mock_new_ok : chain_ok mock_chain_new.
Proof.
  constructor; cbn; [apply full_new_leaves|done|apply map_Forall_empty| |..|done|done].
  - apply smt_get_new.
  - intros id. apply ssmt_new_get.
Qed.

Lemma header_ok_app blocks i b l : (i < length blocks)%nat → header_ok blocks i b → header_ok (blocks ++ l) i b.
Proof. intros Hi []. constructor; try done; rewrite take_app_le by lia; done. Qed.

Lemma note_ok_app blocks id n l : note_ok blocks id n → note_ok (blocks ++ l) id n.
Proof.
  intros (note & proof & i & b & H1 & H2 & H3 & Hb & H4). exists note, proof, i, b. split_and!; try done.
  by apply lookup_app_l_Some.
Qed.

(** The last block. *)
Lemma last_header_None c : last_header c = None ↔ mc_blocks c = [].
Proof. unfold last_header. by rewrite fmap_None, last_None. Qed.
Lemma last_header_Some c h :
  chain_ok c → last_header c = Some h →
  ∃ b i, mc_blocks c !! i = Some b ∧ last (mc_blocks c) = Some b ∧ length (mc_blocks c) = Datatypes.S i ∧ h = blk_header b ∧
    header_ok (mc_blocks c) i b.
Proof.
  intros Hc (b & Hb & ->)%fmap_Some. exists b, (pred (length (mc_blocks c))). rewrite last_lookup in Hb.
  pose proof (lookup_lt_Some _ _ _ Hb). split; [done|]. rewrite last_lookup. split; [done|]. split; [lia|]. split; [done|].
  by apply (ck_headers _ Hc).
Qed.

Lemma u32_add_small {E} a b : 0 ≤ a + b < 2 ^ 32 → u32_add overflow_checks (E:=E) a b = Ok (a + b).
Proof. intros Hs. unfold u32_add, u32_result. by rewrite in_u32_small. Qed.
Lemma u32_add_mod {E} a b x : u32_add overflow_checks (E:=E) a b = Ok x → 0 ≤ a + b →
  x = (a + b) mod 2 ^ 32 ∧ (overflow_checks = true → a + b < 2 ^ 32).
Proof.
  unfold u32_add, u32_result, in_u32, U32_MAX. destruct (_ && _) eqn:Er.
  - intros [= <-] _. split; [symmetry; apply Z.mod_small; lia|lia].
  - destruct overflow_checks; [discriminate|]. by intros [= <-].
Qed.

(** The number of the next block is the length of the chain, also when it is
    given. *)
Lemma seal_block_num_ok {E} c num k :
  chain_ok c → Z.of_nat (length (mc_blocks c)) < 2 ^ 32 → (num = None ∨ num = Some (Z.of_nat (length (mc_blocks c)))) →
  seal_block_num (E:=E) c num = Ok k ↔ k = Z.of_nat (length (mc_blocks c)).
Proof.
  intros Hc Hl Hnum. unfold seal_block_num. destruct (last_header c) as [h|] eqn:El.
  - destruct (last_header_Some c h Hc El) as (b & i & Hb & _ & Hi & -> & Hh). rewrite (ho_num _ _ _ Hh).
    rewrite u32_add_small by lia. cbn [mbind res_bind].
    replace (Z.of_nat i + 1) with (Z.of_nat (length (mc_blocks c))) by lia.
    destruct Hnum as [-> | ->]; [|rewrite Z.ltb_irrefl]; by (split; [intros [= <-]|intros ->]).
  - apply last_header_None in El. rewrite El. cbn. rewrite El in Hnum. cbn in Hnum.
    destruct Hnum as [-> | ->]; by (split; [intros [= <-]|intros ->]).
Qed.

Lemma kernel_root_any {E E'} d : kernel_root (E:=E) = Ok d → kernel_root (E:=E') = Ok d.
Proof.
  unfold kernel_root, kernel_hash, kernel_procedures_as_elements.
  change (PROCEDURES !! Z.to_nat 0) with (Some KERNEL0_PROCEDURES). cbn [expect_some mbind res_bind]. congruence.
Qed.

Lemma seal_header_inv {E} c k root h :
  chain_ok c → 0 ≤ k < 2 ^ 32 → Z.of_nat (length (mc_blocks c)) = k → seal_header (E:=E) (sealed_trees k c) k root = Ok h →
  bh_block_num h = k ∧ wf_header h ∧ bh_timestamp h = (TIMESTAMP_START + TIMESTAMP_STEP * k) mod 2 ^ 32 ∧
  (overflow_checks = true → TIMESTAMP_START + TIMESTAMP_STEP * k < 2 ^ 32) ∧
  bh_prev_hash h = default EMPTY_WORD (block_hash <$> last (mc_blocks c)) ∧
  bh_chain_root h = hash_peaks (peaks_of (block_hash <$> mc_blocks c)) ∧ bh_note_root h = root ∧
  bh_tx_hash h = compute_tx_hash (po_included_transactions (mc_pending_objects c)) ∧
  kernel_root (E:=Empty_set) = Ok (bh_kernel_root h) ∧
  bh_nullifier_root h = smt_root (mc_nullifiers (sealed_trees k c)) ∧
  bh_account_root h = ssmt_root (mc_accounts (sealed_trees k c)).
Proof.
  intros Hc Hk Hlen. destruct (sealed_trees_history k c) as (E1 & E2 & E3 & _). unfold seal_header, last_header.
  rewrite E1, E2, E3, full_peaks_spec, (ck_leaves _ Hc). fold (last_header c).
  intros (ts & Et & (kr & Ek & [= <-])%res_bind_inv)%res_bind_inv.
  assert (0 ≤ ts < 2 ^ 32 ∧ ts = (TIMESTAMP_START + TIMESTAMP_STEP * k) mod 2 ^ 32 ∧
    (overflow_checks = true → TIMESTAMP_START + TIMESTAMP_STEP * k < 2 ^ 32)) as (Hts & Ets & Hck).
  { destruct (last_header c) as [h'|] eqn:El.
    - destruct (last_header_Some c h' Hc El) as (b & i & Hb & _ & Hi & -> & Hh).
      pose proof (wh_timestamp _ (ho_wf _ _ _ Hh)). apply u32_add_mod in Et as [Et Hck]; [|unfold TIMESTAMP_STEP; lia].
      rewrite (ho_time _ _ _ Hh) in Et, Hck. rewrite Z.add_mod_idemp_l in Et by lia.
      replace (TIMESTAMP_START + TIMESTAMP_STEP * k) with (TIMESTAMP_START + TIMESTAMP_STEP * Z.of_nat i + TIMESTAMP_STEP)
        by (unfold TIMESTAMP_STEP; lia).
      rewrite Et. split; [apply Z.mod_pos_bound; lia|]. split; [done|]. intros Eo. specialize (Hck Eo).
      pose proof (ho_time_checked _ _ _ Hh Eo). change TIMESTAMP_START with 1693348223 in *. change TIMESTAMP_STEP with 10 in *.
      rewrite Z.mod_small in Hck by lia. lia.
    - injection Et as <-. apply last_header_None in El. rewrite El in Hlen. cbn in Hlen. subst k. by vm_compute. }
  cbn [block_header_new bh_block_num bh_timestamp bh_prev_hash bh_chain_root bh_note_root bh_tx_hash
    bh_kernel_root bh_nullifier_root bh_account_root].
  split_and!; try done.
  - unfold last_header. by destruct (last (mc_blocks c)).
  - by apply (kernel_root_any (E:=E)).
Qed.

(** ** Sealing keeps the chain consistent *)

Lemma seal_finish_fields b c :
  mc_chain (seal_finish b c) = full_add (block_hash b) (mc_chain c) ∧ mc_blocks (seal_finish b c) = mc_blocks c ++ [b] ∧
  mc_nullifiers (seal_finish b c) = mc_nullifiers c ∧ mc_accounts (seal_finish b c) = mc_accounts c ∧
  mc_pending_objects (seal_finish b c) = pending_new ∧ mc_available_accounts (seal_finish b c) = mc_available_accounts c ∧
  mc_available_notes (seal_finish b c) = foldl (λ m id, delete id m) (mc_available_notes c) (mc_removed_notes c) ∧
  mc_removed_notes (seal_finish b c) = [].
Proof. done. Qed.

(** The proof of a note of the new block verifies. *)
Lemma sealed_proof_verifies b t num index note :
  valid_block b → build_note_tree (E:=Empty_set) b = Ok t →
  (index, Full note) ∈ indexed_notes 0 (blk_output_note_batches b) →
  path_verify (np_note_path (note_proof num t index)) (node_index_in_block (np_location (note_proof num t index)))
    (note_hash note) (note_tree_root t) = true.
Proof.
  intros Hv Ht Hin. destruct (build_note_tree_Ok (E:=Empty_set) b Hv) as (t' & Ht' & Hget & _).
  assert (t' = t) as -> by congruence. pose proof (valid_block_indices b Hv) as Hi. rewrite Forall_forall in Hi.
  specialize (Hi _ Hin). cbn [note_proof np_note_path np_location node_index_in_block].
  change (note_hash note) with (output_hash (index, Full note).2). rewrite <-(Hget _ Hin).
  apply ssmt_open_verifies. by apply leaf_of_range.
Qed.

Lemma pending_note_tree_block {E} h p t :
  pending_note_tree (E:=E) p = Ok t → valid_block (pending_block h p) →
  build_note_tree (E:=Empty_set) (pending_block h p) = Ok t.
Proof.
  intros Ht Hv. destruct (build_note_tree_Ok (E:=E) _ Hv) as (t1 & Ht1 & _).
  assert (t1 = t) as -> by (change (build_note_tree (E:=E) (pending_block h p)) with (pending_note_tree (E:=E) p) in Ht1; congruence).
  destruct (build_note_tree_Ok (E:=Empty_set) _ Hv) as (t2 & Ht2 & _). rewrite Ht2. f_equal.
  unfold build_note_tree in Ht1, Ht2. rewrite block_notes_Ok in Ht1 by done. rewrite block_notes_Ok in Ht2 by done. cbn [mbind res_bind] in Ht1, Ht2.
  destruct (note_tree_with_entries _); cbn in *; congruence.
Qed.

(** Everything that a successful call of [seal_block] does to a consistent chain. *)
Record sealed (c : MockChain) (b : Block) (c' : MockChain) : Prop := {
  sl_chain : full_leaves (mc_chain c') = full_leaves (mc_chain c) ++ [block_hash b];
  sl_blocks : mc_blocks c' = mc_blocks c ++ [b];
  sl_block : b = pending_block (blk_header b) (mc_pending_objects c);
  sl_header : header_ok (mc_blocks c ++ [b]) (length (mc_blocks c)) b;
  sl_nullifiers : ∀ n, smt_get_value (mc_nullifiers c') n =
    nullifier_after (Z.of_nat (length (mc_blocks c))) (blk_nullifiers b) n (smt_get_value (mc_nullifiers c) n);
  sl_accounts : ∀ id, ssmt_get_leaf (mc_accounts c') (account_id_leaf_index id) =
    state_after (blk_updated_accounts b) id (ssmt_get_leaf (mc_accounts c) (account_id_leaf_index id));
  sl_available : mc_available_accounts c' = mc_available_accounts (foldl sealed_update c (blk_updated_accounts b));
  sl_notes : ∃ t, build_note_tree (E:=Empty_set) b = Ok t ∧
    mc_available_notes c' = foldl (λ m id, delete id m)
      (foldl (sealed_note (Z.of_nat (length (mc_blocks c))) t) (mc_available_notes c) (indexed_notes 0 (blk_output_note_batches b)))
      (mc_removed_notes c);
  sl_pending : mc_pending_objects c' = pending_new ∧ mc_removed_notes c' = []
}.

Lemma seal_nullifiers_available k l c : mc_available_accounts (foldl (seal_nullifier k) c l) = mc_available_accounts c.
Proof. revert c. induction l as [|d l IH]; intros c; cbn [foldl]; [done|]. by rewrite IH. Qed.

Lemma sealed_intro c k t h :
  chain_ok c → k = Z.of_nat (length (mc_blocks c)) → k < 2 ^ 32 → pending_note_tree (E:=Empty_set) (mc_pending_objects c) = Ok t →
  seal_header (E:=Empty_set) (sealed_trees k c) k (note_tree_root t) = Ok h → valid_block (pending_block h (mc_pending_objects c)) →
  let b := pending_block h (mc_pending_objects c) in
  sealed c b (seal_finish b (sealed_notes (bh_block_num h) t (mc_pending_objects c) (sealed_trees k c))).
Proof.
  intros Hc Ek Hk Ht Hh Hv b.
  apply seal_header_inv in Hh as (Hn & Hw & Htime & Hck & Hprev & Hchain & Hroot & Htx & Hkr & Hnull & Hacc); [|done|lia|done].
  pose proof (pending_note_tree_block h _ t Ht Hv) as Htree.
  destruct (sealed_trees_history k c) as (E1 & E2 & E3 & E4 & E5). destruct (sealed_trees_values k c) as [Vn Va].
  destruct (seal_finish_fields b (sealed_notes (bh_block_num h) t (mc_pending_objects c) (sealed_trees k c)))
    as (F1 & F2 & F3 & F4 & F5 & F6 & F7 & F8).
  cbn [sealed_notes set_mc_notes mc_chain mc_blocks mc_nullifiers mc_accounts mc_available_accounts mc_available_notes mc_removed_notes]
    in F1, F2, F3, F4, F6, F7.
  constructor; rewrite ?F1, ?F2, ?F3, ?F4, ?F6, ?F7, ?E1, ?E2; try done.
  - by rewrite full_add_leaves.
  - assert (take (length (mc_blocks c)) (mc_blocks c ++ [b]) = mc_blocks c) as Et by by rewrite take_app_length.
    assert (take (Datatypes.S (length (mc_blocks c))) (mc_blocks c ++ [b]) = mc_blocks c ++ [b]) as Et'.
    { apply take_ge. rewrite length_app. cbn. lia. }
    constructor; rewrite ?Et, ?Et'; cbn [b pending_block blk_header]; try done; try congruence.
    + by rewrite <-Ek.
    + by exists t.
    + rewrite Htx. unfold block_transactions, b. cbn [pending_block blk_updated_accounts]. by rewrite (ck_included _ Hc).
    + eexists. split; [exact Hnull|]. intros n. rewrite Vn, (ck_nullifiers _ Hc). unfold nullifier_value at 2.
      rewrite foldl_app. cbn [foldl b pending_block blk_header blk_nullifiers]. by rewrite Hn.
    + eexists. split; [exact Hacc|]. intros id. rewrite Va, (ck_accounts _ Hc). unfold account_value at 2. by rewrite foldl_app.
  - intros n. rewrite Vn. by rewrite Ek.
  - unfold sealed_trees. by rewrite seal_nullifiers_available.
  - exists t. split; [done|]. by rewrite E4, E5, Hn, Ek.
Qed.

Lemma seal_block_sealed num c b c' :
  chain_ok c → Z.of_nat (length (mc_blocks c)) < 2 ^ 32 → (num = None ∨ num = Some (Z.of_nat (length (mc_blocks c)))) →
  seal_block (E:=Empty_set) num c = (Ok b, c') → sealed c b c'.
Proof.
  intros Hc Hl Hnum Hs. apply (seal_block_Ok _ _ _ _ (ck_updates _ Hc)) in Hs as (k & t & h & Hk & Ht & Hh & -> & Hv & ->).
  apply (seal_block_num_ok c num k Hc Hl Hnum) in Hk. by apply sealed_intro; try lia.
Qed.

Lemma sealed_ok c b c' : chain_ok c → sealed c b c' → chain_ok c'.
Proof.
  intros Hc Hs. pose proof (sl_header _ _ _ Hs) as Hh. constructor.
  - by rewrite (sl_chain _ _ _ Hs), (sl_blocks _ _ _ Hs), (ck_leaves _ Hc), fmap_app.
  - rewrite (sl_blocks _ _ _ Hs). intros i b' [Hb|[Hi Hb]]%lookup_app_Some.
    + apply header_ok_app; [by eapply lookup_lt_Some|]. by apply (ck_headers _ Hc).
    + apply list_lookup_singleton_Some in Hb as [Hi' <-]. by replace i with (length (mc_blocks c)) by lia.
  - rewrite (sl_blocks _ _ _ Hs). destruct (sl_notes _ _ _ Hs) as (t & Ht & ->). intros id n.
    rewrite lookup_delete_all. case_decide; [done|].
    intros [Hn|(index & note & Hin & Hid & ->)]%sealed_notes_inv; [by apply note_ok_app, (ck_notes _ Hc)|].
    exists note, (note_proof (Z.of_nat (length (mc_blocks c))) t index), (length (mc_blocks c)), b.
    split_and!; [done..| |]; [by rewrite lookup_app_r, Nat.sub_diag by lia|].
    destruct (ho_notes _ _ _ Hh) as (t' & Ht' & ->). assert (t' = t) as -> by congruence.
    by apply (sealed_proof_verifies b); [apply (ho_valid _ _ _ Hh)|..].
  - intros n. rewrite (sl_nullifiers _ _ _ Hs), (ck_nullifiers _ Hc), (sl_blocks _ _ _ Hs).
    unfold nullifier_value at 2. rewrite foldl_app. cbn [foldl]. by rewrite (ho_num _ _ _ Hh).
  - intros id. rewrite (sl_accounts _ _ _ Hs), (ck_accounts _ Hc), (sl_blocks _ _ _ Hs). unfold account_value at 2. by rewrite foldl_app.
  - destruct (sl_pending _ _ _ Hs) as [-> _]. constructor.
  - by destruct (sl_pending _ _ _ Hs) as [-> _].
Qed.

(** ** Runs of the chain *)

(** What [add_from_account_builder] does with the account that it has built. *)
Definition mock_register (account : Account) (seed : option Word) (authenticator : option BasicAuthenticator)
    (c : MockChain) : MockChain :=
  mock_add_account account
    (set_mc_available (<[acct_id account := mkMockAccount account seed authenticator]> (mc_available_accounts c)) c).

Inductive MockOp : Type :=
  | OpTransaction (transaction : ExecutedTransaction)
  | OpNote (note : Note)
  | OpNullifier (nullifier : Digest)
  | OpAccount (account : Account)
  | OpRegister (account : Account) (seed : option Word) (authenticator : option BasicAuthenticator)
  | OpSeal (block_num : option Z).
Definition mock_apply (op : MockOp) : mut MockChain Empty_set unit := λ c,
  match op with
  | OpTransaction transaction => mock_add_executed_transaction transaction c
  | OpNote note => (Ok tt, mock_add_note note c)
  | OpNullifier nullifier => (Ok tt, mock_add_nullifier nullifier c)
  | OpAccount account => (Ok tt, mock_add_account account c)
  | OpRegister account seed authenticator => (Ok tt, mock_register account seed authenticator c)
  | OpSeal block_num => (seal_block block_num ;; mret tt) c
  end.

(** Block numbers are 32 bits wide and leave no gap. *)
Definition numbered (c : MockChain) (op : MockOp) : Prop :=
  match op with
  | OpSeal num => Z.of_nat (length (mc_blocks c)) < 2 ^ 32 ∧ (num = None ∨ num = Some (Z.of_nat (length (mc_blocks c))))
  | _ => True
  end.
Inductive mock_reaches : MockChain → Prop :=
  | reaches_new : mock_reaches mock_chain_new
  | reaches_op c op c' : mock_reaches c → numbered c op → mock_apply op c = (Ok tt, c') → mock_reaches c'.

Lemma account_apply_delta_id d a a' : account_apply_delta d a = (Ok tt, a') → acct_id a' = acct_id a.
Proof.
  unfold account_apply_delta, mbind, mut_bind, on_field, mut_map_err. destruct (vault_apply_delta _ _) as [[?|?|] v]; [|discriminate..].
  destruct (storage_apply_delta _ _) as [[?|?|] st]; [|discriminate..]. destruct (ad_nonce d) as [n|]; [|by intros [= <-]].
  unfold set_nonce, mbind, mut_bind. repeat case_match; intros; simplify_eq; done.
Qed.

(** The operations that only add pending objects. *)
Record pends (c c' : MockChain) : Prop := {
  pe_chain : mc_chain c' = mc_chain c;
  pe_blocks : mc_blocks c' = mc_blocks c;
  pe_notes : mc_available_notes c' = mc_available_notes c;
  pe_nullifiers : mc_nullifiers c' = mc_nullifiers c;
  pe_accounts : mc_accounts c' = mc_accounts c
}.
Lemma pends_ok c c' :
  chain_ok c → pends c c' → Forall full_update (po_updated_accounts (mc_pending_objects c')) →
  po_included_transactions (mc_pending_objects c') =
    mjoin ((λ u, (λ t, (t, au_account_id u)) <$> au_transactions u) <$> po_updated_accounts (mc_pending_objects c')) →
  chain_ok c'.
Proof. intros [] [E1 E2 E3 E4 E5] Hu Hi. by constructor; rewrite ?E1, ?E2, ?E3, ?E4, ?E5. Qed.

(** The chain after a transaction was added. *)
Definition consumed (c : MockChain) (notes : list InputNote) : MockChain :=
  foldl (λ c note, let c := push_nullifier (to_nullifier note) c in set_mc_removed (mc_removed_notes c ++ [input_id note]) c) c notes.
Lemma consumed_eq c notes :
  consumed c notes =
  let p := mc_pending_objects c in
  set_mc_removed (mc_removed_notes c ++ (input_id <$> notes))
    (set_mc_pending (mkPending (po_updated_accounts p) (po_output_note_batches p)
       (po_created_nullifiers p ++ (to_nullifier <$> notes)) (po_included_transactions p)) c).
Proof.
  unfold consumed. revert c. induction notes as [|n notes IH]; intros c; cbn [foldl].
  { destruct c as [? ? ? ? [] ? ? ?]. cbn. by rewrite !app_nil_r. }
  rewrite IH. destruct c as [? ? ? ? [] ? ? ?]. cbn. by rewrite <-!app_assoc.
Qed.

Definition included (c : MockChain) (tx : ExecutedTransaction) (account : Account) : MockChain :=
  let p := mc_pending_objects c in
  let account_id := acct_id (ti_account (et_tx_inputs tx)) in
  let notes := in_notes (ti_input_notes (et_tx_inputs tx)) in
  set_mc_removed (mc_removed_notes c ++ (input_id <$> notes))
    (set_mc_pending (mkPending
       (po_updated_accounts p ++ [mkAccountUpdate account_id (account_hash account) (NewUpdate account) [executed_id tx]])
       (po_output_note_batches p ++ [on_notes (to_output_notes (et_tx_outputs tx))])
       (po_created_nullifiers p ++ (to_nullifier <$> notes))
       (po_included_transactions p ++ [(executed_id tx, account_id)])) c).
Lemma add_executed_eq {E} tx c :
  mock_add_executed_transaction (E:=E) tx c =
  match account_apply_delta (et_account_delta tx) (ti_account (et_tx_inputs tx)) with
  | (Ok _, account) => (Ok tt, included c tx account)
  | _ => (Panic, c)
  end.
Proof.
  unfold mock_add_executed_transaction. destruct (account_apply_delta _ _) as [[?|?|] account]; [|done..].
  unfold included. fold (consumed (push_update (mkAccountUpdate (acct_id (ti_account (et_tx_inputs tx))) (account_hash account)
    (NewUpdate account) [executed_id tx]) c) (in_notes (ti_input_notes (et_tx_inputs tx)))). rewrite consumed_eq.
  by destruct c as [? ? ? ? [] ? ? ?].
Qed.

Lemma add_update_ok c u c' :
  chain_ok c → full_update u → pends c c' → po_updated_accounts (mc_pending_objects c') = po_updated_accounts (mc_pending_objects c) ++ [u] →
  po_included_transactions (mc_pending_objects c') = 
    po_included_transactions (mc_pending_objects c) ++ ((λ t, (t, au_account_id u)) <$> au_transactions u) → chain_ok c'.
Proof.
  intros Hc Hu Hp E1 E2. apply (pends_ok c); [done..| |]; rewrite ?E1, ?E2.
  - apply Forall_app. split; [apply (ck_updates _ Hc)|by constructor].
  - rewrite (ck_included _ Hc), fmap_app, join_app. cbn. by rewrite app_nil_r.
Qed.

Lemma mock_apply_ok op c c' : chain_ok c → numbered c op → mock_apply op c = (Ok tt, c') → chain_ok c'.
Proof.
  intros Hc Hn. destruct op as [tx|note|d|a|a seed auth|num]; cbn [mock_apply].
  - rewrite add_executed_eq. destruct (account_apply_delta _ _) as [[[]|?|] account] eqn:Ea; [|discriminate..]. intros [= <-].
    apply account_apply_delta_id in Ea. by apply (add_update_ok c (mkAccountUpdate (acct_id (ti_account (et_tx_inputs tx))) (account_hash account)
      (NewUpdate account) [executed_id tx]) _ Hc); [exists account|..].
  - intros [= <-]. apply (pends_ok c); try done; apply Hc.
  - intros [= <-]. apply (pends_ok c); try done; apply Hc.
  - intros [= <-]. 
    apply (add_update_ok c (mkAccountUpdate (acct_id a) (account_hash a) (NewUpdate a) []) _ Hc); [by exists a|done..|]. cbn. by rewrite app_nil_r.
  - intros [= <-]. 
    apply (add_update_ok c (mkAccountUpdate (acct_id a) (account_hash a) (NewUpdate a) []) _ Hc); [by exists a|done..|]. cbn. by rewrite app_nil_r.
  - unfold mbind, mut_bind. destruct (seal_block num c) as [[b|?|] c1] eqn:Es; [|discriminate..]. intros [= <-].
    apply (sealed_ok c b); [done|]. by apply (seal_block_sealed num); [..|apply Hn|apply Hn|].
Qed.
Lemma mock_reaches_ok c : mock_reaches c → chain_ok c.
Proof. induction 1 as [|c op c' _ IH Hn Ho]; [apply mock_new_ok|by apply (mock_apply_ok op c)]. Qed.

(** ** Inputs of transactions *)

(** A partial range over the first [length l] leaves in which all positions below
    [i] are tracked. *)
Definition tracks (l : list Digest) (i : nat) (p : PartialMmr) : Prop :=
  mmr_peaks p = peaks_of l ∧ mmr_forest p = Z.of_nat (length l) ∧ ∀ j : nat, (j < i)%nat → mmr_is_tracked p (Z.of_nat j) = true.

Lemma track_from_Ok mmr (n i k : nat) p :
  (n ≤ length (full_leaves mmr))%nat → Z.of_nat n < 2 ^ 64 → (i + k = n)%nat → tracks (take n (full_leaves mmr)) i p →
  ∃ p', track_from mmr (Z.of_nat n) (Z.of_nat i) k p = (Ok tt, p') ∧ tracks (take n (full_leaves mmr)) n p'.
Proof.
  intros Hn Hb. revert i p. induction k as [|k IH]; intros i p Hi Hp; cbn [track_from].
  { assert (i = n) as -> by lia. by exists p. }
  destruct (lookup_lt_is_Some_2 (full_leaves mmr) i) as [d Hd]; [lia|].
  assert (length (take n (full_leaves mmr)) = n) as Hl by (rewrite length_take; lia).
  destruct Hp as (Hpeaks & Hforest & Htr).
  destruct (partial_track_spec (take n (full_leaves mmr)) i d p) as (p1 & Ep & H1 & H2 & H3 & H4); [lia|done|done| |].
  { rewrite lookup_take_lt by lia. done. }
  unfold lift, mbind, mut_bind. rewrite (full_get_spec _ _ _ Hd), full_open_at_spec, Ep by lia.
  replace (Z.of_nat i + 1) with (Z.of_nat (Datatypes.S i)) by lia. apply IH; [lia|]. split_and!; [done..|].
  intros j Hj. destruct (decide (j = i)) as [->|]; [done|]. apply H4, Htr. lia.
Qed.

Lemma mmr_to_chain_mmr_eq mmr headers n :
  length (full_leaves mmr) = Datatypes.S n → Z.of_nat n < 2 ^ 64 →
  ∃ p, tracks (take n (full_leaves mmr)) n p ∧ mmr_to_chain_mmr mmr headers = expect_ok (chain_mmr_new p headers).
Proof.
  intros Hn Hb. unfold mmr_to_chain_mmr. rewrite full_forest_spec, Hn.
  rewrite (proj2 (Z.eqb_neq _ _)) by lia. cbn [mbind res_bind].
  replace (Z.of_nat (Datatypes.S n) - 1) with (Z.of_nat n) by lia. rewrite full_peaks_at_spec by lia. cbn [mbind res_bind].
  assert (length (take n (full_leaves mmr)) = n) as Hl by (rewrite length_take; lia).
  destruct (partial_from_peaks_spec (take n (full_leaves mmr))) as [H1 H2]; [lia|].
  destruct (track_from_Ok mmr n 0 n (partial_from_peaks (peaks_of (take n (full_leaves mmr))))) as (p & Ep & Hp);
    [lia|done|lia|split_and!; [done..|lia]|].
  exists p. split; [done|]. rewrite Nat2Z.id. change 0 with (Z.of_nat 0). by rewrite Ep.
Qed.

(** The notes with the given ids, and the number of the block of a note. *)
Definition requested (c : MockChain) : list Digest → list InputNote → Prop :=
  Forall2 (λ id n, mc_available_notes c !! id = Some n).
Definition note_num (n : InputNote) : Z := match input_location n with Some l => block_num l | None => 0 end.
Definition headers_of (c : MockChain) (m : gmap Z BlockHeader) : Prop :=
  map_Forall (λ k h, ∃ i b, k = Z.of_nat i ∧ mc_blocks c !! i = Some b ∧ h = blk_header b) m.

Lemma collect_notes_spec {E} c ids m :
  chain_ok c → headers_of c m →
  (∀ l m', collect_notes (E:=E) c ids m = Ok (l, m') →
     requested c ids l ∧ headers_of c m' ∧ ∀ k, is_Some (m' !! k) ↔ is_Some (m !! k) ∨ k ∈ note_num <$> l) ∧
  (∀ l, requested c ids l → ∃ m', collect_notes (E:=E) c ids m = Ok (l, m')).
Proof.
  intros Hc. revert m. induction ids as [|id ids IH]; intros m Hm; cbn [collect_notes].
  { split.
    - intros l m' [= <- <-]. split; [constructor|]. split; [done|]. intros k. split; [by left|]. by intros [?|?%elem_of_nil].
    - intros l ->%Forall2_nil_inv_l. by eexists. }
  destruct (mc_available_notes c !! id) as [n|] eqn:En; cbn [expect_some mbind res_bind].
  2:{ split; [discriminate|]. intros l (x & l' & Hx & _)%Forall2_cons_inv_l. congruence. }
  destruct (ck_notes _ Hc id n En) as (note & proof & i & b & -> & Hid & Hnum & Hb & _).
  cbn [input_location input_proof fmap option_fmap option_map expect_some mbind res_bind].
  rewrite Hnum, Nat2Z.id, Hb. cbn [expect_some mbind res_bind].
  destruct (IH (<[Z.of_nat i := blk_header b]> m)) as [IH1 IH2].
  { apply map_Forall_insert_2; [by exists i, b|done]. }
  split.
  - intros l m' ([l' m''] & Er & [= <- <-])%res_bind_inv. destruct (IH1 _ _ Er) as (H1 & H2 & H3).
    split; [by constructor|]. split; [done|]. intros k. rewrite H3, fmap_cons, elem_of_cons, lookup_insert_is_Some'.
    cbn [fst]. change (note_num (Authenticated note proof)) with (block_num (np_location proof)). rewrite Hnum. naive_solver.
  - intros l (x & l' & Hx & Hl & ->)%Forall2_cons_inv_l. destruct (IH2 l' Hl) as [m' Hm']. exists m'. rewrite Hm'.
    cbn. rewrite En in Hx. by injection Hx as <-.
Qed.

Lemma headers_indexed c m :
  chain_ok c → headers_of c m → (λ b, (bh_block_num b, b)) <$> (btree_iter Z.leb m).*2 = btree_iter Z.leb m.
Proof.
  intros Hc Hm. rewrite <-list_fmap_compose. etrans; [|apply list_fmap_id].
  apply list_fmap_ext. intros j [k h] Hk%list_elem_of_lookup_2%elem_of_btree_iter.
  destruct (Hm k h Hk) as (i & b & -> & Hb & ->). cbn. by rewrite (ho_num _ _ _ (ck_headers _ Hc i b Hb)).
Qed.

(** The partial view of the chain: it exists exactly when the headers are those of
    blocks before the last one. *)
Lemma chain_view c n m p cm :
  chain_ok c → headers_of c m → tracks (take n (full_leaves (mc_chain c))) n p → (n ≤ length (mc_blocks c))%nat →
  chain_mmr_new p (btree_iter Z.leb m).*2 = Ok cm ↔ (∀ k, is_Some (m !! k) → k < Z.of_nat n) ∧ cm = mkChainMmr p m.
Proof.
  intros Hc Hm (Hpeaks & Hforest & Htr) Hn. rewrite length_take_le in Hforest by (by rewrite (ck_leaves _ Hc), length_fmap).
  rewrite chain_mmr_new_Ok, (headers_indexed c) by done. rewrite list_to_map_btree_iter. split.
  - intros (Hall & _ & ->). split; [|done]. intros k [h Hk]. destruct (Hm k h Hk) as (i & b & -> & Hb & ->).
    destruct (Hall (blk_header b)) as [Hlt _]; [apply (list_elem_of_fmap_2 snd _ (Z.of_nat i, blk_header b)); by apply elem_of_btree_iter|].
    by rewrite Hforest, (ho_num _ _ _ (ck_headers _ Hc i b Hb)) in Hlt.
  - intros [Hk ->]. split; [|split; [|done]].
    + intros h ([k h'] & -> & Hh%elem_of_btree_iter)%list_elem_of_fmap. destruct (Hm k h' Hh) as (i & b & -> & Hb & ->).
      cbn [snd]. rewrite (ho_num _ _ _ (ck_headers _ Hc i b Hb)), Hforest. specialize (Hk _ (mk_is_Some _ _ Hh)).
      split; [done|]. apply Htr. lia.
    + change (bh_block_num <$> (btree_iter Z.leb m).*2) with
        ((fst ∘ (λ b, (bh_block_num b, b)) : BlockHeader → Z) <$> (btree_iter Z.leb m).*2).
      rewrite list_fmap_compose, (headers_indexed c) by done. apply btree_iter_keys_NoDup.
Qed.

(** What the chain needs to assemble inputs from block [n], the last one. *)
Record inputs_ready (c : MockChain) (a : Account) (seed : option Word) (ids : list Digest) (n : nat) (l : list InputNote) : Prop := {
  ir_last : length (mc_blocks c) = Datatypes.S n;
  ir_notes : requested c ids l;
  ir_earlier : Forall (λ x, note_num x < Z.of_nat n) l;
  ir_max : Z.of_nat (length l) ≤ MAX_INPUT_NOTES_PER_TX;
  ir_nullifiers : NoDup (to_nullifier <$> l);
  ir_seed : seed_accepted a seed
}.

Lemma requested_authentic c ids l h n m p :
  chain_ok c → requested c ids l → headers_of c m → bh_block_num h = Z.of_nat n → Forall (λ x, note_num x < Z.of_nat n) l →
  (∀ k, is_Some (m !! k) ↔ k ∈ note_num <$> l) → Forall (authentic h (mkChainMmr p m)) l.
Proof.
  intros Hc Hl Hm Hh Hn Hk. apply Forall_forall. intros x Hx. rewrite Forall_forall in Hn. specialize (Hn x Hx).
  assert (is_Some (m !! note_num x)) as [h' Hh'] by (apply Hk; by apply list_elem_of_fmap_2).
  destruct (proj1 (list_elem_of_lookup _ _) Hx) as [j Hj]. destruct (Forall2_lookup_r _ _ _ _ _ Hl Hj) as (id & _ & Hid).
  destruct (ck_notes _ Hc id x Hid) as (note & proof & i & b & -> & _ & Hnum & Hb & Hv).
  cbn [authentic]. change (note_num (Authenticated note proof)) with (block_num (np_location proof)) in *.
  exists h'. unfold note_block, get_block. rewrite (proj2 (Z.eqb_neq _ _)) by lia. split; [done|].
  destruct (Hm _ _ Hh') as (i' & b' & Hi & Hb' & ->). rewrite Hnum in Hi. assert (i' = i) as -> by lia. congruence.
Qed.

Lemma mock_inputs_inv {E} c a seed ids ti :
  chain_ok c → Z.of_nat (length (mc_blocks c)) ≤ 2 ^ 32 → mock_transaction_inputs (E:=E) c a seed ids = Ok ti →
  ∃ n l cm h, inputs_ready c a seed ids n l ∧ last_header c = Some h ∧
    tx_inputs_new a seed h cm (mkInputNotes l (build_input_note_commitment l)) = Ok ti ∧
    ti = mkTxInputs a seed h cm (mkInputNotes l (build_input_note_commitment l)).
Proof.
  intros Hc Hb. unfold mock_transaction_inputs. intros (h & Hh & ([l m] & Hcol & Hi)%res_bind_inv)%res_bind_inv.
  apply expect_some_inv in Hh. destruct (last_header_Some c h Hc Hh) as (b & n & Hbn & _ & Hn & -> & Hho).
  destruct (collect_notes_spec (E:=E) c ids ∅ Hc) as [Hspec _]; [apply map_Forall_empty|].
  destruct (Hspec l m Hcol) as (Hl & Hm & Hk). cbv beta iota in Hi.
  apply res_bind_inv in Hi as (cm & Hcm & (notes & Hnotes & Hti)%res_bind_inv).
  destruct (mmr_to_chain_mmr_eq (mc_chain c) (btree_iter Z.leb m).*2 n) as (p & Hp & Eq);
    [by rewrite (ck_leaves _ Hc), length_fmap|lia|]. rewrite Eq in Hcm.
  destruct (chain_mmr_new p _) as [cm'|?|] eqn:Ecm; cbn in Hcm; [|discriminate..]. injection Hcm as ->.
  apply (chain_view c n) in Ecm as [Hlt ->]; [|done|done|done|lia].
  destruct (input_notes_new l) as [notes'|?|] eqn:Enotes; cbn in Hnotes; [|discriminate..]. injection Hnotes as ->.
  apply input_notes_new_Ok in Enotes as (Hmax & Hnd & ->).
  destruct (tx_inputs_new _ _ _ _ _) as [ti'|?|] eqn:Eti; cbn in Hti; [|discriminate..]. injection Hti as ->.
  pose proof Eti as [(Hseed & _) ->]%tx_inputs_new_Ok.
  exists n, l, (mkChainMmr p m), (blk_header b). split_and!; try done. constructor; try done. apply Forall_forall. intros x Hx. apply Hlt, Hk. right. by apply list_elem_of_fmap_2.
Qed.

Lemma mock_inputs_ready {E} c a seed ids n l :
  chain_ok c → Z.of_nat (length (mc_blocks c)) ≤ 2 ^ 32 → inputs_ready c a seed ids n l →
  ∃ ti, mock_transaction_inputs (E:=E) c a seed ids = Ok ti.
Proof.
  intros Hc Hb [Hn Hl He Hmax Hnd Hseed]. unfold mock_transaction_inputs. destruct (last_header c) as [h|] eqn:Hh.
  2:{ apply last_header_None in Hh. rewrite Hh in Hn. discriminate. }
  destruct (last_header_Some c h Hc Hh) as (b & n' & Hbn & _ & Hn' & -> & Hho). assert (n' = n) as -> by lia.
  destruct (collect_notes_spec (E:=E) c ids ∅ Hc) as [Hspec Hex]; [apply map_Forall_empty|].
  destruct (Hex l Hl) as [m Hcol]. destruct (Hspec l m Hcol) as (_ & Hm & Hk). cbn [expect_some mbind res_bind]. rewrite Hcol.
  assert (∀ k, is_Some (m !! k) ↔ k ∈ note_num <$> l) as Hk'.
  { intros k. rewrite Hk, lookup_empty, is_Some_alt. naive_solver. }
  cbn [mbind res_bind]. destruct (mmr_to_chain_mmr_eq (mc_chain c) (btree_iter Z.leb m).*2 n) as (p & Hp & Eq);
    [by rewrite (ck_leaves _ Hc), length_fmap|lia|]. rewrite Eq.
  rewrite (proj2 (chain_view c n m p (mkChainMmr p m) Hc Hm Hp ltac:(lia))).
  2:{ split; [|done]. intros k Hin%Hk'. apply list_elem_of_fmap in Hin as (x & -> & Hx). by eapply (Forall_forall _ l) in He. }
  cbn [expect_ok mbind res_bind]. rewrite (proj2 (input_notes_new_Ok l _)) by done. cbn [expect_ok mbind res_bind].
  destruct Hp as (Hpeaks & Hforest & _). rewrite length_take_le in Hforest by (rewrite (ck_leaves _ Hc), length_fmap; lia).
  eexists. erewrite (proj2 (tx_inputs_new_Ok _ _ _ _ _ _)); [reflexivity|]. split; [|reflexivity]. split_and!; [done| | |].
  - unfold chain_length. cbn [cm_mmr]. by rewrite Hforest, (ho_num _ _ _ Hho).
  - cbn [cm_mmr]. by rewrite Hpeaks, (ho_chain _ _ _ Hho), (ck_leaves _ Hc), fmap_take.
  - apply (requested_authentic c ids l _ n); try done. apply (ho_num _ _ _ Hho).
Qed.

(** ** When a block can be sealed *)

(** The pending objects make a block within the limits, without repeated notes. *)
Definition valid_pending (p : PendingObjects) : Prop := ∀ h, valid_block (pending_block h p).
Lemma valid_pending_any h p : valid_block (pending_block h p) → valid_pending p.
Proof. by intros Hv h'. Qed.

Lemma kernel_root_Ok {E} : ∃ d, kernel_root (E:=E) = Ok d.
Proof.
  unfold kernel_root, kernel_hash, kernel_procedures_as_elements.
  change (PROCEDURES !! Z.to_nat 0) with (Some KERNEL0_PROCEDURES). by eexists.
Qed.

(** The time of the next block can be computed. *)
Definition time_left (c : MockChain) : Prop :=
  overflow_checks = true → TIMESTAMP_START + TIMESTAMP_STEP * Z.of_nat (length (mc_blocks c)) < 2 ^ 32.

Lemma seal_time {E} c :
  chain_ok c → Z.of_nat (length (mc_blocks c)) < 2 ^ 32 →
  (∃ ts, match last_header c with None => Ok TIMESTAMP_START | Some h => u32_add overflow_checks (bh_timestamp h) TIMESTAMP_STEP end
     = Ok (E:=E) ts) ↔ time_left c.
Proof.
  intros Hc Hl. unfold time_left. destruct (last_header c) as [h|] eqn:Hh.
  - destruct (last_header_Some c h Hc Hh) as (b & n & _ & _ & Hn & -> & Hho). rewrite (ho_time _ _ _ Hho), Hn.
    unfold u32_add, u32_result. destruct overflow_checks eqn:Eo; [|split; [done|]; intros _; case_match; by eexists].
    change TIMESTAMP_START with 1693348223. change TIMESTAMP_STEP with 10. split.
    + intros [ts Hts] _. pose proof (ho_time_checked _ _ _ Hho Eo) as Hck.
      change TIMESTAMP_START with 1693348223 in Hck. change TIMESTAMP_STEP with 10 in Hck.
      rewrite Z.mod_small in Hts by lia. unfold in_u32, U32_MAX in Hts. case_match eqn:Er; [lia|discriminate].
    + intros Ht. specialize (Ht eq_refl). rewrite Z.mod_small by lia. rewrite in_u32_small by lia. by eexists.
  - apply last_header_None in Hh. rewrite Hh. split; [|by eexists]. intros _ _. by vm_compute.
Qed.

Lemma seal_block_possible c :
  chain_ok c → Z.of_nat (length (mc_blocks c)) < 2 ^ 32 →
  (∃ b c', seal_block (E:=Empty_set) None c = (Ok b, c')) ↔ valid_pending (mc_pending_objects c) ∧ time_left c.
Proof.
  intros Hc Hl. rewrite <-(seal_time (E:=Empty_set) c Hc Hl).
  destruct (sealed_trees_history (Z.of_nat (length (mc_blocks c))) c) as (_ & E2 & _). split.
  - intros (b & c' & (k & t & h & Hk & _ & Hh & -> & Hv & _)%(seal_block_Ok _ _ _ _ (ck_updates _ Hc))).
    split; [by eapply valid_pending_any|]. apply (seal_block_num_ok c None k Hc Hl) in Hk as ->; [|by left].
    unfold seal_header, last_header in *. rewrite E2 in Hh. apply res_bind_inv in Hh as (ts & Hts & _). by exists ts.
  - intros [Hv [ts Hts]]. destruct (kernel_root_Ok (E:=Empty_set)) as [d Hd].
    destruct (build_note_tree_Ok (E:=Empty_set) _ (Hv (block_header_new 0 d 0 d d d d d d d 0))) as (t & Ht & _).
    eexists _, _. apply (seal_block_Ok _ _ _ _ (ck_updates _ Hc)). eexists _, t, _. split_and!.
    + apply (seal_block_num_ok c None _ Hc Hl); [by left|reflexivity].
    + exact Ht.
    + unfold seal_header, last_header in *. rewrite E2, Hts. cbn [mbind res_bind]. rewrite Hd. reflexivity.
    + reflexivity.
    + apply Hv.
    + reflexivity.
Qed.

(** The notes that a block makes available. *)
Lemma sealed_note_available c b c' note :
  sealed c b c' → Full note ∈ mjoin (blk_output_note_batches b) → note_id note ∉ mc_removed_notes c →
  ∃ proof, mc_available_notes c' !! note_id note = Some (Authenticated note proof) ∧
    block_num (np_location proof) = bh_block_num (blk_header b) ∧ validate_is_in_block note proof (blk_header b) = Ok tt.
Proof.
  intros Hs Hin Hr. pose proof (sl_header _ _ _ Hs) as Hh. destruct (sl_notes _ _ _ Hs) as (t & Ht & ->).
  rewrite <-(indexed_notes_snd 0) in Hin. apply list_elem_of_fmap in Hin as ([index x] & Ex & Hin). cbn in Ex. subst x.
  exists (note_proof (Z.of_nat (length (mc_blocks c))) t index). rewrite lookup_delete_all, decide_False by done. split; [|split].
  - apply sealed_notes_get; [|done]. rewrite indexed_notes_snd. apply (ho_valid _ _ _ Hh).
  - cbn. by rewrite (ho_num _ _ _ Hh).
  - unfold validate_is_in_block. destruct (ho_notes _ _ _ Hh) as (t' & Ht' & ->). assert (t' = t) as -> by congruence.
    by rewrite (sealed_proof_verifies b t _ index note) by (try done; apply (ho_valid _ _ _ Hh)).
Qed.
Lemma sealed_note_removed c b c' id : sealed c b c' → id ∈ mc_removed_notes c → mc_available_notes c' !! id = None.
Proof. intros Hs Hr. destruct (sl_notes _ _ _ Hs) as (t & Ht & ->). by rewrite lookup_delete_all, decide_True. Qed.
Lemma sealed_note_kept c b c' id :
  sealed c b c' → id ∉ mc_removed_notes c → id ∉ output_id <$> mjoin (blk_output_note_batches b) →
  mc_available_notes c' !! id = mc_available_notes c !! id.
Proof.
  intros Hs Hr Hi. destruct (sl_notes _ _ _ Hs) as (t & Ht & ->). rewrite lookup_delete_all, decide_False by done.
  apply sealed_notes_other. intros index note Hin <-. apply Hi. rewrite <-(indexed_notes_snd 0).
  change (note_id note) with (output_id (Full note)). apply list_elem_of_fmap_2.
  by apply (list_elem_of_fmap_2 snd _ (index, Full note)).
Qed.

Lemma sealed_note_from c b c' id n :
  sealed c b c' → mc_available_notes c' !! id = Some n →
  mc_available_notes c !! id = Some n ∨ Full (input_note n) ∈ mjoin (po_output_note_batches (mc_pending_objects c)).
Proof.
  intros Hs. destruct (sl_notes _ _ _ Hs) as (t & Ht & ->). rewrite lookup_delete_all. case_decide; [done|].
  intros [Hm|(index & note & Hin & _ & ->)]%sealed_notes_inv; [by left|right].
  rewrite (sl_block _ _ _ Hs) in Hin. cbn [pending_block blk_output_note_batches] in Hin.
  rewrite <-(indexed_notes_snd 0). by apply (list_elem_of_fmap_2 snd _ (index, Full note)).
Qed.

Lemma state_after_last l u id w : au_account_id u = id → state_after (l ++ [u]) id w = au_new_state_hash u.
Proof. intros <-. unfold state_after. rewrite foldl_app. cbn [foldl]. by rewrite decide_True. Qed.

(** What a block that includes a transaction does to the chain. *)
Record inclusion (tx : ExecutedTransaction) (account : Account) (removed : list Digest) (b : Block) (c' : MockChain) : Prop := {
  inc_transaction : (executed_id tx, acct_id (ti_account (et_tx_inputs tx))) ∈ block_transactions b;
  inc_last : last_header c' = Some (blk_header b);
  inc_account : ssmt_get_leaf (mc_accounts c') (account_id_leaf_index (acct_id (ti_account (et_tx_inputs tx)))) = account_hash account;
  inc_inputs : Forall (λ n, smt_get_value (mc_nullifiers c') (to_nullifier n) = number_word (bh_block_num (blk_header b)) ∧
                            mc_available_notes c' !! input_id n = None) (in_notes (ti_input_notes (et_tx_inputs tx)));
  inc_outputs note : Full note ∈ on_notes (to_output_notes (et_tx_outputs tx)) →
    note_id note ∉ removed ++ (input_id <$> in_notes (ti_input_notes (et_tx_inputs tx))) →
    ∃ proof, mc_available_notes c' !! note_id note = Some (Authenticated note proof) ∧
      block_num (np_location proof) = bh_block_num (blk_header b) ∧ validate_is_in_block note proof (blk_header b) = Ok tt
}.

Lemma included_sealed c tx account b c' :
  sealed (included c tx account) b c' → inclusion tx account (mc_removed_notes c) b c'.
Proof.
  intros Hs. pose proof (sl_header _ _ _ Hs) as Hh.
  pose proof (sl_block _ _ _ Hs) as Eb. change (length (mc_blocks (included c tx account))) with (length (mc_blocks c)) in Hh.
  constructor.
  - unfold block_transactions. rewrite Eb. cbn [pending_block blk_updated_accounts included set_mc_removed set_mc_pending
      mc_pending_objects po_updated_accounts]. rewrite fmap_app, join_app. apply elem_of_app. right. by left.
  - unfold last_header. by rewrite (sl_blocks _ _ _ Hs), last_snoc.
  - rewrite (sl_accounts _ _ _ Hs), Eb. by apply (state_after_last _ (mkAccountUpdate _ (account_hash account) _ _)).
  - apply Forall_forall. intros n Hn. split.
    + rewrite (sl_nullifiers _ _ _ Hs), (ho_num _ _ _ Hh). unfold nullifier_after. rewrite decide_True; [done|].
      rewrite Eb. apply elem_of_app. right. by apply list_elem_of_fmap_2.
    + apply (sealed_note_removed _ _ _ _ Hs). apply elem_of_app. right. by apply list_elem_of_fmap_2.
  - intros note Hin Hni. apply (sealed_note_available _ _ _ _ Hs); [|done]. rewrite Eb. cbn [pending_block blk_output_note_batches
      included set_mc_removed set_mc_pending mc_pending_objects po_output_note_batches]. rewrite join_app. apply elem_of_app. right.
    cbn. by rewrite app_nil_r.
Qed.

Lemma reaches_length c : mock_reaches c → Z.of_nat (length (mc_blocks c)) ≤ 2 ^ 32.
Proof.
  induction 1 as [|c op c' Hr IH Hn Ho]; [cbn; lia|]. pose proof (mock_reaches_ok c Hr) as Hc.
  destruct op as [tx|note|d|a|a seed auth|num]; cbn [mock_apply] in Ho; [|by injection Ho as <-..|].
  - rewrite add_executed_eq in Ho. destruct (account_apply_delta _ _) as [[[]|?|] account]; [|discriminate..]. by injection Ho as <-.
  - unfold mbind, mut_bind in Ho. destruct (seal_block num c) as [[b|?|] c1] eqn:Es; [|discriminate..]. injection Ho as <-.
    rewrite (sl_blocks _ _ _ (seal_block_sealed num c b c1 Hc (proj1 Hn) (proj2 Hn) Es)), length_app. cbn in *. lia.
Qed.

(** ** Skipped numbers *)

(** A chain whose last block has a number at or above the length of the chain. *)
Definition gapped (c : MockChain) : Prop :=
  length (full_leaves (mc_chain c)) = length (mc_blocks c) ∧ Forall full_update (po_updated_accounts (mc_pending_objects c)) ∧
  ∃ h, last_header c = Some h ∧ Z.of_nat (length (mc_blocks c)) ≤ bh_block_num h < 2 ^ 32.

Definition u32_op (op : MockOp) : Prop := match op with OpSeal (Some num) => 0 ≤ num < 2 ^ 32 | _ => True end.

Lemma gapped_no_inputs {E} c a seed ids ti : gapped c → mock_transaction_inputs (E:=E) c a seed ids ≠ Ok ti.
Proof.
  intros (Hlen & _ & h & Hh & Hnum). unfold mock_transaction_inputs.
  intros (h' & Hh' & ([l m] & Hcol & Hi)%res_bind_inv)%res_bind_inv. apply expect_some_inv in Hh'.
  assert (h' = h) as -> by congruence. cbv beta iota in Hi. apply res_bind_inv in Hi as (cm & Hcm & (notes & _ & Hti)%res_bind_inv).
  assert (mc_blocks c ≠ []) as Hne by (rewrite <-last_header_None; congruence).
  destruct (mc_blocks c) as [|b bs] eqn:Ebs; [done|]. cbn [length] in Hlen, Hnum.
  destruct (mmr_to_chain_mmr_eq (mc_chain c) (btree_iter Z.leb m).*2 (length bs)) as (p & (_ & Hf & _) & Eq); [done|lia|].
  rewrite Eq in Hcm. destruct (chain_mmr_new p _) as [cm'|?|] eqn:Ecm; cbn in Hcm; [|discriminate..]. injection Hcm as ->.
  apply chain_mmr_new_Ok in Ecm as (_ & _ & ->).
  destruct (tx_inputs_new _ _ _ _ _) as [ti'|?|] eqn:Eti; cbn in Hti; [|discriminate..].
  apply tx_inputs_new_Ok in Eti as [(_ & Hcl & _) _]. unfold chain_length in Hcl. cbn [cm_mmr] in Hcl.
  rewrite Hf, length_take_le in Hcl by lia. lia.
Qed.

(** Sealing a block with a number above the length of the chain. *)
Lemma seal_gapped {E} num k c b c' :
  length (full_leaves (mc_chain c)) = length (mc_blocks c) → Forall full_update (po_updated_accounts (mc_pending_objects c)) →
  seal_block_num (E:=E) c num = Ok k → Z.of_nat (length (mc_blocks c)) < k < 2 ^ 32 →
  seal_block (E:=E) num c = (Ok b, c') → gapped c'.
Proof.
  intros Hlen Hu Hk Hr (k' & t & h & Hk' & _ & Hh & -> & _ & ->)%(seal_block_Ok _ _ _ _ Hu). assert (k' = k) as -> by congruence.
  destruct (sealed_trees_history k c) as (E1 & E2 & _).
  assert (bh_block_num h = k) as Hn.
  { unfold seal_header in Hh. apply res_bind_inv in Hh as (ts & _ & (kr & _ & [= <-])%res_bind_inv). done. }
  unfold gapped, last_header. cbn [seal_finish reset_pending set_mc_removed set_mc_pending set_mc_notes sealed_notes mc_blocks
    mc_chain mc_pending_objects pending_new po_updated_accounts].
  rewrite full_add_leaves, E1, E2, !length_app, last_snoc. cbn [length]. split; [lia|]. split; [constructor|].
  exists h. cbn [fmap option_fmap option_map pending_block blk_header]. split; [done|]. lia.
Qed.

Lemma gapped_apply op c c' :
  overflow_checks = true → gapped c → u32_op op → mock_apply op c = (Ok tt, c') → gapped c'.
Proof.
  intros Ho Hg Hop. pose proof Hg as (Hlen & Hu & h & Hh & Hnum).
  destruct op as [tx|note|d|a|a seed auth|num]; cbn [mock_apply].
  - rewrite add_executed_eq. destruct (account_apply_delta _ _) as [[[]|?|] account] eqn:Ea; [|discriminate..]. intros [= <-].
    apply account_apply_delta_id in Ea. split; [done|]. split; [|by exists h]. apply Forall_app. split; [done|].
    constructor; [by exists account|constructor].
  - by intros [= <-].
  - by intros [= <-].
  - intros [= <-]. split; [done|]. split; [|by exists h]. apply Forall_app. split; [done|]. constructor; [by exists a|constructor].
  - intros [= <-]. split; [done|]. split; [|by exists h]. apply Forall_app. split; [done|]. constructor; [by exists a|constructor].
  - unfold mbind, mut_bind. destruct (seal_block num c) as [[b|?|] c1] eqn:Es; [|discriminate..]. intros [= <-].
    pose proof Es as (k & _ & _ & Hk & _)%(seal_block_Ok _ _ _ _ Hu). apply (seal_gapped (E:=Empty_set) num k c b); try done.
    unfold seal_block_num in Hk. rewrite Hh in Hk. apply res_bind_inv in Hk as (next & Hnext & Hk).
    apply u32_add_mod in Hnext as [-> Hck]; [|lia]. specialize (Hck Ho). rewrite Z.mod_small in Hk by lia.
    destruct num as [num|]; [|injection Hk as <-; lia]. destruct (Z.ltb_spec num (bh_block_num h + 1)); [discriminate|].
    injection Hk as <-. cbn in Hop. lia.
Qed.

(** ** Any operations

    [mock_history] has every sequence of operations that succeed, with any 32-bit
    numbers for the blocks; [mock_reaches] are the chains among them whose blocks are
    numbered consecutively. *)

Inductive mock_history : MockChain → Prop :=
  | history_new : mock_history mock_chain_new
  | history_op c op c' : mock_history c → u32_op op → mock_apply op c = (Ok tt, c') → mock_history c'.
Definition consecutive (c : MockChain) : Prop :=
  ∀ i b, mc_blocks c !! i = Some b → bh_block_num (blk_header b) = Z.of_nat i.

Lemma mock_apply_blocks op c c' :
  Forall full_update (po_updated_accounts (mc_pending_objects c)) → mock_apply op c = (Ok tt, c') →
  Forall full_update (po_updated_accounts (mc_pending_objects c')) ∧
  match op with
  | OpSeal num => ∃ b, seal_block_num (E:=Empty_set) c num = Ok (bh_block_num (blk_header b)) ∧ mc_blocks c' = mc_blocks c ++ [b]
  | _ => mc_blocks c' = mc_blocks c
  end.
Proof.
  intros Hu. destruct op as [tx|note|d|a|a seed auth|num]; cbn [mock_apply].
  - rewrite add_executed_eq. destruct (account_apply_delta _ _) as [[[]|?|] account] eqn:Ea; [|discriminate..]. intros [= <-].
    apply account_apply_delta_id in Ea. split; [|done]. apply Forall_app. split; [done|]. constructor; [by exists account|constructor].
  - by intros [= <-].
  - by intros [= <-].
  - intros [= <-]. split; [|done]. apply Forall_app. split; [done|]. constructor; [by exists a|constructor].
  - intros [= <-]. split; [|done]. apply Forall_app. split; [done|]. constructor; [by exists a|constructor].
  - unfold mbind, mut_bind. destruct (seal_block num c) as [[b|?|] c1] eqn:Es; [|discriminate..]. intros [= <-].
    apply (seal_block_Ok _ _ _ _ Hu) in Es as (k & t & h & Hk & _ & Hh & -> & _ & ->).
    split; [constructor|]. exists (pending_block h (mc_pending_objects c)).
    assert (bh_block_num h = k) as Hn.
    { unfold seal_header in Hh. apply res_bind_inv in Hh as (ts & _ & (kr & _ & [= <-])%res_bind_inv). done. }
    cbn [pending_block blk_header]. rewrite Hn. split; [done|]. cbn [seal_finish reset_pending set_mc_removed set_mc_pending mc_blocks].
    destruct (sealed_trees_history k c) as (_ & E2 & _). cbn [set_mc_notes sealed_notes mc_blocks]. by rewrite E2.
Qed.

(** The number of a sealed block is the one that was asked for, if any, and fits 32 bits. *)
Lemma seal_block_num_range num c k :
  mock_reaches c → u32_op (OpSeal num) → seal_block_num (E:=Empty_set) c num = Ok k →
  k < 2 ^ 32 ∧ (num = None ∨ num = Some k).
Proof.
  intros Hr Hop. unfold seal_block_num. intros (next & Hnext & Hk)%res_bind_inv. destruct num as [num|].
  - destruct (Z.ltb_spec num next); [discriminate|]. injection Hk as <-. split; [apply Hop|by right].
  - injection Hk as <-. split; [|by left]. destruct (last_header c) as [h|] eqn:El; [|injection Hnext as <-; lia].
    destruct (last_header_Some c h (mock_reaches_ok c Hr) El) as (b & i & _ & _ & _ & -> & Hh). rewrite (ho_num _ _ _ Hh) in Hnext.
    apply u32_add_mod in Hnext as [-> _]; [|lia]. by apply Z.mod_pos_bound.
Qed.

Lemma history_reaches c :
  mock_history c → Forall full_update (po_updated_accounts (mc_pending_objects c)) ∧ (consecutive c → mock_reaches c).
Proof.
  induction 1 as [|c op c' _ [Hu IH] Hop Ho]; [split; [constructor|intros _; apply reaches_new]|].
  destruct (mock_apply_blocks op c c' Hu Ho) as [Hu' Hb]. split; [done|]. intros Hc'.
  assert (∃ l, mc_blocks c' = mc_blocks c ++ l) as [l El].
  { destruct op; [exists []; by rewrite app_nil_r..|]. destruct Hb as (b & _ & ->). by exists [b]. }
  assert (mock_reaches c) as Hr by (apply IH; intros i b Hi; apply Hc'; rewrite El; by apply lookup_app_l_Some).
  apply (reaches_op c op); [done| |done]. destruct op as [tx|note|d|a|a seed auth|num]; try exact I.
  destruct Hb as (b & Hk & Eb). destruct (seal_block_num_range num c _ Hr Hop Hk) as [Hlt Hnum].
  rewrite (Hc' (length (mc_blocks c)) b) in Hlt, Hnum by (rewrite Eb; by apply list_lookup_middle). by split.
Qed.

(** A block that is not numbered by the length of the chain. *)
Lemma seal_skips_gapped num c b c1 :
  mock_reaches c → Z.of_nat (length (mc_blocks c)) < 2 ^ 32 → 0 ≤ num < 2 ^ 32 → num ≠ Z.of_nat (length (mc_blocks c)) →
  seal_block (E:=Empty_set) (Some num) c = (Ok b, c1) → gapped c1.
Proof.
  intros Hr Hl Hnum Hne Hs. pose proof (mock_reaches_ok c Hr) as Hc.
  pose proof Hs as (k & _ & _ & Hk & _)%(seal_block_Ok _ _ _ _ (ck_updates _ Hc)). apply (seal_gapped (E:=Empty_set) (Some num) k c b); try done.
  - by rewrite (ck_leaves _ Hc), length_fmap.
  - apply Hc.
  - pose proof (proj2 (seal_block_num_ok (E:=Empty_set) c None _ Hc Hl (or_introl eq_refl)) eq_refl) as Hn.
    unfold seal_block_num in Hk, Hn. apply res_bind_inv in Hn as (next & Hnext & [= ->]). rewrite Hnext in Hk. cbn [mbind res_bind] in Hk.
    destruct (Z.ltb_spec num (Z.of_nat (length (mc_blocks c)))); [discriminate|]. injection Hk as <-. lia.
Qed.

(** With overflow checks a chain is numbered consecutively, or it has a gap at its end. *)
Lemma history_gapped c : overflow_checks = true → mock_history c → mock_reaches c ∨ gapped c.
Proof.
  intros Hoc. induction 1 as [|c op c' _ [Hr|Hg] Hop Ho]; [left; apply reaches_new| |right; by apply (gapped_apply op c)].
  destruct op as [tx|note|d|a|a seed auth|num]; try (left; eapply reaches_op; [exact Hr| |exact Ho]; exact I).
  pose proof (reaches_length c Hr) as Hle. pose proof (mock_reaches_ok c Hr) as Hc.
  destruct (mock_apply_blocks _ c c' (ck_updates _ Hc) Ho) as [_ (b & Hk & _)].
  destruct (decide (Z.of_nat (length (mc_blocks c)) < 2 ^ 32)) as [Hl|Hl].
  - destruct num as [num|]; [|left; apply (reaches_op c (OpSeal None)); [done|by split; [|left]|done]].
    destruct (decide (num = Z.of_nat (length (mc_blocks c)))) as [->|Hne];
      [left; apply (reaches_op c (OpSeal (Some (Z.of_nat (length (mc_blocks c)))))); [done|by split; [|right]|done]|].
    right. cbn [mock_apply] in Ho. unfold mbind, mut_bind in Ho.
    destruct (seal_block (Some num) c) as [[b'|?|] c1] eqn:Es; [|discriminate..]. injection Ho as <-.
    by apply (seal_skips_gapped num c b').
  - exfalso. unfold seal_block_num in Hk. apply res_bind_inv in Hk as (next & Hnext & _).
    destruct (last_header c) as [h|] eqn:El; [|apply last_header_None in El; rewrite El in Hl; cbn in Hl; lia].
    destruct (last_header_Some c h Hc El) as (b' & i & _ & _ & Hi & -> & Hh). rewrite (ho_num _ _ _ Hh) in Hnext.
    apply u32_add_mod in Hnext as [_ Hck]; [|lia]. specialize (Hck Hoc). lia.
Qed.

(** ** Theorems *)

(** C33. Consistency of the mock chain. Take any chain that is reached by adding notes,
    nullifiers, accounts and transactions and sealing blocks, with any 32-bit numbers
    given to the blocks. If its blocks are numbered consecutively, as they are when
    no number is given, the chain is consistent: block [i] has the time of its
    place, the hash of the block before it and the root of the range of all blocks
    before it; its other roots are those of the notes and transactions of the block,
    of all nullifiers up to it with the last block that has them, and of the last
    state of every account; every available note has a proof that its block accepts.
    If they are not, because a block was sealed with a number above the next one as
    [MockChainBuilder::starting_block_num] does, this does not hold, and where
    overflow is checked the chain never assembles the inputs of a transaction. *)
Theorem mock_chain_consistent c :
  mock_history c →
  (consecutive c → chain_ok c ∧ Z.of_nat (length (mc_blocks c)) ≤ 2 ^ 32) ∧
  (overflow_checks = true → ¬ consecutive c → ∀ a seed ids ti, mock_transaction_inputs (E:=Empty_set) c a seed ids ≠ Ok ti).
Proof.
  intros Hh. destruct (history_reaches c Hh) as [_ Hreach]. split.
  - intros Hc%Hreach. split; [by apply mock_reaches_ok|by apply reaches_length].
  - intros Hoc Hnc a seed ids ti. destruct (history_gapped c Hoc Hh) as [Hr|Hg]; [|by apply gapped_no_inputs].
    destruct Hnc. intros i b Hi. apply (ho_num _ _ _ (ck_headers _ (mock_reaches_ok c Hr) i b Hi)).
Qed.

(** C11. The chain assembles the inputs of a transaction exactly when all requested
    notes are available, come from blocks before the last one, are not too many and
    have different nullifiers, and the seed fits the account; otherwise it panics.
    The inputs have the requested notes in order and the last block as reference,
    and pass the checks of TransactionInputs::new. *)
Theorem mock_inputs_spec c a seed ids :
  mock_reaches c →
  match mock_transaction_inputs (E:=Empty_set) c a seed ids with
  | Ok ti => ∃ n l, inputs_ready c a seed ids n l ∧ last_header c = Some (ti_block_header ti) ∧ ti_account ti = a ∧
      ti_account_seed ti = seed ∧ in_notes (ti_input_notes ti) = l ∧
      tx_inputs_new a seed (ti_block_header ti) (ti_block_chain ti) (ti_input_notes ti) = Ok ti
  | Err _ => False
  | Panic => ¬ ∃ n l, inputs_ready c a seed ids n l
  end.
Proof.
  intros Hr. pose proof (mock_reaches_ok c Hr) as Hc. pose proof (reaches_length c Hr) as Hl.
  destruct (mock_transaction_inputs c a seed ids) as [ti|[]|] eqn:Ei.
  - apply (mock_inputs_inv c a seed ids ti Hc Hl) in Ei as (n & l & cm & h & Hready & Hh & Hnew & ->). by exists n, l.
  - intros (n & l & Hready). destruct (mock_inputs_ready (E:=Empty_set) c a seed ids n l Hc Hl Hready). congruence.
Qed.


(** [MockChain::chain] panics on every chain: it asks for a view of the chain
    without its last block, but passes the header of that block as well. *)
Theorem mock_chain_mmr_panics c : mock_reaches c → mock_chain_mmr (E:=Empty_set) c = Panic.
Proof.
  intros Hr. pose proof (mock_reaches_ok c Hr) as Hc. pose proof (reaches_length c Hr) as Hl. unfold mock_chain_mmr.
  destruct (last_header c) as [h|] eqn:Hh.
  - destruct (last_header_Some c h Hc Hh) as (b & n & Hb & _ & Hn & -> & Hho).
    destruct (mmr_to_chain_mmr_eq (mc_chain c) (blk_header <$> mc_blocks c) n) as (p & (_ & Hf & _) & ->);
      [by rewrite (ck_leaves _ Hc), length_fmap|lia|].
    destruct (chain_mmr_new p _) as [cm|?|] eqn:E; [|done..]. apply chain_mmr_new_Ok in E as [Hall _].
    destruct (Hall (blk_header b)) as [Hlt _]; [apply list_elem_of_fmap_2; by eapply list_elem_of_lookup_2|].
    rewrite Hf, length_take_le, (ho_num _ _ _ Hho) in Hlt by (rewrite (ck_leaves _ Hc), length_fmap; lia). lia.
  - apply last_header_None in Hh. unfold mmr_to_chain_mmr. rewrite full_forest_spec, (ck_leaves _ Hc), Hh.
    change (Z.of_nat (length (block_hash <$> [])) =? 0) with true. cbv iota.
    destruct overflow_checks; [done|]. cbn [mbind res_bind].
    destruct (full_peaks_at_too_big (mc_chain c) U64_MAX) as [e ->]; [|done].
    rewrite full_forest_spec, (ck_leaves _ Hc), Hh. by vm_compute.
Qed.

(** A block that is sealed with a number above the next one, as
    MockChainBuilder::starting_block_num does, leaves a chain that never again
    assembles the inputs of a transaction, whatever is done to it. *)
Theorem skipped_number_stalls c num b c1 ops c2 a seed ids ti :
  overflow_checks = true → mock_reaches c → Z.of_nat (length (mc_blocks c)) < 2 ^ 32 →
  0 ≤ num < 2 ^ 32 → num ≠ Z.of_nat (length (mc_blocks c)) → seal_block (E:=Empty_set) (Some num) c = (Ok b, c1) →
  Forall u32_op ops → for_each ops mock_apply c1 = (Ok tt, c2) → mock_transaction_inputs (E:=Empty_set) c2 a seed ids ≠ Ok ti.
Proof.
  intros Ho Hr Hl Hnum Hne Hs Hops Hrun. apply gapped_no_inputs. pose proof (mock_reaches_ok c Hr) as Hc.
  pose proof (seal_skips_gapped num c b c1 Hr Hl Hnum Hne Hs) as Hg.
  clear Hs Hr Hl Hne Hc. revert c1 Hg Hrun. induction Hops as [|op ops Hop _ IH]; intros c1 Hg; cbn [for_each].
  - by intros [= <-].
  - unfold mbind, mut_bind. destruct (mock_apply op c1) as [[[]|?|] c3] eqn:Eop; [|discriminate..].
    apply IH. by apply (gapped_apply op c1).
Qed.
End MockChain.

(** ** Witnesses *)

#[local] Existing Instance Goldilocks.
#[local] Existing Instance ToyHasher.
#[local] Existing Instance MapTree.
#[local] Existing Instance CodeOrd.
#[local] Existing Instance PlainIO.
#[local] Existing Instance RootsAsm.
#[local] Existing Instance RootsProgram.
#[local] Existing Instance PlainNoteIO.
#[local] Existing Instance ListPath.
#[local] Existing Instance ListSmt.
#[local] Existing Instance ListMmr.
#[local] Existing Instance ListAdvice.
#[local] Existing Instance FeltKey.

(** The range of all leaves as their list; a partial range marks the tracked ones. *)
Definition list_track (i : Z) (d : Digest) (_ : list Digest) : mut (list (Digest * bool)) unit unit := λ p,
  match p !! Z.to_nat i with
  | Some (d', _) => if decide (d' = d) then (Ok tt, <[Z.to_nat i := (d, true)]> p) else (Err tt, p)
  | None => (Err tt, p)
  end.

Lemma list_track_spec (l : list Digest) (i : nat) (d : Digest) (p : list (Digest * bool)) :
  Z.of_nat (length l) < 2 ^ 64 → p.*1 = l → l !! i = Some d →
  ∃ p', list_track (Z.of_nat i) d [] p = (Ok tt, p') ∧ p'.*1 = l ∧ list_forest p' = Z.of_nat (length l) ∧
    list_tracked p' (Z.of_nat i) = true ∧ ∀ j, list_tracked p j = true → list_tracked p' j = true.
Proof.
  intros Hl <- Hd. rewrite length_fmap in *. apply list_lookup_fmap_Some in Hd as ([d' t] & -> & Hp). unfold list_track.
  rewrite Nat2Z.id, Hp. cbn [fst]. rewrite decide_True by done. eexists. split; [done|].
  assert (i < length p)%nat by (by eapply lookup_lt_Some). split; [|split; [|split]].
  - rewrite list_fmap_insert. cbn. apply list_insert_id. by rewrite list_lookup_fmap, Hp.
  - unfold list_forest. rewrite length_insert. lia.
  - unfold list_tracked. rewrite (proj2 (Z.ltb_ge _ _)), Nat2Z.id, list_lookup_insert_eq by lia. done.
  - intros j. unfold list_tracked. destruct (Z.ltb_spec j 0); [done|]. destruct (decide (Z.to_nat j = i)) as [->|Hj].
    + by rewrite list_lookup_insert_eq.
    + by rewrite list_lookup_insert_ne.
Qed.

#[refine] Definition ListFull : MmrFullApi := {|
  Mmr := list Digest;
  MmrError := unit;
  full_new := [];
  full_add d m := m ++ [d];
  full_forest m := Z.of_nat (length m);
  full_peaks m := m;
  full_peaks_at m f := if f <=? Z.of_nat (length m) then Ok (take (Z.to_nat f) m) else Err tt;
  full_get m i := ok_or tt (m !! Z.to_nat i);
  full_open_at m i f := if (i <? f) && (f <=? Z.of_nat (length m)) then Ok [] else Err tt;
  partial_from_peaks p := (λ d, (d, false)) <$> p;
  partial_track := list_track;
  ssmt_insert _ t i w := <[i := w]> t;
  full_leaves m := m;
  peaks_of l := l;
  leaf_path _ _ := []
|}.
Proof.
  - abstract done.
  - abstract done.
  - abstract done.
  - abstract done.
  - abstract (intros m f Hf; rewrite (proj2 (Z.leb_le _ _)) by lia; by rewrite Nat2Z.id).
  - abstract (intros m f Hf; rewrite (proj2 (Z.leb_gt _ _)) by lia; by eexists).
  - abstract (intros m i d Hd; by rewrite Nat2Z.id, Hd).
  - abstract (intros m i f Hf; rewrite (proj2 (Z.ltb_lt _ _)), (proj2 (Z.leb_le _ _)) by lia; done).
  - abstract (intros l Hl; cbn; split; [rewrite <-list_fmap_compose; apply list_fmap_id|];
      unfold list_forest; rewrite length_fmap; lia).
  - abstract (intros l i d p Hl Hp _; by apply list_track_spec).
  - abstract (intros depth t i w j _ _; cbn; unfold tree_get; case_decide as E;
      [by rewrite E, lookup_insert_eq|by rewrite lookup_insert_ne]).
  - abstract (intros depth i; done).
Defined.
#[local] Existing Instance ListFull.

#[refine] Definition PlainFalcon : FalconApi := {|
  Rng := Z;
  Signature := list felt;
  sign_with_rng key message rng := (word_elements message, rng + 1);
  sig_nonce sig := sig;
  sig_poly _ := [];
  pub_key_poly _ := [];
  mul_modulo_p a _ := a
|}.
Defined.
#[local] Existing Instance PlainFalcon.

Lemma reaches_apply checks c op :
  mock_reaches checks c → numbered c op → is_ok (mock_apply checks op c).1 = true → mock_reaches checks (mock_apply checks op c).2.
Proof.
  intros Hr Hn Ho. apply (reaches_op checks c op); [done..|]. by destruct (mock_apply checks op c) as [[[]|[]|] c'].
Qed.

(** A chain with one note, two blocks deep. *)
Definition sample_chain_1 : MockChain := (mock_apply true (OpNote sample_note) mock_chain_new).2.
Definition sample_chain_2 : MockChain := (mock_apply true (OpSeal None) sample_chain_1).2.
Definition sample_chain_3 : MockChain := (mock_apply true (OpSeal None) sample_chain_2).2.

Lemma sample_chain_reached : mock_reaches true sample_chain_3.
Proof.
  apply reaches_apply; [apply reaches_apply; [apply reaches_apply; [apply reaches_new|done|reflexivity]| |]| |].
  - split; [cbn; lia|by left].
  - vm_compute. reflexivity.
  - split; [vm_compute; reflexivity|by left].
  - vm_compute. reflexivity.
Qed.

(** The chain is consistent; sealing a block with the number 7 leaves a chain that is
    not. *)
Lemma history_apply checks c op :
  mock_history checks c → u32_op op → is_ok (mock_apply checks op c).1 = true → mock_history checks (mock_apply checks op c).2.
Proof.
  intros Hr Hn Ho. apply (history_op checks c op); [done..|]. by destruct (mock_apply checks op c) as [[[]|[]|] c'].
Qed.
Definition skipped_chain : MockChain := (mock_apply true (OpSeal (Some 7)) sample_chain_3).2.
Lemma sample_chain_history : mock_history true sample_chain_3.
Proof.
  repeat (apply history_apply; [|done|vm_compute; reflexivity]). apply history_new.
Qed.
Lemma skipped_chain_history : mock_history true skipped_chain.
Proof. apply history_apply; [exact sample_chain_history|cbn; lia|vm_compute; reflexivity]. Qed.
Lemma skipped_numbers : (λ b, bh_block_num (blk_header b)) <$> mc_blocks skipped_chain = [0; 1; 7].
Proof. vm_compute. reflexivity. Qed.

Lemma mock_chain_consistent_witness :
  chain_ok true sample_chain_3 ∧ ∀ a seed ids ti, mock_transaction_inputs (E:=Empty_set) true skipped_chain a seed ids ≠ Ok ti.
Proof.
  split.
  - apply (proj1 (mock_chain_consistent true sample_chain_3 sample_chain_history)).
    intros i b Hi. exact (ho_num _ _ _ _ (ck_headers _ _ (mock_reaches_ok _ _ sample_chain_reached) i b Hi)).
  - apply (proj2 (mock_chain_consistent true skipped_chain skipped_chain_history)); [reflexivity|].
    intros Hc. pose proof (f_equal (λ l, l !! 2%nat) skipped_numbers) as E. cbn beta in E. rewrite list_lookup_fmap in E.
    destruct (mc_blocks skipped_chain !! 2%nat) as [b|] eqn:Eb; [|discriminate]. cbn in E. injection E as E.
    rewrite (Hc 2%nat b Eb) in E. discriminate.
Defined.

(** The note can be consumed once a second block is on top of its block. *)
Example sample_note_consumable :
  is_ok (mock_transaction_inputs (E:=Empty_set) true sample_chain_3 sample_existing None [note_id sample_note]) = true ∧
  is_ok (mock_transaction_inputs (E:=Empty_set) true sample_chain_2 sample_existing None [note_id sample_note]) = false.
Proof. split; vm_compute; reflexivity. Qed.

Lemma mock_inputs_spec_witness :
  ∃ n l, inputs_ready sample_chain_3 sample_existing None [note_id sample_note] n l.
Proof.
  pose proof (mock_inputs_spec true sample_chain_3 sample_existing None [note_id sample_note] sample_chain_reached) as Hs.
  pose proof (proj1 sample_note_consumable) as Hok.
  destruct (mock_transaction_inputs _ _ _ _ _) as [ti|?|]; [|discriminate..]. destruct Hs as (n & l & Hr & _). exists n, l. exact Hr.
Defined.

(** A transaction that consumes the note and creates another one. *)
Definition sample_output_note : Note :=
  default sample_note (match recipient_new (E:=Empty_set) (sample_word 5) sample_script sample_inputs with
                       | Ok r => match note_new (E:=Empty_set) sample_note_assets sample_metadata r with Ok n => Some n | _ => None end
                       | _ => None
                       end).
Definition sample_consumption : ExecutedTransaction :=
  mkExecuted
    (mkTxInputs sample_account None sample_reference sample_chain sample_input_notes)
    (mkTxOutputs (account_header_from sample_account_1)
       (mkOutputNotes [Full sample_output_note] (build_output_notes_commitment [Full sample_output_note])) 100)
    [] sample_delta_1 sample_args advice_default (mkMeasurements 0 0 [] 0 0).

