(* ===== verification/TxContext.v ===== *)
(** * Accounts and transactions on the mock chain

    Models the rest of miden-tx/src/testing/mock_chain.rs, the accounts and notes
    that are made up on the chain, and of miden-tx/src/testing/tx_context/ the
    context that runs a transaction on it and is the data store of its executor. The
    random number generators and the generation of keys are third-party code. The
    notes with made-up assembly code, which the builder of contexts can add, are in
    MockNotes. *)

From S2P Require Import Prelude Felt Crypto Serde Types AccountId Assets TokenSymbol VaultDelta Vault StorageDelta Storage.
From S2P Require Import Code Account Builder NoteMeta NoteContents Notes StdLib TxOutputs Merkle Chain TxInputs TxArgs.
From S2P Require Import Blocks Memory Kernel TxTracker TxHost TxProven TxExec MockChain.
Open Scope Z_scope.

(** [ChaCha20Rng::from_seed(Default::default())], its [gen] for a seed of 32 bytes,
    [SecretKey::with_rng] and [public_key], and [RpoRandomCoin::new(Word::default())]. *)
Class TestRngApi {F : FeltApi} {A : AsmApi} {P : ProgramApi} {B : ByteIO} {KI : KeyIO} {G : FalconApi} {L : StdLibApi} := {
  chacha_default : Rng;
  gen_seed : Rng → list Z * Rng;
  secret_key_with_rng : Rng → SecretKey * Rng;
  secret_public_key : SecretKey → PublicKey;
  rpo_coin_default : FeltRng;
  gen_seed_bytes : ∀ rng, length (gen_seed rng).1 = 32%nat ∧ Forall (λ x, 0 ≤ x < 2 ^ 8) (gen_seed rng).1
}.

Section Context.
  Context {F : FeltApi} {H : HasherApi} {S : SmtApi} {D : DigestOrd} {A : AsmApi} {P : ProgramApi}.
  Context {B : ByteIO} {N : NoteIO} {T : PathApi} {R : MmrApi} {V : AdviceInputsApi}.
  Context {KI : KeyIO} {G : FalconApi} {Q : SimpleSmtApi} {U : MmrFullApi} {L : StdLibApi} {X : TestRngApi}.
  (** Whether arithmetic overflow is checked. *)
  Context (overflow_checks : bool).

(** ** Notes and accounts *)

Definition add_p2id_note (sender target : AccountId) (asset : list Asset) (note_type : NoteType) : mut MockChain NoteError Note := λ c,
  match create_p2id_note sender target asset note_type ZERO rpo_coin_default with
  | (Ok note, _) => (Ok note, mock_add_note note c)
  | (Err e, _) => (Err e, c)
  | (Panic, _) => (Panic, c)
  end.

Inductive Auth : Type := BasicAuth | NoAuth.

Definition testing_with_component (component : AccountComponent) (t : TestingBuilder) : TestingBuilder :=
  mkTesting (builder_with_component component (tb_builder t)) (tb_assets t).
Definition testing_init_seed (seed : list Z) (t : TestingBuilder) : TestingBuilder :=
  mkTesting (builder_init_seed seed (tb_builder t)) (tb_assets t).
Definition testing_account_type (ty : AccountType) (t : TestingBuilder) : TestingBuilder :=
  mkTesting (builder_account_type ty (tb_builder t)) (tb_assets t).

(** The account, its seed and its authenticator; the fuel is that of the seed
    search for new accounts. *)
Definition build_mock_account {E} (fuel : nat) (auth_method : Auth) (account_builder : TestingBuilder)
    : option (res E (Account * option Word * option BasicAuthenticator)) :=
  match auth_method with
  | BasicAuth =>
      let '(sec_key, rng) := secret_key_with_rng chacha_default in
      let pub_key := secret_public_key sec_key in
      match falcon_component (E:=E) (mkFalcon pub_key) with
      | Ok component =>
          r ← build_testing fuel (testing_with_component component account_builder);
          let authenticator := basic_new_with_rng [(public_key_word pub_key, Account.RpoFalcon512 sec_key)] rng in
          Some ((λ x, (x.1, x.2, Some authenticator)) <$> expect_ok r)
      | Err e => Some (Err e)
      | Panic => Some Panic
      end
  | NoAuth => r ← build_testing fuel account_builder; Some ((λ x, (x.1, x.2, None)) <$> expect_ok r)
  end.
Definition add_from_account_builder {E} (fuel : nat) (auth_method : Auth) (account_builder : TestingBuilder) (c : MockChain)
    : option (res E Account * MockChain) :=
  r ← build_mock_account fuel auth_method account_builder;
  Some (match r with
        | Ok (account, seed, authenticator) => (Ok account, mock_register account seed authenticator c)
        | Err e => (Err e, c)
        | Panic => (Panic, c)
        end).

(** The builders of wallets and faucets. *)
Definition wallet_builder {E} (nonce : felt) (assets : list Asset) : res E TestingBuilder :=
  component ← wallet_component;
  Ok (testing_with_assets assets (testing_with_component component
        (testing_nonce nonce (testing_init_seed (gen_seed chacha_default).1 testing_new)))).
Definition faucet_builder {E} (nonce : felt) (token_symbol : list Ascii.ascii) (max_supply : Z) : res E TestingBuilder :=
  symbol ← expect_ok (token_symbol_new token_symbol);
  max_supply ← expect_some (felt_try_from_u64 max_supply);
  faucet ← expect_ok (faucet_new symbol 10 max_supply);
  component ← faucet_component faucet;
  Ok (testing_with_component component (testing_account_type FungibleFaucet
        (testing_nonce nonce (testing_init_seed (gen_seed chacha_default).1 testing_new)))).
Definition add_built {E} (fuel : nat) (auth_method : Auth) (b : res E TestingBuilder) (c : MockChain)
    : option (res E Account * MockChain) :=
  match b with
  | Ok b => add_from_account_builder fuel auth_method b c
  | Err e => Some (Err e, c)
  | Panic => Some (Panic, c)
  end.
Definition add_new_wallet {E} (fuel : nat) (auth_method : Auth) (assets : list Asset) :=
  add_built (E:=E) fuel auth_method (wallet_builder ZERO assets).
Definition add_existing_wallet {E} (fuel : nat) (auth_method : Auth) (assets : list Asset) :=
  add_built (E:=E) fuel auth_method (wallet_builder ONE assets).
Definition add_new_faucet {E} (fuel : nat) (auth_method : Auth) (token_symbol : list Ascii.ascii) (max_supply : Z) :=
  add_built (E:=E) fuel auth_method (faucet_builder ZERO token_symbol max_supply).
Definition add_existing_faucet {E} (fuel : nat) (auth_method : Auth) (token_symbol : list Ascii.ascii) (max_supply : Z) :=
  add_built (E:=E) fuel auth_method (faucet_builder ONE token_symbol max_supply).
(** [MockFungibleFaucet::mint] *)
Definition mock_mint {E} (faucet : Account) (amount : Z) : res E Asset :=
  asset ← expect_ok (fungible_new (acct_id faucet) amount); Ok (Fungible asset).

(** ** Transaction contexts *)

Record TransactionContextBuilder : Type := mkCtxBuilder {
  cx_account : Account;
  cx_account_seed : option Word;
  cx_advice_map : option (gmap Digest (list felt));
  cx_advice_inputs : AdviceInputs;
  cx_authenticator : option BasicAuthenticator;
  cx_input_notes : list Note;
  cx_expected_output_notes : list Note;
  cx_tx_script : option TransactionScript;
  cx_note_args : gmap Digest Word;
  cx_mock_chain : option MockChain
}.
Definition ctx_builder_new (account : Account) : TransactionContextBuilder :=
  mkCtxBuilder account None None advice_default None [] [] None ∅ None.
Definition ctx_account_seed x (b : TransactionContextBuilder) :=
  mkCtxBuilder (cx_account b) x (cx_advice_map b) (cx_advice_inputs b) (cx_authenticator b) (cx_input_notes b)
    (cx_expected_output_notes b) (cx_tx_script b) (cx_note_args b) (cx_mock_chain b).
Definition ctx_advice_inputs x (b : TransactionContextBuilder) :=
  mkCtxBuilder (cx_account b) (cx_account_seed b) (cx_advice_map b) x (cx_authenticator b) (cx_input_notes b)
    (cx_expected_output_notes b) (cx_tx_script b) (cx_note_args b) (cx_mock_chain b).
Definition ctx_authenticator x (b : TransactionContextBuilder) :=
  mkCtxBuilder (cx_account b) (cx_account_seed b) (cx_advice_map b) (cx_advice_inputs b) x (cx_input_notes b)
    (cx_expected_output_notes b) (cx_tx_script b) (cx_note_args b) (cx_mock_chain b).
Definition ctx_input_notes (input_notes : list Note) (b : TransactionContextBuilder) :=
  mkCtxBuilder (cx_account b) (cx_account_seed b) (cx_advice_map b) (cx_advice_inputs b) (cx_authenticator b)
    (cx_input_notes b ++ input_notes) (cx_expected_output_notes b) (cx_tx_script b) (cx_note_args b) (cx_mock_chain b).
Definition ctx_tx_script x (b : TransactionContextBuilder) :=
  mkCtxBuilder (cx_account b) (cx_account_seed b) (cx_advice_map b) (cx_advice_inputs b) (cx_authenticator b)
    (cx_input_notes b) (cx_expected_output_notes b) (Some x) (cx_note_args b) (cx_mock_chain b).
Definition ctx_expected_notes (output_notes : list OutputNote) (b : TransactionContextBuilder) :=
  mkCtxBuilder (cx_account b) (cx_account_seed b) (cx_advice_map b) (cx_advice_inputs b) (cx_authenticator b) (cx_input_notes b)
    (cx_expected_output_notes b ++ omap (λ n, match n with Full note => Some note | _ => None end) output_notes)
    (cx_tx_script b) (cx_note_args b) (cx_mock_chain b).
Definition ctx_mock_chain x (b : TransactionContextBuilder) :=
  mkCtxBuilder (cx_account b) (cx_account_seed b) (cx_advice_map b) (cx_advice_inputs b) (cx_authenticator b) (cx_input_notes b)
    (cx_expected_output_notes b) (cx_tx_script b) (cx_note_args b) (Some x).

(** [MockChain::build_tx_context] *)
Definition build_tx_context {E} (c : MockChain) (account_id : AccountId) : res E TransactionContextBuilder :=
  mock_account ← expect_some (mc_available_accounts c !! account_id);
  Ok (ctx_mock_chain c (ctx_account_seed (ma_seed mock_account)
        (ctx_authenticator (ma_authenticator mock_account) (ctx_builder_new (ma_account mock_account))))).

Record TransactionContext : Type := mkContext {
  tc_mock_chain : MockChain;
  tc_expected_output_notes : list Note;
  tc_tx_args : TransactionArgs;
  tc_tx_inputs : TransactionInputs;
  tc_advice_inputs : AdviceInputs;
  tc_authenticator : option BasicAuthenticator
}.

(** The loop that seals empty blocks on top of the pending objects. *)
Fixpoint seal_blocks {E} (n : nat) : mut MockChain E unit :=
  match n with O => mret tt | Datatypes.S n' => seal_block overflow_checks None ;; seal_blocks n' end.

Section Build.
  Context {M : MastIO}.

(** [TransactionContextBuilder::build]; [debug] says whether the debug assertion on
    expected notes is compiled in. *)
Definition ctx_build {E} (debug : bool) (b : TransactionContextBuilder) : res E TransactionContext :=
  mock_chain ← match cx_mock_chain b with
               | Some mock_chain => Ok mock_chain
               | None => chain_builder_build overflow_checks (cb_with_notes (cx_input_notes b) chain_builder_default)
               end;
  let '(r, mock_chain) := seal_blocks 4 mock_chain in
  r ;;
  let tx_args := with_advice_inputs (cx_advice_inputs b)
                   (tx_args_new (cx_tx_script b) (Some (cx_note_args b)) (default ∅ (cx_advice_map b))) in
  let input_note_ids := input_id <$> mock_available_notes mock_chain in
  tx_inputs ← mock_transaction_inputs overflow_checks mock_chain (cx_account b) (cx_account_seed b) input_note_ids;
  let '(r, tx_args) := extend_expected_output_notes debug (note_details <$> cx_expected_output_notes b) tx_args in
  r ;;
  Ok (mkContext mock_chain (cx_expected_output_notes b) tx_args tx_inputs (cx_advice_inputs b) (cx_authenticator b)).
End Build.

(** [DataStore for TransactionContext] *)
Definition context_data_store {E} (ctx : TransactionContext) (account_id : AccountId) (block_num : Z) (notes : list Digest)
    : res E TransactionInputs :=
  let ti := tc_tx_inputs ctx in
  if decide (account_id ≠ acct_id (ti_account ti)) then Panic
  else if decide (block_num ≠ bh_block_num (ti_block_header ti)) then Panic
  else if decide (length notes ≠ length (in_notes (ti_input_notes ti))) then Panic
  else Ok ti.
(** [TransactionContext::input_notes] *)
Definition context_input_notes {E} (ctx : TransactionContext) : res E (InputNotes InputNote) :=
  expect_ok (input_notes_new (mock_available_notes (tc_mock_chain ctx))).

(** ** Sealing empty blocks *)

Lemma empty_valid : valid_pending pending_new.
Proof. intros h. split_and!; cbn; try (by vm_compute); constructor. Qed.

(** Nothing is pending. *)
Definition settled (c : MockChain) : Prop := mc_pending_objects c = pending_new ∧ mc_removed_notes c = [].

Lemma sealed_settled c b c' : settled c → sealed overflow_checks c b c' → mc_available_notes c' = mc_available_notes c.
Proof.
  intros [Hp Hr] Hs. destruct (sl_notes _ _ _ _ Hs) as (t & _ & ->). rewrite Hr, (sl_block _ _ _ _ Hs).
  cbn [pending_block blk_output_note_batches foldl]. by rewrite Hp.
Qed.

Lemma seal_next c :
  mock_reaches overflow_checks c → Z.of_nat (length (mc_blocks c)) < 2 ^ 32 → time_left overflow_checks c →
  valid_pending (mc_pending_objects c) →
  ∃ b c', seal_block (E:=Empty_set) overflow_checks None c = (Ok b, c') ∧ sealed overflow_checks c b c' ∧
    mock_reaches overflow_checks c' ∧ length (mc_blocks c') = Datatypes.S (length (mc_blocks c)) ∧ settled c'.
Proof.
  intros Hr Hl Ht Hv. pose proof (mock_reaches_ok _ c Hr) as Hc.
  destruct (proj2 (seal_block_possible overflow_checks c Hc Hl) (conj Hv Ht)) as (b & c' & Hs). exists b, c'.
  apply seal_block_sealed in Hs as Hsl; [|done..|by left]. split_and!; [done..| | |].
  - apply (reaches_op _ c (OpSeal None)); [done|by split; [|left]|]. cbn [mock_apply]. unfold mbind, mut_bind. by rewrite Hs.
  - rewrite (sl_blocks _ _ _ _ Hsl), length_app. cbn. lia.
  - apply (sl_pending _ _ _ _ Hsl).
Qed.

(** Enough time for [n] more blocks. *)
Definition time_for (n : nat) (c : MockChain) : Prop :=
  TIMESTAMP_START + TIMESTAMP_STEP * Z.of_nat (length (mc_blocks c) + n) ≤ 2 ^ 32.
Lemma time_for_left n c : (0 < n)%nat → time_for n c → time_left overflow_checks c ∧ Z.of_nat (length (mc_blocks c)) < 2 ^ 32.
Proof.
  unfold time_for, time_left. change TIMESTAMP_START with 1693348223. change TIMESTAMP_STEP with 10. lia.
Qed.

Lemma time_for_weaken n c m c' : (length (mc_blocks c') + m ≤ length (mc_blocks c) + n)%nat → time_for n c → time_for m c'.
Proof. unfold time_for. change TIMESTAMP_STEP with 10. lia. Qed.

Lemma seal_settled n c :
  mock_reaches overflow_checks c → settled c → time_for n c →
  ∃ c', seal_blocks (E:=Empty_set) n c = (Ok tt, c') ∧ mock_reaches overflow_checks c' ∧
    length (mc_blocks c') = (length (mc_blocks c) + n)%nat ∧ mc_available_notes c' = mc_available_notes c ∧ settled c'.
Proof.
  revert c. induction n as [|n IH]; intros c Hr Hs Ht; cbn [seal_blocks].
  { exists c. split_and!; done || lia. }
  destruct (time_for_left (Datatypes.S n) c) as [Htl Hl]; [lia|done|].
  destruct (seal_next c Hr Hl Htl) as (b & c1 & Hb & Hsl & Hr1 & Hl1 & Hs1); [destruct Hs as [-> _]; apply empty_valid|].
  destruct (IH c1 Hr1 Hs1) as (c' & Hrun & Hr' & Hl' & Ha' & Hs'); [unfold time_for in *; lia|].
  exists c'. unfold mbind, mut_bind. rewrite Hb.
  split; [done|]. split; [done|]. split; [lia|]. split; [by rewrite Ha', (sealed_settled c b c1)|done].
Qed.

(** After sealing, every available note is in a block before the last one. *)
Lemma seal_blocks_ready n c :
  mock_reaches overflow_checks c → valid_pending (mc_pending_objects c) → time_for (2 + n) c →
  ∃ c', seal_blocks (E:=Empty_set) (2 + n) c = (Ok tt, c') ∧ mock_reaches overflow_checks c' ∧
    length (mc_blocks c') = (length (mc_blocks c) + (2 + n))%nat ∧ settled c' ∧
    Forall (λ x, note_num x < Z.of_nat (length (mc_blocks c) + (1 + n))) (mock_available_notes c').
Proof.
  intros Hr Hv Ht. destruct (time_for_left (2 + n) c) as [Htl Hl]; [lia|done|].
  destruct (seal_next c Hr Hl Htl Hv) as (b & c1 & Hb & _ & Hr1 & Hl1 & Hs1).
  destruct (seal_settled (1 + n) c1 Hr1 Hs1) as (c' & Hrun & Hr' & Hl' & Ha' & Hs'); [unfold time_for in *; lia|].
  exists c'. change (seal_blocks (2 + n)) with (seal_block (E:=Empty_set) overflow_checks None ;; seal_blocks (1 + n)).
  unfold mbind, mut_bind. rewrite Hb.
  split; [done|]. split; [done|]. split; [lia|]. split; [done|]. apply Forall_forall.
  intros x ([id y] & -> & Hin%elem_of_btree_iter)%list_elem_of_fmap. rewrite Ha' in Hin.
  destruct (ck_notes _ _ (mock_reaches_ok _ c1 Hr1) id y Hin) as (note & proof & i & bl & -> & _ & Hnum & Hbl & _).
  apply lookup_lt_Some in Hbl. change (note_num (id, Authenticated note proof).2) with (block_num (np_location proof)).
  rewrite Hnum. lia.
Qed.

(** All available notes are found by their ids. *)
Lemma available_requested c :
  mock_reaches overflow_checks c → requested c (input_id <$> mock_available_notes c) (mock_available_notes c).
Proof.
  intros Hr. apply Forall2_fmap_l, Forall_Forall2_diag, Forall_forall.
  intros x ([id y] & -> & Hin%elem_of_btree_iter)%list_elem_of_fmap. cbn [snd].
  destruct (ck_notes _ _ (mock_reaches_ok _ c Hr) id y Hin) as (note & proof & _ & _ & -> & Hid & _).
  change (mc_available_notes c !! note_id note = Some (Authenticated note proof)). by rewrite Hid.
Qed.

Lemma requested_functional c ids l l' : requested c ids l → requested c ids l' → l = l'.
Proof.
  intros Hl. revert l'. induction Hl as [|id x ids l Hx _ IH]; intros l'.
  - by intros ->%Forall2_nil_inv_l.
  - intros (y & l2 & Hy & Hl2 & ->)%Forall2_cons_inv_l. rewrite (IH _ Hl2). f_equal. congruence.
Qed.

(** ** Theorems *)

Section BuildLaws.
  Context {M : MastIO}.

(** A context on a chain can be built whenever the pending objects fit a block,
    there is time for four more blocks and the seed fits the account: the inputs are
    all notes that are then available, in the order of their ids, unless they are too
    many for one transaction or two of them have the same nullifier or, with debug
    assertions, an expected note has 128 input values, in which case the build panics.
    The executor gets exactly these inputs from the context when it
    asks for the account, the block and the notes of the transaction. *)
Theorem context_build_spec debug c b :
  mock_reaches overflow_checks c → cx_mock_chain b = Some c → valid_pending (mc_pending_objects c) → time_for 4 c →
  seed_accepted (cx_account b) (cx_account_seed b) →
  Forall (λ n, wf_recipient (nd_recipient (note_details n))) (cx_expected_output_notes b) →
  ∃ c', seal_blocks (E:=Empty_set) 4 c = (Ok tt, c') ∧ mock_reaches overflow_checks c' ∧ settled c' ∧
    length (mc_blocks c') = (length (mc_blocks c) + 4)%nat ∧
    let l := mock_available_notes c' in
    match ctx_build (E:=Empty_set) debug b with
    | Ok ctx =>
        let ti := tc_tx_inputs ctx in
        tc_mock_chain ctx = c' ∧ input_notes_new l = Ok (ti_input_notes ti) ∧ ti_account ti = cx_account b ∧
        last_header c' = Some (ti_block_header ti) ∧
        tx_inputs_new (cx_account b) (cx_account_seed b) (ti_block_header ti) (ti_block_chain ti) (ti_input_notes ti) = Ok ti ∧
        ∀ E, context_data_store (E:=E) ctx (acct_id (cx_account b)) (bh_block_num (ti_block_header ti)) (input_id <$> l) = Ok ti
    | Err _ => False
    | Panic => ¬ (Z.of_nat (length l) ≤ MAX_INPUT_NOTES_PER_TX ∧ NoDup (to_nullifier <$> l) ∧
                  details_fit debug (note_details <$> cx_expected_output_notes b) = true)
    end.
Proof.
  intros Hr Hb Hv Ht Hseed Hexp. destruct (seal_blocks_ready 2 c Hr Hv Ht) as (c' & Hs & Hr' & Hl' & Hset & Hn).
  exists c'. split; [exact Hs|]. split; [done|]. split; [exact Hset|]. split; [lia|]. cbv zeta. unfold ctx_build. rewrite Hb. cbn [mbind res_bind].
  change (seal_blocks 4 c) with (seal_blocks (E:=Empty_set) (2 + 2) c). rewrite Hs. cbn [mbind res_bind].
  pose proof (mock_reaches_ok _ c' Hr') as Hc'. pose proof (reaches_length _ c' Hr') as Hlen.
  set (l := mock_available_notes c') in *. pose proof (available_requested c' Hr') as Hreq. fold l in Hreq.
  destruct (mock_transaction_inputs _ c' (cx_account b) _ (input_id <$> l)) as [ti|[]|] eqn:Ei.
  - destruct (mock_inputs_inv _ _ _ _ _ _ Hc' Hlen Ei) as (n & l' & cm & h & [_ Hreq' _ Hmax Hnd _] & Hh & Hnew & ->).
    rewrite (requested_functional _ _ _ _ Hreq' Hreq) in *.
    cbn [mbind res_bind]. set (args := with_advice_inputs (cx_advice_inputs b) _). set (expected := note_details <$> cx_expected_output_notes b).
    assert (Forall (λ d, wf_recipient (nd_recipient d)) expected) as Hex by (by apply Forall_fmap).
    destruct (details_fit debug expected) eqn:Hf.
    2:{ pose proof (extend_expected_panics (E:=Empty_set) debug expected args Hex Hf) as Hp.
        destruct (extend_expected_output_notes debug expected args) as [[[]|[]|] args']; try discriminate Hp. by intros (_ & _ & [=]). }
    destruct (extend_expected_Ok (E:=Empty_set) debug expected args Hex Hf) as (args' & Hargs & _).
    rewrite Hargs. cbn [mbind res_bind tc_tx_inputs tc_mock_chain ti_input_notes in_notes
      ti_account ti_block_header ti_block_chain]. split_and!; try done; [by apply input_notes_new_Ok|].
    intros E. unfold context_data_store. cbn [tc_tx_inputs ti_account ti_block_header ti_input_notes in_notes].
    rewrite !decide_False; [done|rewrite length_fmap|..]; by intros [].
  - intros (Hmax & Hnd & _). destruct (mock_inputs_ready overflow_checks (E:=Empty_set) c' (cx_account b) (cx_account_seed b) (input_id <$> l)
      (length (mc_blocks c) + 3) l Hc' Hlen) as [ti Hti]; [constructor; try done; lia|congruence].
Qed.
End BuildLaws.

(** The generator of serial numbers starts anew for every P2ID note, so that a note
    that is created twice is the same note, and the block with both panics. *)
Theorem repeated_p2id_note_panics c sender target assets ty n1 c1 n2 c2 :
  mock_reaches overflow_checks c → Z.of_nat (length (mc_blocks c)) < 2 ^ 32 →
  add_p2id_note sender target assets ty c = (Ok n1, c1) → add_p2id_note sender target assets ty c1 = (Ok n2, c2) →
  n1 = n2 ∧ (seal_block (E:=Empty_set) overflow_checks None c2).1 = Panic.
Proof.
  intros Hr Hl. unfold add_p2id_note. destruct (create_p2id_note _ _ _ _ _ _) as [[n|?|] rng]; [|discriminate..].
  intros [= <- <-] [= <- <-]. split; [done|]. set (c2 := mock_add_note n (mock_add_note n c)).
  assert (chain_ok overflow_checks c2) as Hc.
  { apply (mock_apply_ok _ (OpNote n) (mock_add_note n c)); [|done..].
    apply (mock_apply_ok _ (OpNote n) c); [by apply mock_reaches_ok|done..]. }
  destruct (seal_block overflow_checks None c2) as [[b|[]|] c'] eqn:Es; [|done]. exfalso.
  destruct (proj1 (seal_block_possible overflow_checks c2 Hc Hl)) as [Hv _]; [by exists b, c'|].
  destruct (Hv (blk_header b)) as (_ & _ & _ & _ & Hnd). revert Hnd.
  cbn [pending_block blk_output_note_batches c2 mock_add_note push_batch set_mc_pending mc_pending_objects po_output_note_batches].
  rewrite !join_app, !fmap_app. cbn. rewrite <-app_assoc, NoDup_app. intros (_ & _ & Hnd). cbn in Hnd.
  apply NoDup_cons in Hnd as [Hni _]. apply Hni. by left.
Qed.

Lemma one_not_zero : (ONE : felt) ≠ ZERO.
Proof. intros Hz%(f_equal as_int). unfold ONE, ZERO in Hz. by rewrite !as_int_small in Hz by (unfold MODULUS; lia). Qed.

Lemma existing_id fuel t a seed :
  build_testing fuel t = Some (Ok (a, seed)) → b_nonce (tb_builder t) = ONE →
  ∃ init, b_init_seed (tb_builder t) = Some init ∧
    new_with_type_and_mode (E:=AccountError) (take 8 init) (b_account_type (tb_builder t)) (b_storage_mode (tb_builder t)) = Ok (acct_id a).
Proof.
  intros Hb Hn. unfold build_testing in Hb. destruct (testing_build_inner t) as [[[[init v] code] st]|?|] eqn:Ei; [|discriminate..].
  rewrite Hn, decide_False in Hb by apply one_not_zero. exists init. split.
  - unfold testing_build_inner in Ei. apply res_bind_inv in Ei as (init' & Hi & Ei). apply ok_or_inv in Hi.
    apply res_bind_inv in Ei as (v' & _ & Ei). apply res_bind_inv in Ei as (? & _ & (cs & _ & [= <- _ _ _])%res_bind_inv). done.
  - cbn in Hb. destruct (new_with_type_and_mode _ _ _); cbn in Hb; [|discriminate..]. by injection Hb as <- _.
Qed.

(** The id that every existing wallet of the chain has. *)
Definition wallet_id : res AccountError AccountId :=
  new_with_type_and_mode (take 8 (gen_seed chacha_default).1) (b_account_type builder_new) (b_storage_mode builder_new).

Lemma existing_wallet_id {E} fuel auth assets c a c' :
  add_existing_wallet (E:=E) fuel auth assets c = Some (Ok a, c') →
  wallet_id = Ok (acct_id a) ∧ ∃ ma, mc_available_accounts c' !! acct_id a = Some ma ∧ ma_account ma = a.
Proof.
  unfold add_existing_wallet, add_built. destruct (wallet_builder ONE assets) as [b|?|] eqn:Eb; [|discriminate..].
  apply res_bind_inv in Eb as (component & _ & [= <-]). unfold add_from_account_builder, build_mock_account.
  destruct auth; [destruct (secret_key_with_rng _) as [key rng]; destruct (falcon_component _) as [comp|?|]; [|discriminate..]|];
    destruct (build_testing fuel _) as [[[a' seed]|?|]|] eqn:Ebuild; cbn; try discriminate; intros [= <- <-];
    destruct (existing_id _ _ _ _ Ebuild eq_refl) as (init & Hi & Hid); cbn in Hi; injection Hi as <-;
    (split; [exact Hid|]); eexists; (split; [apply lookup_insert_eq|done]).
Qed.

(** All existing wallets that are added to the chain have the same id, whatever
    their assets and authentication: the second one replaces the first among the
    accounts that transactions can be built for. *)
Theorem existing_wallets_share_id {E} fuel1 auth1 assets1 c a1 c1 fuel2 auth2 assets2 a2 c2 :
  add_existing_wallet (E:=E) fuel1 auth1 assets1 c = Some (Ok a1, c1) →
  add_existing_wallet (E:=E) fuel2 auth2 assets2 c1 = Some (Ok a2, c2) →
  acct_id a1 = acct_id a2 ∧ ∃ b, build_tx_context (E:=E) c2 (acct_id a1) = Ok b ∧ cx_account b = a2.
Proof.
  intros [W1 _]%existing_wallet_id [W2 (ma & Hma & Ha)]%existing_wallet_id.
  assert (acct_id a1 = acct_id a2) as -> by congruence. split; [done|]. unfold build_tx_context. rewrite Hma.
  eexists. split; [reflexivity|]. done.
Qed.
End Context.

(** ** The mock host

    Models miden-tx/src/testing/mock_host.rs, a host that keeps no delta and answers
    only the event that asks for the index of a procedure. *)

Section MockHost.
  Context {F : FeltApi} {H : HasherApi} {S : SmtApi} {D : DigestOrd} {A : AsmApi} {P : ProgramApi}.
  Context {B : ByteIO} {M : MastIO} {N : NoteIO} {X : AdviceApi}.
  Context (overflow_checks : bool).

Record MockHost : Type := mkMockHost {
  mh_adv_provider : AdviceProvider;
  mh_acct_procedure_index_map : AccountProcedureIndexMap
}.
Definition mock_host_new {E} (account : AccountHeader) (adv_provider : AdviceProvider) : res E MockHost :=
  proc_index_map ← expect_ok (proc_index_map_from [ah_code_commitment account] adv_provider ∅);
  Ok (mkMockHost adv_provider proc_index_map).
Definition mock_push_procedure_index (process : ProcessState) : mut MockHost ExecutionError unit :=
  h ← get_self;
  proc_idx ← lift (map_err EventError (get_proc_index overflow_checks (mh_acct_procedure_index_map h) process));
  adv ← lift (ok_or AdviceStackError (push_stack (felt_new proc_idx) (mh_adv_provider h)));
  put_self (mkMockHost adv (mh_acct_procedure_index_map h)).
Definition mock_on_event (process : ProcessState) (event_id : Z) : mut MockHost ExecutionError unit :=
  event ← lift (map_err UnknownEvent (event_try_from event_id));
  lift (if negb (ctx_is_root process) then Err (NotRootContext event) else Ok tt) ;;
  match event with
  | AccountPushProcedureIndex => mock_push_procedure_index process
  | _ => mret tt
  end.

(** What the mock host keeps of a host. *)
Definition mock_of (h : TransactionHost) : MockHost := mkMockHost (adv_provider h) (acct_procedure_index_map h).

(** On the event that asks for the index of a procedure, the mock host does what
    the transaction host does: it pushes the same index, or fails with the same
    error; only a provider that refuses the push makes one return an error and the
    other panic. *)
Theorem mock_host_agrees process h :
  mock_on_event process (event_id AccountPushProcedureIndex) (mock_of h) =
  match on_event overflow_checks process (event_id AccountPushProcedureIndex) h with
  | (Panic, h') =>
      (match get_proc_index overflow_checks (acct_procedure_index_map h) process with
       | Ok _ => Err AdviceStackError | _ => Panic end, mock_of h')
  | (r, h') => (r, mock_of h')
  end.
Proof.
  unfold mock_on_event, on_event, mbind, mut_bind, lift. change (event_try_from (event_id AccountPushProcedureIndex)) with
    (Ok (E:=EventParsingError) AccountPushProcedureIndex). cbn [map_err]. destruct (negb _); [done|].
  unfold mut_map_err, handle_event, on_account_push_procedure_index, mock_push_procedure_index, mbind, mut_bind, lift, get_self, put_self.
  cbn [mock_of mh_acct_procedure_index_map mh_adv_provider].
  destruct (get_proc_index _ _ _) as [i|e|] eqn:Ei; cbn [map_err]; [|by rewrite ?Ei..].
  destruct (push_stack _ _) as [adv|]; cbn [expect_some ok_or map_err]; [done|]. by rewrite ?Ei.
Qed.
End MockHost.

(** ** Witnesses *)

#[local] Existing Instance Goldilocks.
#[local] Existing Instance ToyHasher.
#[local] Existing Instance MapTree.
#[local] Existing Instance CodeOrd.
#[local] Existing Instance PlainIO.
#[local] Existing Instance RootsAsm.
#[local] Existing Instance RootsIO.
#[local] Existing Instance RootsProgram.
#[local] Existing Instance PlainNoteIO.
#[local] Existing Instance ListPath.
#[local] Existing Instance ListSmt.
#[local] Existing Instance ListMmr.
#[local] Existing Instance ListAdvice.
#[local] Existing Instance FeltKey.
#[local] Existing Instance ListFull.
#[local] Existing Instance PlainFalcon.

Definition sample_ctx_builder : TransactionContextBuilder :=
  ctx_expected_notes [Full sample_output_note] (ctx_mock_chain sample_chain_3 (ctx_builder_new sample_existing)).

Lemma sample_expected_wf :
  Forall (λ n, wf_recipient (nd_recipient (note_details n))) (cx_expected_output_notes sample_ctx_builder).
Proof.
  constructor; [|constructor]. constructor; [apply script_new_wf|apply sample_inputs_wf|]. intros E. reflexivity.
Qed.

Lemma seal_settles checks num c :
  is_ok (mock_apply checks (OpSeal num) c).1 = true → mc_pending_objects (mock_apply checks (OpSeal num) c).2 = pending_new.
Proof.
  cbn [mock_apply]. unfold mbind, mut_bind. destruct (seal_block checks num c) as [[b|?|] c'] eqn:Es; [|discriminate..]. intros _.
  cbn [snd mret mut_ret]. revert Es. unfold seal_block, mbind, mut_bind, get_self, put_self, lift, mret, mut_ret. cbv zeta.
  destruct (seal_block_num _ _ _); [|discriminate..]. destruct (for_each _ _ _) as [[?|?|] c1]; [|discriminate..].
  destruct (pending_note_tree _); [|discriminate..]. destruct (seal_header _ _ _ _); [|discriminate..].
  destruct (expect_ok _); [|discriminate..]. destruct (seal_batches _ _ _ _ _) as [[?|?|] c2]; [|discriminate..]. by intros [= _ <-].
Qed.
Lemma sample_settled : mc_pending_objects sample_chain_3 = pending_new.
Proof. apply seal_settles. vm_compute. reflexivity. Qed.

Lemma context_build_spec_witness :
  ∃ ctx, ctx_build (E:=Empty_set) true true sample_ctx_builder = Ok ctx ∧
    input_id <$> in_notes (ti_input_notes (tc_tx_inputs ctx)) = [note_id sample_note].
Proof.
  destruct (context_build_spec true true sample_chain_3 sample_ctx_builder sample_chain_reached eq_refl) as (c' & Hs & _ & _ & _ & Hb).
  - rewrite sample_settled. exact empty_valid.
  - vm_compute. discriminate.
  - reflexivity.
  - exact sample_expected_wf.
  - assert (is_ok (ctx_build (E:=Empty_set) true true sample_ctx_builder) = true) as Hok by (vm_compute; reflexivity).
    destruct (ctx_build true true sample_ctx_builder) as [ctx|?|]; [|discriminate..]. exists ctx. split; [reflexivity|].
    destruct Hb as (_ & Hn & _). apply input_notes_new_Ok in Hn as (_ & _ & ->). cbn [in_notes]. apply (f_equal snd) in Hs. cbn [snd] in Hs. rewrite <-Hs.
    apply (bool_decide_unpack _). vm_compute. exact I.
Defined.

#[local] Existing Instance CountingStdLib.

#[refine] Definition CountingRng : TestRngApi := {|
  chacha_default := 0;
  gen_seed rng := (replicate 32 (rng mod 2 ^ 8), rng + 1);
  secret_key_with_rng rng := (gl_new rng, rng + 1);
  secret_public_key key := mkWord key ZERO ZERO ZERO;
  rpo_coin_default := 7
|}.
Proof.
  abstract (intros rng; split; [apply length_replicate|]; cbn [fst]; apply Forall_replicate, Z.mod_pos_bound; lia).
Defined.
#[local] Existing Instance CountingRng.

Definition added {E} (r : option (res E Account * MockChain)) : bool :=
  match r with Some (Ok _, _) => true | _ => false end.
Definition chain_of {E} (r : option (res E Account * MockChain)) : MockChain :=
  match r with Some (_, c) => c | None => mock_chain_new end.

Example existing_wallets_added :
  let r := add_existing_wallet (E:=Empty_set) 0 NoAuth [Fungible (sample_fungible 3)] mock_chain_new in
  added r = true ∧ added (add_existing_wallet (E:=Empty_set) 0 BasicAuth [] (chain_of r)) = true.
Proof. split; vm_compute; reflexivity. Qed.

Example p2id_note_repeated :
  let r := add_p2id_note sample_faucet sample_wallet sample_assets PublicNote mock_chain_new in
  is_ok r.1 = true ∧ is_ok (add_p2id_note sample_faucet sample_wallet sample_assets PublicNote r.2).1 = true.
Proof. split; vm_compute; reflexivity. Qed.
