(* ===== verification/Lifecycle.v ===== *)
(** * The life of a transaction on the mock chain

    Models TransactionContext::execute of miden-tx/src/testing/tx_context/mod.rs and
    composes the components: a chain gives the inputs of a context, the executor runs
    the transaction with the context as its data store, and the result is added to
    the chain and sealed into a block. *)

From S2P Require Import Prelude Felt Crypto Serde Types AccountId Assets VaultDelta Vault StorageDelta Storage.
From S2P Require Import Code Account NoteMeta NoteContents Notes TxOutputs Merkle Chain TxInputs TxArgs.
From S2P Require Import Blocks Memory Kernel TxTracker TxHost TxProven TxExec MockChain TxContext.
Open Scope Z_scope.

Section Lifecycle.
  Context {F : FeltApi} {H : HasherApi} {S : SmtApi} {D : DigestOrd} {A : AsmApi} {P : ProgramApi}.
  Context {B : ByteIO} {SI : SmtIO} {M : MastIO} {N : NoteIO} {T : PathApi} {R : MmrApi} {V : AdviceInputsApi}.
  Context {KI : KeyIO} {G : FalconApi} {Q : SimpleSmtApi} {U : MmrFullApi}.
  Context {K : StackApi} {O : NodesApi} {W : ProofApi} {FO : ForestApi}.
  Context {XR XM : AdviceApi} {PR : ProviderApi (X:=XR)} {PM : ProviderApi (X:=XM)} {VM : VmApi (XR:=XR) (XM:=XM)}.
  (** Whether arithmetic overflow is checked. *)
  Context (overflow_checks : bool).
  (** The trait object that an authenticator is passed as: its generator of random
      numbers is behind a lock, so that it signs by shared reference. *)
  Context (shared : BasicAuthenticator → Authenticator).

(** The executor that a context makes for its transaction, and the run of it. *)
Definition context_executor {E} (ctx : TransactionContext) : res E TransactionExecutor :=
  executor_new (context_data_store ctx) (shared <$> tc_authenticator ctx).
Definition context_execute (debug : bool) (ctx : TransactionContext) : res TransactionExecutorError ExecutedTransaction :=
  let account_id := acct_id (ti_account (tc_tx_inputs ctx)) in
  let block_num := bh_block_num (ti_block_header (tc_tx_inputs ctx)) in
  tx_executor ← context_executor ctx;
  let notes := input_id <$> in_notes (ti_input_notes (tc_tx_inputs ctx)) in
  (execute_transaction debug account_id block_num notes (tc_tx_args ctx) tx_executor).1.

(** One transaction fits an empty block. *)
Lemma one_transaction_fits c tx account inputs outputs :
  settled c → input_notes_new inputs = Ok (ti_input_notes (et_tx_inputs tx)) →
  output_notes_new outputs = Ok (to_output_notes (et_tx_outputs tx)) →
  valid_pending (mc_pending_objects (included c tx account)).
Proof.
  intros [Hp _] (Hi & _ & Ei)%input_notes_new_Ok (Ho & Hnd & Eo)%output_notes_new_Ok h. unfold included. rewrite Hp, Ei, Eo.
  split_and!; cbn [pending_block blk_updated_accounts blk_output_note_batches blk_nullifiers set_mc_removed set_mc_pending
    mc_pending_objects po_updated_accounts po_output_note_batches po_created_nullifiers pending_new app in_notes on_notes].
  - by vm_compute.
  - by vm_compute.
  - rewrite length_fmap. change MAX_INPUT_NOTES_PER_BLOCK with 65536. change MAX_INPUT_NOTES_PER_TX with 1024 in Hi. lia.
  - constructor; [exact Ho|constructor].
  - cbn. by rewrite app_nil_r.
Qed.

(** A chain with nothing pending includes an executed transaction in its next block. *)
Lemma settled_includes c tx account inputs outputs :
  mock_reaches overflow_checks c → settled c → time_for 1 c →
  input_notes_new inputs = Ok (ti_input_notes (et_tx_inputs tx)) → output_notes_new outputs = Ok (to_output_notes (et_tx_outputs tx)) →
  account_apply_delta (et_account_delta tx) (ti_account (et_tx_inputs tx)) = (Ok tt, account) →
  ∃ b c', (mock_add_executed_transaction tx ;; seal_block (E:=Empty_set) overflow_checks None) c = (Ok b, c') ∧
    mock_reaches overflow_checks c' ∧ inclusion tx account [] b c'.
Proof.
  intros Hr Hset Ht Hi Ho Ha. destruct (time_for_left overflow_checks 1 c) as [Htl Hl]; [lia|done|].
  assert (mock_reaches overflow_checks (included c tx account)) as Hr1.
  { apply (reaches_op _ c (OpTransaction tx)); [done..|]. cbn [mock_apply]. by rewrite add_executed_eq, Ha. }
  destruct (seal_next overflow_checks (included c tx account) Hr1 Hl Htl) as (b & c' & Hb & Hs & Hr' & _);
    [by eapply one_transaction_fits|].
  exists b, c'. unfold mbind, mut_bind. rewrite add_executed_eq, Ha. split; [done|]. split; [done|].
  rewrite <-(proj2 Hset). by apply (included_sealed overflow_checks).
Qed.

(** The notes of the chain, available or pending, are well-formed. *)
Definition notes_wf (c : MockChain) : Prop :=
  Forall (λ n, wf_note (input_note n)) (mock_available_notes c) ∧
  ∀ note, Full note ∈ mjoin (po_output_note_batches (mc_pending_objects c)) → wf_note note.

Lemma available_elem c n : n ∈ mock_available_notes c ↔ ∃ id, mc_available_notes c !! id = Some n.
Proof.
  unfold mock_available_notes. rewrite list_elem_of_fmap. split.
  - intros ([id x] & -> & Hin%elem_of_btree_iter). by exists id.
  - intros (id & Hin). exists (id, n). by rewrite elem_of_btree_iter.
Qed.
Lemma sealed_wf c b c' : sealed overflow_checks c b c' → notes_wf c → notes_wf c'.
Proof.
  unfold notes_wf. rewrite !Forall_forall. intros Hs [Ha Hp]. split.
  - intros n (id & Hid)%available_elem. destruct (sealed_note_from _ _ _ _ _ _ Hs Hid) as [Hc|Hc]; [|by apply Hp].
    apply Ha, available_elem. by exists id.
  - rewrite (proj1 (sl_pending _ _ _ _ Hs)). intros note Hn. by apply elem_of_nil in Hn.
Qed.
Lemma seal_blocks_wf n c c' :
  mock_reaches overflow_checks c → time_for n c → seal_blocks (E:=Empty_set) overflow_checks n c = (Ok tt, c') →
  notes_wf c → notes_wf c'.
Proof.
  revert c. induction n as [|n IH]; intros c Hr Ht; cbn [seal_blocks]; [by intros [= ->]|].
  destruct (time_for_left overflow_checks (Datatypes.S n) c) as [_ Hl]; [lia|done|]. unfold mbind, mut_bind.
  destruct (seal_block overflow_checks None c) as [[b|?|] c1] eqn:Es; [|discriminate..]. intros Hn Hw.
  assert (mock_reaches overflow_checks c1) as Hr1.
  { apply (reaches_op _ c (OpSeal None)); [done|by split; [|left]|]. cbn [mock_apply]. unfold mbind, mut_bind. by rewrite Es. }
  apply seal_block_sealed in Es; [|by apply mock_reaches_ok|done|by left].
  apply (IH c1); [done| |done|by apply (sealed_wf c b)]. apply (time_for_weaken (Datatypes.S n) c); [|done].
  rewrite (sl_blocks _ _ _ _ Es), length_app. cbn. lia.
Qed.

(** ** Theorems *)

End Lifecycle.

(** ** Witnesses *)

#[local] Existing Instance Goldilocks.
#[local] Existing Instance ToyHasher.
#[local] Existing Instance MapTree.
#[local] Existing Instance CodeOrd.
#[local] Existing Instance PlainIO.
#[local] Existing Instance MapTreeIO.
#[local] Existing Instance RootsAsm.
#[local] Existing Instance RootsIO.
#[local] Existing Instance RootsProgram.
#[local] Existing Instance PlainNoteIO.
#[local] Existing Instance ListPath.
#[local] Existing Instance ListSmt.
#[local] Existing Instance ListMmr.
#[local] Existing Instance ListAdvice.
#[local] Existing Instance ListStack.
#[local] Existing Instance PlainNodes.
#[local] Existing Instance PlainProof.
#[local] Existing Instance MapAdvice.
#[local] Existing Instance FeltKey.
#[local] Existing Instance ListFull.
#[local] Existing Instance PlainFalcon.
#[local] Existing Instance RootsForest.
#[local] Existing Instance MapProvider.
#[local] Existing Instance NonceVm.

Lemma sample_chain_1_wf : notes_wf sample_chain_1.
Proof.
  split.
  - apply Forall_forall. intros n (id & Hid)%available_elem.
    change ((∅ : gmap Digest InputNote) !! id = Some n) in Hid. by rewrite lookup_empty in Hid.
  - intros note Hn. apply list_elem_of_singleton in Hn as [= ->]. exact sample_note_wf.
Qed.
Lemma apply_seal_wf c :
  mock_reaches true c → Z.of_nat (length (mc_blocks c)) < 2 ^ 32 → is_ok (mock_apply true (OpSeal None) c).1 = true →
  notes_wf c → notes_wf (mock_apply true (OpSeal None) c).2.
Proof.
  intros Hr Hl. cbn [mock_apply]. unfold mbind, mut_bind. destruct (seal_block true None c) as [[b|?|] c1] eqn:Es; [|discriminate..].
  intros _. apply (sealed_wf true c b). apply seal_block_sealed in Es; [done|by apply mock_reaches_ok|done|by left].
Qed.
Lemma sample_chain_1_reached : mock_reaches true sample_chain_1.
Proof. apply reaches_apply; [apply reaches_new|done|reflexivity]. Qed.
Lemma sample_chain_2_reached : mock_reaches true sample_chain_2.
Proof.
  apply reaches_apply; [exact sample_chain_1_reached|split; [vm_compute; reflexivity|by left]|vm_compute; reflexivity].
Qed.
Lemma lifecycle_chain_wf : notes_wf sample_chain_3.
Proof.
  apply apply_seal_wf; [exact sample_chain_2_reached|vm_compute; reflexivity|vm_compute; reflexivity|].
  apply apply_seal_wf; [exact sample_chain_1_reached|vm_compute; reflexivity|vm_compute; reflexivity|exact sample_chain_1_wf].
Qed.

Definition sample_ctx_result : res Empty_set TransactionContext := ctx_build true true sample_ctx_builder.
Definition sample_ctx : TransactionContext :=
  match sample_ctx_result with
  | Ok ctx => ctx
  | _ => mkContext mock_chain_new [] sample_args sample_tx_inputs advice_default None
  end.
Lemma sample_ctx_built : ctx_build (E:=Empty_set) true true sample_ctx_builder = Ok sample_ctx.
Proof.
  assert (is_ok sample_ctx_result = true) as Hok by (vm_compute; reflexivity).
  unfold sample_ctx. fold sample_ctx_result. by destruct sample_ctx_result as [ctx|?|].
Qed.
Lemma sample_ctx_account : ti_account (tc_tx_inputs sample_ctx) = sample_existing.
Proof.
  destruct (context_build_spec true true sample_chain_3 sample_ctx_builder sample_chain_reached eq_refl) as (c' & _ & _ & _ & _ & Hb).
  - rewrite sample_settled. exact empty_valid.
  - vm_compute. discriminate.
  - reflexivity.
  - exact sample_expected_wf.
  - cbv zeta in Hb. rewrite sample_ctx_built in Hb. apply Hb.
Qed.
Lemma sample_ctx_code :
  code_mapped (advice_lookup (tc_tx_inputs sample_ctx) (tc_tx_args sample_ctx) None) (code_commitment sample_code).
Proof.
  exists sample_code. split; [exact sample_code_wf|]. split; [apply (bool_decide_unpack _); vm_compute; exact I|].
  split; [reflexivity|]. apply (bool_decide_unpack _). vm_compute. exact I.
Qed.
Definition never_signs (_ : BasicAuthenticator) : Authenticator := λ _ _ _, None.

