(* ===== verification/Assembly.v ===== *)
(** * Assembling code

    Models how the program gets at code: the transaction kernel and the libraries
    that the build ships as bytes, and the assemblers that are loaded with them
    (miden-lib/src/transaction/mod.rs, miden-lib/src/lib.rs), components that are
    compiled from source (objects/src/accounts/component/mod.rs), account code from
    components and from bytes (objects/src/accounts/code/mod.rs), and the component
    and the account code that the tests assemble (objects/src/testing/account_code.rs
    and account_component.rs). The assembler is third-party code. *)

From S2P Require Import Prelude Felt Crypto Serde Types AccountId Assets StorageDelta Storage Code Account NoteMeta NoteContents Notes.
From stdpp Require Import strings.
Open Scope Z_scope.

(** The assembler, and what the shipped bytes read as. Assembling fails with a
    report that only becomes text. *)
Class CompilerApi {F : FeltApi} {A : AsmApi} {P : ProgramApi} := {
  Assembler : Type;
  KernelLibrary : Type;
  KernelProcedures : Type;
  AstModule : Type;
  assembler_default : Assembler;
  assembler_with_kernel : KernelLibrary → Assembler;
  assembler_with_library : Library → Assembler → option Assembler;
  parse_module : string → string → option AstModule;
  assemble_modules : list AstModule → Assembler → option Library;
  assemble_source : string → Assembler → option Library;
  assemble_script : string → Assembler → option Program;
  program_hash : Program → Digest;
  kernel_procedures_of : KernelLibrary → KernelProcedures;
  tx_kernel_masl : res DeserializationError KernelLibrary;
  tx_kernel_masb : res DeserializationError Program;
  kernel_library_masl : res DeserializationError Library;
  miden_masl : res DeserializationError Library;
  std_library : Library
}.

Section Assembly.
  Context {F : FeltApi} {H : HasherApi} {S : SmtApi} {D : DigestOrd} {A : AsmApi} {P : ProgramApi} {C : CompilerApi}.

(** ** Shipped code *)

(** [MidenLib], a library that is read once. *)
Record MidenLib : Type := mkMidenLib { miden_library : Library }.
Definition miden_lib_default {E} : res E MidenLib := contents ← expect_ok miden_masl; Ok (mkMidenLib contents).
Definition miden_lib_mast_forest (l : MidenLib) : MastForest := mast_forest (miden_library l).

(** [TransactionKernel::kernel], [main] and [program_info] *)
Definition kernel {E} : res E KernelLibrary := expect_ok tx_kernel_masl.
Definition kernel_program {E} : res E Program := expect_ok tx_kernel_masb.
Record ProgramInfo : Type := mkProgramInfo { pi_program_hash : Digest; pi_kernel : KernelProcedures }.
Definition program_info {E} : res E ProgramInfo :=
  main ← kernel_program;
  kernel ← kernel;
  Ok (mkProgramInfo (program_hash main) (kernel_procedures_of kernel)).

(** [TransactionKernel::assembler] *)
Definition assembler {E} : res E Assembler :=
  kernel ← kernel;
  a ← expect_some (assembler_with_library std_library (assembler_with_kernel kernel));
  miden_lib ← miden_lib_default;
  expect_some (assembler_with_library (miden_library miden_lib) a).

(** [TransactionKernel::kernel_as_library] and [testing_assembler] *)
Definition kernel_as_library {E} : res E Library := expect_ok kernel_library_masl.
Definition testing_assembler {E} : res E Assembler :=
  kernel_library ← kernel_as_library;
  kernel ← kernel;
  a ← expect_some (assembler_with_library std_library (assembler_with_kernel kernel));
  miden_lib ← miden_lib_default;
  a ← expect_some (assembler_with_library (miden_library miden_lib) a);
  expect_some (assembler_with_library kernel_library a).

(** ** Components and code *)

(** [AccountComponent::compile] and [with_supported_types] *)
Definition component_compile (source_code : string) (a : Assembler) (storage_slots : list StorageSlot)
    : res AccountError AccountComponent :=
  library ← ok_or AccountCodeAssemblyError (assemble_source source_code a);
  component_new library storage_slots.
Definition with_supported_types (types : list AccountType) (c : AccountComponent) : AccountComponent :=
  mkComponent (comp_library c) (comp_storage_slots c) types.

(** [AccountCode::from_components] and [from_bytes] *)
Definition code_from_components (components : list AccountComponent) (ty : AccountType) : res AccountError AccountCode :=
  validate_components_support_account_type components ty ;; from_components_unchecked components ty.
Definition code_from_bytes {B : ByteIO} {M : MastIO} (bs : bytes) : res AccountError AccountCode :=
  fst <$> map_err AccountCodeDeserializationError (read_from bs).

(** ** Code of the tests *)

Definition CODE : string := "
    export.foo
        push.1 push.2 mul
    end

    export.bar
        push.1 push.2 add
    end
".
Definition MOCK_ACCOUNT_CODE : string := "
    use.miden::account
        use.miden::faucet
        use.miden::tx

        export.::miden::contracts::wallets::basic::receive_asset
        export.::miden::contracts::wallets::basic::create_note
        export.::miden::contracts::wallets::basic::move_asset_to_note

        ### Note: all account's export procedures below should be only called or dyncalled, so it is
        ### assumed that the operand stack at the beginning of their execution is paded and doesn't 
        ### have any other valuable information.

        # Stack:  [value, pad(15)]
        # Output: [pad(16)]
        export.incr_nonce
            exec.account::incr_nonce
            # => [pad(16)]
        end

        # Stack:  [index, VALUE_TO_SET, pad(11)]
        # Output: [NEW_STORAGE_ROOT, PREVIOUS_STORAGE_VALUE, pad(8)]
        export.set_item
            exec.account::set_item
            # => [R', V, pad(11)]

            # truncate the stack
            movup.8 drop movup.8 drop movup.8 drop
            # => [R', V, pad(8)]
        end

        # Stack:  [index, pad(15)]
        # Output: [VALUE, pad(12)]
        export.get_item
            exec.account::get_item
            # => [VALUE, pad(15)]

            # truncate the stack
            movup.8 drop movup.8 drop movup.8 drop
            # => [VALUE, pad(12)]
        end

        # Stack:  [index, KEY, VALUE, pad(7)]
        # Output: [OLD_MAP_ROOT, OLD_MAP_VALUE, pad(8)]
        export.set_map_item
            exec.account::set_map_item
            # => [R', V, pad(8)]
        end

        # Stack:  [index, KEY, pad(11)]
        # Output: [VALUE, pad(12)]
        export.get_map_item
            exec.account::get_map_item
        end

        # Stack:  [CODE_COMMITMENT, pad(12)]
        # Output: [pad(16)]
        export.set_code
            exec.account::set_code
            # => [pad(16)]
        end

        # Inputs:  [ASSET, note_idx, pad(11)]
        # Outputs: [ASSET, note_idx, pad(11)]
        export.add_asset_to_note
            exec.tx::add_asset_to_note
            # => [ASSET, note_idx, pad(11)]
        end

        # Stack:  [ASSET, pad(12)]
        # Output: [ASSET', pad(12)]
        export.add_asset
            exec.account::add_asset
            # => [ASSET', pad(12)]
        end

        # Stack:  [ASSET, pad(12)]
        # Output: [ASSET, pad(12)]
        export.remove_asset
            exec.account::remove_asset
            # => [ASSET, pad(12)]
        end

        # Stack:  [pad(16)]
        # Output: [3, pad(12)]
        export.account_procedure_1
            push.1.2 add 

            # truncate the stack
            swap drop
        end

        # Stack:  [pad(16)]
        # Output: [1, pad(12)]
        export.account_procedure_2
            push.2.1 sub
            
            # truncate the stack
            swap drop
        end

        # Stack:  [ASSET, pad(12)]
        # Output: [ASSET, pad(12)]
        export.mint
            exec.faucet::mint
            # => [ASSET, pad(12)]
        end

        # Stack:  [ASSET, pad(12)]
        # Output: [ASSET, pad(12)]
        export.burn
            exec.faucet::burn
            # => [ASSET, pad(12)]
        end
".

Record AccountMockComponent : Type := mkMockComponent { mock_library_of : Library; mock_storage_slots : list StorageSlot }.
Definition mock_component_new (a : Assembler) (storage_slots : list StorageSlot) : res AccountError AccountMockComponent :=
  ok_or (StorageTooManySlots (Z.of_nat (length storage_slots))) (try_into_u8 (Z.of_nat (length storage_slots))) ;;
  module ← ok_or AccountCodeAssemblyError (parse_module "test::account" MOCK_ACCOUNT_CODE);
  library ← ok_or AccountCodeAssemblyError (assemble_modules [module] a);
  Ok (mkMockComponent library storage_slots).
Definition new_with_empty_slots (a : Assembler) := mock_component_new a [].
Definition new_with_slots (a : Assembler) (storage_slots : list StorageSlot) := mock_component_new a storage_slots.
(** [From<AccountMockComponent> for AccountComponent] *)
Definition mock_into_component {E} (m : AccountMockComponent) : res E AccountComponent :=
  c ← expect_ok (component_new (mock_library_of m) (mock_storage_slots m)); Ok (with_supports_all_types c).

(** [AccountCode::mock_library] and [AccountCode::mock] *)
Definition mock_library {E} (a : Assembler) : res E Library :=
  m ← expect_ok (new_with_empty_slots a); Ok (mock_library_of m).
Definition code_mock {E} : res E AccountCode :=
  c ← expect_ok (component_compile CODE assembler_default []);
  expect_ok (code_from_components [with_supports_all_types c] RegularAccountUpdatableCode).

(** [TransactionKernel::testing_assembler_with_mock_account] *)
Definition testing_assembler_with_mock_account {E} : res E Assembler :=
  a ← testing_assembler;
  library ← mock_library a;
  expect_some (assembler_with_library library a).

(** ** Theorems *)

Lemma try_u8_slots (n : nat) : is_Some (try_into_u8 (Z.of_nat n)) ↔ (n ≤ 255)%nat.
Proof.
  unfold try_into_u8. case_match eqn:E; unfold in_u8, U8_MAX in E.
  - split; [lia|by eexists].
  - split; [by intros []|lia].
Qed.

(** The assembler of the tests is the assembler of transactions with one library
    more; what it needs beyond that is the library itself. *)
Theorem testing_assembler_extends {E} :
  testing_assembler (E:=E) =
  (a ← assembler; library ← kernel_as_library; expect_some (assembler_with_library library a)).
Proof.
  unfold testing_assembler, assembler, kernel_as_library, kernel, miden_lib_default.
  destruct kernel_library_masl, tx_kernel_masl as [k|?|], miden_masl; cbn; try done;
    destruct (assembler_with_library std_library _); cbn; try done; by destruct (assembler_with_library _ _).
Qed.

(** A component compiles exactly when its source assembles and its slots are at most
    255, and exports what the library exports; the error of the assembler comes
    first. The component of the tests checks its slots first, and supports all types. *)
Theorem component_compile_spec source a slots :
  match component_compile source a slots with
  | Ok c => assemble_source source a = Some (comp_library c) ∧ comp_storage_slots c = slots ∧ valid_component c ∧
      supported_types c = []
  | Err AccountCodeAssemblyError => assemble_source source a = None
  | Err (StorageTooManySlots n) => is_Some (assemble_source source a) ∧ n = Z.of_nat (length slots) ∧ 255 < n
  | _ => False
  end.
Proof.
  unfold component_compile, component_new, valid_component. destruct (assemble_source source a) as [l|]; cbn; [|done].
  pose proof (try_u8_slots (length slots)) as Hu. destruct (try_into_u8 _) as [n|]; cbn.
  - split_and!; [done..| |done]. by apply Hu.
  - split_and!; [by eexists|done|]. assert (¬ (length slots ≤ 255)%nat); [|lia]. intros Hl%Hu. by destruct Hl.
Qed.

(** Code from components is the code of an account that is initialized from them. *)
Theorem code_from_components_initialize components ty :
  initialize_from_components ty components =
  (code ← code_from_components components ty; storage ← storage_from_components components ty; Ok (code, storage)).
Proof.
  unfold initialize_from_components, code_from_components. by destruct (validate_components_support_account_type _ _).
Qed.

Lemma all_types_supported c ty : supports_type (with_supports_all_types c) ty = true.
Proof.
  unfold supports_type, with_supports_all_types, with_supported_type. apply bool_decide_eq_true.
  destruct ty; cbn; repeat case_bool_decide; cbn in *; set_solver.
Qed.

(** The component of the tests is a component of every account type, if its slots
    fit: it never panics. *)
Theorem mock_component_supported {E} a slots :
  match m ← mock_component_new a slots; expect_ok (mock_into_component (E:=E) m) with
  | Ok c => valid_component c ∧ comp_storage_slots c = slots ∧
      ∀ ty, validate_components_support_account_type [c] ty = Ok tt
  | Err AccountCodeAssemblyError => (length slots ≤ 255)%nat
  | Err (StorageTooManySlots n) => n = Z.of_nat (length slots) ∧ 255 < n
  | _ => False
  end.
Proof.
  unfold mock_component_new, mock_into_component, component_new. pose proof (try_u8_slots (length slots)) as Hu.
  destruct (try_into_u8 (Z.of_nat (length slots))) as [n|] eqn:En; cbn.
  - assert (length slots ≤ 255)%nat as Hl by by apply Hu.
    destruct (parse_module _ _) as [m|]; cbn; [|done]. destruct (assemble_modules _ _) as [l|]; cbn; [|done]. rewrite En. cbn.
    unfold valid_component. cbn. split_and!; [done|done|]. intros ty.
    unfold validate_components_support_account_type. cbn. by rewrite all_types_supported.
  - split; [done|]. assert (¬ (length slots ≤ 255)%nat); [|lia]. intros Hl%Hu. by destruct Hl.
Qed.

(** Code reads back from its bytes. *)
Theorem code_from_bytes_roundtrip {B : ByteIO} {M : MastIO} code :
  wf_code code → code_from_bytes (write_into code) = Ok code.
Proof.
  intros Hc. destruct (code_roundtrips code [] Hc) as (_ & Hr & _). rewrite app_nil_r in Hr.
  unfold code_from_bytes. by rewrite Hr.
Qed.
End Assembly.
