(* ===== verification/Testing.v ===== *)
(** * Accounts, assets, notes and headers of the tests

    Models the test data that the crates share: the ids of
    objects/src/accounts/account_id.rs (module testing) and of
    bin/bench-tx/src/utils.rs, AccountId::new_dummy, the constructors of storage
    deltas from iterators (objects/src/accounts/delta/storage.rs), and
    objects/src/testing/: the builders of storage, deltas, assets and notes, the mock
    accounts, vault and block header, and the generation of account seeds. The tests
    of every component stand on these values: the theorems say that they are what
    their names promise. *)

From S2P Require Import Prelude Felt Crypto Serde Types AccountId Assets VaultDelta Vault StorageDelta Storage.
From S2P Require Import Code Account NoteMeta NoteContents Notes Merkle Chain Assembly.
From stdpp Require Import strings.
Open Scope Z_scope.

(** ** Ids *)

Definition ACCOUNT_ID_SENDER : Z := testing_account_id RegularAccountImmutableCode Private 31.
Definition ACCOUNT_ID_OFF_CHAIN_SENDER : Z := testing_account_id RegularAccountImmutableCode Private 47.
Definition ACCOUNT_ID_REGULAR_ACCOUNT_UPDATABLE_CODE_OFF_CHAIN : Z := testing_account_id RegularAccountUpdatableCode Private 63.
Definition ACCOUNT_ID_REGULAR_ACCOUNT_IMMUTABLE_CODE_ON_CHAIN : Z := testing_account_id RegularAccountImmutableCode Public 31.
Definition ACCOUNT_ID_REGULAR_ACCOUNT_IMMUTABLE_CODE_ON_CHAIN_2 : Z := testing_account_id RegularAccountImmutableCode Public 47.
Definition ACCOUNT_ID_REGULAR_ACCOUNT_UPDATABLE_CODE_ON_CHAIN : Z := testing_account_id RegularAccountUpdatableCode Public 63.
Definition ACCOUNT_ID_REGULAR_ACCOUNT_UPDATABLE_CODE_ON_CHAIN_2 : Z := testing_account_id RegularAccountUpdatableCode Public 79.
Definition ACCOUNT_ID_FUNGIBLE_FAUCET_OFF_CHAIN : Z := testing_account_id FungibleFaucet Private 31.
Definition ACCOUNT_ID_FUNGIBLE_FAUCET_ON_CHAIN : Z := testing_account_id FungibleFaucet Public 31.
Definition ACCOUNT_ID_FUNGIBLE_FAUCET_ON_CHAIN_1 : Z := testing_account_id FungibleFaucet Public 47.
Definition ACCOUNT_ID_FUNGIBLE_FAUCET_ON_CHAIN_2 : Z := testing_account_id FungibleFaucet Public 63.
Definition ACCOUNT_ID_FUNGIBLE_FAUCET_ON_CHAIN_3 : Z := testing_account_id FungibleFaucet Public 79.
Definition ACCOUNT_ID_INSUFFICIENT_ONES : Z := testing_account_id NonFungibleFaucet Private 0.
Definition ACCOUNT_ID_NON_FUNGIBLE_FAUCET_OFF_CHAIN : Z := testing_account_id NonFungibleFaucet Private 31.
Definition ACCOUNT_ID_NON_FUNGIBLE_FAUCET_ON_CHAIN : Z := testing_account_id NonFungibleFaucet Public 47.
Definition ACCOUNT_ID_NON_FUNGIBLE_FAUCET_ON_CHAIN_1 : Z := testing_account_id NonFungibleFaucet Public 63.

(** The copies of three of them in the benchmarks. *)
Definition BENCH_ACCOUNT_ID_FUNGIBLE_FAUCET_ON_CHAIN : Z := 0x200000000000001f.
Definition BENCH_ACCOUNT_ID_SENDER : Z := 0x800000000000001f.
Definition BENCH_ACCOUNT_ID_REGULAR_ACCOUNT_UPDATABLE_CODE_OFF_CHAIN : Z := 0x900000000000003f.

(** Constants of objects/src/testing/constants.rs and storage.rs *)
Definition FUNGIBLE_ASSET_AMOUNT : Z := 100.
Definition FUNGIBLE_FAUCET_INITIAL_BALANCE : Z := 50000.
Definition NON_FUNGIBLE_ASSET_DATA : list Z := [1; 2; 3; 4].
Definition NON_FUNGIBLE_ASSET_DATA_2 : list Z := [5; 6; 7; 8].
Definition FAUCET_STORAGE_DATA_SLOT : Z := 0.
Definition STORAGE_INDEX_0 : Z := 0.
Definition STORAGE_INDEX_1 : Z := 1.
Definition STORAGE_INDEX_2 : Z := 2.

Section Testing.
  Context {F : FeltApi} {H : HasherApi} {S : SmtApi} {D : DigestOrd} {A : AsmApi} {P : ProgramApi} {C : CompilerApi}.

Definition unwrap_id {E} (v : Z) : res E AccountId := expect_ok (account_id_from_u64 v).

(** [AccountId::new_dummy]; the fuel is that of the search for a seed. *)
Definition new_dummy {E} (fuel : nat) (init_seed : list Z) (ty : AccountType) : option (res E AccountId) :=
  let code_commitment := EMPTY_WORD in
  let storage_commitment := EMPTY_WORD in
  r ← get_account_seed_single fuel init_seed ty Public code_commitment storage_commitment;
  Some (seed ← expect_ok r; expect_ok (account_id_new seed code_commitment storage_commitment)).

(** ** Deltas and storage *)

(** [BTreeMap::from_iter] and [extend]: later entries win. *)
Definition extend_entries {K V} `{Countable K} (m : gmap K V) (l : list (K * V)) : gmap K V := foldl (λ m kv, <[kv.1 := kv.2]> m) m l.

(** [StorageMapDelta::from_iters] and [AccountStorageDelta::from_iters] *)
Definition map_delta_from_iters (cleared_leaves : list Word) (updated_leaves : list (Word * Word)) : StorageMapDelta :=
  mkMapDelta (extend_entries ∅ (((λ key, (key, EMPTY_WORD)) <$> cleared_leaves) ++ updated_leaves)).
Definition storage_delta_from_iters (cleared_items : list Z) (updated_values : list (Z * Word))
    (updated_maps : list (Z * StorageMapDelta)) : AccountStorageDelta :=
  mkStorageDelta (extend_entries ∅ (((λ key, (key, EMPTY_WORD)) <$> cleared_items) ++ updated_values)) (extend_entries ∅ updated_maps).

Record AccountStorageDeltaBuilder : Type := mkDeltaBuilder { db_values : gmap Z Word; db_maps : gmap Z StorageMapDelta }.
Definition delta_builder_default : AccountStorageDeltaBuilder := mkDeltaBuilder ∅ ∅.
Definition add_cleared_items (items : list Z) (b : AccountStorageDeltaBuilder) :=
  mkDeltaBuilder (extend_entries (db_values b) ((λ slot, (slot, EMPTY_WORD)) <$> items)) (db_maps b).
Definition add_updated_values (items : list (Z * Word)) (b : AccountStorageDeltaBuilder) :=
  mkDeltaBuilder (extend_entries (db_values b) items) (db_maps b).
Definition add_updated_maps (items : list (Z * StorageMapDelta)) (b : AccountStorageDeltaBuilder) :=
  mkDeltaBuilder (db_values b) (extend_entries (db_maps b) items).
Definition delta_builder_build (b : AccountStorageDeltaBuilder) : res AccountDeltaError AccountStorageDelta :=
  storage_delta_new (db_values b) (db_maps b).

Definition STORAGE_VALUE_0 : Word := mkWord (felt_new 1) (felt_new 2) (felt_new 3) (felt_new 4).
Definition STORAGE_VALUE_1 : Word := mkWord (felt_new 5) (felt_new 6) (felt_new 7) (felt_new 8).
Definition STORAGE_LEAVES_2 : list (Digest * Word) :=
  [(mkWord (felt_new 101) (felt_new 102) (felt_new 103) (felt_new 104), mkWord (felt_new 1) (felt_new 2) (felt_new 3) (felt_new 4));
   (mkWord (felt_new 105) (felt_new 106) (felt_new 107) (felt_new 108), mkWord (felt_new 5) (felt_new 6) (felt_new 7) (felt_new 8))].
Record SlotWithIndex : Type := mkSlotWithIndex { swi_slot : StorageSlot; swi_index : Z }.
Definition mock_item_0 : SlotWithIndex := mkSlotWithIndex (Value STORAGE_VALUE_0) STORAGE_INDEX_0.
Definition mock_item_1 : SlotWithIndex := mkSlotWithIndex (Value STORAGE_VALUE_1) STORAGE_INDEX_1.
Definition mock_map {E} : res E StorageMap := expect_ok (storage_map_with_entries STORAGE_LEAVES_2).
Definition mock_item_2 {E} : res E SlotWithIndex := m ← mock_map; Ok (mkSlotWithIndex (Map m) STORAGE_INDEX_2).
Definition mock_storage_slots {E} : res E (list StorageSlot) :=
  item_2 ← mock_item_2; Ok [swi_slot mock_item_0; swi_slot mock_item_1; swi_slot item_2].
Definition storage_mock {E} : res E AccountStorage := slots ← mock_storage_slots; expect_ok (storage_new slots).

Record AccountStorageBuilder : Type := mkStorageBuilder { sb_slots : list StorageSlot }.
Definition storage_builder_new : AccountStorageBuilder := mkStorageBuilder [].
Definition with_mock_data {E} : res E AccountStorageBuilder := slots ← mock_storage_slots; Ok (mkStorageBuilder slots).
Definition add_slot (slot : StorageSlot) (b : AccountStorageBuilder) := mkStorageBuilder (sb_slots b ++ [slot]).
Definition add_slots (slots : list StorageSlot) (b : AccountStorageBuilder) := foldl (λ b slot, add_slot slot b) b slots.
Definition storage_builder_build {E} (b : AccountStorageBuilder) : res E AccountStorage := expect_ok (storage_new (sb_slots b)).

(** ** Assets *)

(** [NonFungibleAsset::mock] and [FungibleAsset::mock] *)
Definition nf_mock {E} (account_id : Z) (asset_data : list Z) : res E Asset :=
  id ← unwrap_id account_id;
  details ← expect_ok (details_new id asset_data);
  asset ← expect_ok (nf_new details);
  Ok (NonFungible asset).
Definition fungible_mock {E} (amount : Z) : res E Asset :=
  id ← unwrap_id ACCOUNT_ID_FUNGIBLE_FAUCET_ON_CHAIN;
  asset ← expect_ok (fungible_new id amount);
  Ok (Fungible asset).

Record FungibleAssetBuilder : Type := mkFungibleBuilder { fb_faucet_id : AccountId; fb_amount : Z }.
Definition DEFAULT_AMOUNT : Z := 10.
Definition fungible_builder_new (faucet_id : AccountId) : res AssetError FungibleAssetBuilder :=
  let ty := account_type faucet_id in
  if decide (ty = FungibleFaucet) then Ok (mkFungibleBuilder faucet_id DEFAULT_AMOUNT)
  else Err (NotAFungibleFaucetId faucet_id ty).
Definition fungible_builder_amount (amount : Z) : mut FungibleAssetBuilder AssetError unit := λ b,
  if amount >? MAX_AMOUNT then (Err (AmountTooBig amount), b) else (Ok tt, mkFungibleBuilder (fb_faucet_id b) amount).
Definition fungible_builder_with_amount (b : FungibleAssetBuilder) (amount : Z) : res AssetError FungibleAsset :=
  fungible_new (fb_faucet_id b) amount.
Definition fungible_builder_build (b : FungibleAssetBuilder) : res AssetError FungibleAsset :=
  fungible_new (fb_faucet_id b) (fb_amount b).

(** The builders of other assets draw five bytes for each. *)
Section NonFungibleBuilders.
  Context {G : Type} (sample_bytes : nat → G → list Z * G).
Record NonFungibleAssetDetailsBuilder : Type := mkDetailsBuilder { ndb_faucet_id : AccountId; ndb_rng : G }.
Definition details_builder_new (faucet_id : AccountId) (rng : G) : res AssetError NonFungibleAssetDetailsBuilder :=
  if decide (account_type faucet_id = NonFungibleFaucet) then Ok (mkDetailsBuilder faucet_id rng)
  else Err (NotANonFungibleFaucetId faucet_id).
Definition details_builder_build : mut NonFungibleAssetDetailsBuilder AssetError NonFungibleAssetDetails := λ b,
  let '(data, rng) := sample_bytes 5 (ndb_rng b) in
  (details_new (ndb_faucet_id b) data, mkDetailsBuilder (ndb_faucet_id b) rng).
Record NonFungibleAssetBuilder : Type := mkNfBuilder { nfb_details_builder : NonFungibleAssetDetailsBuilder }.
Definition nf_builder_new (faucet_id : AccountId) (rng : G) : res AssetError NonFungibleAssetBuilder :=
  details_builder ← details_builder_new faucet_id rng; Ok (mkNfBuilder details_builder).
Definition nf_builder_build : mut NonFungibleAssetBuilder AssetError NonFungibleAsset := λ b,
  let '(r, details_builder) := details_builder_build (nfb_details_builder b) in
  (details ← r; nf_new details, mkNfBuilder details_builder).
End NonFungibleBuilders.

(** [build_assets] *)
Definition build_assets {E} : res E (Asset * Asset) :=
  faucet_id_0 ← unwrap_id ACCOUNT_ID_FUNGIBLE_FAUCET_ON_CHAIN;
  asset_0 ← expect_ok (fungible_new faucet_id_0 123);
  faucet_id_1 ← unwrap_id ACCOUNT_ID_FUNGIBLE_FAUCET_ON_CHAIN_2;
  asset_1 ← expect_ok (fungible_new faucet_id_1 345);
  Ok (Fungible asset_0, Fungible asset_1).

(** [AssetVault::mock] *)
Definition mock_vault_assets {E} : res E (list Asset) :=
  faucet_id ← unwrap_id ACCOUNT_ID_FUNGIBLE_FAUCET_ON_CHAIN;
  asset ← expect_ok (fungible_new faucet_id FUNGIBLE_ASSET_AMOUNT);
  faucet_id_1 ← unwrap_id ACCOUNT_ID_FUNGIBLE_FAUCET_ON_CHAIN_1;
  asset_1 ← expect_ok (fungible_new faucet_id_1 FUNGIBLE_ASSET_AMOUNT);
  faucet_id_2 ← unwrap_id ACCOUNT_ID_FUNGIBLE_FAUCET_ON_CHAIN_2;
  asset_2 ← expect_ok (fungible_new faucet_id_2 FUNGIBLE_ASSET_AMOUNT);
  non_fungible_asset ← nf_mock ACCOUNT_ID_NON_FUNGIBLE_FAUCET_ON_CHAIN NON_FUNGIBLE_ASSET_DATA;
  Ok [Fungible asset; Fungible asset_1; Fungible asset_2; non_fungible_asset].
Definition vault_mock {E} : res E AssetVault := assets ← mock_vault_assets; expect_ok (vault_new assets).

(** ** Accounts *)

(** [Account::mock], [mock_fungible_faucet] and [mock_non_fungible_faucet] *)
Definition account_mock {E} (account_id : Z) (nonce : felt) (a : Assembler) : res E Account :=
  account_vault ← (if decide (nonce = ZERO) then Ok vault_default else vault_mock);
  account_id ← unwrap_id account_id;
  slots ← mock_storage_slots;
  mock_component ← expect_ok (new_with_slots a slots);
  component ← mock_into_component mock_component;
  '(account_code, account_storage) ← expect_ok (initialize_from_components (account_type account_id) [component]);
  Ok (mkAccount account_id account_vault account_storage account_code nonce).
Definition mock_fungible_faucet {E} (account_id : Z) (nonce initial_balance : felt) (a : Assembler) : res E Account :=
  account_id ← unwrap_id account_id;
  mock_component ← expect_ok (new_with_empty_slots a);
  component ← mock_into_component mock_component;
  '(account_code, account_storage) ← expect_ok (initialize_from_components (account_type account_id) [component]);
  let faucet_data_slot := mkWord ZERO ZERO ZERO initial_balance in
  let '(r, account_storage) := set_item FAUCET_STORAGE_DATA_SLOT faucet_data_slot account_storage in
  expect_ok r ;;
  Ok (mkAccount account_id vault_default account_storage account_code nonce).
Definition mock_non_fungible_faucet {E} (account_id : Z) (nonce : felt) (empty_reserved_slot : bool) (a : Assembler) : res E Account :=
  entries ← (if empty_reserved_slot then Ok []
             else asset ← nf_mock ACCOUNT_ID_NON_FUNGIBLE_FAUCET_ON_CHAIN NON_FUNGIBLE_ASSET_DATA_2;
                  Ok [(asset_to_word asset, asset_to_word asset)]);
  nft_storage_map ← expect_ok (storage_map_with_entries entries);
  account_id ← unwrap_id account_id;
  mock_component ← expect_ok (new_with_empty_slots a);
  component ← mock_into_component mock_component;
  account_code ← expect_ok (code_from_components [component] (account_type account_id));
  account_storage ← expect_ok (storage_new [Map nft_storage_map]);
  Ok (mkAccount account_id vault_default account_storage account_code nonce).

(** [build_account] and [build_account_delta] *)
Definition build_account {E} (assets : list Asset) (nonce : felt) (slots : list StorageSlot) : res E Account :=
  id ← unwrap_id ACCOUNT_ID_REGULAR_ACCOUNT_IMMUTABLE_CODE_ON_CHAIN;
  code ← code_mock;
  vault ← expect_ok (vault_new assets);
  storage ← expect_ok (storage_new slots);
  Ok (mkAccount id vault storage code nonce).
Definition build_account_delta {E} (added_assets removed_assets : list Asset) (nonce : felt) (storage_delta : AccountStorageDelta)
    : res E AccountDelta :=
  vault_delta ← from_iters added_assets removed_assets;
  expect_ok (account_delta_new storage_delta vault_delta (Some nonce)).

Inductive AccountSeedType : Type :=
  | FungibleFaucetInvalidInitialBalance
  | FungibleFaucetValidInitialBalance
  | NonFungibleFaucetInvalidReservedSlot
  | NonFungibleFaucetValidReservedSlot
  | RegularAccountUpdatableCodeOnChain
  | RegularAccountUpdatableCodeOffChain.
Definition seed_account {E} (account_seed_type : AccountSeedType) (a : Assembler) : res E (Account * AccountType) :=
  match account_seed_type with
  | FungibleFaucetInvalidInitialBalance =>
      account ← mock_fungible_faucet ACCOUNT_ID_FUNGIBLE_FAUCET_ON_CHAIN ZERO (felt_new FUNGIBLE_FAUCET_INITIAL_BALANCE) a;
      Ok (account, FungibleFaucet)
  | FungibleFaucetValidInitialBalance =>
      account ← mock_fungible_faucet ACCOUNT_ID_FUNGIBLE_FAUCET_ON_CHAIN ZERO ZERO a; Ok (account, FungibleFaucet)
  | NonFungibleFaucetInvalidReservedSlot =>
      account ← mock_non_fungible_faucet ACCOUNT_ID_NON_FUNGIBLE_FAUCET_ON_CHAIN ZERO false a; Ok (account, NonFungibleFaucet)
  | NonFungibleFaucetValidReservedSlot =>
      account ← mock_non_fungible_faucet ACCOUNT_ID_NON_FUNGIBLE_FAUCET_ON_CHAIN ZERO true a; Ok (account, NonFungibleFaucet)
  | RegularAccountUpdatableCodeOnChain =>
      account ← account_mock ACCOUNT_ID_REGULAR_ACCOUNT_UPDATABLE_CODE_ON_CHAIN ZERO a; Ok (account, RegularAccountUpdatableCode)
  | RegularAccountUpdatableCodeOffChain =>
      account ← account_mock ACCOUNT_ID_REGULAR_ACCOUNT_UPDATABLE_CODE_OFF_CHAIN ZERO a; Ok (account, RegularAccountUpdatableCode)
  end.
(** [generate_account_seed]; the fuel is that of the search. *)
Definition generate_account_seed {E} (fuel : nat) (account_seed_type : AccountSeedType) (a : Assembler)
    : option (res E (AccountId * Word)) :=
  let init_seed := replicate 32 0 in
  match seed_account account_seed_type a with
  | Ok (account, ty) =>
      let code := code_commitment (acct_code account) in
      let storage := storage_commitment (acct_storage account) in
      r ← get_account_seed_single fuel init_seed ty Public code storage;
      Some (seed ← expect_ok r; account_id ← expect_ok (account_id_new seed code storage); Ok (account_id, seed))
  | Err e => Some (Err e)
  | Panic => Some Panic
  end.

(** ** Notes *)

Definition DEFAULT_NOTE_CODE : string := "begin nop end".
Record NoteBuilder : Type := mkNoteBuilder {
  nb_sender : AccountId;
  nb_inputs : list felt;
  nb_assets : list Asset;
  nb_note_type : NoteType;
  nb_execution_hint : NoteExecutionHint;
  nb_serial_num : Word;
  nb_tag : NoteTag;
  nb_code : string;
  nb_aux : felt
}.
(** [NoteBuilder::new]; the four numbers are drawn from the generator. *)
Definition note_builder_new (sender : AccountId) (r0 r1 r2 r3 : Z) : NoteBuilder :=
  let serial_num := mkWord (felt_new r0) (felt_new r1) (felt_new r2) (felt_new r3) in
  mkNoteBuilder sender [] [] PublicNote HintNone serial_num (mkNoteTag 0) DEFAULT_NOTE_CODE ZERO.
Definition nb_with_inputs (inputs : list felt) (b : NoteBuilder) : res NoteError NoteBuilder :=
  validate ← note_inputs_new inputs;
  Ok (mkNoteBuilder (nb_sender b) (ni_values validate) (nb_assets b) (nb_note_type b) (nb_execution_hint b)
        (nb_serial_num b) (nb_tag b) (nb_code b) (nb_aux b)).
Definition nb_add_assets (assets : list Asset) (b : NoteBuilder) : NoteBuilder :=
  mkNoteBuilder (nb_sender b) (nb_inputs b) (nb_assets b ++ assets) (nb_note_type b) (nb_execution_hint b)
    (nb_serial_num b) (nb_tag b) (nb_code b) (nb_aux b).
Definition nb_with_hint (hint : NoteExecutionHint) (b : NoteBuilder) : NoteBuilder :=
  mkNoteBuilder (nb_sender b) (nb_inputs b) (nb_assets b) (nb_note_type b) hint (nb_serial_num b) (nb_tag b) (nb_code b) (nb_aux b).
Definition nb_with_tag (tag : Z) (b : NoteBuilder) : NoteBuilder :=
  mkNoteBuilder (nb_sender b) (nb_inputs b) (nb_assets b) (nb_note_type b) (nb_execution_hint b) (nb_serial_num b)
    (mkNoteTag tag) (nb_code b) (nb_aux b).
Definition nb_with_code (code : string) (b : NoteBuilder) : NoteBuilder :=
  mkNoteBuilder (nb_sender b) (nb_inputs b) (nb_assets b) (nb_note_type b) (nb_execution_hint b) (nb_serial_num b)
    (nb_tag b) code (nb_aux b).
Definition nb_with_aux (aux : felt) (b : NoteBuilder) : NoteBuilder :=
  mkNoteBuilder (nb_sender b) (nb_inputs b) (nb_assets b) (nb_note_type b) (nb_execution_hint b) (nb_serial_num b)
    (nb_tag b) (nb_code b) aux.
Definition nb_build (b : NoteBuilder) (a : Assembler) : res NoteError Note :=
  code ← expect_some (assemble_script (nb_code b) a);
  let note_script := script_new code in
  vault ← note_assets_new (nb_assets b);
  metadata ← metadata_new (nb_sender b) (nb_note_type b) (nb_tag b) (nb_execution_hint b) (nb_aux b);
  inputs ← note_inputs_new (nb_inputs b);
  recipient ← recipient_new (nb_serial_num b) note_script inputs;
  note_new vault metadata recipient.
(** [NoteScript::mock] *)
Definition script_mock {E} : res E NoteScript :=
  code ← expect_some (assemble_script DEFAULT_NOTE_CODE assembler_default); Ok (script_new code).

(** ** Block headers *)

Section Header.
  Context {B : ByteIO} {N : NoteIO} {T : PathApi} {Q : SimpleSmtApi}.

(** The values that are drawn at random. *)
Record RandomHeader : Type := mkRandomHeader {
  rh_prev_hash : Digest;
  rh_chain_root : Digest;
  rh_nullifier_root : Digest;
  rh_note_root : Digest;
  rh_tx_hash : Digest;
  rh_proof_hash : Digest;
  rh_timestamp : Z
}.
Definition mock_account_leaves (accounts : list Account) : list (Z * Word) :=
  omap (λ acct, if account_is_new acct then None else Some (as_int (id_felt (acct_id acct)), account_hash acct)) accounts.
(** [BlockHeader::mock] *)
Definition header_mock {E} (r : RandomHeader) (block_num : Z) (chain_root note_root : option Digest) (accounts : list Account)
    (kernel_root : Digest) : res E BlockHeader :=
  acct_db ← expect_ok (ssmt_with_leaves 64 (mock_account_leaves accounts));
  let account_root := ssmt_root acct_db in
  Ok (block_header_new 0 (rh_prev_hash r) block_num (default (rh_chain_root r) chain_root) account_root (rh_nullifier_root r)
        (default (rh_note_root r) note_root) (rh_tx_hash r) kernel_root (rh_proof_hash r) (rh_timestamp r)).
End Header.
End Testing.

(** ** Theorems *)

(** The ids with the type and the storage mode of their names. *)
Definition testing_ids : list (Z * (AccountType * AccountStorageMode)) :=
  [(ACCOUNT_ID_SENDER, (RegularAccountImmutableCode, Private));
   (ACCOUNT_ID_OFF_CHAIN_SENDER, (RegularAccountImmutableCode, Private));
   (ACCOUNT_ID_REGULAR_ACCOUNT_UPDATABLE_CODE_OFF_CHAIN, (RegularAccountUpdatableCode, Private));
   (ACCOUNT_ID_REGULAR_ACCOUNT_IMMUTABLE_CODE_ON_CHAIN, (RegularAccountImmutableCode, Public));
   (ACCOUNT_ID_REGULAR_ACCOUNT_IMMUTABLE_CODE_ON_CHAIN_2, (RegularAccountImmutableCode, Public));
   (ACCOUNT_ID_REGULAR_ACCOUNT_UPDATABLE_CODE_ON_CHAIN, (RegularAccountUpdatableCode, Public));
   (ACCOUNT_ID_REGULAR_ACCOUNT_UPDATABLE_CODE_ON_CHAIN_2, (RegularAccountUpdatableCode, Public));
   (ACCOUNT_ID_FUNGIBLE_FAUCET_OFF_CHAIN, (FungibleFaucet, Private));
   (ACCOUNT_ID_FUNGIBLE_FAUCET_ON_CHAIN, (FungibleFaucet, Public));
   (ACCOUNT_ID_FUNGIBLE_FAUCET_ON_CHAIN_1, (FungibleFaucet, Public));
   (ACCOUNT_ID_FUNGIBLE_FAUCET_ON_CHAIN_2, (FungibleFaucet, Public));
   (ACCOUNT_ID_FUNGIBLE_FAUCET_ON_CHAIN_3, (FungibleFaucet, Public));
   (ACCOUNT_ID_NON_FUNGIBLE_FAUCET_OFF_CHAIN, (NonFungibleFaucet, Private));
   (ACCOUNT_ID_NON_FUNGIBLE_FAUCET_ON_CHAIN, (NonFungibleFaucet, Public));
   (ACCOUNT_ID_NON_FUNGIBLE_FAUCET_ON_CHAIN_1, (NonFungibleFaucet, Public))].

(** A check of a number as an id that needs no field elements. *)
Definition id_checks (v : Z) (ty : AccountType) (mode : AccountStorageMode) : bool :=
  (0 <=? v) && (v <? MODULUS) && (MIN_ACCOUNT_ONES <=? count_ones v) && bool_decide (account_type_from_u64 v = ty) &&
  (storage_bits v =? storage_mode_discr mode).

Section TestingLaws.
  Context {F : FeltApi} {H : HasherApi} {S : SmtApi} {D : DigestOrd} {A : AsmApi} {P : ProgramApi} {C : CompilerApi}.

Lemma id_checks_Ok {E} v ty mode :
  id_checks v ty mode = true →
  let id := mkAccountId (felt_new v) in
  account_id_from_u64 v = Ok id ∧ unwrap_id (E:=E) v = Ok id ∧ valid_id id ∧ as_int (id_felt id) = v ∧ account_type id = ty ∧
  storage_mode (E:=AccountError) id = Ok mode.
Proof.
  unfold id_checks. rewrite !andb_true_iff, bool_decide_eq_true, Z.leb_le, Z.ltb_lt, Z.leb_le, Z.eqb_eq.
  intros ((((H0 & Hm) & Hc) & Ht) & Hb). assert (as_int (felt_new v) = v) as Ev by (apply as_int_small; lia).
  assert (account_id_from_felt (felt_new v) = Ok (mkAccountId (felt_new v))) as Hf.
  { unfold account_id_from_felt. rewrite Ev, Hb. destruct (Z.ltb_spec (count_ones v) MIN_ACCOUNT_ONES); [lia|]. by destruct mode. }
  assert (account_id_from_u64 v = Ok (mkAccountId (felt_new v))) as Hu.
  { rewrite account_id_from_u64_spec by (unfold MODULUS in *; lia). by rewrite (proj2 (Z.ltb_lt _ _) Hm). }
  cbv zeta. split; [done|]. split; [unfold unwrap_id; by rewrite Hu|]. split; [by apply account_id_from_felt_valid in Hf|].
  cbn [id_felt]. split; [done|]. split; [unfold account_type; cbn; by rewrite Ev|].
  unfold storage_mode. cbn. rewrite Ev, Hb. by destruct mode.
Qed.

(** The ids of the tests are different ids of the type and storage mode that their
    names say; the one that is meant to be invalid is refused because it has three
    ones where five are needed; the ids that the benchmarks repeat are the same. *)
Theorem testing_ids_valid :
  Forall (λ x, ∃ id, account_id_from_u64 x.1 = Ok id ∧ account_type id = x.2.1 ∧
                     storage_mode (E:=AccountError) id = Ok x.2.2) testing_ids ∧
  NoDup testing_ids.*1 ∧
  account_id_from_u64 ACCOUNT_ID_INSUFFICIENT_ONES = Err (AccountIdTooFewOnes MIN_ACCOUNT_ONES 3) ∧
  BENCH_ACCOUNT_ID_FUNGIBLE_FAUCET_ON_CHAIN = ACCOUNT_ID_FUNGIBLE_FAUCET_ON_CHAIN ∧ BENCH_ACCOUNT_ID_SENDER = ACCOUNT_ID_SENDER ∧
  BENCH_ACCOUNT_ID_REGULAR_ACCOUNT_UPDATABLE_CODE_OFF_CHAIN = ACCOUNT_ID_REGULAR_ACCOUNT_UPDATABLE_CODE_OFF_CHAIN.
Proof.
  split_and!; [|apply (bool_decide_unpack _); vm_compute; exact I| |done..].
  - assert (Forall (λ x, id_checks x.1 x.2.1 x.2.2 = true) testing_ids) as Hall
      by (apply (bool_decide_unpack _); vm_compute; exact I).
    apply (Forall_impl _ _ _ Hall). intros [v [ty mode]] Hc. destruct (id_checks_Ok (E:=Empty_set) v ty mode Hc) as (Hid & _ & _ & _ & Ht & Hm).
    by exists (mkAccountId (felt_new v)).
  - rewrite account_id_from_u64_spec by (vm_compute; split; [discriminate|reflexivity]).
    change (ACCOUNT_ID_INSUFFICIENT_ONES <? MODULUS) with true. cbv iota. unfold account_id_from_felt.
    rewrite as_int_small by (vm_compute; split; [discriminate|reflexivity]). reflexivity.
Qed.

(** The search for a seed neither fails nor panics. *)
Lemma seed_search_no_error fuel init ty mode code storage r :
  get_account_seed_single fuel init ty mode code storage = Some r → ∃ seed, r = Ok seed.
Proof.
  unfold get_account_seed_single. generalize (init_seed_word init). induction fuel as [|fuel IH]; intros w; cbn [seed_loop]; [done|].
  destruct (seed_matches_total (compute_digest w code storage) ty mode) as [[] ->]; [|apply IH]. intros [= <-]. by eexists.
Qed.

(** A dummy id is a public id of the requested type, and the code never panics. *)
Theorem new_dummy_sound {E} fuel init ty r :
  new_dummy (E:=E) fuel init ty = Some r →
  ∃ id, r = Ok id ∧ valid_id id ∧ account_type id = ty ∧ storage_mode (E:=AccountError) id = Ok Public.
Proof.
  unfold new_dummy. destruct (get_account_seed_single _ _ _ _ _ _) as [[seed|e|]|] eqn:Es; cbn; [| | |discriminate].
  - destruct (get_account_seed_sound _ _ _ _ _ _ _ Es) as (id & Hid & Hv & Ht & Hm). rewrite Hid. intros [= <-]. by exists id.
  - by apply seed_search_no_error in Es as [].
  - by apply seed_search_no_error in Es as [].
Qed.

(** *** Deltas *)

Lemma extend_entries_lookup {K V} `{Countable K} (m : gmap K V) l k :
  extend_entries m l !! k = (list_to_map (M:=gmap K V) (reverse l) !! k) ∪ (m !! k).
Proof.
  unfold extend_entries. induction l as [|[k' v] l IH] using rev_ind; cbn; [rewrite lookup_empty; by destruct (m !! k)|].
  rewrite foldl_snoc, reverse_snoc. cbn. destruct (decide (k' = k)) as [->|].
  - by rewrite !lookup_insert_eq, union_Some_l.
  - by rewrite !lookup_insert_ne.
Qed.
Lemma extend_entries_app {K V} `{Countable K} (m : gmap K V) l l' : extend_entries m (l ++ l') = extend_entries (extend_entries m l) l'.
Proof. apply foldl_app. Qed.
Lemma cleared_lookup (l : list Z) k :
  list_to_map (M:=gmap Z Word) ((λ k, (k, EMPTY_WORD)) <$> l) !! k = if decide (k ∈ l) then Some EMPTY_WORD else None.
Proof.
  case_decide as Hk.
  - apply elem_of_list_to_map_1'; [|by apply (list_elem_of_fmap_2 (λ k, (k, EMPTY_WORD)))].
    intros w (x & [= _ ->] & _)%list_elem_of_fmap. done.
  - apply not_elem_of_list_to_map_1. rewrite <-list_fmap_compose. cbn. by rewrite list_fmap_id.
Qed.
Lemma extend_cleared (l : list Z) k : extend_entries ∅ ((λ k, (k, EMPTY_WORD)) <$> l) !! k = if decide (k ∈ l) then Some EMPTY_WORD else None.
Proof.
  rewrite extend_entries_lookup, lookup_empty, <-fmap_reverse, cleared_lookup.
  destruct (decide (k ∈ l)) as [Hk|Hk]; [by rewrite decide_True by by apply elem_of_reverse|].
  by rewrite decide_False by by rewrite elem_of_reverse.
Qed.

(** Building a delta step by step checks what making it from the same iterators does
    not: that no slot has both a value and a map. Beyond that the deltas are the
    same: a slot has its last update, or is empty if it was only cleared. *)
Theorem delta_builder_spec cleared updates maps :
  let d := storage_delta_from_iters cleared updates maps in
  match delta_builder_build (add_updated_maps maps (add_updated_values updates (add_cleared_items cleared delta_builder_default))) with
  | Ok d' => d' = d ∧ disjoint_slots d
  | Err (DuplicateStorageItemUpdate s) => is_Some (sd_values d !! s) ∧ is_Some (sd_maps d !! s)
  | _ => False
  end ∧
  ∀ k, sd_values d !! k = (list_to_map (M:=gmap Z Word) (reverse updates) !! k) ∪ (if decide (k ∈ cleared) then Some EMPTY_WORD else None).
Proof.
  cbv zeta. set (d := storage_delta_from_iters cleared updates maps). split.
  - assert (delta_builder_build (add_updated_maps maps (add_updated_values updates (add_cleared_items cleared delta_builder_default))) =
      (storage_delta_validate d ;; Ok d)) as ->.
    { unfold delta_builder_build, d, storage_delta_from_iters, storage_delta_new, add_updated_maps, add_updated_values, add_cleared_items.
      cbn [db_values db_maps delta_builder_default]. by rewrite extend_entries_app. }
    by destruct (storage_delta_validate_cases d) as [[-> Hd]|(s & -> & Hs)].
  - intros k. unfold d, storage_delta_from_iters. cbn [sd_values]. by rewrite extend_entries_app, extend_entries_lookup, extend_cleared.
Qed.

(** *** Assets *)

(** A builder of fungible assets builds the asset with the amount that was last
    accepted: after [new] and any amounts, building never fails. *)
Theorem fungible_builder_total id b amounts :
  fungible_builder_new id = Ok b →
  let b' := foldl (λ b amount, (fungible_builder_amount amount b).2) b amounts in
  fungible_builder_build b' = Ok (mkFungibleAsset id (fb_amount b')) ∧
  fb_amount b' = default DEFAULT_AMOUNT (last (filter (λ x, x ≤ MAX_AMOUNT) amounts)).
Proof.
  unfold fungible_builder_new. case_decide as Hty; [|discriminate]. intros [= <-]. cbv zeta.
  assert (∀ l, let b' := foldl (λ b amount, (fungible_builder_amount amount b).2) (mkFungibleBuilder id DEFAULT_AMOUNT) l in
    fb_faucet_id b' = id ∧ fb_amount b' ≤ MAX_AMOUNT ∧
    fb_amount b' = default DEFAULT_AMOUNT (last (filter (λ x, x ≤ MAX_AMOUNT) l))) as Hinv.
  { induction l as [|x l IH] using rev_ind; cbv zeta; [split_and!; [done|by vm_compute|done]|].
    rewrite foldl_snoc, filter_app. destruct IH as (Hi & Hm & Ha). unfold fungible_builder_amount at 1 3 5.
    destruct (Z.gtb_spec x MAX_AMOUNT).
    - cbn [snd]. rewrite filter_cons_False by lia. cbn. rewrite app_nil_r. done.
    - cbn [snd fb_faucet_id fb_amount]. rewrite filter_cons_True by lia. cbn. by rewrite last_snoc. }
  destruct (Hinv amounts) as (Hi & Hm & Ha). split; [|done].
  unfold fungible_builder_build, fungible_new. apply fungible_validate_Ok. rewrite Hi. by split_and!.
Qed.

(** A builder of other assets builds any number of them without failing, all of its
    faucet. *)
Theorem nf_builder_total {G : Type} (sample_bytes : nat → G → list Z * G) id rng b (n : nat) :
  valid_id id → nf_builder_new id rng = Ok b →
  let b' := Nat.iter n (λ b, (nf_builder_build sample_bytes b).2) b in
  ∃ a, (nf_builder_build sample_bytes b').1 = Ok a ∧ valid_nf a ∧ nf_faucet_id a = id.
Proof.
  intros Hid. unfold nf_builder_new, details_builder_new. case_decide as Ht; [|discriminate]. intros [= <-]. cbv zeta.
  assert (∀ m, ndb_faucet_id (nfb_details_builder (Nat.iter m (λ b, (nf_builder_build sample_bytes b).2) (mkNfBuilder (mkDetailsBuilder id rng)))) = id)
    as Hinv.
  { induction m as [|m IH]; [done|]. cbn [Nat.iter nat_rect]. unfold nf_builder_build at 1, details_builder_build.
    destruct (sample_bytes _ _). by cbn. }
  specialize (Hinv n). generalize dependent (Nat.iter n (λ b, (nf_builder_build sample_bytes b).2) (mkNfBuilder (mkDetailsBuilder id rng))).
  intros b Hb. unfold nf_builder_build, details_builder_build. destruct (sample_bytes _ _) as [data g]. rewrite Hb.
  unfold details_new. rewrite decide_True by done. cbn [fst mbind res_bind].
  destruct (nf_new (mkDetails id data)) as [a|e|] eqn:En.
  2,3: unfold nf_new, nf_from_parts in En; cbn [nfd_faucet_id] in En; rewrite decide_True in En by done; discriminate.
  exists a. destruct (nf_new_valid id data (mkDetails id data) a Hid) as (Hv & Hf & _); [unfold details_new; by rewrite decide_True|done|done].
Qed.

Lemma expect_fungible {E} v amount mode :
  id_checks v FungibleFaucet mode = true → 0 ≤ amount ≤ MAX_AMOUNT →
  let a := mkFungibleAsset (mkAccountId (felt_new v)) amount in
  fungible_new (mkAccountId (felt_new v)) amount = Ok a ∧ unwrap_id (E:=E) v = Ok (mkAccountId (felt_new v)) ∧ valid_asset (Fungible a).
Proof.
  intros Hc Ha. destruct (id_checks_Ok (E:=E) v _ _ Hc) as (_ & Hu & Hv & _ & Ht & _). cbv zeta.
  assert (valid_fungible (mkFungibleAsset (mkAccountId (felt_new v)) amount)) as Hf by done.
  split; [exact (fungible_new_valid _ Hf)|]. done.
Qed.
Lemma nf_mock_Ok {E} v data mode :
  id_checks v NonFungibleFaucet mode = true → ∃ a, nf_mock (E:=E) v data = Ok (NonFungible a) ∧ valid_asset (NonFungible a) ∧
    nf_faucet_id a = mkAccountId (felt_new v).
Proof.
  intros Hc. destruct (id_checks_Ok (E:=E) v _ _ Hc) as (_ & Hu & Hv & _ & Ht & _). unfold nf_mock. rewrite Hu. cbn [mbind res_bind].
  unfold details_new. rewrite decide_True by done. cbn [expect_ok mbind res_bind].
  destruct (nf_new (mkDetails (mkAccountId (felt_new v)) data)) as [a|e|] eqn:En.
  2,3: unfold nf_new, nf_from_parts in En; cbn [nfd_faucet_id] in En; rewrite decide_True in En by done; discriminate.
  exists a. cbn. destruct (nf_new_valid _ data (mkDetails (mkAccountId (felt_new v)) data) a Hv) as (Hva & Hf & _); [|done|done].
  unfold details_new. by rewrite decide_True.
Qed.

(** The assets of one amount from several faucets. *)
Definition amounts_of (amount : Z) (ids : list Z) : list Asset :=
  (λ id, Fungible (mkFungibleAsset (mkAccountId (felt_new id)) amount)) <$> ids.

Lemma amounts_of_distinct amount ids nf :
  Forall (λ v, id_checks v FungibleFaucet Public = true) ids → 0 ≤ amount ≤ MAX_AMOUNT → NoDup ids → valid_asset (NonFungible nf) →
  Forall valid_asset (amounts_of amount ids ++ [NonFungible nf]) ∧
  NoDup (vault_key <$> amounts_of amount ids ++ [NonFungible nf]).
Proof.
  intros Hids Ha Hnd Hnf. rewrite Forall_forall in Hids.
  assert (Forall valid_asset (amounts_of amount ids)) as Hva.
  { apply Forall_fmap, Forall_forall. intros v Hv. by apply (expect_fungible (E:=Empty_set) v amount Public); [apply Hids|]. }
  split; [apply Forall_app; split; [done|by apply Forall_singleton]|]. rewrite fmap_app, NoDup_app. split_and!.
  - unfold amounts_of. rewrite <-list_fmap_compose. apply NoDup_fmap_2_strong; [|done]. intros v v' Hv Hv' [= Hk%(f_equal as_int)].
    destruct (id_checks_Ok (E:=Empty_set) v _ _ (Hids v Hv)) as (_ & _ & _ & E1 & _).
    destruct (id_checks_Ok (E:=Empty_set) v' _ _ (Hids v' Hv')) as (_ & _ & _ & E2 & _). cbn in E1, E2. congruence.
  - intros k (a & -> & Hin)%list_elem_of_fmap Hk%list_elem_of_singleton. rewrite Forall_forall in Hva.
    apply vault_key_is_same in Hk; [|by apply Hva|done]. by apply list_elem_of_fmap in Hin as (v & -> & _).
  - apply NoDup_singleton.
Qed.

(** The vault of the mock accounts has a hundred of each of three fungible assets
    and one other asset. *)
Theorem vault_mock_spec {E} :
  ∃ v nf, vault_mock (E:=E) = Ok v ∧ wf_vault v ∧ valid_asset (NonFungible nf) ∧
    vault_assets v ≡ₚ amounts_of FUNGIBLE_ASSET_AMOUNT [ACCOUNT_ID_FUNGIBLE_FAUCET_ON_CHAIN; ACCOUNT_ID_FUNGIBLE_FAUCET_ON_CHAIN_1;
      ACCOUNT_ID_FUNGIBLE_FAUCET_ON_CHAIN_2] ++ [NonFungible nf].
Proof.
  destruct (nf_mock_Ok (E:=E) ACCOUNT_ID_NON_FUNGIBLE_FAUCET_ON_CHAIN NON_FUNGIBLE_ASSET_DATA Public eq_refl) as (nf & Hnf & Vnf & _).
  destruct (amounts_of_distinct FUNGIBLE_ASSET_AMOUNT [ACCOUNT_ID_FUNGIBLE_FAUCET_ON_CHAIN; ACCOUNT_ID_FUNGIBLE_FAUCET_ON_CHAIN_1;
    ACCOUNT_ID_FUNGIBLE_FAUCET_ON_CHAIN_2] nf) as [Hva Hnd];
    [apply (bool_decide_unpack _); vm_compute; exact I|by vm_compute|apply (bool_decide_unpack _); vm_compute; exact I|done|].
  destruct (expect_fungible (E:=E) ACCOUNT_ID_FUNGIBLE_FAUCET_ON_CHAIN FUNGIBLE_ASSET_AMOUNT Public eq_refl) as (N0 & U0 & _); [by vm_compute|].
  destruct (expect_fungible (E:=E) ACCOUNT_ID_FUNGIBLE_FAUCET_ON_CHAIN_1 FUNGIBLE_ASSET_AMOUNT Public eq_refl) as (N1 & U1 & _); [by vm_compute|].
  destruct (expect_fungible (E:=E) ACCOUNT_ID_FUNGIBLE_FAUCET_ON_CHAIN_2 FUNGIBLE_ASSET_AMOUNT Public eq_refl) as (N2 & U2 & _); [by vm_compute|].
  unfold vault_mock, mock_vault_assets. rewrite U0, U1, U2. cbn [mbind res_bind]. rewrite N0, N1, N2. cbn [expect_ok mbind res_bind].
  rewrite Hnf. cbn [mbind res_bind]. pose proof (vault_new_spec _ Hva) as Hs. cbn [amounts_of fmap list_fmap app] in Hs, Hnd |- *.
  destruct (vault_new _) as [v|e|]; [|by destruct Hs|done]. exists v, nf. cbn [expect_ok]. by destruct Hs as (_ & Hw & Hp).
Qed.

(** *** Accounts *)

(** The mock code assembles to a component whose code is account code. *)
Definition mock_assembles (a : Assembler) (slots : list StorageSlot) (ty : AccountType) (code : AccountCode) : Prop :=
  ∃ m c, mock_component_new a slots = Ok m ∧ mock_into_component (E:=Empty_set) m = Ok c ∧ from_components_unchecked [c] ty = Ok code.

Lemma expect_into_component {E E'} m c : mock_into_component (E:=E) m = Ok c → mock_into_component (E:=E') m = Ok c.
Proof. unfold mock_into_component. destruct (component_new _ _); cbn; [|discriminate..]. by intros [= <-]. Qed.

(** What the mock component gives an account of any type. *)
Lemma mock_initialize {E} a slots ty code :
  mock_assembles a slots ty code →
  ∃ m c storage, mock_component_new a slots = Ok m ∧ mock_into_component (E:=E) m = Ok c ∧
    code_from_components [c] ty = Ok code ∧ initialize_from_components ty [c] = Ok (code, storage) ∧
    wf_code code ∧ wf_storage storage ∧ storage_from_components [c] ty = Ok storage ∧ comp_storage_slots c = slots.
Proof.
  intros (m & c & Hm & Hc & Hcode). pose proof (mock_component_supported (E:=AccountError) a slots) as Hs. rewrite Hm in Hs. cbn [mbind res_bind] in Hs.
  rewrite (expect_into_component _ _ Hc) in Hs. cbn [expect_ok] in Hs. destruct Hs as (Hv & Hslots & Hty).
  assert (Forall valid_component [c]) as Hall by by apply Forall_singleton.
  destruct (proj2 (initialize_from_components_total ty [c] Hall) code Hcode) as [storage Hst].
  assert (code_from_components [c] ty = Ok code) as Hcc by (unfold code_from_components; by rewrite Hty).
  assert (initialize_from_components ty [c] = Ok (code, storage)) as Hi.
  { rewrite code_from_components_initialize, Hcc. cbn [mbind res_bind]. by rewrite Hst. }
  pose proof (initialize_wf ty [c] Hall) as Hw. rewrite Hi in Hw. destruct Hw as [Hwc Hws].
  exists m, c, storage. split_and!; try done. by apply (expect_into_component (E:=Empty_set)).
Qed.

(** The slots that the type of an account reserves. *)
Definition reserved_slots (ty : AccountType) : list StorageSlot :=
  match ty with FungibleFaucet => [slot_empty_value] | NonFungibleFaucet => [slot_empty_map] | _ => [] end.
Lemma storage_from_component_slots c ty storage :
  storage_from_components [c] ty = Ok storage → slots storage = reserved_slots ty ++ comp_storage_slots c.
Proof.
  unfold storage_from_components, storage_new. cbn [fmap list_fmap mjoin list_join]. rewrite app_nil_r.
  destruct (_ >? _); [discriminate|]. by intros [= <-].
Qed.
Lemma default_vault_wf : wf_vault vault_default.
Proof. intros k. left. apply smt_get_new. Qed.

(** A mock account is well formed, with the three mock slots behind the reserved one
    of faucets; a new one has no assets, and an existing one those of the mock vault. *)
Theorem account_mock_spec {E} v id nonce a mock_slots code :
  account_id_from_u64 v = Ok id → mock_storage_slots (E:=E) = Ok mock_slots → mock_assembles a mock_slots (account_type id) code →
  ∃ acct, account_mock (E:=E) v nonce a = Ok acct ∧ wf_account acct ∧ acct_id acct = id ∧ acct_code acct = code ∧ acct_nonce acct = nonce ∧
    slots (acct_storage acct) = reserved_slots (account_type id) ++ mock_slots ∧
    if decide (nonce = ZERO) then acct_vault acct = vault_default else vault_mock (E:=E) = Ok (acct_vault acct).
Proof.
  intros Hid Hslots Ha. destruct (mock_initialize (E:=E) _ _ _ _ Ha) as (m & c & storage & Hm & Hc & _ & Hi & Hwc & Hws & Hst & Hcs).
  assert (∃ vault, (if decide (nonce = ZERO) then Ok vault_default else vault_mock (E:=E)) = Ok vault ∧ wf_vault vault) as (vault & Hv & Hwv).
  { case_decide; [exists vault_default; split; [done|apply default_vault_wf]|].
    destruct (vault_mock_spec (E:=E)) as (vault & _ & Hv & Hw & _). by exists vault. }
  exists (mkAccount id vault storage code nonce). unfold account_mock, new_with_slots, unwrap_id.
  rewrite Hv, Hid, Hslots. cbn [mbind res_bind expect_ok]. rewrite Hm. cbn [mbind res_bind expect_ok]. rewrite Hc. cbn [mbind res_bind].
  rewrite Hi. cbn [mbind res_bind expect_ok acct_id acct_code acct_nonce acct_storage acct_vault]. split_and!; try done.
  - split_and!; cbn; try done. unfold account_id_from_u64 in Hid. apply res_bind_inv in Hid as (x & _ & Hid). by apply account_id_from_felt_valid in Hid.
  - rewrite <-Hcs. by apply storage_from_component_slots.
  - case_decide; [by injection Hv as <-|done].
Qed.

(** The mock of a fungible faucet works exactly for the ids of fungible faucets: the
    balance goes to the reserved slot, which other accounts do not have as a value. *)
Theorem mock_fungible_faucet_spec {E} v id nonce balance a code :
  account_id_from_u64 v = Ok id → mock_assembles a [] (account_type id) code →
  match mock_fungible_faucet (E:=E) v nonce balance a with
  | Ok acct => account_type id = FungibleFaucet ∧ wf_account acct ∧ acct_id acct = id ∧ acct_code acct = code ∧ acct_nonce acct = nonce ∧
      slots (acct_storage acct) = [Value (mkWord ZERO ZERO ZERO balance)] ∧ acct_vault acct = vault_default
  | Err _ => False
  | Panic => account_type id ≠ FungibleFaucet
  end.
Proof.
  intros Hid Ha. destruct (mock_initialize (E:=E) _ _ _ _ Ha) as (m & c & storage & Hm & Hc & _ & Hi & Hwc & Hws & Hst & Hcs).
  apply storage_from_component_slots in Hst. rewrite Hcs, app_nil_r in Hst. destruct storage as [l]. cbn in Hst. subst l.
  unfold mock_fungible_faucet, new_with_empty_slots, unwrap_id. rewrite Hid. cbn [mbind res_bind expect_ok]. rewrite Hm.
  cbn [mbind res_bind expect_ok]. rewrite Hc. cbn [mbind res_bind]. rewrite Hi. cbn [mbind res_bind expect_ok].
  destruct (account_type id); cbn; try done. split_and!; try done. split_and!; cbn; try done.
  - unfold account_id_from_u64 in Hid. apply res_bind_inv in Hid as (x & _ & Hid). by apply account_id_from_felt_valid in Hid.
  - apply default_vault_wf.
Qed.

(** Whatever the name of the requested seed, the id that is generated is public: also
    for the account that is meant to be kept off chain. *)
Theorem generated_seed_public {E} fuel seed_type a id seed :
  generate_account_seed (E:=E) fuel seed_type a = Some (Ok (id, seed)) →
  valid_id id ∧ storage_mode (E:=AccountError) id = Ok Public ∧
  account_type id = match seed_type with
                    | FungibleFaucetInvalidInitialBalance | FungibleFaucetValidInitialBalance => FungibleFaucet
                    | NonFungibleFaucetInvalidReservedSlot | NonFungibleFaucetValidReservedSlot => NonFungibleFaucet
                    | _ => RegularAccountUpdatableCode
                    end.
Proof.
  unfold generate_account_seed. destruct (seed_account (E:=E) seed_type a) as [[acct ty]|?|] eqn:Ea; [|discriminate..].
  destruct (get_account_seed_single _ _ _ _ _ _) as [[s|?|]|] eqn:Es; cbn; try discriminate.
  destruct (get_account_seed_sound _ _ _ _ _ _ _ Es) as (id' & Hid & Hv & Ht & Hm). rewrite Hid. cbn. intros [= <- <-].
  split; [done|]. split; [done|]. rewrite Ht. unfold seed_account in Ea.
  destruct seed_type; apply res_bind_inv in Ea as (? & _ & [= _ <-]); done.
Qed.

(** *** Notes *)

Lemma public_tag_valid t : tag_validate t PublicNote = Ok t.
Proof.
  unfold tag_validate. rewrite bool_decide_eq_false_2 with (P := PublicNote ≠ PublicNote) by (intros Hp; by apply Hp).
  by rewrite !andb_false_r.
Qed.

(** A builder of notes makes public notes, so that its metadata is never refused:
    when its code assembles, the note is built exactly if the assets are few enough
    and different and the inputs are few enough, and it is well formed and has
    the parts that were given. *)
Theorem note_builder_spec b a code :
  nb_note_type b = PublicNote → valid_id (nb_sender b) → valid_tag (nb_tag b) → valid_hint (nb_execution_hint b) →
  Forall valid_asset (nb_assets b) → assemble_script (nb_code b) a = Some code →
  match nb_build b a with
  | Ok n => wf_note n ∧ nh_metadata (note_header n) = mkMetadata (nb_sender b) PublicNote (nb_tag b) (nb_aux b) (nb_execution_hint b) ∧
      na_assets (nd_assets (note_details n)) = nb_assets b ∧ ni_values (nr_inputs (nd_recipient (note_details n))) = nb_inputs b ∧
      nr_script (nd_recipient (note_details n)) = script_new code ∧ nr_serial_num (nd_recipient (note_details n)) = nb_serial_num b
  | Err _ => MAX_ASSETS_PER_NOTE < Z.of_nat (length (nb_assets b)) ∨ ¬ NoDup (vault_key <$> nb_assets b) ∨
      MAX_INPUTS_PER_NOTE < Z.of_nat (length (nb_inputs b))
  | Panic => False
  end.
Proof.
  intros Ht Hs Hg Hh Ha Hc. unfold nb_build. rewrite Hc. cbn [expect_some mbind res_bind].
  pose proof (note_assets_new_cases _ Ha) as Hn. destruct (note_assets_new (nb_assets b)) as [assets|e|]; cbn [mbind res_bind]; [|tauto|done].
  destruct Hn as [Hwa Ea]. unfold metadata_new. rewrite Ht, public_tag_valid. cbn [mbind res_bind].
  destruct (note_inputs_new (nb_inputs b)) as [inputs|e|] eqn:Ei; cbn [mbind res_bind].
  2:{ unfold note_inputs_new in Ei. destruct (Z.gtb_spec (Z.of_nat (length (nb_inputs b))) MAX_INPUTS_PER_NOTE); [auto|discriminate]. }
  2:{ unfold note_inputs_new in Ei. by destruct (_ >? _). }
  apply note_inputs_new_wf in Ei as [Hwi Ei].
  destruct (recipient_new_wf (E:=NoteError) (nb_serial_num b) (script_new code) inputs (script_new_wf code) Hwi)
    as (r & -> & Hwr & E1 & E2 & E3). cbn [mbind res_bind].
  destruct (note_new_wf (E:=NoteError) assets (mkMetadata (nb_sender b) PublicNote (nb_tag b) (nb_aux b) (nb_execution_hint b)) r Hwa)
    as (n & -> & Hwn & Ed & Em); [|done|].
  { constructor; cbn; try done. apply public_tag_valid. }
  rewrite Ed. cbn. by rewrite E1, E2, E3.
Qed.

(** *** Block headers *)

Section HeaderLaws.
  Context {B : ByteIO} {N : NoteIO} {T : PathApi} {Q : SimpleSmtApi}.

Lemma mock_leaves_keys accounts :
  (mock_account_leaves accounts).*1 = (λ a, as_int (id_felt (acct_id a))) <$> filter (λ a, account_is_new a = false) accounts.
Proof.
  unfold mock_account_leaves. induction accounts as [|a l IH]; [done|]. rewrite filter_cons. cbn [omap list_omap].
  destruct (account_is_new a) eqn:En; [rewrite decide_False by done; exact IH|].
  rewrite decide_True by done. rewrite !fmap_cons. by f_equal.
Qed.

(** A mock header commits to the accounts: its account root is the root of a tree
    with the hash of every account that is not new, and nothing else; the roots that
    are given are kept. It never fails if the accounts that are not new are different. *)
Theorem header_mock_spec {E} r block_num chain_root note_root accounts kernel_root :
  NoDup (acct_id <$> filter (λ a, account_is_new a = false) accounts) →
  ∃ h (t : SimpleSmt 64), header_mock (E:=E) r block_num chain_root note_root accounts kernel_root = Ok h ∧
    bh_account_root h = ssmt_root t ∧ bh_block_num h = block_num ∧ bh_kernel_root h = kernel_root ∧
    (∀ d, chain_root = Some d → bh_chain_root h = d) ∧ (∀ d, note_root = Some d → bh_note_root h = d) ∧
    (∀ a, a ∈ accounts → account_is_new a = false → ssmt_get_leaf t (account_id_leaf_index (acct_id a)) = account_hash a) ∧
    (∀ id, (∀ a, a ∈ accounts → account_is_new a = false → acct_id a ≠ id) → ssmt_get_leaf t (account_id_leaf_index id) = EMPTY_WORD).
Proof.
  intros Hnd. destruct (ssmt_with_leaves_ok 64 (mock_account_leaves accounts)) as (t & Ht & Hin & Hout).
  - rewrite mock_leaves_keys. assert (((λ a, as_int (id_felt (acct_id a))) <$> filter (λ a, account_is_new a = false) accounts) =
      (λ id, as_int (id_felt id)) <$> (acct_id <$> filter (λ a, account_is_new a = false) accounts)) as -> by by rewrite <-list_fmap_compose.
    apply NoDup_fmap_2; [|done]. intros [x] [y] Hxy%as_int_inj. cbn in Hxy. by subst.
  - apply Forall_forall. intros [i w] Hi. assert (i ∈ (mock_account_leaves accounts).*1) as Hi' by by apply (list_elem_of_fmap_2 fst _ (i, w)).
    rewrite mock_leaves_keys in Hi'. apply list_elem_of_fmap in Hi' as (a & -> & _). cbn. apply as_int_u64.
  - eexists _, t. unfold header_mock. rewrite Ht. split; [reflexivity|]. cbn [block_header_new bh_account_root bh_block_num bh_kernel_root bh_chain_root bh_note_root].
    split_and!; try done; [by intros d ->|by intros d ->|..].
    + intros a Ha Hn. apply Hin. unfold mock_account_leaves. apply list_elem_of_omap. exists a. by rewrite Hn.
    + intros id Hid. apply Hout. rewrite mock_leaves_keys. intros (a & Ei & [Hn Ha]%list_elem_of_filter)%list_elem_of_fmap.
      apply (Hid a Ha Hn). unfold account_id_leaf_index in Ei. apply as_int_inj in Ei. destruct id, (acct_id a). cbn in Ei. by subst.
Qed.
End HeaderLaws.
End TestingLaws.
