(* ===== verification/MockNotes.v ===== *)
(** * The notes of the transaction contexts of the tests

    Models the rest of miden-tx/src/testing/tx_context/builder.rs: the contexts of mock
    accounts, and the methods that add notes whose scripts are put together from text,
    with the helpers that print words as assembly (objects/src/testing/mod.rs and
    storage.rs). The random number generator and the assembler are third-party code. *)

From S2P Require Import Prelude Felt Crypto Serde Types AccountId Assets VaultDelta Vault StorageDelta Storage.
From S2P Require Import Code Account NoteMeta NoteContents Notes StdLib TxOutputs Merkle Chain TxInputs TxArgs.
From S2P Require Import Blocks Memory Kernel TxTracker TxHost TxProven TxExec MockChain TxContext Assembly Testing.
From stdpp Require Import strings pretty.
Open Scope Z_scope.

(** Constants of objects/src/testing/constants.rs *)
Definition CONSUMED_ASSET_1_AMOUNT : Z := 100.
Definition CONSUMED_ASSET_2_AMOUNT : Z := 200.
Definition CONSUMED_ASSET_3_AMOUNT : Z := 300.

(** [ChaCha20Rng::from_seed] and its [gen] for a [u64]. *)
Class NoteRngApi `{X : TestRngApi} := {
  chacha_from_seed : list Z → Rng;
  gen_u64 : Rng → Z * Rng;
  gen_u64_range : ∀ rng, 0 ≤ (gen_u64 rng).1 < 2 ^ 64
}.

Section Text.
  Context {F : FeltApi}.

(** [prepare_word] and [prepare_assets]: the numbers of a word, separated by points. *)
Definition prepare_word (word : Word) : string := String.concat "." ((λ x, pretty (as_int x)) <$> word_elements word).
Definition prepare_assets (assets : list Asset) : list string := (λ a, prepare_word (asset_to_word a)) <$> assets.
End Text.

Section MockNotes.
  Context {F : FeltApi} {H : HasherApi} {S : SmtApi} {D : DigestOrd} {A : AsmApi} {P : ProgramApi} {CO : CompilerApi}.
  Context {B : ByteIO} {N : NoteIO} {T : PathApi} {R : MmrApi} {V : AdviceInputsApi}.
  Context {KI : KeyIO} {G : FalconApi} {Q : SimpleSmtApi} {U : MmrFullApi} {L : StdLibApi} {X : TestRngApi} {Y : NoteRngApi}.

(** The builder of contexts with its assembler and its random number generator. *)
Record MockBuilder : Type := mkMockBuilder {
  mb_assembler : Assembler;
  mb_rng : Rng;
  mb_ctx : TransactionContextBuilder
}.
Definition set_mb_rng x (b : MockBuilder) := mkMockBuilder (mb_assembler b) x (mb_ctx b).
Definition set_mb_ctx x (b : MockBuilder) := mkMockBuilder (mb_assembler b) (mb_rng b) x.

(** [TransactionContextBuilder::new], [with_standard_account], [with_fungible_faucet]
    and [with_non_fungible_faucet] *)
Definition mock_builder_new {E} (account : Account) : res E MockBuilder :=
  a ← testing_assembler_with_mock_account;
  Ok (mkMockBuilder a (chacha_from_seed (replicate 32 0)) (ctx_builder_new account)).
Definition with_standard_account {E} (nonce : felt) : res E MockBuilder :=
  a ← testing_assembler;
  account ← account_mock ACCOUNT_ID_REGULAR_ACCOUNT_UPDATABLE_CODE_ON_CHAIN nonce a;
  mock_builder_new account.
Definition with_fungible_faucet {E} (acct_id : Z) (nonce initial_balance : felt) : res E MockBuilder :=
  a ← testing_assembler;
  account ← mock_fungible_faucet acct_id nonce initial_balance a;
  mock_builder_new account.
Definition with_non_fungible_faucet {E} (acct_id : Z) (nonce : felt) (empty_reserved_slot : bool) : res E MockBuilder :=
  a ← testing_assembler;
  account ← mock_non_fungible_faucet acct_id nonce empty_reserved_slot a;
  mock_builder_new account.

(** [NoteBuilder::new] on a generator *)
Definition note_builder_gen (sender : AccountId) (rng : Rng) : NoteBuilder * Rng :=
  let '(r0, rng) := gen_u64 rng in
  let '(r1, rng) := gen_u64 rng in
  let '(r2, rng) := gen_u64 rng in
  let '(r3, rng) := gen_u64 rng in
  (note_builder_new sender r0 r1 r2 r3, rng).

Definition add_output_note {E} (inputs : list felt) (assets : list Asset) : mut MockBuilder E Note :=
  self ← get_self;
  let '(nb, rng) := note_builder_gen (acct_id (cx_account (mb_ctx self))) (mb_rng self) in
  put_self (set_mb_rng rng self) ;;
  nb ← lift (expect_ok (nb_with_inputs inputs nb));
  note ← lift (expect_ok (nb_build (nb_add_assets assets nb) (mb_assembler self)));
  self ← get_self;
  put_self (set_mb_ctx (ctx_expected_notes [Full note] (mb_ctx self)) self) ;;
  mret note.

(** The note builder of the input notes: its generator is seeded from that of the
    context. *)
Definition input_note_builder {E} (sender : AccountId) : mut MockBuilder E NoteBuilder :=
  self ← get_self;
  let '(seed, rng) := gen_seed (mb_rng self) in
  put_self (set_mb_rng rng self) ;;
  mret (note_builder_gen sender (chacha_from_seed seed)).1.
Definition input_note_of {E} (sender : AccountId) (inputs : list felt) (assets : list Asset) (code : string) : mut MockBuilder E Note :=
  nb ← input_note_builder sender;
  nb ← lift (expect_ok (nb_with_inputs inputs nb));
  self ← get_self;
  lift (expect_ok (nb_build (nb_with_code code (nb_add_assets assets nb)) (mb_assembler self))).
Definition input_note_simple {E} (sender : AccountId) (assets : list Asset) (inputs : list felt) : mut MockBuilder E Note :=
  nb ← input_note_builder sender;
  nb ← lift (expect_ok (nb_with_inputs inputs nb));
  self ← get_self;
  lift (expect_ok (nb_build (nb_add_assets assets nb) (mb_assembler self))).

(** The texts of the scripts. *)
Definition PUBLIC_NOTE : string := pretty (note_type_discr PublicNote).
Definition execution_hint_always : string := pretty (as_int (hint_to_felt Always)).
Definition recipient_text (n : Note) : string := prepare_word (nr_digest (nd_recipient (note_details n))).
Definition aux_text (n : Note) : string := pretty (as_int (nm_aux (nh_metadata (note_header n)))).
Definition tag_text (n : Note) : string := pretty (tag_inner (nm_tag (nh_metadata (note_header n)))).
Definition first_asset {E} (n : Note) : res E string := expect_some (head (prepare_assets (na_assets (nd_assets (note_details n))))).
Definition one_output_code (output : Note) (asset : string) : string :=
  "
            use.miden::contracts::wallets::basic->wallet
            use.test::account

            begin
                # NOTE
                # ---------------------------------------------------------------------------------
                push." +:+ recipient_text output +:+ "
                push." +:+ execution_hint_always +:+ "
                push." +:+ PUBLIC_NOTE +:+ "
                push." +:+ aux_text output +:+ "
                push." +:+ tag_text output +:+ "
                call.wallet::create_note

                push." +:+ asset +:+ "
                call.account::add_asset_to_note
                dropw dropw dropw
            end
            ".
Definition two_outputs_code (output0 output1 : Note) (asset0 asset1 : string) : string :=
  "
            use.miden::contracts::wallets::basic->wallet
            use.test::account

            begin

                # NOTE 0
                # ---------------------------------------------------------------------------------

                push." +:+ recipient_text output0 +:+ "
                push." +:+ execution_hint_always +:+ "
                push." +:+ PUBLIC_NOTE +:+ "
                push." +:+ aux_text output0 +:+ "
                push." +:+ tag_text output0 +:+ "

                call.wallet::create_note

                push." +:+ asset0 +:+ "
                call.account::add_asset_to_note
                dropw dropw dropw

                # NOTE 1
                # ---------------------------------------------------------------------------------
                push." +:+ recipient_text output1 +:+ "
                push." +:+ execution_hint_always +:+ "
                push." +:+ PUBLIC_NOTE +:+ "
                push." +:+ aux_text output1 +:+ "
                push." +:+ tag_text output1 +:+ "
                call.wallet::create_note

                push." +:+ asset1 +:+ "
                call.account::add_asset_to_note
                dropw dropw dropw
            end
            ".
Definition transfer_code : string := "
            use.miden::note
            use.miden::contracts::wallets::basic->wallet

            begin
                # read the assets to memory
                push.0 exec.note::get_assets
                # => [num_assets, dest_ptr]

                # assert the number of assets is 3
                push.3 assert_eq
                # => [dest_ptr]

                # add the first asset to the vault
                padw dup.4 mem_loadw call.wallet::receive_asset dropw
                # => [dest_ptr]

                # add the second asset to the vault
                push.1 add padw dup.4 mem_loadw call.wallet::receive_asset dropw
                # => [dest_ptr+1]

                # add the third asset to the vault
                push.1 add padw movup.4 mem_loadw call.wallet::receive_asset dropw
                # => []
            end
        ".

Definition input_note_with_one_output_note {E} (sender : AccountId) (assets : list Asset) (inputs : list felt) (output : Note)
    : mut MockBuilder E Note :=
  asset ← lift (first_asset output);
  input_note_of sender inputs assets (one_output_code output asset).
Definition input_note_with_two_output_notes {E} (sender : AccountId) (inputs : list felt) (output0 output1 : Note) (asset : Asset)
    : mut MockBuilder E Note :=
  asset0 ← lift (first_asset output0);
  asset1 ← lift (first_asset output1);
  input_note_of sender inputs [asset] (two_outputs_code output0 output1 asset0 asset1).
Definition input_note_transfer {E} (sender : AccountId) (assets : list Asset) : mut MockBuilder E Note :=
  nb ← input_note_builder sender;
  self ← get_self;
  lift (expect_ok (nb_build (nb_with_code transfer_code (nb_add_assets assets nb)) (mb_assembler self))).

(** The ids and assets that all the methods below start with, and [input_notes] at
    their end. *)
Definition mock_asset {E} (faucet amount : Z) : res E Asset :=
  id ← unwrap_id faucet; asset ← expect_ok (fungible_new id amount); Ok (Fungible asset).
Definition mock_assets {E} : res E (AccountId * (Asset * Asset * Asset)) :=
  sender ← unwrap_id ACCOUNT_ID_SENDER;
  asset_1 ← mock_asset ACCOUNT_ID_FUNGIBLE_FAUCET_ON_CHAIN_1 CONSUMED_ASSET_1_AMOUNT;
  asset_2 ← mock_asset ACCOUNT_ID_FUNGIBLE_FAUCET_ON_CHAIN_2 CONSUMED_ASSET_2_AMOUNT;
  asset_3 ← mock_asset ACCOUNT_ID_FUNGIBLE_FAUCET_ON_CHAIN_3 CONSUMED_ASSET_3_AMOUNT;
  Ok (sender, (asset_1, asset_2, asset_3)).
Definition take_input_notes {E} (notes : list Note) : mut MockBuilder E unit :=
  self ← get_self; put_self (set_mb_ctx (ctx_input_notes notes (mb_ctx self)) self).
Definition felt_1 : felt := felt_new 1.
Definition felt_2 : felt := felt_new 2.
Definition felt_3 : felt := felt_new 3.

(** The three output notes, and the two input notes that create them. *)
Definition three_outputs {E} (assets : Asset * Asset * Asset) : mut MockBuilder E (Note * Note * Note) :=
  let '(asset_1, asset_2, asset_3) := assets in
  output_note0 ← add_output_note [felt_1] [asset_1];
  output_note1 ← add_output_note [felt_2] [asset_2];
  output_note2 ← add_output_note [felt_3] [asset_3];
  mret (output_note0, output_note1, output_note2).
Definition two_inputs {E} (sender : AccountId) (assets : Asset * Asset * Asset) (outputs : Note * Note * Note)
    : mut MockBuilder E (Note * Note) :=
  let '(asset_1, asset_2, asset_3) := assets in
  let '(output_note0, output_note1, output_note2) := outputs in
  input_note1 ← input_note_with_two_output_notes sender [felt_1] output_note0 output_note1 asset_1;
  input_note2 ← input_note_with_one_output_note sender [asset_2; asset_3] [felt_1] output_note2;
  mret (input_note1, input_note2).

Definition with_mock_notes_too_few_input {E} : mut MockBuilder E unit :=
  '(sender, assets) ← lift mock_assets;
  '(output_note0, output_note1, _) ← three_outputs assets;
  input_note1 ← input_note_with_two_output_notes sender [felt_1] output_note0 output_note1 assets.1.1;
  take_input_notes [input_note1].
Definition with_mock_notes_preserved {E} : mut MockBuilder E unit :=
  '(sender, assets) ← lift mock_assets;
  outputs ← three_outputs assets;
  '(input_note1, input_note2) ← two_inputs sender assets outputs;
  take_input_notes [input_note1; input_note2].
Definition with_mock_notes_preserved_with_account_vault_delta {E} : mut MockBuilder E unit :=
  '(sender, assets) ← lift mock_assets;
  nonfungible_asset_1 ← lift (nf_mock ACCOUNT_ID_NON_FUNGIBLE_FAUCET_ON_CHAIN NON_FUNGIBLE_ASSET_DATA_2);
  outputs ← three_outputs assets;
  '(input_note1, input_note2) ← two_inputs sender assets outputs;
  input_note5 ← input_note_transfer sender [assets.1.1; assets.2; nonfungible_asset_1];
  take_input_notes [input_note1; input_note2; input_note5].
Definition with_mock_notes_too_many_fungible_input {E} : mut MockBuilder E unit :=
  '(sender, assets) ← lift mock_assets;
  outputs ← three_outputs assets;
  '(input_note1, input_note2) ← two_inputs sender assets outputs;
  input_note3 ← input_note_simple sender [assets.1.2; assets.2] [felt_2];
  take_input_notes [input_note1; input_note2; input_note3].
Definition with_mock_notes_too_many_non_fungible_input {E} : mut MockBuilder E unit :=
  '(sender, assets) ← lift mock_assets;
  nonfungible_asset_1 ← lift (nf_mock ACCOUNT_ID_NON_FUNGIBLE_FAUCET_ON_CHAIN NON_FUNGIBLE_ASSET_DATA_2);
  outputs ← three_outputs assets;
  '(input_note1, input_note2) ← two_inputs sender assets outputs;
  input_note4 ← input_note_simple sender [nonfungible_asset_1] [felt_1];
  take_input_notes [input_note1; input_note2; input_note4].

(** ** Runs of the builder *)

Definition note_asset_list (n : Note) : list Asset := na_assets (nd_assets (note_details n)).
Definition held (l : list Note) : list Asset := mjoin (note_asset_list <$> l).

(** A run keeps the assembler and ends in [post], or panics because some code does
    not assemble. *)
Definition runs {E Y'} (m : mut MockBuilder E Y') (b : MockBuilder) (post : Y' → MockBuilder → Prop) : Prop :=
  match m b with
  | (Ok x, b') => mb_assembler b' = mb_assembler b ∧ post x b'
  | (Err _, _) => False
  | (Panic, _) => ∃ code, assemble_script code (mb_assembler b) = None
  end.

Lemma runs_bind {E Y1 Y2} (m : mut MockBuilder E Y1) (k : Y1 → mut MockBuilder E Y2) b mid post :
  runs m b mid → (∀ x b', mb_assembler b' = mb_assembler b → mid x b' → runs (k x) b' post) → runs (m ≫= k) b post.
Proof.
  unfold runs, mbind, mut_bind. destruct (m b) as [[x|?|] b']; [|done..]. intros [Ha Hm] Hk. specialize (Hk x b' Ha Hm).
  destruct (k x b') as [[y|?|] b2]; [|done|by rewrite Ha in Hk]. destruct Hk as [Ha' Hp]. by rewrite Ha'.
Qed.
Lemma runs_ret {E Y1} (x : Y1) b (post : Y1 → MockBuilder → Prop) : post x b → runs (E:=E) (mret x) b post.
Proof. by split. Qed.

Lemma runs_bind_lift {E Y1 Y2} (x : Y1) r (k : Y1 → mut MockBuilder E Y2) b (post : Y2 → MockBuilder → Prop) :
  r = Ok x → runs (k x) b post → runs (lift r ≫= k) b post.
Proof. by intros ->. Qed.

(** Assets and inputs that a note can have. *)
Record note_parts (inputs : list felt) (assets : list Asset) : Prop := {
  np_inputs : Z.of_nat (length inputs) ≤ MAX_INPUTS_PER_NOTE;
  np_valid : Forall valid_asset assets;
  np_count : Z.of_nat (length assets) ≤ MAX_ASSETS_PER_NOTE;
  np_different : NoDup (vault_key <$> assets)
}.

(** The builders of notes are as [NoteBuilder::new] makes them, up to inputs, assets
    and code. *)
Record plain (sender : AccountId) (nb : NoteBuilder) : Prop := {
  pl_sender : nb_sender nb = sender;
  pl_type : nb_note_type nb = PublicNote;
  pl_hint : nb_execution_hint nb = HintNone;
  pl_tag : nb_tag nb = mkNoteTag 0
}.
Lemma plain_gen sender rng : plain sender (note_builder_gen sender rng).1 ∧ nb_assets (note_builder_gen sender rng).1 = [] ∧
  nb_inputs (note_builder_gen sender rng).1 = [].
Proof. unfold note_builder_gen. repeat (destruct (gen_u64 _)). by split_and!. Qed.
Lemma plain_inputs {E} sender nb inputs :
  plain sender nb → Z.of_nat (length inputs) ≤ MAX_INPUTS_PER_NOTE →
  ∃ nb', expect_ok (E':=E) (nb_with_inputs inputs nb) = Ok nb' ∧ plain sender nb' ∧ nb_inputs nb' = inputs ∧ nb_assets nb' = nb_assets nb.
Proof.
  intros [] Hi. unfold nb_with_inputs. destruct (note_inputs_new inputs) as [i|e|] eqn:Ei.
  - apply note_inputs_new_wf in Ei as [_ Ei]. eexists. split; [reflexivity|]. by split_and!.
  - unfold note_inputs_new in Ei. by destruct (Z.gtb_spec (Z.of_nat (length inputs)) MAX_INPUTS_PER_NOTE); [lia|].
  - unfold note_inputs_new in Ei. by destruct (_ >? _).
Qed.

Lemma plain_build {E} sender nb a :
  valid_id sender → plain sender nb → note_parts (nb_inputs nb) (nb_assets nb) →
  match expect_ok (E':=E) (nb_build nb a) with
  | Ok n => note_asset_list n = nb_assets nb ∧ wf_note n
  | Err _ => False
  | Panic => ∃ code, assemble_script code a = None
  end.
Proof.
  intros Hid [Hs Ht Hh Hg] [Hi Hv Hc Hd]. destruct (assemble_script (nb_code nb) a) as [code|] eqn:Ec.
  - pose proof (note_builder_spec nb a code) as Hb. destruct (nb_build nb a) as [n|e|]; cbn [expect_ok].
    + destruct Hb as (Hw & _ & Ha & _); try done; [by rewrite Hs|by rewrite Hg|by rewrite Hh].
    + destruct Hb as [Hb|[Hb|Hb]]; try done; [by rewrite Hs|by rewrite Hg|by rewrite Hh|lia|lia].
    + destruct Hb; try done; [by rewrite Hs|by rewrite Hg|by rewrite Hh].
  - unfold nb_build. rewrite Ec. cbn. by exists (nb_code nb).
Qed.

Lemma add_output_note_runs {E} inputs assets b :
  valid_id (acct_id (cx_account (mb_ctx b))) → note_parts inputs assets →
  runs (E:=E) (add_output_note inputs assets) b (λ n b',
    note_asset_list n = assets ∧ mb_ctx b' = ctx_expected_notes [Full n] (mb_ctx b)).
Proof.
  intros Hid Hp. unfold add_output_note, runs, mbind, mut_bind, get_self, put_self, lift. cbv beta.
  destruct (plain_gen (acct_id (cx_account (mb_ctx b))) (mb_rng b)) as (Hpl & Ha & _).
  destruct (note_builder_gen _ _) as [nb rng]. cbn [fst] in Hpl, Ha.
  destruct (plain_inputs (E:=E) _ nb inputs Hpl (np_inputs _ _ Hp)) as (nb' & -> & Hpl' & Ei & Ea).
  pose proof (plain_build (E:=E) _ (nb_add_assets assets nb') (mb_assembler b) Hid) as Hb.
  assert (nb_assets (nb_add_assets assets nb') = assets) as Eas by (cbn; by rewrite Ea, Ha). rewrite Eas in Hb. cbn [nb_inputs nb_add_assets] in Hb.
  rewrite Ei in Hb. destruct (expect_ok (nb_build _ _)) as [n|e|]; cbn.
  - split; [done|]. split; [|done]. by apply Hb; [constructor; apply Hpl'|].
  - by apply Hb; [constructor; apply Hpl'|].
  - by apply Hb; [constructor; apply Hpl'|].
Qed.

Lemma input_note_builder_runs {E} sender b :
  runs (E:=E) (input_note_builder sender) b (λ nb b', plain sender nb ∧ nb_assets nb = [] ∧ nb_inputs nb = [] ∧ mb_ctx b' = mb_ctx b).
Proof.
  unfold input_note_builder, runs, mbind, mut_bind, get_self, put_self. cbv beta. destruct (gen_seed (mb_rng b)) as [seed rng].
  cbn. destruct (plain_gen sender (chacha_from_seed seed)) as (Hp & Ha & Hi). by split_and!.
Qed.
(** The builder that a helper ends with, as a function of the one with the inputs. *)
Lemma input_note_runs {E} sender inputs assets (f : NoteBuilder → NoteBuilder) b :
  valid_id sender → note_parts inputs assets →
  (∀ nb, plain sender nb → nb_assets nb = [] → plain sender (f nb) ∧ nb_assets (f nb) = assets ∧ nb_inputs (f nb) = nb_inputs nb) →
  runs (E:=E) (nb ← input_note_builder sender; nb ← lift (expect_ok (nb_with_inputs inputs nb)); self ← get_self;
        lift (expect_ok (nb_build (f nb) (mb_assembler self)))) b
    (λ n b', note_asset_list n = assets ∧ mb_ctx b' = mb_ctx b).
Proof.
  intros Hid Hp Hf. eapply runs_bind; [apply input_note_builder_runs|]. intros nb b1 Ha (Hpl & Has & _ & Hc).
  destruct (plain_inputs (E:=E) _ nb inputs Hpl (np_inputs _ _ Hp)) as (nb' & Hn & Hpl' & Ei & Ea). rewrite Hn.
  destruct (Hf nb' Hpl') as (Hpf & Eas & Ein); [by rewrite Ea|]. 
  pose proof (plain_build (E:=E) sender (f nb') (mb_assembler b1) Hid Hpf) as Hb. rewrite Eas, Ein, Ei in Hb. specialize (Hb Hp).
  unfold runs, mbind, mut_bind, lift, get_self. cbv beta.
  destruct (expect_ok (nb_build _ _)) as [n|e|]; [|done|done]. split; [done|]. split; [apply Hb|done].
Qed.

Lemma input_note_of_runs {E} sender inputs assets code b :
  valid_id sender → note_parts inputs assets →
  runs (E:=E) (input_note_of sender inputs assets code) b (λ n b', note_asset_list n = assets ∧ mb_ctx b' = mb_ctx b).
Proof.
  intros Hid Hp. apply (input_note_runs sender inputs assets (λ nb, nb_with_code code (nb_add_assets assets nb))); [done..|].
  intros nb [] Ha. split; [by constructor|]. cbn. by rewrite Ha.
Qed.
Lemma input_note_simple_runs {E} sender inputs assets b :
  valid_id sender → note_parts inputs assets →
  runs (E:=E) (input_note_simple sender assets inputs) b (λ n b', note_asset_list n = assets ∧ mb_ctx b' = mb_ctx b).
Proof.
  intros Hid Hp. apply (input_note_runs sender inputs assets (nb_add_assets assets)); [done..|].
  intros nb [] Ha. split; [by constructor|]. cbn. by rewrite Ha.
Qed.
Lemma input_note_transfer_runs {E} sender assets b :
  valid_id sender → note_parts [] assets →
  runs (E:=E) (input_note_transfer sender assets) b (λ n b', note_asset_list n = assets ∧ mb_ctx b' = mb_ctx b).
Proof.
  intros Hid Hp. unfold input_note_transfer. eapply runs_bind; [apply input_note_builder_runs|].
  intros nb b1 Ha (Hpl & Has & Hi & Hc).
  pose proof (plain_build (E:=E) sender (nb_with_code transfer_code (nb_add_assets assets nb)) (mb_assembler b1) Hid) as Hb.
  cbn [nb_inputs nb_assets nb_with_code nb_add_assets] in Hb. rewrite Has, Hi in Hb. cbn [app] in Hb.
  unfold runs, mbind, mut_bind, lift, get_self. cbv beta.
  destruct (expect_ok (nb_build _ _)) as [n|e|]; [split; [done|]; split; [|done]|..]; by apply Hb; [constructor; apply Hpl|].
Qed.

(** ** What the notes hold *)

Definition asset_of (v amount : Z) : Asset := Fungible (mkFungibleAsset (mkAccountId (felt_new v)) amount).

Lemma mock_asset_Ok {E} v amount :
  id_checks v FungibleFaucet Public = true → 0 ≤ amount ≤ MAX_AMOUNT →
  mock_asset (E:=E) v amount = Ok (asset_of v amount) ∧ valid_asset (asset_of v amount).
Proof.
  intros Hc Ha. destruct (expect_fungible (E:=E) v amount Public Hc Ha) as (Hn & Hu & Hv). unfold mock_asset. rewrite Hu. cbn [mbind res_bind].
  by rewrite Hn.
Qed.
Lemma asset_keys v v' x y :
  id_checks v FungibleFaucet Public = true → id_checks v' FungibleFaucet Public = true → v ≠ v' →
  vault_key (asset_of v x) ≠ vault_key (asset_of v' y).
Proof.
  intros Hc Hc' Hne [= Hk%(f_equal as_int)]. destruct (id_checks_Ok (E:=Empty_set) v _ _ Hc) as (_ & _ & _ & E1 & _).
  destruct (id_checks_Ok (E:=Empty_set) v' _ _ Hc') as (_ & _ & _ & E2 & _). cbn in E1, E2. congruence.
Qed.
Lemma nf_key v x nf : valid_asset (asset_of v x) → valid_asset (NonFungible nf) → vault_key (asset_of v x) ≠ vault_key (NonFungible nf).
Proof. intros Hv Hn Hk. by apply vault_key_is_same in Hk. Qed.

(** The assets of the mock notes. *)
Definition asset_1 : Asset := asset_of ACCOUNT_ID_FUNGIBLE_FAUCET_ON_CHAIN_1 CONSUMED_ASSET_1_AMOUNT.
Definition asset_2 : Asset := asset_of ACCOUNT_ID_FUNGIBLE_FAUCET_ON_CHAIN_2 CONSUMED_ASSET_2_AMOUNT.
Definition asset_3 : Asset := asset_of ACCOUNT_ID_FUNGIBLE_FAUCET_ON_CHAIN_3 CONSUMED_ASSET_3_AMOUNT.
Definition mock_sender : AccountId := mkAccountId (felt_new ACCOUNT_ID_SENDER).

Lemma mock_assets_Ok {E} :
  mock_assets (E:=E) = Ok (mock_sender, (asset_1, asset_2, asset_3)) ∧ valid_id mock_sender ∧
  valid_asset asset_1 ∧ valid_asset asset_2 ∧ valid_asset asset_3.
Proof.
  destruct (id_checks_Ok (E:=E) ACCOUNT_ID_SENDER RegularAccountImmutableCode Private eq_refl) as (_ & Hu & Hid & _).
  destruct (mock_asset_Ok (E:=E) ACCOUNT_ID_FUNGIBLE_FAUCET_ON_CHAIN_1 CONSUMED_ASSET_1_AMOUNT eq_refl) as [M1 V1]; [by vm_compute|].
  destruct (mock_asset_Ok (E:=E) ACCOUNT_ID_FUNGIBLE_FAUCET_ON_CHAIN_2 CONSUMED_ASSET_2_AMOUNT eq_refl) as [M2 V2]; [by vm_compute|].
  destruct (mock_asset_Ok (E:=E) ACCOUNT_ID_FUNGIBLE_FAUCET_ON_CHAIN_3 CONSUMED_ASSET_3_AMOUNT eq_refl) as [M3 V3]; [by vm_compute|].
  unfold mock_assets. rewrite Hu. cbn [mbind res_bind]. rewrite M1, M2, M3. by split_and!.
Qed.

Lemma note_parts_one x a : valid_asset a → note_parts [x] [a].
Proof. intros Ha. constructor; [by vm_compute|by apply Forall_singleton|by vm_compute|apply NoDup_singleton]. Qed.
Lemma note_parts_two inputs a b :
  Z.of_nat (length inputs) ≤ 1 → valid_asset a → valid_asset b → vault_key a ≠ vault_key b → note_parts inputs [a; b].
Proof.
  intros Hi Ha Hb Hne. constructor; [change MAX_INPUTS_PER_NOTE with 128; lia|by repeat (apply Forall_cons; split)|by vm_compute|].
  apply NoDup_cons; split; [|apply NoDup_singleton]. by rewrite list_elem_of_singleton.
Qed.
Lemma note_parts_three a b c :
  valid_asset a → valid_asset b → valid_asset c → vault_key a ≠ vault_key b → vault_key a ≠ vault_key c → vault_key b ≠ vault_key c →
  note_parts [] [a; b; c].
Proof.
  intros Ha Hb Hc H1 H2 H3. constructor; [by vm_compute|by repeat (apply Forall_cons; split)|by vm_compute|].
  apply NoDup_cons; split; [|apply NoDup_cons; split; [|apply NoDup_singleton]].
  - cbn. rewrite elem_of_cons, list_elem_of_singleton. tauto.
  - by rewrite list_elem_of_singleton.
Qed.
Lemma note_parts_2_3 x : note_parts [x] [asset_2; asset_3].
Proof.
  destruct (mock_assets_Ok (E:=Empty_set)) as (_ & _ & _ & V2 & V3). apply note_parts_two; [cbn; lia|done|done|]. by apply asset_keys.
Qed.
Lemma note_parts_1_3_nf nf : valid_asset (NonFungible nf) → note_parts [] [asset_1; asset_3; NonFungible nf].
Proof.
  intros Hn. destruct (mock_assets_Ok (E:=Empty_set)) as (_ & _ & V1 & _ & V3).
  apply note_parts_three; [done|done|done|by apply asset_keys|by apply nf_key|by apply nf_key].
Qed.

Lemma three_outputs_runs {E} b :
  valid_id (acct_id (cx_account (mb_ctx b))) →
  runs (E:=E) (three_outputs (asset_1, asset_2, asset_3)) b (λ outs b',
    note_asset_list outs.1.1 = [asset_1] ∧ note_asset_list outs.1.2 = [asset_2] ∧ note_asset_list outs.2 = [asset_3] ∧
    cx_input_notes (mb_ctx b') = cx_input_notes (mb_ctx b) ∧
    cx_expected_output_notes (mb_ctx b') = cx_expected_output_notes (mb_ctx b) ++ [outs.1.1; outs.1.2; outs.2]).
Proof.
  intros Hid. destruct (mock_assets_Ok (E:=E)) as (_ & _ & V1 & V2 & V3). unfold three_outputs.
  eapply runs_bind; [by apply add_output_note_runs; [|by apply note_parts_one]|]. intros n0 b0 _ [A0 C0].
  eapply runs_bind; [apply add_output_note_runs; [by rewrite C0|by apply note_parts_one]|]. intros n1 b1 _ [A1 C1].
  eapply runs_bind; [apply add_output_note_runs; [by rewrite C1, C0|by apply note_parts_one]|]. intros n2 b2 _ [A2 C2].
  apply runs_ret. cbn [fst snd]. split_and!; [done..| |]; rewrite C2, C1, C0; [done|].
  cbn [ctx_expected_notes cx_expected_output_notes omap list_omap]. by rewrite <-!app_assoc.
Qed.

Lemma first_asset_Ok {E} n a : note_asset_list n = [a] → first_asset (E:=E) n = Ok (prepare_word (asset_to_word a)).
Proof. unfold first_asset, note_asset_list. by intros ->. Qed.

Lemma note_with_two_outputs_runs {E} n0 n1 a0 a1 b :
  note_asset_list n0 = [a0] → note_asset_list n1 = [a1] →
  runs (E:=E) (input_note_with_two_output_notes mock_sender [felt_1] n0 n1 asset_1) b
    (λ n b', note_asset_list n = [asset_1] ∧ mb_ctx b' = mb_ctx b).
Proof.
  intros H0 H1. destruct (mock_assets_Ok (E:=E)) as (_ & Hid & V1 & _). unfold input_note_with_two_output_notes.
  eapply runs_bind_lift; [by apply first_asset_Ok|]. eapply runs_bind_lift; [by apply first_asset_Ok|]. by apply input_note_of_runs; [|apply note_parts_one].
Qed.
Lemma two_inputs_runs {E} outs a0 a1 a2 b :
  note_asset_list outs.1.1 = [a0] → note_asset_list outs.1.2 = [a1] → note_asset_list outs.2 = [a2] →
  runs (E:=E) (two_inputs mock_sender (asset_1, asset_2, asset_3) outs) b (λ ins b',
    held [ins.1; ins.2] = [asset_1; asset_2; asset_3] ∧ mb_ctx b' = mb_ctx b).
Proof.
  intros H0 H1 H2. destruct outs as [[n0 n1] n2]. cbn [fst snd] in *. destruct (mock_assets_Ok (E:=E)) as (_ & Hid & _).
  unfold two_inputs. eapply runs_bind; [by eapply note_with_two_outputs_runs|]. intros m1 b1 _ [A1 C1].
  eapply (runs_bind _ _ _ (λ m b', note_asset_list m = [asset_2; asset_3] ∧ mb_ctx b' = mb_ctx b)).
  - unfold input_note_with_one_output_note.
    eapply runs_bind_lift; [by apply first_asset_Ok|]. rewrite <-C1. apply input_note_of_runs; [done|apply note_parts_2_3].
  - intros m2 b2 _ [A2 C2]. apply runs_ret. split; [|done]. unfold held. cbn. by rewrite A1, A2.
Qed.

(** ** Theorems *)

(** The methods that add notes. *)
Inductive MockNotesKind : Type := TooFewInput | Preserved | PreservedWithVaultDelta | TooManyFungibleInput | TooManyNonFungibleInput.
Definition with_mock_notes {E} (k : MockNotesKind) : mut MockBuilder E unit :=
  match k with
  | TooFewInput => with_mock_notes_too_few_input
  | Preserved => with_mock_notes_preserved
  | PreservedWithVaultDelta => with_mock_notes_preserved_with_account_vault_delta
  | TooManyFungibleInput => with_mock_notes_too_many_fungible_input
  | TooManyNonFungibleInput => with_mock_notes_too_many_non_fungible_input
  end.
Definition consumed_assets (nf : Asset) (k : MockNotesKind) : list Asset :=
  match k with
  | TooFewInput => [asset_1]
  | Preserved => [asset_1; asset_2; asset_3]
  | PreservedWithVaultDelta => [asset_1; asset_2; asset_3; asset_1; asset_3; nf]
  | TooManyFungibleInput => [asset_1; asset_2; asset_3; asset_2; asset_3]
  | TooManyNonFungibleInput => [asset_1; asset_2; asset_3; nf]
  end.


(** The builder got three output notes and input notes that hold [total]. *)
Definition balanced (total : list Asset) (b b' : MockBuilder) : Prop := ∃ ins outs,
  cx_input_notes (mb_ctx b') = cx_input_notes (mb_ctx b) ++ ins ∧
  cx_expected_output_notes (mb_ctx b') = cx_expected_output_notes (mb_ctx b) ++ outs ∧
  held outs = [asset_1; asset_2; asset_3] ∧ held ins = total.
Definition took (total : list Asset) (b b' : MockBuilder) : Prop :=
  ∃ ins, mb_ctx b' = ctx_input_notes ins (mb_ctx b) ∧ held ins = total.

Lemma after_outputs {E} b b1 (rest : Note * Note * Note → mut MockBuilder E unit) total :
  valid_id (acct_id (cx_account (mb_ctx b))) → mb_ctx b1 = mb_ctx b →
  (∀ outs b2, note_asset_list outs.1.1 = [asset_1] → note_asset_list outs.1.2 = [asset_2] → note_asset_list outs.2 = [asset_3] →
     runs (rest outs) b2 (λ _, took total b2)) →
  runs (three_outputs (asset_1, asset_2, asset_3) ≫= rest) b1 (λ _, balanced total b).
Proof.
  intros Hid C1 Hrest. eapply runs_bind; [apply three_outputs_runs; by rewrite C1|]. intros outs b2 _ (A0 & A1 & A2 & I2 & O2).
  rewrite C1 in I2, O2. specialize (Hrest outs b2 A0 A1 A2). unfold runs in *.
  destruct (rest outs b2) as [[x|?|] b3]; [|done|done]. destruct Hrest as (Ha & ins & C3 & Hins). split; [done|].
  exists ins, [outs.1.1; outs.1.2; outs.2]. rewrite C3. cbn. rewrite I2, O2. split_and!; [done..| |done]. unfold held. cbn.
  by rewrite A0, A1, A2.
Qed.
Lemma after_inputs {E} outs b2 (rest : Note * Note → mut MockBuilder E unit) total :
  note_asset_list outs.1.1 = [asset_1] → note_asset_list outs.1.2 = [asset_2] → note_asset_list outs.2 = [asset_3] →
  (∀ ins b3, held [ins.1; ins.2] = [asset_1; asset_2; asset_3] → runs (rest ins) b3 (λ _, took total b3)) →
  runs (two_inputs mock_sender (asset_1, asset_2, asset_3) outs ≫= rest) b2 (λ _, took total b2).
Proof.
  intros A0 A1 A2 Hrest. eapply runs_bind; [by eapply two_inputs_runs|]. intros ins b3 _ [Hi C3]. specialize (Hrest ins b3 Hi).
  unfold took in *. by rewrite C3 in Hrest.
Qed.
Lemma with_extra {E} (m : mut MockBuilder E Note) ins assets b :
  held [ins.1; ins.2] = [asset_1; asset_2; asset_3] →
  runs m b (λ n b', note_asset_list n = assets ∧ mb_ctx b' = mb_ctx b) →
  runs (n ← m; take_input_notes [ins.1; ins.2; n]) b (λ _, took ([asset_1; asset_2; asset_3] ++ assets) b).
Proof.
  intros Hi Hm. eapply runs_bind; [exact Hm|]. intros n b' _ [A1 C1]. split; [done|]. exists [ins.1; ins.2; n].
  split; [cbn; by rewrite C1|]. rewrite <-Hi. unfold held. cbn. by rewrite A1, !app_nil_r, app_assoc.
Qed.

(** The mock notes balance as their names say: all variants create the same three
    output notes; the input notes hold exactly the assets of the outputs when these
    are preserved, less when there are too few, and besides the assets of the outputs
    those of one more note in the other variants. A variant can only panic because
    the script of a note does not assemble. *)
Theorem mock_notes_balance {E} k b :
  valid_id (acct_id (cx_account (mb_ctx b))) →
  ∃ nf, valid_asset (NonFungible nf) ∧ runs (E:=E) (with_mock_notes k) b (λ _, balanced (consumed_assets (NonFungible nf) k) b).
Proof.
  intros Hid. destruct (mock_assets_Ok (E:=E)) as (Hm & Hs & V1 & V2 & V3).
  destruct (nf_mock_Ok (E:=E) ACCOUNT_ID_NON_FUNGIBLE_FAUCET_ON_CHAIN NON_FUNGIBLE_ASSET_DATA_2 Public eq_refl) as (nf & Hnf & Vnf & _).
  exists nf. split; [done|]. destruct k; cbn [with_mock_notes];
    (eapply runs_bind_lift; [exact Hm|]; cbv beta iota).
  - apply after_outputs; [done..|]. intros [[n0 n1] n2] b2 A0 A1 A2. cbn [fst snd] in *.
    eapply runs_bind; [by eapply note_with_two_outputs_runs|]. intros m b3 _ [Am C3]. split; [done|].
    exists [m]. cbn. rewrite C3. split; [done|]. unfold held. cbn. by rewrite Am.
  - apply after_outputs; [done..|]. intros outs b2 A0 A1 A2. apply after_inputs; [done..|]. intros [i1 i2] b3 Hi. split; [done|].
    by exists [i1; i2].
  - eapply runs_bind_lift; [exact Hnf|].
    apply after_outputs; [done..|]. intros outs b2 A0 A1 A2. apply after_inputs; [done..|]. intros [i1 i2] b3 Hi.
    apply (with_extra _ (i1, i2) [asset_1; asset_3; NonFungible nf]); [done|]. by apply input_note_transfer_runs; [|apply note_parts_1_3_nf].
  - apply after_outputs; [done..|]. intros outs b2 A0 A1 A2. apply after_inputs; [done..|]. intros [i1 i2] b3 Hi.
    apply (with_extra _ (i1, i2) [asset_2; asset_3]); [done|]. by apply input_note_simple_runs; [|apply note_parts_2_3].
  - eapply runs_bind_lift; [exact Hnf|].
    apply after_outputs; [done..|]. intros outs b2 A0 A1 A2. apply after_inputs; [done..|]. intros [i1 i2] b3 Hi.
    apply (with_extra _ (i1, i2) [NonFungible nf]); [done|]. by apply input_note_simple_runs; [|apply note_parts_one].
Qed.
End MockNotes.

(** ** A concrete run *)

#[local] Existing Instance Goldilocks.
#[local] Existing Instance ToyHasher.
#[local] Existing Instance MapTree.
#[local] Existing Instance CodeOrd.
#[local] Existing Instance PlainIO.
#[local] Existing Instance RootsAsm.
#[local] Existing Instance RootsIO.
#[local] Existing Instance RootsProgram.
#[local] Existing Instance PlainNoteIO.
#[local] Existing Instance ListPath.
#[local] Existing Instance ListSmt.
#[local] Existing Instance ListMmr.
#[local] Existing Instance ListAdvice.
#[local] Existing Instance FeltKey.
#[local] Existing Instance ListFull.
#[local] Existing Instance PlainFalcon.
#[local] Existing Instance CountingStdLib.
#[local] Existing Instance CountingRng.

(** An assembler that remembers its libraries and assembles a script to its length. *)
Definition RootsCompiler : CompilerApi := {|
  Assembler := list (Digest * list Digest);
  KernelLibrary := list Digest;
  KernelProcedures := list Digest;
  AstModule := string;
  assembler_default := [];
  assembler_with_kernel _ := [];
  assembler_with_library l a := Some (l :: a);
  parse_module _ s := Some s;
  assemble_modules _ _ := Some (sample_word 51, [sample_word 52]);
  assemble_source _ _ := Some (sample_word 53, []);
  assemble_script s _ := Some (sample_word (Z.of_nat (String.length s)), []);
  program_hash p := p.1;
  kernel_procedures_of k := k;
  tx_kernel_masl := Ok [sample_word 54];
  tx_kernel_masb := Ok (sample_word 54, []);
  kernel_library_masl := Ok (sample_word 55, []);
  miden_masl := Ok (sample_word 56, []);
  std_library := (sample_word 57, [])
|}.
#[local] Existing Instance RootsCompiler.
#[refine] Definition CountingNoteRng : NoteRngApi := {|
  chacha_from_seed seed := foldr Z.add 1 seed;
  gen_u64 rng := (rng mod 2 ^ 64, rng + 1)
|}.
Proof. abstract (intros rng; apply Z.mod_pos_bound; lia). Defined.
#[local] Existing Instance CountingNoteRng.

(** The context of the first benchmark: a mock account and the notes that preserve
    the assets. *)
Example standard_context_builds :
  match with_standard_account (E:=Empty_set) ONE with
  | Ok b => is_ok (with_mock_notes (E:=Empty_set) Preserved b).1 &&
      is_ok (ctx_build (E:=Empty_set) true false (mb_ctx (with_mock_notes (E:=Empty_set) Preserved b).2))
  | _ => false
  end = true.
Proof. vm_compute. reflexivity. Qed.
