(* ===== verification/Messages.v ===== *)
(** * Texts of errors

    Models the Display implementations with a text of their own: BlockError and
    ProvenTransactionError (objects/src/errors.rs), the parsing errors of events
    (miden-lib/src/transaction/errors.rs), and the texts of the account ids in them.
    The texts of other errors are those of the derived Debug implementations, which
    are parameters. *)

From S2P Require Import Prelude Felt Crypto Serde Types AccountId Assets StorageDelta Storage Code Account NoteMeta NoteContents Notes Ids.
From S2P Require Import VaultDelta Vault TxOutputs Merkle Chain TxInputs TxArgs Blocks Memory Kernel TxTracker TxHost TxProven TxExec.
From stdpp Require Import strings pretty.
Open Scope Z_scope.

Section Messages.
  Context {F : FeltApi} {B : ByteIO}.
  (** The derived texts of the inner errors and of lists of note ids. *)
  Context (input_error_text : TransactionInputError → string)
    (output_error_text : TransactionOutputError → string) (ids_text : list Digest → string).

(** [Display for AccountId] *)
Definition account_id_text (id : AccountId) : string := "0x" +:+ hex_fixed 16 (as_int (id_felt id)).

(** [Display for BlockError] *)
Definition block_error_text (e : BlockError) : string :=
  match e with
  | DuplicateNoteFound id => "Duplicate note " +:+ digest_to_hex id +:+ " found in the block"
  | TooManyAccountUpdates actual =>
      "Too many accounts updated in a block. Max: " +:+ pretty MAX_ACCOUNTS_PER_BLOCK +:+ ", actual: " +:+ pretty actual
  | TooManyNotesInBatch actual => "Too many notes in a batch. Max: " +:+ pretty MAX_OUTPUT_NOTES_PER_BATCH +:+ ", actual: " +:+ pretty actual
  | TooManyNotesInBlock actual => "Too many notes in a block. Max: " +:+ pretty MAX_OUTPUT_NOTES_PER_BLOCK +:+ ", actual: " +:+ pretty actual
  | TooManyNullifiersInBlock actual =>
      "Too many nullifiers in a block. Max: " +:+ pretty MAX_INPUT_NOTES_PER_BLOCK +:+ ", actual: " +:+ pretty actual
  | TooManyTransactionBatches actual => "Too many transaction batches. Max: " +:+ pretty MAX_BATCHES_PER_BLOCK +:+ ", actual: " +:+ pretty actual
  end.

(** [Display for ProvenTransactionError] *)
Definition proven_error_text (e : ProvenTransactionError) : string :=
  match e with
  | AccountFinalHashMismatch account_final_hash details_hash =>
      "Proven transaction account_final_hash " +:+ digest_to_hex account_final_hash +:+ " and account_details.hash must match " +:+
      digest_to_hex details_hash +:+ "."
  | AccountIdMismatch tx_id details_id =>
      "Proven transaction account_id " +:+ account_id_text tx_id +:+ " and account_details.id must match " +:+
      account_id_text details_id +:+ "."
  | InputNotesError inner => "Invalid input notes: " +:+ input_error_text inner
  | NoteDetailsForUnknownNotes note_ids => "Note details for unknown note ids: " +:+ ids_text note_ids
  | OffChainAccountWithDetails account_id => "Off-chain account " +:+ account_id_text account_id +:+ " should not have account details"
  | OnChainAccountMissingDetails account_id => "On-chain account " +:+ account_id_text account_id +:+ " missing account details"
  | OutputNotesError inner => "Invalid output notes: " +:+ output_error_text inner
  | NewOnChainAccountRequiresFullDetails account_id => "New on-chain account " +:+ account_id_text account_id +:+ " missing full details"
  | ExistingOnChainAccountRequiresDeltaDetails account_id =>
      "Existing on-chain account " +:+ account_id_text account_id +:+ " should only provide deltas"
  | AccountUpdateSizeLimitExceeded account_id size =>
      "Update on account " +:+ account_id_text account_id +:+ " of size " +:+ pretty size +:+ " exceeds the allowed limit of " +:+
      pretty ACCOUNT_UPDATE_MAX_SIZE
  end.

(** [Display for TransactionEventParsingError] *)
Definition event_error_text (e : EventParsingError) : string :=
  match e with
  | InvalidTransactionEvent event_id => "event " +:+ pretty event_id +:+ " is not a valid transaction kernel event"
  | NotTransactionEvent event_id => "event " +:+ pretty event_id +:+ " is not a transaction kernel event"
  end.

(** ** Strings *)

Lemma append_inj_length (s1 s2 t1 t2 : string) :
  String.length s1 = String.length s2 → s1 +:+ t1 = s2 +:+ t2 → s1 = s2 ∧ t1 = t2.
Proof.
  revert s2. induction s1 as [|c s1 IH]; intros [|c' s2]; cbn; try discriminate; [done|]. intros [= Hl] [= -> He].
  destruct (IH s2 Hl He) as [-> ->]. done.
Qed.
Lemma length_append (s t : string) : String.length (s +:+ t) = (String.length s + String.length t)%nat.
Proof. induction s as [|c s IH]; [done|]. cbn [String.length]. exact (f_equal Datatypes.S IH). Qed.
Lemma append_inj_r (s1 s2 t : string) : s1 +:+ t = s2 +:+ t → s1 = s2.
Proof.
  intros E. pose proof (f_equal String.length E) as Hl. rewrite !length_append in Hl. by apply append_inj_length in E as [-> _]; [|lia].
Qed.
Lemma length_hex_fixed n v : String.length (hex_fixed n v) = n.
Proof. induction n as [|n IH]; cbn; [done|]. by rewrite IH. Qed.
Lemma length_hex_bytes bs : String.length (String.concat "" (hex_fixed 2 <$> bs)) = (2 * length bs)%nat.
Proof.
  induction bs as [|b bs IH]; [done|]. rewrite fmap_cons. destruct bs as [|b' bs]; [by cbn|].
  change (String.concat "" (hex_fixed 2 b :: (hex_fixed 2 <$> b' :: bs))) with (hex_fixed 2 b +:+ "" +:+ String.concat "" (hex_fixed 2 <$> b' :: bs)).
  rewrite !length_append, IH, length_hex_fixed. cbn. lia.
Qed.
Lemma length_digest_hex d : String.length (digest_to_hex d) = 66%nat.
Proof. unfold digest_to_hex. by rewrite length_append, length_hex_bytes, digest_bytes_length. Qed.
Lemma length_account_id_text id : String.length (account_id_text id) = 18%nat.
Proof. unfold account_id_text. by rewrite length_append, length_hex_fixed. Qed.

(** ** Theorems *)

Section Unambiguous.
  Context {X : HexApi} {Y : DigestHexApi}.

Lemma digest_hex_inj d d' : digest_to_hex d = digest_to_hex d' → d = d'.
Proof.
  intros E. apply digest_bytes_inj. pose proof (digest_hex_roundtrip d) as H1. pose proof (digest_hex_roundtrip d') as H2.
  rewrite E in H1. congruence.
Qed.
Lemma account_id_text_inj id id' : account_id_text id = account_id_text id' → id = id'.
Proof.
  unfold account_id_text. change (hex_fixed 16) with (hex_fixed (2 * 8)). rewrite !hex_fixed_bytes. intros E%(f_equal hex_to_bytes8).
  rewrite !hex_to_bytes8_spec in E by (apply Forall_reverse, to_le_bytes_range || by rewrite length_reverse, length_to_le_bytes).
  apply (inj Some), (inj reverse) in E. pose proof (f_equal from_le_bytes E) as E'. rewrite !from_to_le_bytes in E' by apply as_int_u64.
  apply as_int_inj in E'. destruct id, id'. cbn in E'. by subst.
Qed.

(** The text of an error of a block tells which error it is. *)
Theorem block_error_text_inj e e' : block_error_text e = block_error_text e' → e = e'.
Proof.
  destruct e as [d|n|n|n|n|n], e' as [d'|n'|n'|n'|n'|n']; unfold block_error_text; intros E; try discriminate E.
  - apply (inj (String.append "Duplicate note ")) in E. apply append_inj_r, digest_hex_inj in E. by subst.
  - do 3 apply (inj (String.append _)) in E. apply (inj pretty) in E. by subst.
  - do 3 apply (inj (String.append _)) in E. apply (inj pretty) in E. by subst.
  - do 3 apply (inj (String.append _)) in E. apply (inj pretty) in E. by subst.
  - do 3 apply (inj (String.append _)) in E. apply (inj pretty) in E. by subst.
  - do 3 apply (inj (String.append _)) in E. apply (inj pretty) in E. by subst.
Qed.

Lemma id_with_suffix p id id' t t' : p +:+ account_id_text id +:+ t = p +:+ account_id_text id' +:+ t' → id = id' ∧ t = t'.
Proof.
  intros E%(inj (String.append p)). apply append_inj_length in E as [Hid Ht]; [|by rewrite !length_account_id_text].
  by apply account_id_text_inj in Hid.
Qed.
Lemma digest_with_suffix p d d' t t' : p +:+ digest_to_hex d +:+ t = p +:+ digest_to_hex d' +:+ t' → d = d' ∧ t = t'.
Proof.
  intros E%(inj (String.append p)). apply append_inj_length in E as [Hd Ht]; [|by rewrite !length_digest_hex].
  by apply digest_hex_inj in Hd.
Qed.

(** The text of an error of a proven transaction tells which error it is, as far as
    the texts of the errors and ids in it do. *)
Theorem proven_error_text_inj `{!Inj (=) (=) input_error_text, !Inj (=) (=) output_error_text, !Inj (=) (=) ids_text} e e' :
  proven_error_text e = proven_error_text e' → e = e'.
Proof.
  destruct e as [d1 d2|i1 i2|x|l|i|i|i|i|x|i n], e' as [d1' d2'|i1' i2'|x'|l'|i'|i'|i'|i'|x'|i' n'];
    unfold proven_error_text; intros E; try discriminate E.
  - apply digest_with_suffix in E as [-> E]. by apply digest_with_suffix in E as [-> _].
  - apply id_with_suffix in E as [-> E]. by apply id_with_suffix in E as [-> _].
  - apply (inj (String.append _)), (inj input_error_text) in E. by subst.
  - apply (inj (String.append _)), (inj ids_text) in E. by subst.
  - by apply id_with_suffix in E as [-> _].
  - by apply id_with_suffix in E as [-> _].
  - by apply id_with_suffix in E as [-> _].
  - by apply id_with_suffix in E as [-> _].
  - apply (inj (String.append _)), (inj output_error_text) in E. by subst.
  - apply id_with_suffix in E as [-> E]. apply (inj (String.append _)), append_inj_r, (inj pretty) in E. by subst.
Qed.
End Unambiguous.
End Messages.
