(* ===== verification/Bench.v ===== *)
(** * Benchmarks

    Models the program bin/bench-tx, which measures two transactions on the mock chain
    and writes the cycles they took to a file. JSON, the key generation and the random
    number generators are third-party code; the file system is a map from paths to
    contents. *)

From S2P Require Import Prelude Felt Crypto Serde Types AccountId Assets VaultDelta Vault StorageDelta Storage.
From S2P Require Import Code Account NoteMeta NoteContents Notes Ids StdLib TxOutputs Merkle Chain TxInputs TxArgs.
From S2P Require Import Blocks Memory Kernel TxTracker TxHost TxProven TxExec MockChain TxContext Lifecycle Assembly Testing MockNotes Messages.
From stdpp Require Import strings.
Open Scope Z_scope.

(** [serde_json]: values, of which only objects, numbers and null matter here, and
    the parser, which reads back what the printer wrote. *)
Class JsonApi := {
  Json : Type;
  JObject : gmap string Json → Json;
  JNumber : Z → Json;
  as_object : Json → option (gmap string Json);
  is_null : Json → bool;
  from_str : string → option Json;
  to_string_pretty : Json → string;
  as_object_spec : ∀ m, as_object (JObject m) = Some m;
  from_str_pretty : ∀ j, from_str (to_string_pretty j) = Some j;
  from_str_empty : from_str "{}" = Some (JObject ∅)
}.

(** [PublicKey::new], [RpoRandomCoin::new], and [StdRng::from_entropy]. *)
Class BenchApi `{L : StdLibApi} `{G : FalconApi} := {
  public_key_new : Word → PublicKey;
  rpo_coin_new : Word → FeltRng;
  std_rng_entropy : Rng
}.

Inductive Benchmark : Type := Simple | P2ID.
Definition benchmark_to_string (b : Benchmark) : string := match b with Simple => "simple" | P2ID => "p2id" end.

Definition DEFAULT_AUTH_SCRIPT : string := "
    begin
        call.::miden::contracts::auth::basic::auth_tx_rpo_falcon512
    end
".

(** Files by their paths. *)
Abbreviation Files := (gmap string string).

(** Errors become text. *)
Inductive BenchError : Type := IoFailed | JsonFailed | ExecutionFailed.

Section Bench.
  Context {F : FeltApi} {B : ByteIO} {J : JsonApi}.

(** ** Results *)

Record MeasurementsPrinter : Type := mkPrinter {
  mp_prologue : Z;
  mp_notes_processing : Z;
  mp_note_execution : gmap string Z;
  mp_tx_script_processing : Z;
  mp_epilogue : Z
}.
(** [From<TransactionMeasurements> for MeasurementsPrinter] *)
Definition printer_from (value : TransactionMeasurements) : MeasurementsPrinter :=
  let note_execution_map := extend_entries ∅ ((λ x, (digest_to_hex x.1, x.2)) <$> tm_note_execution value) in
  mkPrinter (tm_prologue value) (tm_notes_processing value) note_execution_map (tm_tx_script_processing value) (tm_epilogue value).

(** [serde_json::to_value] on the derived serialization. *)
Definition printer_to_value (p : MeasurementsPrinter) : Json :=
  JObject (list_to_map [
    ("prologue", JNumber (mp_prologue p)); ("notes_processing", JNumber (mp_notes_processing p));
    ("note_execution", JObject (JNumber <$> mp_note_execution p));
    ("tx_script_processing", JNumber (mp_tx_script_processing p)); ("epilogue", JNumber (mp_epilogue p))]).

(** [json[key] = value]: null becomes an object, any other value that is not one panics. *)
Definition json_set (key : string) (value : Json) (j : Json) : res BenchError Json :=
  match as_object j with
  | Some m => Ok (JObject (<[key := value]> m))
  | None => if is_null j then Ok (JObject {[ key := value ]}) else Panic
  end.
Fixpoint fill_json (l : list (Benchmark * MeasurementsPrinter)) (j : Json) : res BenchError Json :=
  match l with
  | [] => Ok j
  | (bench_type, tx_progress) :: l' =>
      j ← json_set (benchmark_to_string bench_type) (printer_to_value tx_progress) j; fill_json l' j
  end.

Definition write_file (writable : bool) (path contents : string) : mut Files BenchError unit := λ files,
  if writable then (Ok tt, <[path := contents]> files) else (Err IoFailed, files).
Definition write_bench_results_to_json (writable : bool) (path : string) (tx_benchmarks : list (Benchmark * MeasurementsPrinter))
    : mut Files BenchError unit :=
  files ← get_self;
  benchmark_file ← lift (ok_or IoFailed (files !! path));
  benchmark_json ← lift (ok_or JsonFailed (from_str benchmark_file));
  benchmark_json ← lift (fill_json tx_benchmarks benchmark_json);
  write_file writable path (to_string_pretty benchmark_json).

(** [main] on the results of the two benchmarks, which run in order. *)
Definition BENCH_PATH : string := "bin/bench-tx/bench-tx.json".
Definition bench_main_with (writable : bool) (default_tx p2id : res BenchError TransactionMeasurements) : mut Files BenchError unit :=
  write_file writable BENCH_PATH "{}" ;;
  simple ← lift default_tx;
  p2id ← lift p2id;
  write_bench_results_to_json writable BENCH_PATH [(Simple, printer_from simple); (P2ID, printer_from p2id)].
End Bench.

Section Run.
  Context {F : FeltApi} {H : HasherApi} {S : SmtApi} {D : DigestOrd} {A : AsmApi} {P : ProgramApi} {CO : CompilerApi}.
  Context {B : ByteIO} {SI : SmtIO} {M : MastIO} {N : NoteIO} {T : PathApi} {R : MmrApi} {V : AdviceInputsApi}.
  Context {KI : KeyIO} {G : FalconApi} {Q : SimpleSmtApi} {U : MmrFullApi} {L : StdLibApi} {X : TestRngApi} {Y : NoteRngApi}.
  Context {K : StackApi} {O : NodesApi} {W : ProofApi} {FO : ForestApi}.
  Context {XR XM : AdviceApi} {PR : ProviderApi (X:=XR)} {PM : ProviderApi (X:=XM)} {VM : VmApi (XR:=XR) (XM:=XM)}.
  Context {BA : BenchApi} {J : JsonApi}.
  (** Whether arithmetic overflow and debug assertions are checked, and how an
      authenticator signs by shared reference. *)
  Context (overflow_checks debug : bool) (shared : BasicAuthenticator → Authenticator).

(** ** Benchmarks *)

Definition get_account_with_basic_authenticated_wallet {E} (account_id : AccountId) (public_key : Word) (assets : option Asset)
    : res E Account :=
  wallet ← wallet_component;
  falcon ← falcon_component (mkFalcon (public_key_new public_key));
  '(account_code, account_storage) ← expect_ok (initialize_from_components (account_type account_id) [wallet; falcon]);
  account_vault ← expect_ok (vault_new (option_list assets));
  Ok (mkAccount account_id account_vault account_storage account_code (felt_new 1)).

Definition get_new_pk_and_authenticator : Word * Authenticator :=
  let '(sec_key, _) := secret_key_with_rng chacha_default in
  let pub_key := public_key_word (secret_public_key sec_key) in
  (pub_key, shared (basic_new_with_rng [(pub_key, Account.RpoFalcon512 sec_key)] std_rng_entropy)).

(** Running the transaction of a context with tracing, for some arguments. *)
Definition bench_execute (ctx : TransactionContext) (auth : option Authenticator) (account_id : AccountId) (ta : TransactionArgs)
    : res TransactionExecutorError ExecutedTransaction :=
  let block_ref := bh_block_num (ti_block_header (tc_tx_inputs ctx)) in
  let note_ids := input_id <$> in_notes (ti_input_notes (tc_tx_inputs ctx)) in
  executor ← executor_new (context_data_store ctx) auth;
  (execute_transaction debug account_id block_ref note_ids ta (with_tracing executor)).1.

Definition benchmark_default_tx : res BenchError TransactionMeasurements :=
  b ← with_standard_account ONE;
  let '(r, b) := with_mock_notes_preserved b in
  r ;;
  tx_context ← ctx_build overflow_checks debug (mb_ctx b);
  let account_id := acct_id (ti_account (tc_tx_inputs tx_context)) in
  executed_transaction ← map_err (λ _, ExecutionFailed) (bench_execute tx_context None account_id (tc_tx_args tx_context));
  Ok (et_measurements executed_transaction).

Definition benchmark_p2id : res BenchError TransactionMeasurements :=
  faucet_id ← unwrap_id BENCH_ACCOUNT_ID_FUNGIBLE_FAUCET_ON_CHAIN;
  fungible_asset ← expect_ok (fungible_new faucet_id 100);
  sender_account_id ← unwrap_id BENCH_ACCOUNT_ID_SENDER;
  target_account_id ← unwrap_id BENCH_ACCOUNT_ID_REGULAR_ACCOUNT_UPDATABLE_CODE_OFF_CHAIN;
  let '(target_pub_key, falcon_auth) := get_new_pk_and_authenticator in
  target_account ← get_account_with_basic_authenticated_wallet target_account_id target_pub_key None;
  note ← expect_ok (create_p2id_note sender_account_id target_account_id [Fungible fungible_asset] PublicNote (felt_new 0)
           (rpo_coin_new (mkWord (felt_new 1) (felt_new 2) (felt_new 3) (felt_new 4)))).1;
  b ← mock_builder_new target_account;
  tx_context ← ctx_build overflow_checks debug (ctx_input_notes [note] (mb_ctx b));
  a ← assembler;
  program ← expect_some (assemble_script DEFAULT_AUTH_SCRIPT a);
  let tx_args_target := with_tx_script (tx_script_new program []) in
  executed_transaction ← expect_ok (bench_execute tx_context (Some falcon_auth) target_account_id tx_args_target);
  Ok (et_measurements executed_transaction).

Definition bench_main (writable : bool) : mut Files BenchError unit := bench_main_with writable benchmark_default_tx benchmark_p2id.
End Run.

(** ** Theorems *)

Section BenchLaws.
  Context {F : FeltApi} {B : ByteIO} {J : JsonApi} {HX : DigestHexApi}.

(** The printed measurements have the cycles of every note under its id, and of no
    other note; the other stages are as they were measured. *)
Theorem printer_keeps_measurements m :
  NoDup (tm_note_execution m).*1 →
  let p := printer_from m in
  mp_prologue p = tm_prologue m ∧ mp_notes_processing p = tm_notes_processing m ∧
  mp_tx_script_processing p = tm_tx_script_processing m ∧ mp_epilogue p = tm_epilogue m ∧
  ∀ s n, mp_note_execution p !! s = Some n ↔ ∃ id, s = digest_to_hex id ∧ (id, n) ∈ tm_note_execution m.
Proof.
  intros Hnd. cbv zeta. split_and!; [done..|]. intros s n. unfold printer_from. cbn [mp_note_execution].
  rewrite extend_entries_lookup, lookup_empty. set (l := (λ x, (digest_to_hex x.1, x.2)) <$> tm_note_execution m).
  assert (NoDup (reverse l).*1) as Hl.
  { rewrite fmap_reverse, reverse_Permutation. unfold l. rewrite <-list_fmap_compose. 
    change (NoDup ((digest_to_hex ∘ fst) <$> tm_note_execution m)). rewrite list_fmap_compose.
    apply NoDup_fmap_2; [|done]. intros d d' E. by apply digest_hex_inj. }
  assert ((list_to_map (M:=gmap string Z) (reverse l) !! s) ∪ None = list_to_map (M:=gmap string Z) (reverse l) !! s) as ->
    by by destruct (list_to_map _ !! s).
  rewrite <-elem_of_list_to_map, elem_of_reverse by done. unfold l. rewrite list_elem_of_fmap. split.
  - intros ([id x] & [= -> ->] & Hin). by exists id.
  - intros (id & -> & Hin). by exists (id, n).
Qed.

(** The file of the results. When both benchmarks return, it has an object with
    exactly their measurements under their names; when one fails, it has the empty
    object that the program starts with; when it cannot be written, nothing changes. *)
Theorem bench_results_written default_tx p2id files :
  match bench_main_with true default_tx p2id files with
  | (Ok _, files') => ∃ m1 m2 contents, default_tx = Ok m1 ∧ p2id = Ok m2 ∧ files' = <[BENCH_PATH := contents]> files ∧
      from_str contents = Some (JObject {[ "simple" := printer_to_value (printer_from m1); "p2id" := printer_to_value (printer_from m2) ]})
  | (_, files') => (¬ (is_ok default_tx ∧ is_ok p2id)) ∧ files' = <[BENCH_PATH := "{}"]> files
  end ∧
  bench_main_with false default_tx p2id files = (Err IoFailed, files).
Proof.
  split; [|reflexivity]. unfold bench_main_with, mbind, mut_bind, write_file, lift. cbv beta iota.
  destruct default_tx as [m1|?|]; [|split; [by intros []|done]..]. destruct p2id as [m2|?|]; [|split; [by intros []|done]..].
  unfold write_bench_results_to_json, mbind, mut_bind, get_self, lift, write_file. cbv beta.
  rewrite lookup_insert_eq. cbn [ok_or].
  rewrite from_str_empty. cbn [ok_or fill_json mbind res_bind]. unfold json_set. rewrite as_object_spec. cbn [mbind res_bind].
  rewrite as_object_spec. cbn [mbind res_bind]. eexists m1, m2, _. split_and!; [done..|by rewrite insert_insert_eq|].
  rewrite from_str_pretty. by do 2 f_equal.
Qed.
End BenchLaws.
